(** * smalltx: the rules engine of a two-player hex-grid board game

    A shallow embedding of [src/state.js] and of the rule-bearing functions
    of [src/game.js] ([getValidMoves], [moveUnit],
    [getUnitsNeedingAbilityTargets], [endPhase]).

    Conventions of the embedding.
    - JavaScript numbers are integers here ([Z]); [Math.floor(a / 2)] is
      [a / 2] on [Z] (floor division), [a % b] is [Z.rem] (sign of the
      dividend).
    - [state.units] is an array of object references.  A reference to a
      unit is its index in [units]; functions that return arrays of unit
      objects in the source return lists of indices here, so that a damage
      written through one alias is seen through every other one.
    - Presentation-only fields (animations, colours, selection highlights)
      and DOM calls are left out; the message log is kept. *)

From Stdlib Require Import ZArith List Lia Bool ZifyBool.
From stdpp Require Import base list strings pretty gmap.

Local Open Scope Z_scope.

(** ** Geometry *)

Record Hex := mkHex { hex_row : Z; hex_col : Z }.

Definition Hex_eqb (a b : Hex) : bool :=
  (hex_row a =? hex_row b) && (hex_col a =? hex_col b).

(** [toCube] of [hexDistance]: offset coordinates to cube coordinates. *)
Definition toCube (row col : Z) : Z * Z * Z :=
  let x := col in
  let z := row - col / 2 in
  let y := - x - z in
  (x, y, z).

Definition hexDistance (r1 c1 r2 c2 : Z) : Z :=
  let '(ax, ay, az) := toCube r1 c1 in
  let '(bx, by_, bz) := toCube r2 c2 in
  Z.max (Z.max (Z.abs (ax - bx)) (Z.abs (ay - by_))) (Z.abs (az - bz)).

Definition isValidHex (row col : Z) : bool :=
  (0 <=? row) && (row <? 6) && (0 <=? col) && (col <? 6).

Definition oddOffsets : list (Z * Z) :=
  [(0, -1); (1, -1); (-1, 0); (1, 0); (0, 1); (1, 1)].

Definition evenOffsets : list (Z * Z) :=
  [(-1, -1); (0, -1); (-1, 0); (1, 0); (-1, 1); (0, 1)].

Definition getAdjacentHexes (row col : Z) : list Hex :=
  let isOddCol := Z.rem col 2 =? 1 in
  let offsets := if isOddCol then oddOffsets else evenOffsets in
  List.filter (fun h => isValidHex (hex_row h) (hex_col h))
    (List.map (fun '(dr, dc) => mkHex (row + dr) (col + dc)) offsets).

Definition getCastleRow (faction : Z) : Z :=
  if faction =? 1 then 5 else 0.

Definition enemyOf (faction : Z) : Z :=
  if faction =? 1 then 2 else 1.

(** ** Unit registry *)

Record UnitType := mkUnitType {
  type_id : Z;
  type_name : string;
  type_symbol : string
}.

Module UnitTypes.
Definition ARCHERS := mkUnitType 1 "Archers" "🏹".
Definition CANNON := mkUnitType 2 "Cannon" "🚀".
Definition MOUNTED := mkUnitType 3 "Mounted" "🐴".
Definition ASSAULT_BEASTS := mkUnitType 4 "Assault Beasts" "🐘".
Definition SPEARS := mkUnitType 5 "Spears" "⚔️".
Definition JESTERS := mkUnitType 6 "Jesters" "🤡".
Definition MUSKETS := mkUnitType 7 "Muskets" "🔫".
Definition AERIAL := mkUnitType 8 "Aerial" "🦅".
Definition COMMANDER := mkUnitType 9 "Commander" "👑".
Definition MILITIA := mkUnitType 10 "Militia" "🗽".
Definition BATTERY_RAM := mkUnitType 11 "Battery Ram" "🐏".
End UnitTypes.

(** A unit object.  [unit_id] is the UUID string of [createUnit];
    [lastTarget] is [null] or the id of a unit. *)
Record Unit := mkUnit {
  unit_id : string;
  type : UnitType;
  faction : Z;
  row : Z;
  col : Z;
  damage : Z;
  maxHp : Z;
  movedThisTurn : bool;
  lastTarget : option string;
  number : Z
}.

(** The unit as [createUnit] returns it; the id, colour and sequence number
    come from the caller here (the source draws them from [crypto] and from
    module-level counters). *)
Definition createUnit (uid : string) (ty : UnitType) (f r c n : Z) : Unit :=
  mkUnit uid ty f r c 0 5 false None n.

Definition set_damage (d : Z) (u : Unit) : Unit :=
  mkUnit (unit_id u) (type u) (faction u) (row u) (col u) d (maxHp u)
         (movedThisTurn u) (lastTarget u) (number u).

Definition set_pos (r c : Z) (u : Unit) : Unit :=
  mkUnit (unit_id u) (type u) (faction u) r c (damage u) (maxHp u)
         (movedThisTurn u) (lastTarget u) (number u).

Definition set_moved (b : bool) (u : Unit) : Unit :=
  mkUnit (unit_id u) (type u) (faction u) (row u) (col u) (damage u) (maxHp u)
         b (lastTarget u) (number u).

Definition set_lastTarget (t : option string) (u : Unit) : Unit :=
  mkUnit (unit_id u) (type u) (faction u) (row u) (col u) (damage u) (maxHp u)
         (movedThisTurn u) t (number u).

(** [isAlive(unit)] *)
Definition isAlive (u : Unit) : bool := damage u <? maxHp u.

(** ** Game state *)

Inductive GamePhase :=
| SETUP | FACTION_1 | FACTION_2 | ABILITY_TARGETING
| RESOLUTION_COMBAT | RESOLUTION_MELEE | RESOLUTION_RANGED
| RESOLUTION_CASTLE | GAME_OVER.

(** A JavaScript object with the two keys [1] and [2]. *)
Record PerFaction (A : Type) := mkPF { pf1 : A; pf2 : A }.
Arguments mkPF {A} _ _.
Arguments pf1 {A} _.
Arguments pf2 {A} _.

Definition pf_get {A} (k : Z) (p : PerFaction A) : A :=
  if k =? 1 then pf1 p else pf2 p.

(** [p[k] = f(p[k])] for a key that is [1] or [2]; every key of the source
    comes out of [x === 1 ? 2 : 1] or of the literal list [[1, 2]]. *)
Definition pf_update {A} (k : Z) (f : A -> A) (p : PerFaction A) : PerFaction A :=
  if k =? 1 then mkPF (f (pf1 p)) (pf2 p)
  else if k =? 2 then mkPF (pf1 p) (f (pf2 p))
  else p.

(** A recorded ability target: [{unitId}] or [{hex}]. *)
Inductive Selection :=
| SelUnit (unitId : string)
| SelHex (hex : Hex).

Record AbilityTargeting := mkAT {
  at_active : bool;
  at_currentPlayer : Z;
  at_selections : gmap string Selection;
  at_unitsToTarget : list nat
}.

Record State := mkState {
  phase : GamePhase;
  round : Z;
  units : list Unit;
  destroyedUnits : PerFaction (list Unit);
  castleDamage : PerFaction Z;
  consecutiveDamageRounds : PerFaction Z;
  batteryRamWin : option Z;
  activatedUnits : gset string;
  pendingSecondMove : option string;
  abilityTargeting : option AbilityTargeting;
  unitsInCombatThisTurn : gset string;
  log : list string
}.

Definition createGameState : State :=
  mkState SETUP 1 [] (mkPF [] []) (mkPF 0 0) (mkPF 0 0) None ∅ None None ∅ [].

Definition set_phase (p : GamePhase) (s : State) : State :=
  mkState p (round s) (units s) (destroyedUnits s) (castleDamage s)
    (consecutiveDamageRounds s) (batteryRamWin s) (activatedUnits s)
    (pendingSecondMove s) (abilityTargeting s) (unitsInCombatThisTurn s) (log s).

Definition set_units (us : list Unit) (s : State) : State :=
  mkState (phase s) (round s) us (destroyedUnits s) (castleDamage s)
    (consecutiveDamageRounds s) (batteryRamWin s) (activatedUnits s)
    (pendingSecondMove s) (abilityTargeting s) (unitsInCombatThisTurn s) (log s).

Definition set_destroyedUnits (d : PerFaction (list Unit)) (s : State) : State :=
  mkState (phase s) (round s) (units s) d (castleDamage s)
    (consecutiveDamageRounds s) (batteryRamWin s) (activatedUnits s)
    (pendingSecondMove s) (abilityTargeting s) (unitsInCombatThisTurn s) (log s).

Definition set_castleDamage (c : PerFaction Z) (s : State) : State :=
  mkState (phase s) (round s) (units s) (destroyedUnits s) c
    (consecutiveDamageRounds s) (batteryRamWin s) (activatedUnits s)
    (pendingSecondMove s) (abilityTargeting s) (unitsInCombatThisTurn s) (log s).

Definition set_consecutiveDamageRounds (c : PerFaction Z) (s : State) : State :=
  mkState (phase s) (round s) (units s) (destroyedUnits s) (castleDamage s)
    c (batteryRamWin s) (activatedUnits s)
    (pendingSecondMove s) (abilityTargeting s) (unitsInCombatThisTurn s) (log s).

Definition set_batteryRamWin (b : option Z) (s : State) : State :=
  mkState (phase s) (round s) (units s) (destroyedUnits s) (castleDamage s)
    (consecutiveDamageRounds s) b (activatedUnits s)
    (pendingSecondMove s) (abilityTargeting s) (unitsInCombatThisTurn s) (log s).

Definition set_activatedUnits (a : gset string) (s : State) : State :=
  mkState (phase s) (round s) (units s) (destroyedUnits s) (castleDamage s)
    (consecutiveDamageRounds s) (batteryRamWin s) a
    (pendingSecondMove s) (abilityTargeting s) (unitsInCombatThisTurn s) (log s).

Definition set_pendingSecondMove (p : option string) (s : State) : State :=
  mkState (phase s) (round s) (units s) (destroyedUnits s) (castleDamage s)
    (consecutiveDamageRounds s) (batteryRamWin s) (activatedUnits s)
    p (abilityTargeting s) (unitsInCombatThisTurn s) (log s).

Definition set_abilityTargeting (a : option AbilityTargeting) (s : State) : State :=
  mkState (phase s) (round s) (units s) (destroyedUnits s) (castleDamage s)
    (consecutiveDamageRounds s) (batteryRamWin s) (activatedUnits s)
    (pendingSecondMove s) a (unitsInCombatThisTurn s) (log s).

Definition set_unitsInCombatThisTurn (c : gset string) (s : State) : State :=
  mkState (phase s) (round s) (units s) (destroyedUnits s) (castleDamage s)
    (consecutiveDamageRounds s) (batteryRamWin s) (activatedUnits s)
    (pendingSecondMove s) (abilityTargeting s) c (log s).

Definition set_log (l : list string) (s : State) : State :=
  mkState (phase s) (round s) (units s) (destroyedUnits s) (castleDamage s)
    (consecutiveDamageRounds s) (batteryRamWin s) (activatedUnits s)
    (pendingSecondMove s) (abilityTargeting s) (unitsInCombatThisTurn s) l.

(** [logMessage(state, message)]: [state.log.push(message)] *)
Definition logMessage (message : string) (s : State) : State :=
  set_log (log s ++ [message]) s.

(** ** Queries over the unit array *)

(** [array.filter(p)] over [state.units], as the references (indices) of the
    selected objects, in array order. *)
Fixpoint indicesFrom (k : nat) (p : Unit -> bool) (l : list Unit) : list nat :=
  match l with
  | [] => []
  | u :: l' => if p u then k :: indicesFrom (S k) p l' else indicesFrom (S k) p l'
  end.

Definition filterUnits (p : Unit -> bool) (s : State) : list nat :=
  indicesFrom 0 p (units s).

(** [refs.filter(p)] over an array of references. *)
Definition filterRefs (p : Unit -> bool) (s : State) (refs : list nat) : list nat :=
  List.filter (fun i => match units s !! i with Some u => p u | None => false end) refs.

Definition getUnitsAt (s : State) (r c : Z) : list nat :=
  filterUnits (fun u => (row u =? r) && (col u =? c) && (damage u <? maxHp u)) s.

Definition getFactionUnitsAt (s : State) (r c f : Z) : list nat :=
  filterRefs (fun u => faction u =? f) s (getUnitsAt s r c).

Definition isEngaged (s : State) (u : Unit) : bool :=
  let enemyFaction := if faction u =? 1 then 2 else 1 in
  (0 <? Z.of_nat (length (getFactionUnitsAt s (row u) (col u) enemyFaction))).

Definition isInEnemyCastle (u : Unit) : bool :=
  let enemyCastleRow := getCastleRow (if faction u =? 1 then 2 else 1) in
  row u =? enemyCastleRow.

(** [getUnitDisplayName(state, unit)] *)
Definition sameTypeUnits (s : State) (u : Unit) : list Unit :=
  List.filter (fun v => (faction v =? faction u) &&
                        (type_id (type v) =? type_id (type u))) (units s).

Definition getUnitDisplayName (s : State) (u : Unit) : string :=
  if 1 <? Z.of_nat (length (sameTypeUnits s u))
  then type_symbol (type u) +:+ " " +:+ type_name (type u) +:+ " #" +:+ pretty (number u)
  else type_symbol (type u) +:+ " " +:+ type_name (type u).

(** JavaScript truthiness of a value that is [null] or a string. *)
Definition truthyString (o : option string) : bool :=
  match o with
  | Some str => negb (String.eqb str EmptyString)
  | None => false
  end.

(** JavaScript truthiness of a value that is [null] or a number. *)
Definition truthyNumber (o : option Z) : bool :=
  match o with
  | Some n => negb (n =? 0)
  | None => false
  end.

(** ** Damage and cleanup *)

(** [applyDamage(state, unit, amount, sourceInfo = null)]; [i] is the
    reference [unit].  A reference that is not in the array does not occur
    in the source (every caller takes it from [state.units]). *)
Definition applyDamage (s : State) (i : nat) (amount : Z)
    (sourceInfo : option string) : State :=
  match units s !! i with
  | None => s
  | Some u =>
    let u' := set_damage (damage u + amount) u in
    let s1 := set_units (<[i := u']> (units s)) s in
    let unitName := getUnitDisplayName s1 u' in
    let s2 :=
      if negb (truthyString sourceInfo)
      then set_log (log s1 ++ [unitName +:+ " takes " +:+ pretty amount +:+ " damage ("
                                 +:+ pretty (damage u') +:+ "/" +:+ pretty (maxHp u') +:+ ")"]) s1
      else s1 in
    if damage u' >=? maxHp u'
    then set_log (log s2 ++ [unitName +:+ " is destroyed!"]) s2
    else s2
  end.

(** [removeDeadUnits(state)] *)
Definition pushDestroyed (d : PerFaction (list Unit)) (u : Unit) : PerFaction (list Unit) :=
  let enemyFaction := if faction u =? 1 then 2 else 1 in
  pf_update enemyFaction (fun l => l ++ [u]) d.

Definition removeDeadUnits (s : State) : State :=
  let deadUnits := List.filter (fun u => negb (isAlive u)) (units s) in
  let s1 := set_destroyedUnits (fold_left pushDestroyed deadUnits (destroyedUnits s)) s in
  set_units (List.filter isAlive (units s1)) s1.

(** ** Castle damage and the win evaluator *)

Definition unitsInCastle (s : State) (f : Z) : list Unit :=
  let enemyFaction := if f =? 1 then 2 else 1 in
  let enemyCastleRow := getCastleRow enemyFaction in
  List.filter (fun u => (faction u =? f) && (row u =? enemyCastleRow) && isAlive u) (units s).

Definition isUnengagedRam (s : State) (u : Unit) : bool :=
  (type_id (type u) =? type_id UnitTypes.BATTERY_RAM) && negb (isEngaged s u).

(** The body of [for (const faction of [1, 2])] in [calculateCastleDamage];
    the [return] inside the loop leaves the remaining factions unvisited. *)
Fixpoint castleLoop (factions : list Z) (s : State) : State :=
  match factions with
  | [] => s
  | f :: rest =>
    let enemyFaction := if f =? 1 then 2 else 1 in
    let inCastle := unitsInCastle s f in
    if existsb (isUnengagedRam s) inCastle
    then logMessage ("Battery Ram crashes through! Player " +:+ pretty f +:+ " wins!")
           (set_batteryRamWin (Some f) s)
    else
      let castleDamageDealt :=
        Z.of_nat (length (List.filter (fun u => negb (isEngaged s u)) inCastle)) in
      let s' :=
        if 0 <? castleDamageDealt
        then logMessage ("Player " +:+ pretty f +:+ " deals " +:+ pretty castleDamageDealt
                           +:+ " damage to enemy castle!")
               (set_castleDamage
                  (pf_update enemyFaction (fun d => d + castleDamageDealt) (castleDamage s)) s)
        else s in
      castleLoop rest s'
  end.

Definition calculateCastleDamage (s : State) : State := castleLoop [1; 2] s.

Record WinResult := mkWin { winner : Z; reason : string }.

(** [checkWinCondition(state)]: the result ([None] for [null]) and the state
    with the streak counters as the call leaves them. *)
Definition checkWinCondition (s : State) : option WinResult * State :=
  if truthyNumber (batteryRamWin s)
  then (Some (mkWin (default 0 (batteryRamWin s)) "Battery Ram crashed through enemy castle!"), s)
  else
    let diff := pf1 (castleDamage s) - pf2 (castleDamage s) in
    if diff >=? 2 then (Some (mkWin 2 "Player 1 castle took 2+ more damage"), s)
    else if diff <=? -2 then (Some (mkWin 1 "Player 2 castle took 2+ more damage"), s)
    else
      let c := consecutiveDamageRounds s in
      let c' :=
        if diff =? 1 then mkPF (pf1 c + 1) 0
        else if diff =? -1 then mkPF 0 (pf2 c + 1)
        else mkPF 0 0 in
      let s' := set_consecutiveDamageRounds c' s in
      if pf1 c' >=? 2
      then (Some (mkWin 2 "Player 1 had more damage for 2 consecutive rounds"), s')
      else if pf2 c' >=? 2
      then (Some (mkWin 1 "Player 2 had more damage for 2 consecutive rounds"), s')
      else (None, s').

(** ** Combat resolution *)

Record Group := mkGroup {
  group_hex : Hex;
  faction1 : list nat;
  faction2 : list nat
}.

(** The loop of [getEngagedGroups].  The source keys [processedHexes] by the
    string [`${row},${col}`]; the pair [(row, col)] stands for that string. *)
Fixpoint engagedGroupsLoop (s : State) (us : list Unit)
    (processedHexes : gset (Z * Z)) (groups : list Group) : list Group :=
  match us with
  | [] => groups
  | u :: rest =>
    if negb (isAlive u) then engagedGroupsLoop s rest processedHexes groups
    else if decide ((row u, col u) ∈ processedHexes)
    then engagedGroupsLoop s rest processedHexes groups
    else
      let faction1Units := getFactionUnitsAt s (row u) (col u) 1 in
      let faction2Units := getFactionUnitsAt s (row u) (col u) 2 in
      if (0 <? Z.of_nat (length faction1Units)) && (0 <? Z.of_nat (length faction2Units))
      then engagedGroupsLoop s rest ({[ (row u, col u) ]} ∪ processedHexes)
             (groups ++ [mkGroup (mkHex (row u) (col u)) faction1Units faction2Units])
      else engagedGroupsLoop s rest processedHexes groups
  end.

Definition getEngagedGroups (s : State) : list Group :=
  engagedGroupsLoop s (units s) ∅ [].

(** [u.type.id === UnitTypes.MILITIA.id ? 3 : 2] *)
Definition unitDamage (u : Unit) : Z :=
  if type_id (type u) =? type_id UnitTypes.MILITIA then 3 else 2.

(** [refs.reduce((sum, u) => sum + (...), 0)] *)
Definition totalDamage (s : State) (refs : list nat) : Z :=
  fold_left (fun sum i => sum + from_option unitDamage 0 (units s !! i)) refs 0.

(** The allocation collaborator [showAllocationModal(enemies, total, faction)]:
    it sees the enemy objects as they are at the call and answers with the
    entries of a map from unit id to damage. *)
Definition Allocator : Type := list Unit -> Z -> Z -> list (string * Z).

Definition derefs (s : State) (refs : list nat) : list Unit :=
  omap (fun i => units s !! i) refs.

(** [refs.find(u => u.id === enemyId)] *)
Definition findById (s : State) (refs : list nat) (enemyId : string) : option nat :=
  List.find (fun i => match units s !! i with
                      | Some u => String.eqb (unit_id u) enemyId
                      | None => false
                      end) refs.

Definition applyAllocation (targets : list nat) (s : State)
    (allocation : list (string * Z)) : State :=
  fold_left (fun st '(enemyId, dmg) =>
               match findById st targets enemyId with
               | Some enemy => if 0 <? dmg then applyDamage st enemy dmg None else st
               | None => st
               end) allocation s.

(** The fallback [forEach((enemy, idx) => ...)], from index [idx] on. *)
Fixpoint distributeEvenly (damagePerEnemy remainder : Z) (idx : Z)
    (targets : list nat) (s : State) : State :=
  match targets with
  | [] => s
  | enemy :: rest =>
    let dmg := damagePerEnemy + (if idx <? remainder then 1 else 0) in
    distributeEvenly damagePerEnemy remainder (idx + 1) rest (applyDamage s enemy dmg None)
  end.

(** One side's damage: the block "Process faction X's damage to faction Y". *)
Definition strike (showAllocationModal : option Allocator) (attackingFaction : Z)
    (attackers targets : list nat) (s : State) : State :=
  if (0 <? Z.of_nat (length attackers)) && (0 <? Z.of_nat (length targets)) then
    let total := totalDamage s attackers in
    if Z.of_nat (length targets) =? 1 then
      match targets with
      | enemy :: _ => applyDamage s enemy total None
      | [] => s
      end
    else
      match showAllocationModal with
      | Some modal =>
        applyAllocation targets s (modal (derefs s targets) total attackingFaction)
      | None =>
        let n := Z.of_nat (length targets) in
        distributeEvenly (total / n) (Z.rem total n) 0 targets s
      end
  else s.

Definition markInCombat (s : State) (refs : list nat) : State :=
  fold_left (fun st i =>
               match units st !! i with
               | Some u => set_unitsInCombatThisTurn ({[ unit_id u ]} ∪ unitsInCombatThisTurn st) st
               | None => st
               end) refs s.

(** The body of [for (const group of groups)] in [resolveCombatAsync]. *)
Definition processGroup (showAllocationModal : option Allocator) (s : State)
    (g : Group) : State :=
  let s1 := markInCombat (markInCombat s (faction1 g)) (faction2 g) in
  let s2 := strike showAllocationModal 1 (faction1 g) (faction2 g) s1 in
  strike showAllocationModal 2 (faction2 g) (faction1 g) s2.

Definition resolveCombatLoop (showAllocationModal : option Allocator)
    (groups : list Group) (s : State) : State :=
  fold_left (processGroup showAllocationModal) groups s.

Definition resolveCombatAsync (showAllocationModal : option Allocator) (s : State) : State :=
  let groups := getEngagedGroups s in
  if Z.of_nat (length groups) =? 0 then logMessage "No combats to resolve" s
  else
    let s0 := logMessage ("Resolving " +:+ pretty (Z.of_nat (length groups))
                            +:+ " engagement(s)...") s in
    removeDeadUnits (resolveCombatLoop showAllocationModal groups s0).

(** [allocateCombatDamage(state, unit1, unit2, damage1to2)] *)
Definition allocateCombatDamage (s : State) (unit1 unit2 : nat) (damage1to2 : Z) : State :=
  let damage2to1 := 2 - damage1to2 in
  let s1 := if 0 <? damage2to1 then applyDamage s unit1 damage2to1 None else s in
  if 0 <? damage1to2 then applyDamage s1 unit2 damage1to2 None else s1.

(** ** Unit abilities *)

Definition getArchersVolleyTargets (s : State) (u : Unit) : list nat :=
  if negb (type_id (type u) =? type_id UnitTypes.ARCHERS) then []
  else
    let maxRange := 2 in
    filterUnits (fun enemy =>
      if negb (isAlive enemy) || (faction enemy =? faction u) then false
      else
        let distance := hexDistance (row u) (col u) (row enemy) (col enemy) in
        (0 <? distance) && (distance <=? maxRange)) s.

(** [unit.lastTarget && unit.lastTarget !== target.id] *)
Definition isNewTarget (u target : Unit) : bool :=
  truthyString (lastTarget u) &&
  negb (match lastTarget u with
        | Some l => String.eqb l (unit_id target)
        | None => false
        end).

Definition calculateArchersVolleyDamage (u target : Unit) : Z :=
  let dmg := 2 in
  let dmg := if movedThisTurn u then dmg - 1 else dmg in
  let dmg := if isNewTarget u target then dmg - 1 else dmg in
  Z.max 0 dmg.

Definition getCannonMortarTargets (s : State) (u : Unit) : list nat :=
  if negb (type_id (type u) =? type_id UnitTypes.CANNON) then []
  else if movedThisTurn u then []
  else
    let maxRange := 2 in
    filterUnits (fun enemy =>
      if negb (isAlive enemy) || (faction enemy =? faction u) then false
      else
        let distance := hexDistance (row u) (col u) (row enemy) (col enemy) in
        (0 <? distance) && (distance <=? maxRange)) s.

Definition calculateCannonMortarDamage (u : Unit) : Z :=
  if movedThisTurn u then 0 else 1.

Definition canMountedCharge (u : Unit) (distance : Z) : bool :=
  if negb (type_id (type u) =? type_id UnitTypes.MOUNTED) then false
  else distance <=? 2.

Definition getSpearsPierceTargets (s : State) (u : Unit) : list nat :=
  if negb (type_id (type u) =? type_id UnitTypes.SPEARS) then []
  else
    filterUnits (fun enemy =>
      if negb (isAlive enemy) || (faction enemy =? faction u) then false
      else hexDistance (row u) (col u) (row enemy) (col enemy) =? 1) s.

Definition getJestersTauntTargets (s : State) (u : Unit) : list nat :=
  if negb (type_id (type u) =? type_id UnitTypes.JESTERS) then []
  else
    filterUnits (fun enemy =>
      if negb (isAlive enemy) || (faction enemy =? faction u) then false
      else hexDistance (row u) (col u) (row enemy) (col enemy) =? 1) s.

(** [applyMountedChargeBonus(state, unit, target, distanceMoved)];
    [unit] and [target] are references. *)
Definition applyMountedChargeBonus (s : State) (unit target : nat) (distanceMoved : Z) : State :=
  match units s !! unit, units s !! target with
  | Some u, Some t =>
    if negb (type_id (type u) =? type_id UnitTypes.MOUNTED) then s
    else if distanceMoved =? 2 then
      let targetName := getUnitDisplayName s t in
      let unitName := getUnitDisplayName s u in
      let s1 := applyDamage s target 2 (Some "ability") in
      match units s1 !! target with
      | Some t' =>
        let newHP := maxHp t' - damage t' in
        logMessage (unitName +:+ " Charge: " +:+ targetName +:+ " takes 2 damage ("
                      +:+ pretty newHP +:+ "/" +:+ pretty (maxHp t') +:+ ") at ["
                      +:+ pretty (row t') +:+ ", " +:+ pretty (col t') +:+ "]") s1
      | None => s1
      end
    else s
  | _, _ => s
  end.

(** [applySpearCounterCharge(state, unit, attacker)] *)
Definition applySpearCounterCharge (s : State) (unit attacker : nat) : State :=
  match units s !! unit, units s !! attacker with
  | Some u, Some a =>
    if negb (type_id (type u) =? type_id UnitTypes.SPEARS) then s
    else if negb (type_id (type a) =? type_id UnitTypes.MOUNTED) then s
    else
      let attackerName := getUnitDisplayName s a in
      let unitName := getUnitDisplayName s u in
      let s1 := applyDamage s attacker 3 (Some "ability") in
      match units s1 !! attacker with
      | Some a' =>
        let newHP := maxHp a' - damage a' in
        logMessage (unitName +:+ " Counter Charge: " +:+ attackerName +:+ " takes 3 damage ("
                      +:+ pretty newHP +:+ "/" +:+ pretty (maxHp a') +:+ ") at ["
                      +:+ pretty (row a') +:+ ", " +:+ pretty (col a') +:+ "]") s1
      | None => s1
      end
  | _, _ => s
  end.

(** ** Movement ([game.js]) *)

(** The [while (queue.length > 0)] search of [getValidMoves]; one unit of
    [fuel] per loop iteration.  [visited] holds the pairs that stand for
    the keys [`${row},${col}`]. *)
Fixpoint validMovesLoop (fuel : nat) (s : State) (u : Unit) (maxMovement : Z)
    (queue : list (Hex * Z)) (visited : gset (Z * Z)) (moves : list Hex) : list Hex :=
  match fuel with
  | O => moves
  | S fuel' =>
    match queue with
    | [] => moves
    | (hex, distance) :: queue' =>
      let key := (hex_row hex, hex_col hex) in
      if bool_decide (key ∈ visited) || (maxMovement <? distance)
      then validMovesLoop fuel' s u maxMovement queue' visited moves
      else
        let visited' := {[ key ]} ∪ visited in
        let moves' :=
          if 0 <? distance then
            let friendlyUnits := getFactionUnitsAt s (hex_row hex) (hex_col hex) (faction u) in
            if Z.of_nat (length friendlyUnits) <? 2 then moves ++ [hex] else moves
          else moves in
        let queue'' :=
          if distance <? maxMovement then
            queue' ++
            List.map (fun nextHex => (nextHex, distance + 1))
              (List.filter (fun nextHex =>
                              negb (bool_decide ((hex_row nextHex, hex_col nextHex) ∈ visited')))
                 (getAdjacentHexes (hex_row hex) (hex_col hex)))
          else queue' in
        validMovesLoop fuel' s u maxMovement queue'' visited' moves'
    end
  end.

(** The Commander branch: hexes of other living friendly units at distance
    1 or 2, each hex once. *)
Fixpoint commanderTargetHexes (u : Unit) (us : list Unit)
    (seenHexes : gset (Z * Z)) (targetHexes : list Hex) : list Hex :=
  match us with
  | [] => targetHexes
  | friendlyUnit :: rest =>
    if String.eqb (unit_id friendlyUnit) (unit_id u)
    then commanderTargetHexes u rest seenHexes targetHexes
    else if negb (faction friendlyUnit =? faction u)
    then commanderTargetHexes u rest seenHexes targetHexes
    else if damage friendlyUnit >=? maxHp friendlyUnit
    then commanderTargetHexes u rest seenHexes targetHexes
    else
      let distance := hexDistance (row u) (col u) (row friendlyUnit) (col friendlyUnit) in
      if (0 <? distance) && (distance <=? 2) &&
         negb (bool_decide ((row friendlyUnit, col friendlyUnit) ∈ seenHexes))
      then commanderTargetHexes u rest
             ({[ (row friendlyUnit, col friendlyUnit) ]} ∪ seenHexes)
             (targetHexes ++ [mkHex (row friendlyUnit) (col friendlyUnit)])
      else commanderTargetHexes u rest seenHexes targetHexes
  end.

Definition boardCells : list Hex :=
  flat_map (fun r => List.map (fun c => mkHex r c) [0; 1; 2; 3; 4; 5]) [0; 1; 2; 3; 4; 5].

(** [getValidMoves(unit)] *)
Definition getValidMoves (s : State) (u : Unit) : list Hex :=
  if isEngaged s u && negb (type_id (type u) =? type_id UnitTypes.ASSAULT_BEASTS) then []
  else if type_id (type u) =? type_id UnitTypes.COMMANDER
  then commanderTargetHexes u (units s) ∅ []
  else if type_id (type u) =? type_id UnitTypes.AERIAL then
    let enemyCastleRow := if faction u =? 1 then 0 else 5 in
    List.filter (fun h =>
      if (hex_row h =? row u) && (hex_col h =? col u) then false
      else if hex_row h =? enemyCastleRow then false
      else Z.of_nat (length (getUnitsAt s (hex_row h) (hex_col h))) =? 0) boardCells
  else
    let maxMovement := 1 in
    validMovesLoop 256 s u maxMovement [(mkHex (row u) (col u), 0)] ∅ []
      ++ [mkHex (row u) (col u)].

(** The unit picker [showUnitPickerModal(units, onSelect)]: the position of
    the option the player clicks, or [None] when the modal is closed with
    Escape and [onSelect] never runs. *)
Definition UnitPicker : Type := list Unit -> option nat.

Fixpoint joinWith (sep : string) (l : list string) : string :=
  match l with
  | [] => EmptyString
  | [x] => x
  | x :: rest => x +:+ sep +:+ joinWith sep rest
  end.

Definition nameOf (s : State) (i : nat) : string :=
  from_option (getUnitDisplayName s) EmptyString (units s !! i).

(** Enemy Spears, not engaged, on the hexes adjacent to the destination. *)
Definition counterChargingSpears (s : State) (newRow newCol enemyFaction : Z) : list nat :=
  flat_map (fun adjHex =>
    filterRefs (fun v => (type_id (type v) =? type_id UnitTypes.SPEARS) &&
                          (damage v <? maxHp v) && negb (isEngaged s v)) s
      (getFactionUnitsAt s (hex_row adjHex) (hex_col adjHex) enemyFaction))
    (getAdjacentHexes newRow newCol).

(** [moveUnit(unit, newRow, newCol)]; [unit] is a reference. *)
Definition moveUnit (showUnitPickerModal : UnitPicker) (s : State) (unit : nat)
    (newRow newCol : Z) : State :=
  match units s !! unit with
  | None => s
  | Some u0 =>
    let oldRow := row u0 in
    let oldCol := col u0 in
    let distanceMoved := hexDistance oldRow oldCol newRow newCol in
    let isMountedSecondMove :=
      (type_id (type u0) =? type_id UnitTypes.MOUNTED) && movedThisTurn u0 in
    let u1 := set_moved true (set_pos newRow newCol u0) in
    let s1 := set_units (<[unit := u1]> (units s)) s in
    let s2 :=
      if (type_id (type u1) =? type_id UnitTypes.MOUNTED) && negb isMountedSecondMove
      then set_pendingSecondMove (Some (unit_id u1)) s1
      else set_pendingSecondMove None
             (set_activatedUnits ({[ unit_id u1 ]} ∪ activatedUnits s1) s1) in
    let moveLog st :=
      logMessage (nameOf st unit +:+ " moves to [" +:+ pretty newRow +:+ ", "
                    +:+ pretty newCol +:+ "]") st in
    let enemyFaction := if faction u1 =? 1 then 2 else 1 in
    let enemiesAtHex := getFactionUnitsAt s2 newRow newCol enemyFaction in
    if 0 <? Z.of_nat (length enemiesAtHex) then
      let enemyUnits := joinWith " & " (List.map (nameOf s2) enemiesAtHex) in
      let s3 := logMessage (nameOf s2 unit +:+ " engages with " +:+ enemyUnits +:+ " at ("
                              +:+ pretty newRow +:+ ", " +:+ pretty newCol +:+ ")!") s2 in
      if isMountedSecondMove then
        match counterChargingSpears s3 newRow newCol enemyFaction with
        | spear :: _ =>
          let s4 := applySpearCounterCharge s3 spear unit in
          moveLog (logMessage (nameOf s4 unit +:+ "'s charge is countered!") s4)
        | [] =>
          if 1 <? Z.of_nat (length enemiesAtHex) then
            match showUnitPickerModal (derefs s3 enemiesAtHex) with
            | Some k =>
              match enemiesAtHex !! k with
              | Some selectedEnemy =>
                let s4 := applyMountedChargeBonus s3 unit selectedEnemy 2 in
                logMessage (nameOf s4 unit +:+ " tramples " +:+ nameOf s4 selectedEnemy +:+ "!") s4
              | None => s3
              end
            | None => s3
            end
          else
            match enemiesAtHex with
            | enemy :: _ => moveLog (applyMountedChargeBonus s3 unit enemy 2)
            | [] => moveLog s3
            end
        end
      else moveLog s3
    else moveLog s2
  end.

(** ** Phase machine ([game.js]) *)

(** The test that [getUnitsNeedingAbilityTargets] applies to each unit of
    [state.units]: [true] when the unit is pushed. *)
Definition needsAbilityTarget (s : State) (u : Unit) : bool :=
  if damage u >=? maxHp u then false
  else
    let unitIsEngaged := isEngaged s u in
    if String.eqb (type_name (type u)) "Spears" && negb unitIsEngaged &&
       (0 <? Z.of_nat (length (getSpearsPierceTargets s u)))
    then true
    else if String.eqb (type_name (type u)) "Archers" && negb unitIsEngaged &&
            (0 <? Z.of_nat (length (getArchersVolleyTargets s u)))
    then true
    else if String.eqb (type_name (type u)) "Cannon" && negb (movedThisTurn u) &&
            negb unitIsEngaged &&
            (0 <? Z.of_nat (length (getCannonMortarTargets s u)))
    then true
    else false.

Definition getUnitsNeedingAbilityTargets (s : State) : list nat :=
  filterUnits (needsAbilityTarget s) s.

(** [refs.some(u => u.faction === f)] *)
Definition someOfFaction (s : State) (refs : list nat) (f : Z) : bool :=
  existsb (fun i => match units s !! i with
                    | Some u => faction u =? f
                    | None => false
                    end) refs.

(** What [executeResolutionSequence] does before its first [await]. *)
Definition startResolution (s : State) : State :=
  let s1 := set_unitsInCombatThisTurn ∅ s in
  match abilityTargeting s1 with
  | Some a =>
    set_abilityTargeting
      (Some (mkAT false (at_currentPlayer a) (at_selections a) (at_unitsToTarget a))) s1
  | None => s1
  end.

(** Units of [unitsToTarget] of faction [f] without a recorded selection. *)
Definition stillNeedingTargets (s : State) (a : AbilityTargeting) (f : Z) : list nat :=
  List.filter (fun i => match units s !! i with
                        | Some u => (faction u =? f) &&
                                    negb (bool_decide (is_Some (at_selections a !! unit_id u)))
                        | None => false
                        end) (at_unitsToTarget a).

(** [endPhase()]; the transition that the source defers with [setTimeout]
    is taken at once. *)
Definition endPhase (s : State) : State :=
  let s := set_pendingSecondMove None s in
  match phase s with
  | FACTION_1 =>
    logMessage "Player 2 faction phase" (set_activatedUnits ∅ (set_phase FACTION_2 s))
  | FACTION_2 =>
    let unitsNeedingTargeting := getUnitsNeedingAbilityTargets s in
    if 0 <? Z.of_nat (length unitsNeedingTargeting) then
      let p2HasAbilities := someOfFaction s unitsNeedingTargeting 2 in
      let p1HasAbilities := someOfFaction s unitsNeedingTargeting 1 in
      let startingPlayer := if negb p2HasAbilities && p1HasAbilities then 1 else 2 in
      set_abilityTargeting (Some (mkAT true startingPlayer ∅ unitsNeedingTargeting))
        (set_phase ABILITY_TARGETING s)
    else startResolution (set_phase RESOLUTION_COMBAT s)
  | ABILITY_TARGETING =>
    match abilityTargeting s with
    | None => s
    | Some a =>
      let currentPlayer := at_currentPlayer a in
      if 0 <? Z.of_nat (length (stillNeedingTargets s a currentPlayer)) then
        logMessage ("Next unit for Player " +:+ pretty currentPlayer +:+ "...") s
      else if currentPlayer =? 2 then
        if 0 <? Z.of_nat (length (stillNeedingTargets s a 1)) then
          logMessage "Player 1 selecting ability targets..."
            (set_abilityTargeting
               (Some (mkAT (at_active a) 1 (at_selections a) (at_unitsToTarget a))) s)
        else startResolution (set_phase RESOLUTION_COMBAT s)
      else startResolution (set_phase RESOLUTION_COMBAT s)
    end
  | _ => s
  end.

(** The end of [executeResolutionSequence]: castle damage, then the win
    check, then game over or the next round. *)
Definition resolveCastleAndWin (s : State) : State :=
  let s1 := calculateCastleDamage s in
  let '(winResult, s2) := checkWinCondition s1 in
  match winResult with
  | Some w => logMessage ("Game Over! " +:+ reason w) (set_phase GAME_OVER s2)
  | None =>
    let s3 := set_activatedUnits ∅ (set_phase FACTION_1 s2) in
    let s4 := mkState (phase s3) (round s3 + 1)
                (List.map (fun u => set_lastTarget None (set_moved false u)) (units s3))
                (destroyedUnits s3) (castleDamage s3) (consecutiveDamageRounds s3)
                (batteryRamWin s3) (activatedUnits s3) None (abilityTargeting s3)
                (unitsInCombatThisTurn s3) (log s3) in
    logMessage "Player 1 faction phase" s4
  end.

(** * Specification-side definitions and sample boards *)

(** The penalties of the volley as numbers. *)
Definition movedPenalty (u : Unit) : Z := if movedThisTurn u then 1 else 0.
Definition newTargetPenalty (u target : Unit) : Z :=
  match lastTarget u with
  | Some l => if String.eqb l (unit_id target) then 0 else 1
  | None => 0
  end.

Definition volleyArcher : Unit :=
  mkUnit "a-1" UnitTypes.ARCHERS 1 4 2 0 5 true (Some "e-1") 1.
Definition volleyTarget : Unit :=
  mkUnit "e-2" UnitTypes.CANNON 2 2 2 0 5 false None 1.

Definition winnerOf (s : State) : option Z := winner <$> (checkWinCondition s).1.
Definition streaksAfter (s : State) : PerFaction Z :=
  consecutiveDamageRounds (checkWinCondition s).2.

Definition leadState (d1 d2 : Z) (streaks : PerFaction Z) : State :=
  set_consecutiveDamageRounds streaks (set_castleDamage (mkPF d1 d2) createGameState).

Definition addDamage (amount : Z) (u : Unit) : Unit := set_damage (damage u + amount) u.

Definition freshArcher : Unit := createUnit "a-1" UnitTypes.ARCHERS 1 4 2 1.
Definition oneArcher : State := set_units [freshArcher] createGameState.

Definition plainName (u : Unit) : string :=
  type_symbol (type u) +:+ " " +:+ type_name (type u).

Definition numberedName (u : Unit) : string :=
  type_symbol (type u) +:+ " " +:+ type_name (type u) +:+ " #" +:+ pretty (number u).

(** The condition as the specification words it: the living units of the
    unit's faction and type. *)
Definition livingSameType (s : State) (u : Unit) : list Unit :=
  List.filter (fun v => (faction v =? faction u) &&
                        (type_id (type v) =? type_id (type u)) && isAlive v) (units s).

(** Two Archers of faction 1; the second one is destroyed (5 of 5) and still
    in the array, as between a lethal [applyDamage] and [removeDeadUnits]. *)
Definition archer1 : Unit := mkUnit "a-1" UnitTypes.ARCHERS 1 4 2 0 5 false None 1.
Definition archer2 : Unit := mkUnit "a-2" UnitTypes.ARCHERS 1 4 3 0 5 false None 2.
Definition twoArchers : State := set_units [archer1; archer2] createGameState.
Definition oneArcherLeft : State := applyDamage twoArchers 1 5 None.

Definition hasUnengagedRam (s : State) (f : Z) : bool :=
  existsb (isUnengagedRam s) (unitsInCastle s f).

(** Unengaged living units of faction [f] in the enemy castle row. *)
Definition unengagedInCastle (s : State) (f : Z) : Z :=
  Z.of_nat (length (List.filter (fun u => negb (isEngaged s u)) (unitsInCastle s f))).

(** The state after the iteration of a faction that has no such ram. *)
Definition afterCounting (s : State) (f : Z) : State :=
  let enemyFaction := if f =? 1 then 2 else 1 in
  if 0 <? unengagedInCastle s f
  then logMessage ("Player " +:+ pretty f +:+ " deals " +:+ pretty (unengagedInCastle s f)
                     +:+ " damage to enemy castle!")
         (set_castleDamage
            (pf_update enemyFaction (fun d => d + unengagedInCastle s f) (castleDamage s)) s)
  else s.

(** A faction-1 Archers unit stands alone in row 0 and a faction-2 Battery
    Ram stands alone in row 5. *)
Definition raidArcher : Unit := mkUnit "a-1" UnitTypes.ARCHERS 1 0 2 0 5 false None 1.
Definition raidRam : Unit := mkUnit "r-1" UnitTypes.BATTERY_RAM 2 5 3 0 5 false None 1.
Definition ramRaid : State := set_units [raidArcher; raidRam] createGameState.

(** A faction-1 Jesters unit next to a faction-2 Mounted unit, at the end of
    faction 2's movement phase. *)
Definition tauntJester : Unit := mkUnit "j-1" UnitTypes.JESTERS 1 3 2 0 5 false None 1.
Definition tauntVictim : Unit := mkUnit "m-1" UnitTypes.MOUNTED 2 2 2 0 5 false None 1.
Definition tauntState : State :=
  set_phase FACTION_2 (set_units [tauntJester; tauntVictim] createGameState).

(** A faction-1 Mounted unit at (3,0) that has not moved, and a faction-2
    Cannon on the adjacent hex (2,0). *)
Definition chargeRider : Unit := mkUnit "m-1" UnitTypes.MOUNTED 1 3 0 0 5 false None 1.
Definition chargeVictim : Unit := mkUnit "c-1" UnitTypes.CANNON 2 2 0 0 5 false None 1.
Definition chargeState : State :=
  set_phase FACTION_1 (set_units [chargeRider; chargeVictim] createGameState).
Definition noPick : UnitPicker := fun _ => None.

(** The player first "moves" the rider onto its own hex, then onto (2,0). *)
Definition afterStandingStill : State := moveUnit noPick chargeState 0 3 0.
Definition afterStepIn : State := moveUnit noPick afterStandingStill 0 2 0.

(** Two unit arrays that differ at most in the damage of their units. *)
Definition sameUnits (l l' : list Unit) : Prop :=
  set_damage 0 <$> l = set_damage 0 <$> l'.

(** The share of the [k]-th target (counting from 0) when [total] points are
    split over [n] targets: [floor(total / n)], and one more for the first
    [total mod n] targets. *)
Definition share (total : Z) (n : nat) (k : nat) : Z :=
  total / Z.of_nat n + (if Z.of_nat k <? total mod Z.of_nat n then 1 else 0).

(** A group as [getEngagedGroups] builds it: no unit twice, both sides
    present. *)
Definition wfGroup (g : Group) : Prop :=
  List.NoDup (faction1 g ++ faction2 g) /\ faction1 g <> [] /\ faction2 g <> [].

Definition members (g : Group) : list nat := faction1 g ++ faction2 g.

(** The group of a hex: its living units, by faction. *)
Definition groupAt (s : State) (r c : Z) : Group :=
  mkGroup (mkHex r c) (getFactionUnitsAt s r c 1) (getFactionUnitsAt s r c 2).

(** What the loop of [getEngagedGroups] maintains: every group is the group
    of a processed hex with both factions present, and no hex has two
    groups. *)
Definition groupsInv (s : State) (processed : gset (Z * Z)) (groups : list Group) : Prop :=
  (forall g, In g groups ->
     exists r c, g = groupAt s r c /\ (r, c) ∈ processed /\
                 getFactionUnitsAt s r c 1 <> [] /\ getFactionUnitsAt s r c 2 <> []) /\
  List.NoDup (List.map group_hex groups).

(** No unit belongs to two groups. *)
Fixpoint disjointGroups (gs : list Group) : Prop :=
  match gs with
  | [] => True
  | g :: rest =>
    (forall g', In g' rest -> forall i, In i (members g) -> ~ In i (members g')) /\
    disjointGroups rest
  end.

(** A side's total outgoing damage in the words of the rules: 3 for each
    Militia unit, 2 for each other unit. *)
Definition outgoingDamage (us : list Unit) : Z :=
  foldr (fun u acc =>
           (if type_id (type u) =? type_id UnitTypes.MILITIA then 3 else 2) + acc) 0 us.

(** The board after the loop over the groups and before the cleanup. *)
Definition combatBeforeCleanup (alloc : option Allocator) (s : State) : State :=
  resolveCombatLoop alloc (getEngagedGroups s)
    (logMessage ("Resolving " +:+ pretty (Z.of_nat (length (getEngagedGroups s)))
                   +:+ " engagement(s)...") s).

(** A lone Militia unit of faction 1 and two Spears of faction 2 on (2,2). *)
Definition loneMilitia : Unit := mkUnit "mi-1" UnitTypes.MILITIA 1 2 2 0 5 false None 1.
Definition defenderA : Unit := mkUnit "s-1" UnitTypes.SPEARS 2 2 2 0 5 false None 1.
Definition defenderB : Unit := mkUnit "s-2" UnitTypes.SPEARS 2 2 2 0 5 false None 2.
Definition militiaFight : State :=
  set_units [loneMilitia; defenderA; defenderB] createGameState.

(** A wounded Cannon (4 of 5) of faction 2 and a wounded Archers unit
    (3 of 5) of faction 1 on (3,3).  Faction 1 strikes first and destroys
    the Cannon; the Cannon's 2 points still land and destroy the Archers. *)
Definition woundedArchers : Unit := mkUnit "a-1" UnitTypes.ARCHERS 1 3 3 3 5 false None 1.
Definition woundedCannon : Unit := mkUnit "c-1" UnitTypes.CANNON 2 3 3 4 5 false None 1.
Definition lastStand : State := set_units [woundedArchers; woundedCannon] createGameState.

(** * Further sample boards *)

(** A faction-1 Aerial unit at (4,1) and a faction-2 Cannon at (2,3). *)
Definition scoutBoard : State :=
  set_units [mkUnit "ae-1" UnitTypes.AERIAL 1 4 1 0 5 false None 1;
             mkUnit "c-1" UnitTypes.CANNON 2 2 3 0 5 false None 1] createGameState.

(** A faction-1 Commander at (4,2) with two Spears of its faction on (3,2)
    and an Archers unit at (4,5), three steps away. *)
Definition commandPost : State :=
  set_units [mkUnit "k-1" UnitTypes.COMMANDER 1 4 2 0 5 false None 1;
             mkUnit "s-1" UnitTypes.SPEARS 1 3 2 0 5 false None 1;
             mkUnit "s-2" UnitTypes.SPEARS 1 3 2 0 5 false None 2;
             mkUnit "a-1" UnitTypes.ARCHERS 1 4 5 0 5 false None 1] createGameState.

(** * Further operations of [state.js] and [game.js] *)

(** ** Unit factory *)

Definition UNIT_COLORS_COOL : list string :=
  ["#60a5fa"; "#38bdf8"; "#a78bfa"; "#818cf8"; "#2dd4bf"; "#6366f1"].
Definition UNIT_COLORS_WARM : list string :=
  ["#fb923c"; "#f87171"; "#fbbf24"; "#facc15"; "#fb7185"; "#fdba74"].

(** The module-level counters [unitColorIndex] and [unitTypeCounters]. *)
Record UnitFactory := mkFactory {
  unitColorIndex : PerFaction Z;
  unitTypeCounters : PerFaction (gmap Z Z)
}.

Definition initialFactory : UnitFactory := mkFactory (mkPF 0 0) (mkPF ∅ ∅).

(** What a call of [createUnit] yields: the unit, its colour and the
    counters as the call leaves them. *)
Record Created := mkCreated {
  created_unit : Unit;
  created_color : string;
  created_factory : UnitFactory
}.

(** [createUnit(type, faction, row, col)] with the counters threaded; [uid]
    is the value of [crypto.randomUUID()].  For a faction other than 1 and
    2, [unitTypeCounters[faction]] is [undefined] and the source throws:
    [None]. *)
Definition createUnitWith (fa : UnitFactory) (uid : string) (ty : UnitType)
    (f r c : Z) : option Created :=
  if (f =? 1) || (f =? 2) then
    let colorPalette := if f =? 1 then UNIT_COLORS_COOL else UNIT_COLORS_WARM in
    let color :=
      default EmptyString
        (colorPalette !! Z.to_nat (Z.rem (pf_get f (unitColorIndex fa))
                                         (Z.of_nat (length colorPalette)))) in
    let colorIndex' := pf_update f (fun n => n + 1) (unitColorIndex fa) in
    let counters := pf_get f (unitTypeCounters fa) in
    (* if (!counters[type.id]) counters[type.id] = 0; counters[type.id]++ *)
    let unitNumber := default 0 (counters !! type_id ty) + 1 in
    let counters' :=
      pf_update f (fun m => <[type_id ty := unitNumber]> m) (unitTypeCounters fa) in
    Some (mkCreated (mkUnit uid ty f r c 0 5 false None unitNumber) color
            (mkFactory colorIndex' counters'))
  else None.

(** A request to the factory: id, type, faction, row, column. *)
Record UnitRequest := mkRequest {
  req_id : string;
  req_type : UnitType;
  req_faction : Z;
  req_row : Z;
  req_col : Z
}.

(** Successive calls of [createUnit], as the setup functions make them. *)
Fixpoint createUnits (fa : UnitFactory) (reqs : list UnitRequest)
    : option (list Created) :=
  match reqs with
  | [] => Some []
  | q :: rest =>
    match createUnitWith fa (req_id q) (req_type q) (req_faction q) (req_row q) (req_col q) with
    | Some cr =>
      match createUnits (created_factory cr) rest with
      | Some crs => Some (cr :: crs)
      | None => None
      end
    | None => None
    end
  end.

(** ** Placement check *)

(** The loop of [isValidPlacement]; the triple stands for the key
    [`${row},${col},${faction}`], and [default 0] for [get(key) || 0]. *)
Fixpoint isValidPlacementLoop (us : list Unit) (hexCounts : gmap (Z * Z * Z) Z) : bool :=
  match us with
  | [] => true
  | u :: rest =>
    let key := (row u, col u, faction u) in
    let count := default 0 (hexCounts !! key) in
    if count >=? 2 then false
    else isValidPlacementLoop rest (<[key := count + 1]> hexCounts)
  end.

Definition isValidPlacement (us : list Unit) : bool := isValidPlacementLoop us ∅.

(** Units of [us] of faction [f] on the hex [(r, c)]. *)
Definition unitsOn (us : list Unit) (r c f : Z) : list Unit :=
  List.filter (fun v => (row v =? r) && (col v =? c) && (faction v =? f)) us.

(** Earlier requests for the same faction and type. *)
Definition sameKind (q : UnitRequest) (earlier : list UnitRequest) : list UnitRequest :=
  List.filter (fun p => (req_faction p =? req_faction q) &&
                        (type_id (req_type p) =? type_id (req_type q))) earlier.

(** Earlier requests for the same faction. *)
Definition sameFaction (q : UnitRequest) (earlier : list UnitRequest) : list UnitRequest :=
  List.filter (fun p => req_faction p =? req_faction q) earlier.

(** The six-colour palette of a faction. *)
Definition paletteOf (f : Z) : list string :=
  if f =? 1 then UNIT_COLORS_COOL else UNIT_COLORS_WARM.

(** The demo army of faction 1, as [setupDemoGame] requests it. *)
Definition demoRequests : list UnitRequest :=
  [mkRequest "u-1" UnitTypes.MOUNTED 1 3 0; mkRequest "u-2" UnitTypes.SPEARS 1 3 2;
   mkRequest "u-3" UnitTypes.ARCHERS 1 4 2; mkRequest "u-4" UnitTypes.ARCHERS 1 4 3;
   mkRequest "u-5" UnitTypes.SPEARS 1 3 3; mkRequest "u-6" UnitTypes.MOUNTED 1 3 5;
   mkRequest "u-7" UnitTypes.CANNON 2 1 1].

(** Two faction-1 Archers alone in row 0 and a faction-2 Cannon alone in
    row 5. *)
Definition castleVisit : State :=
  set_units [raidArcher; set_pos 0 4 archer2;
             mkUnit "c-1" UnitTypes.CANNON 2 5 1 0 5 false None 1] createGameState.

(** ** Muskets, Pierce damage and Taunt *)

Definition getMusketsFireTargets (s : State) (u : Unit) : list nat :=
  if negb (type_id (type u) =? type_id UnitTypes.MUSKETS) then []
  else if movedThisTurn u then []
  else
    filterUnits (fun enemy =>
      if negb (isAlive enemy) || (faction enemy =? faction u) then false
      else col enemy =? col u) s.

Definition calculateMusketsFireDamage (u : Unit) : Z :=
  if movedThisTurn u then 0 else 1.

Definition calculateSpearsPierceDamage (u target : Unit) : Z := 1.

(** [applyJestersTaunt(state, unit, target)]; both arguments are
    references. *)
Definition applyJestersTaunt (s : State) (unit target : nat) : State :=
  match units s !! unit, units s !! target with
  | Some u, Some t =>
    if negb (type_id (type u) =? type_id UnitTypes.JESTERS) then s
    else
      let s1 := set_units (<[target := set_pos (row u) (col u) t]> (units s)) s in
      logMessage (type_symbol (type u) +:+ " " +:+ type_name (type u) +:+ " Taunt forces "
                    +:+ type_symbol (type t) +:+ " " +:+ type_name (type t)
                    +:+ " to move to (" +:+ pretty (row u) +:+ ", " +:+ pretty (col u) +:+ ")")
        s1
  | _, _ => s
  end.

(** ** Ability resolution *)

(** [state.units.find(u => u.id === uid)] *)
Definition findUnit (s : State) (uid : string) : option nat :=
  List.find (fun i => match units s !! i with
                      | Some u => String.eqb (unit_id u) uid
                      | None => false
                      end) (seq 0 (length (units s))).

(** [state.abilityTargeting && state.abilityTargeting.selections.has(unit.id)],
    and the selection when there is one. *)
Definition selectionFor (s : State) (u : Unit) : option Selection :=
  match abilityTargeting s with
  | Some a => at_selections a !! unit_id u
  | None => None
  end.

(** The target of a melee ability: the selected unit when a selection is
    recorded (a selection without [unitId] finds nobody), else the first
    enumerated target. *)
Definition chosenUnit (s : State) (u : Unit) (autoTargets : list nat) : option nat :=
  match selectionFor s u with
  | Some (SelUnit uid) => findUnit s uid
  | Some (SelHex _) => None
  | None => head autoTargets
  end.

(** [applyDamage(state, target, damage, 'ability')] followed by the log line
    of the ability; [place] is the position the line reports, the target's
    own when [None]. *)
Definition abilityHit (unitName abilityName targetName : string) (damage_ : Z)
    (place : option Hex) (s : State) (t : nat) : State :=
  let s1 := applyDamage s t damage_ (Some "ability") in
  match units s1 !! t with
  | Some target =>
    let newHP := maxHp target - damage target in
    let h := default (mkHex (row target) (col target)) place in
    logMessage (unitName +:+ " " +:+ abilityName +:+ ": " +:+ targetName +:+ " takes "
                  +:+ pretty damage_ +:+ " damage (" +:+ pretty newHP +:+ "/"
                  +:+ pretty (maxHp target) +:+ ") at [" +:+ pretty (hex_row h) +:+ ", "
                  +:+ pretty (hex_col h) +:+ "]") s1
  | None => s1
  end.

(** The Spears block of [resolveMeleeAbilities]. *)
Definition pierce (s : State) (unit : Unit) : State :=
  match chosenUnit s unit (getSpearsPierceTargets s unit) with
  | Some t =>
    match units s !! t with
    | Some target =>
      if isAlive target then
        abilityHit (getUnitDisplayName s unit) "Pierce" (getUnitDisplayName s target)
          (calculateSpearsPierceDamage unit target) None s t
      else s
    | None => s
    end
  | None => s
  end.

(** The Jesters block of [resolveMeleeAbilities]; [i] is the Jesters unit. *)
Definition taunt (s : State) (i : nat) (unit : Unit) : State :=
  match chosenUnit s unit (getJestersTauntTargets s unit) with
  | Some t =>
    match units s !! t with
    | Some target => if isAlive target then applyJestersTaunt s i t else s
    | None => s
    end
  | None => s
  end.

(** The [continue] test of both resolution loops. *)
Definition sitsOut (s : State) (u : Unit) : bool :=
  negb (isAlive u) || isEngaged s u || bool_decide (unit_id u ∈ unitsInCombatThisTurn s).

(** One iteration of [for (const unit of state.units)] in
    [resolveMeleeAbilities], for the unit at index [i]. *)
Definition meleeStep (s : State) (i : nat) : State :=
  match units s !! i with
  | None => s
  | Some unit =>
    if sitsOut s unit then s
    else
      let s1 := if type_id (type unit) =? type_id UnitTypes.SPEARS then pierce s unit else s in
      if type_id (type unit) =? type_id UnitTypes.JESTERS then taunt s1 i unit else s1
  end.

Definition meleeLoop (s : State) : State :=
  fold_left meleeStep (seq 0 (length (units s))) s.

Definition resolveMeleeAbilities (s : State) : State :=
  removeDeadUnits (meleeLoop (logMessage "Resolving melee abilities..." s)).

(** The Archers block of [resolveRangedAbilities]; [i] is the Archers
    unit. *)
Definition volley (s : State) (i : nat) (unit : Unit) : State :=
  let target :=
    match selectionFor s unit with
    | Some (SelUnit uid) => findUnit s uid
    | Some (SelHex _) => None
    | None =>
      let targets := getArchersVolleyTargets s unit in
      if 0 <? Z.of_nat (length targets) then
        if truthyString (lastTarget unit) then
          match findById s targets (default EmptyString (lastTarget unit)) with
          | Some t => Some t
          | None => head targets
          end
        else head targets
      else None
    end in
  match target with
  | Some t =>
    match units s !! t with
    | Some tv =>
      if isAlive tv then
        let dmg := calculateArchersVolleyDamage unit tv in
        if 0 <? dmg then
          let s1 := abilityHit (getUnitDisplayName s unit) "Volley"
                      (getUnitDisplayName s tv) dmg None s t in
          set_units (alter (set_lastTarget (Some (unit_id tv))) i (units s1)) s1
        else s
      else s
    | None => s
    end
  | None => s
  end.

(** The Cannon block of [resolveRangedAbilities]. *)
Definition mortar (s : State) (unit : Unit) : State :=
  let targetHex :=
    match selectionFor s unit with
    | Some (SelHex h) => Some h
    | Some (SelUnit _) => None
    | None =>
      match getCannonMortarTargets s unit with
      | t :: _ => (fun tv => mkHex (row tv) (col tv)) <$> units s !! t
      | [] => None
      end
    end in
  match targetHex with
  | Some h =>
    let distance := hexDistance (row unit) (col unit) (hex_row h) (hex_col h) in
    if (0 <? distance) && (distance <=? 2) then
      let dmg := calculateCannonMortarDamage unit in
      let enemiesInHex :=
        filterUnits (fun v => (row v =? hex_row h) && (col v =? hex_col h) &&
                              negb (faction v =? faction unit) && isAlive v) s in
      let unitName := getUnitDisplayName s unit in
      fold_left (fun st e => abilityHit unitName "Mortar" (nameOf st e) dmg (Some h) st e)
        enemiesInHex s
    else s
  | None => s
  end.

(** The Muskets block of [resolveRangedAbilities]. *)
Definition fire (s : State) (unit : Unit) : State :=
  let targets := getMusketsFireTargets s unit in
  if 0 <? Z.of_nat (length targets) then
    let dmg := calculateMusketsFireDamage unit in
    if 0 <? dmg then
      let unitName := getUnitDisplayName s unit in
      fold_left (fun st t => abilityHit unitName "Fire!" (nameOf st t) dmg None st t)
        targets s
    else s
  else s.

Definition rangedStep (s : State) (i : nat) : State :=
  match units s !! i with
  | None => s
  | Some unit =>
    if sitsOut s unit then s
    else
      let s1 := if type_id (type unit) =? type_id UnitTypes.ARCHERS
                then volley s i unit else s in
      let s2 := if type_id (type unit) =? type_id UnitTypes.CANNON
                then mortar s1 unit else s1 in
      if type_id (type unit) =? type_id UnitTypes.MUSKETS then fire s2 unit else s2
  end.

Definition rangedLoop (s : State) : State :=
  fold_left rangedStep (seq 0 (length (units s))) s.

Definition resolveRangedAbilities (s : State) : State :=
  removeDeadUnits (rangedLoop (logMessage "Resolving ranged abilities..." s)).

(** [executeResolutionSequence(state)] without its delays;
    [showAllocationModal] is the collaborator that [game.js] passes to
    [resolveCombatAsync]. *)
Definition executeResolutionSequence (showAllocationModal : Allocator) (s : State) : State :=
  let s1 := startResolution s in
  let s2 := resolveCombatAsync (Some showAllocationModal) s1 in
  let s3 := resolveMeleeAbilities s2 in
  let s4 := resolveRangedAbilities s3 in
  resolveCastleAndWin s4.

(** ** Frames of the ability phases *)

(** The state without its units and its log. *)
Definition ledger (s : State) : State := set_log [] (set_units [] s).

(** What a unit keeps for life: id, type, faction, hit points and number. *)
Definition identityOf (u : Unit) : Unit :=
  mkUnit (unit_id u) (type u) (faction u) 0 0 0 (maxHp u) false None (number u).

(** How the melee abilities can change a unit: its position, and its damage
    upwards. *)
Definition meleeChange (u u' : Unit) : Prop :=
  set_pos 0 0 (set_damage 0 u') = set_pos 0 0 (set_damage 0 u) /\ damage u <= damage u'.

(** How the ranged abilities can change a unit: its remembered target, and
    its damage upwards. *)
Definition rangedChange (u u' : Unit) : Prop :=
  set_lastTarget None (set_damage 0 u') = set_lastTarget None (set_damage 0 u) /\
  damage u <= damage u'.

(** A unit that passes the [continue] test and has a melee ability. *)
Definition actsInMelee (s : State) (u : Unit) : bool :=
  negb (sitsOut s u) &&
  ((type_id (type u) =? type_id UnitTypes.SPEARS) ||
   (type_id (type u) =? type_id UnitTypes.JESTERS)).

(** A unit that passes the [continue] test and has a ranged ability. *)
Definition actsInRanged (s : State) (u : Unit) : bool :=
  negb (sitsOut s u) &&
  ((type_id (type u) =? type_id UnitTypes.ARCHERS) ||
   (type_id (type u) =? type_id UnitTypes.CANNON) ||
   (type_id (type u) =? type_id UnitTypes.MUSKETS)).

(** [f] applied to the units that satisfy [p]. *)
Definition hitAll (p : Unit -> bool) (f : Unit -> Unit) (l : list Unit) : list Unit :=
  (fun v => if p v then f v else v) <$> l.

(** ** Sample boards for the ranged abilities *)

(** A faction-1 Cannon at (3,2) that has not moved, with the hex (1,2)
    recorded as its target; a faction-2 Archers unit and a faction-2
    Militia unit stand on that hex, a faction-2 Spears unit on (2,3). *)
Definition batteryCannon : Unit := mkUnit "c-1" UnitTypes.CANNON 1 3 2 0 5 false None 1.
Definition batteryArchers : Unit := mkUnit "a-1" UnitTypes.ARCHERS 2 1 2 0 5 false None 1.
Definition batteryMilitia : Unit := mkUnit "mi-1" UnitTypes.MILITIA 2 1 2 4 5 false None 1.
Definition batterySpears : Unit := mkUnit "s-1" UnitTypes.SPEARS 2 2 3 0 5 false None 1.
Definition batteryBoard : State :=
  set_abilityTargeting
    (Some (mkAT false 2 {[ "c-1" := SelHex (mkHex 1 2) ]} [0%nat]))
    (set_units [batteryCannon; batteryArchers; batteryMilitia; batterySpears] createGameState).

(** A faction-1 Muskets unit at (5,1) that has not moved; in its column a
    faction-2 unit at (0,1), a faction-1 unit at (3,1) and a faction-2 unit
    at (2,1); a faction-2 unit in another column. *)
Definition lineMuskets : Unit := mkUnit "mu-1" UnitTypes.MUSKETS 1 5 1 0 5 false None 1.
Definition lineFar : Unit := mkUnit "a-1" UnitTypes.ARCHERS 2 0 1 0 5 false None 1.
Definition lineFriend : Unit := mkUnit "mi-1" UnitTypes.MILITIA 1 3 1 0 5 false None 1.
Definition lineNear : Unit := mkUnit "c-1" UnitTypes.CANNON 2 2 1 0 5 false None 1.
Definition lineAside : Unit := mkUnit "s-1" UnitTypes.SPEARS 2 2 3 0 5 false None 1.
Definition firingLine : State :=
  set_units [lineMuskets; lineFar; lineFriend; lineNear; lineAside] createGameState.

(** ** The resolution sequence *)

(** The state without its units, log, destroyed lists and combat marks. *)
Definition tally (s : State) : State :=
  set_unitsInCombatThisTurn ∅ (set_destroyedUnits (mkPF [] []) (ledger s)).

(** ** Recording ability targets ([game.js]) *)

(** [state.abilityTargeting.selections.set(uid, sel)] *)
Definition recordSelection (a : AbilityTargeting) (uid : string) (sel : Selection)
    (s : State) : State :=
  set_abilityTargeting
    (Some (mkAT (at_active a) (at_currentPlayer a) (<[uid := sel]> (at_selections a))
             (at_unitsToTarget a))) s.

(** [validTargets.filter(u => u.row === hex.row && u.col === hex.col)] *)
Definition targetsAtHex (s : State) (validTargets : list nat) (hex : Hex) : list nat :=
  filterRefs (fun v => (row v =? hex_row hex) && (col v =? hex_col hex)) s validTargets.

(** How a branch of [handleAbilityTargetingClick] ends: with a [return]
    from the function, or with [validTarget] and [targetData] set
    ([None] when [validTarget] stays [false]). *)
Inductive ClickOutcome :=
| Returned (s : State)
| Chosen (targetData : option Selection).

(** The Spears, Archers and Jesters branches; they differ in the list of
    valid targets and in the verb of the picker's log line.  The picker's
    callback is taken at once. *)
Definition pickAtHex (showUnitPickerModal : UnitPicker) (verb : string) (s : State)
    (a : AbilityTargeting) (sourceUnit : Unit) (validTargets : list nat) (hex : Hex)
    : ClickOutcome :=
  let validEnemiesAtHex := targetsAtHex s validTargets hex in
  if 1 <? Z.of_nat (length validEnemiesAtHex) then
    Returned
      match showUnitPickerModal (derefs s validEnemiesAtHex) with
      | Some k =>
        match validEnemiesAtHex !! k with
        | Some sel =>
          match units s !! sel with
          | Some selectedUnit =>
            let s1 := recordSelection a (unit_id sourceUnit)
                        (SelUnit (unit_id selectedUnit)) s in
            logMessage (getUnitDisplayName s1 sourceUnit +:+ " will " +:+ verb +:+ " "
                          +:+ getUnitDisplayName s1 selectedUnit) s1
          | None => s
          end
        | None => s
        end
      | None => s
      end
  else if Z.of_nat (length validEnemiesAtHex) =? 1 then
    Chosen match validEnemiesAtHex with
           | e :: _ => (fun v => SelUnit (unit_id v)) <$> units s !! e
           | [] => None
           end
  else Chosen None.

(** [handleAbilityTargetingClick(hex)], up to the [endPhase] call that it
    defers by 300 ms. *)
Definition handleAbilityTargetingClick (showUnitPickerModal : UnitPicker) (s : State)
    (hex : Hex) : State :=
  match abilityTargeting s with
  | None => s
  | Some a =>
    if negb (at_active a) then s
    else
      let currentPlayer := at_currentPlayer a in
      match stillNeedingTargets s a currentPlayer with
      | [] => s
      | i :: _ =>
        match units s !! i with
        | None => s
        | Some sourceUnit =>
          let name := type_name (type sourceUnit) in
          let outcome :=
            if String.eqb name "Spears" then
              pickAtHex showUnitPickerModal "target" s a sourceUnit
                (getSpearsPierceTargets s sourceUnit) hex
            else if String.eqb name "Archers" then
              pickAtHex showUnitPickerModal "target" s a sourceUnit
                (getArchersVolleyTargets s sourceUnit) hex
            else if String.eqb name "Jesters" then
              pickAtHex showUnitPickerModal "taunt" s a sourceUnit
                (getJestersTauntTargets s sourceUnit) hex
            else if String.eqb name "Cannon" then
              Chosen match targetsAtHex s (getCannonMortarTargets s sourceUnit) hex with
                     | _ :: _ => Some (SelHex (mkHex (hex_row hex) (hex_col hex)))
                     | [] => None
                     end
            else Chosen None in
          match outcome with
          | Returned s' => s'
          | Chosen (Some targetData) =>
            let s1 := recordSelection a (unit_id sourceUnit) targetData s in
            logMessage (getUnitDisplayName s1 sourceUnit +:+ " will target ["
                          +:+ pretty (hex_row hex) +:+ ", " +:+ pretty (hex_col hex) +:+ "]") s1
          | Chosen None =>
            let abilityName :=
              if String.eqb name "Spears" then "Pierce (adjacent only)"
              else if String.eqb name "Archers" then "Volley (range 1-2)"
              else if String.eqb name "Cannon" then "Mortar (range 1-2)"
              else "ability" in
            logMessage ("No valid targets for " +:+ getUnitDisplayName s sourceUnit +:+ " "
                          +:+ abilityName +:+ " at [" +:+ pretty (hex_row hex) +:+ ", "
                          +:+ pretty (hex_col hex) +:+ "]") s
          end
        end
      end
  end.

(** A selection that fits the rules of the source unit's ability, for a
    click on [hex]: a living enemy unit on that hex at distance 1 (Spears,
    Jesters) or 1 to 2 (Archers); for a Cannon that has not moved, the hex
    itself with a living enemy unit on it at distance 1 to 2. *)
Definition validSelection (s : State) (su : Unit) (hex : Hex) (sel : Selection) : Prop :=
  exists t tv,
    units s !! t = Some tv /\ isAlive tv = true /\ faction tv <> faction su /\
    row tv = hex_row hex /\ col tv = hex_col hex /\
    let d := hexDistance (row su) (col su) (hex_row hex) (hex_col hex) in
    match sel with
    | SelUnit uid =>
      uid = unit_id tv /\
      ((type_id (type su) = type_id UnitTypes.SPEARS /\ d = 1) \/
       (type_id (type su) = type_id UnitTypes.ARCHERS /\ 0 < d <= 2) \/
       (type_id (type su) = type_id UnitTypes.JESTERS /\ d = 1))
    | SelHex h =>
      h = mkHex (hex_row hex) (hex_col hex) /\
      type_id (type su) = type_id UnitTypes.CANNON /\ movedThisTurn su = false /\
      0 < d <= 2
    end.

(** A targeting session of player 1 on the battery board, with no
    selection recorded yet. *)
Definition targetingBoard : State :=
  set_abilityTargeting (Some (mkAT true 1 ∅ [0%nat]))
    (set_phase ABILITY_TARGETING batteryBoard).

(** ** Placement ([game.js]) *)

(** [state.placementPhase]; the units are references. *)
Record PlacementPhase := mkPlacement {
  pp_currentPlayer : Z;
  pp_placedUnits : list nat;
  pp_selectedUnit : option nat
}.

(** [array.filter] with a test that also looks at the identity of the
    object: the references of the selected units, in array order. *)
Fixpoint indicesWhere (k : nat) (p : nat -> Unit -> bool) (l : list Unit) : list nat :=
  match l with
  | [] => []
  | u :: l' => if p k u then k :: indicesWhere (S k) p l' else indicesWhere (S k) p l'
  end.

(** [handlePlacementClick(hex)], called with [state.placementPhase] set. *)
Definition handlePlacementClick (pp : PlacementPhase) (s : State) (hex : Hex)
    : PlacementPhase * State :=
  let currentPlayer := pp_currentPlayer pp in
  let validRows := if currentPlayer =? 1 then [3; 4; 5] else [0; 1; 2] in
  let clickedUnit :=
    head (indicesWhere 0 (fun i u => (row u =? hex_row hex) && (col u =? hex_col hex) &&
                                     (faction u =? currentPlayer) &&
                                     bool_decide (i ∈ pp_placedUnits pp)) (units s)) in
  match clickedUnit with
  | Some c =>
    if bool_decide (pp_selectedUnit pp = Some c)
    then (mkPlacement currentPlayer (pp_placedUnits pp) None, s)
    else (mkPlacement currentPlayer (pp_placedUnits pp) (Some c), s)
  | None =>
    match pp_selectedUnit pp with
    | Some unitToMove =>
      if negb (existsb (Z.eqb (hex_row hex)) validRows) then (pp, s)
      else
        let unitsAtHex :=
          indicesWhere 0 (fun i u => (row u =? hex_row hex) && (col u =? hex_col hex) &&
                                     negb (Nat.eqb i unitToMove)) (units s) in
        if Z.of_nat (length unitsAtHex) >=? 2 then (pp, s)
        else (mkPlacement currentPlayer (pp_placedUnits pp) None,
              set_units (alter (set_pos (hex_row hex) (hex_col hex)) unitToMove (units s)) s)
    | None => (pp, s)
    end
  end.

(** The rows in which a faction places its units. *)
Definition homeRow (f r : Z) : Prop := if f =? 1 then 3 <= r <= 5 else 0 <= r <= 2.

(** The units of a list that stand on a cell. *)
Definition standingOn (l : list Unit) (r c : Z) : list Unit :=
  List.filter (fun u => (row u =? r) && (col u =? c)) l.

(** What the placement clicks maintain: the selected unit belongs to the
    player who is placing, every unit stands in a home row of its faction,
    and no cell holds more than two units. *)
Definition placementInv (pp : PlacementPhase) (s : State) : Prop :=
  (forall c, pp_selectedUnit pp = Some c ->
     exists u, units s !! c = Some u /\ faction u = pp_currentPlayer pp) /\
  (forall u, In u (units s) -> homeRow (faction u) (row u)) /\
  (forall r c, (length (standingOn (units s) r c) <= 2)%nat).

(** A unit that differs at most in its position. *)
Definition placementChange (u u' : Unit) : Prop := set_pos 0 0 u' = set_pos 0 0 u.

(** Two faction-1 units on (3,0) and (3,1) during player 1's placement, the
    first one selected. *)
Definition placingBoard : State :=
  set_units [createUnit "a-1" UnitTypes.ARCHERS 1 3 0 1;
             createUnit "s-1" UnitTypes.SPEARS 1 3 1 1] createGameState.
Definition placingPhase : PlacementPhase := mkPlacement 1 [0%nat; 1%nat] (Some 0%nat).

(** A run of placement clicks. *)
Definition placementClicks (pp : PlacementPhase) (s : State) (clicks : list Hex)
    : PlacementPhase * State :=
  fold_left (fun st hex => handlePlacementClick st.1 st.2 hex) clicks (pp, s).

(** ** Default placement and confirmation ([game.js]) *)

(** The loop "Place all units for Player N in default positions" of
    [completeDraft] and [setupRandomGame] (player 1) and of
    [confirmPlacement] (player 2).  [picks] are the drafted types, each with
    the UUID that [createUnit] draws for it; [rowOf i] is the row of the
    [i]-th unit; the new units are pushed to [state.units] and to
    [placedUnits]. *)
Fixpoint placeLoop (f : Z) (rowOf : Z -> Z) (i : nat) (picks : list (string * UnitType))
    (fa : UnitFactory) (us : list Unit) (placedUnits : list nat)
    : option (UnitFactory * list Unit * list nat) :=
  match picks with
  | [] => Some (fa, us, placedUnits)
  | (uid, unitType) :: rest =>
    let row := rowOf (Z.of_nat i) in
    let col := Z.rem (Z.of_nat i) 3 in
    match createUnitWith fa uid unitType f row col with
    | Some cr =>
      placeLoop f rowOf (S i) rest (created_factory cr) (us ++ [created_unit cr])
        (placedUnits ++ [length us])
    | None => None
    end
  end.

(** [completeDraft()]: the placement phase of player 1 and the state. *)
Definition completeDraft (picks : list (string * UnitType)) (fa : UnitFactory) (s : State)
    : option (UnitFactory * PlacementPhase * State) :=
  match placeLoop 1 (fun i => 3 + i / 3) 0 picks fa (units s) [] with
  | Some (fa', us, placed) =>
    Some (fa', mkPlacement 1 placed None,
          logMessage
            "Player 1 - Click units to reposition them on rows 3-5. Press Confirm when ready."
            (set_units us s))
  | None => None
  end.

(** [confirmPlacement()]; [picks] is [state.draftSelected[2]] with the
    UUIDs, [None] for the placement phase is the deleted property. *)
Definition confirmPlacement (picks : list (string * UnitType)) (fa : UnitFactory)
    (pp : option PlacementPhase) (s : State)
    : option (UnitFactory * option PlacementPhase * State) :=
  match pp with
  | None => Some (fa, None, s)
  | Some p =>
    if pp_currentPlayer p =? 1 then
      match placeLoop 2 (fun i => 2 - i / 3) 0 picks fa (units s) [] with
      | Some (fa', us, placed) =>
        Some (fa', Some (mkPlacement 2 placed None),
              logMessage
                "Player 2 - Click units to reposition them on rows 0-2. Press Confirm when ready."
                (set_units us s))
      | None => None
      end
    else
      Some (fa, None,
            logMessage "Placement complete - game starting!" (set_phase FACTION_1 s))
  end.

(** The units that the default placement makes of [picks] for faction [f]:
    in the order of the picks, fresh, each with the id and type of its
    pick. *)
Definition placedAs (f : Z) (picks : list (string * UnitType)) (news : list Unit) : Prop :=
  Forall2 (fun p u => unit_id u = p.1 /\ type u = p.2 /\ faction u = f /\ damage u = 0 /\
                      maxHp u = 5 /\ movedThisTurn u = false /\ lastTarget u = None)
          picks news.

(** Every unit stands on a board cell. *)
Definition onBoard (l : list Unit) : Prop :=
  forall u, In u l -> isValidHex (row u) (col u) = true.

(** Six drafted types with their ids. *)
Definition sixPicks : list (string * UnitType) :=
  [("p-1", UnitTypes.ARCHERS); ("p-2", UnitTypes.CANNON); ("p-3", UnitTypes.MOUNTED);
   ("p-4", UnitTypes.ARCHERS); ("p-5", UnitTypes.SPEARS); ("p-6", UnitTypes.JESTERS)].

(** ** The targeting session *)



(** ** Selecting and moving ([game.js]) *)

(** [state.selectedUnit], [state.validMoves] and [state.commanderTarget];
    the units are references. *)
Record Selecting := mkSelecting {
  selectedUnit : option nat;
  validMoves : list Hex;
  commanderTarget : option nat
}.

(** [state.validMoves.find(m => m.row === hex.row && m.col === hex.col)],
    as a truth value. *)
Definition isValidMove (ui : Selecting) (hex : Hex) : bool :=
  existsb (fun m => (hex_row m =? hex_row hex) && (hex_col m =? hex_col hex)) (validMoves ui).

(** [getValidMoves(unit)] for a reference. *)
Definition movesOf (s : State) (i : nat) : list Hex :=
  from_option (getValidMoves s) [] (units s !! i).

(** [state.phase === GamePhase.FACTION_1 ? 1 : 2] *)
Definition currentFaction (s : State) : Z :=
  match phase s with FACTION_1 => 1 | _ => 2 end.

(** The part of [handleClick] that runs in a faction phase; the callbacks
    of the unit picker are taken at once. *)
Definition selectOrMove (showUnitPickerModal : UnitPicker) (ui : Selecting) (s : State)
    (hex : Hex) : Selecting * State :=
  match selectedUnit ui with
  | Some sel =>
    match units s !! sel with
    | None => (ui, s)
    | Some su =>
      if (type_id (type su) =? type_id UnitTypes.COMMANDER) &&
         negb (bool_decide (is_Some (commanderTarget ui))) then
        if isValidMove ui hex then
          let friendlyUnits :=
            filterRefs (fun u => negb (String.eqb (unit_id u) (unit_id su)) &&
                                 (damage u <? maxHp u)) s
              (getFactionUnitsAt s (hex_row hex) (hex_col hex) (currentFaction s)) in
          if 1 <? Z.of_nat (length friendlyUnits) then
            match showUnitPickerModal (derefs s friendlyUnits) with
            | Some k =>
              match friendlyUnits !! k with
              | Some t => (mkSelecting (Some sel) (movesOf s t) (Some t), s)
              | None => (ui, s)
              end
            | None => (ui, s)
            end
          else if Z.of_nat (length friendlyUnits) =? 1 then
            match friendlyUnits with
            | t :: _ => (mkSelecting (Some sel) (movesOf s t) (Some t), s)
            | [] => (ui, s)
            end
          else (ui, s)
        else (mkSelecting None [] (commanderTarget ui), s)
      else
        match (if type_id (type su) =? type_id UnitTypes.COMMANDER
               then commanderTarget ui else None) with
        | Some t =>
          if isValidMove ui hex then
            let s1 := moveUnit showUnitPickerModal s t (hex_row hex) (hex_col hex) in
            (mkSelecting None [] None,
             set_activatedUnits ({[ unit_id su ]} ∪ activatedUnits s1) s1)
          else (mkSelecting (Some sel) (movesOf s sel) None, s)
        | None =>
          if isValidMove ui hex then
            let s1 := moveUnit showUnitPickerModal s sel (hex_row hex) (hex_col hex) in
            if bool_decide (pendingSecondMove s1 = Some (unit_id su))
            then (mkSelecting (Some sel) (movesOf s1 sel) (commanderTarget ui), s1)
            else (mkSelecting None [] (commanderTarget ui), s1)
          else
            let s1 :=
              if truthyString (pendingSecondMove s) then
                set_pendingSecondMove None
                  (set_activatedUnits
                     ({[ default EmptyString (pendingSecondMove s) ]} ∪ activatedUnits s) s)
              else s in
            (mkSelecting None [] (commanderTarget ui), s1)
        end
    end
  | None =>
    let unitsHere := getFactionUnitsAt s (hex_row hex) (hex_col hex) (currentFaction s) in
    if truthyString (pendingSecondMove s) then
      match findById s unitsHere (default EmptyString (pendingSecondMove s)) with
      | Some pendingUnit =>
        (mkSelecting (Some pendingUnit) (movesOf s pendingUnit) (commanderTarget ui), s)
      | None => (ui, s)
      end
    else
      let unactivated :=
        filterRefs (fun u => negb (bool_decide (unit_id u ∈ activatedUnits s))) s unitsHere in
      if 1 <? Z.of_nat (length unactivated) then
        match showUnitPickerModal (derefs s unactivated) with
        | Some k =>
          match unactivated !! k with
          | Some c => (mkSelecting (Some c) (movesOf s c) (commanderTarget ui), s)
          | None => (ui, s)
          end
        | None => (ui, s)
        end
      else if Z.of_nat (length unactivated) =? 1 then
        match unactivated with
        | c :: _ => (mkSelecting (Some c) (movesOf s c) (commanderTarget ui), s)
        | [] => (ui, s)
        end
      else (ui, s)
  end.

(** [handleClick(event)] for a click that [pixelToHex] maps to [hex];
    [pp] is [state.placementPhase]. *)
Definition handleClick (showUnitPickerModal : UnitPicker) (pp : option PlacementPhase)
    (ui : Selecting) (s : State) (hex : Hex) : option PlacementPhase * Selecting * State :=
  match pp with
  | Some p =>
    (Some (handlePlacementClick p s hex).1, ui, (handlePlacementClick p s hex).2)
  | None =>
    match phase s with
    | ABILITY_TARGETING => (None, ui, handleAbilityTargetingClick showUnitPickerModal s hex)
    | FACTION_1 | FACTION_2 =>
      (None, (selectOrMove showUnitPickerModal ui s hex).1,
       (selectOrMove showUnitPickerModal ui s hex).2)
    | _ => (None, ui, s)
    end
  end.

(** What the clicks of a faction phase maintain: the selected unit is a
    living unit of the faction at turn, the offered moves are those of the
    selected unit, or, once a Commander has chosen the unit it orders
    forward, those of that unit, which is again a living unit of the
    faction at turn; with nothing selected no such unit is remembered. *)
Definition selectionInv (ui : Selecting) (s : State) : Prop :=
  match selectedUnit ui with
  | None => commanderTarget ui = None
  | Some i =>
    exists u, units s !! i = Some u /\ isAlive u = true /\ faction u = currentFaction s /\
      match commanderTarget ui with
      | None => validMoves ui = getValidMoves s u
      | Some t =>
        type_id (type u) = type_id UnitTypes.COMMANDER /\
        exists tv, units s !! t = Some tv /\ isAlive tv = true /\
                   faction tv = currentFaction s /\ validMoves ui = getValidMoves s tv
      end
  end.

(** Faction 1's phase on the charge board, with the Mounted unit selected
    and its moves offered. *)
Definition chargeTurn : State := set_phase FACTION_1 chargeState.
Definition riderSelected : Selecting :=
  mkSelecting (Some 0%nat) (getValidMoves chargeTurn chargeRider) None.

(** ** Remembered targets and first targets *)

(** The ranged loop after its first [k] iterations. *)
Definition rangedPrefix (s : State) (k : nat) : State :=
  fold_left rangedStep (seq 0 k) s.

(** Outside index [i] the units of [l'] remember the targets they remember
    in [l]. *)
Definition memoryKept (i : nat) (l l' : list Unit) : Prop :=
  forall j, j <> i -> lastTarget <$> (l' !! j) = lastTarget <$> (l !! j).

(** A faction-1 Archers unit at (4,2) that has moved, and two faction-2
    units in range, the nearer one later in the array. *)
Definition volleyBoard : State :=
  set_units [mkUnit "a-1" UnitTypes.ARCHERS 1 4 2 0 5 true None 1;
             mkUnit "c-1" UnitTypes.CANNON 2 2 2 0 5 false None 1;
             mkUnit "s-1" UnitTypes.SPEARS 2 3 2 0 5 false None 1] createGameState.

(** A living enemy of [u] on a hex adjacent to [u]. *)
Definition adjacentEnemy (u v : Unit) : bool :=
  isAlive v && negb (faction v =? faction u) &&
  (hexDistance (row u) (col u) (row v) (col v) =? 1).

(** [t] is the first index of [l] whose unit satisfies [p]. *)
Definition firstWhere (p : Unit -> bool) (l : list Unit) (t : nat) : Prop :=
  (exists v, l !! t = Some v /\ p v = true) /\
  forall j v, (j < t)%nat -> l !! j = Some v -> p v = false.

(** A faction-1 Jesters unit at (3,2); of the two faction-2 units adjacent
    to it the Cannon comes first in the array. *)
Definition jesterBoard : State :=
  set_units [mkUnit "j-1" UnitTypes.JESTERS 1 3 2 0 5 false None 1;
             mkUnit "a-1" UnitTypes.ARCHERS 2 1 2 0 5 false None 1;
             mkUnit "c-1" UnitTypes.CANNON 2 2 2 0 5 false None 1;
             mkUnit "s-1" UnitTypes.SPEARS 2 3 3 0 5 false None 1] createGameState.

(** * Allocated damage *)

(** [ids.find(id => id === enemyId)] answers the first bearer: position [k]
    of [ids] holds [enemyId] and no earlier position does. *)
Definition bearsFirst (ids : list string) (k : nat) (enemyId : string) : bool :=
  match ids !! k with
  | Some x => String.eqb x enemyId &&
              forallb (fun y => negb (String.eqb y enemyId)) (take k ids)
  | None => false
  end.

(** What an allocation gives to the [k]-th target, [ids] being the ids of
    the targets in order: the positive amounts of the entries that name it. *)
Definition allotted (ids : list string) (k : nat) (allocation : list (string * Z)) : Z :=
  foldr (fun e acc => (if bearsFirst ids k e.1 && (0 <? e.2) then e.2 else 0) + acc)
        0 allocation.

(** The collaborator's contract in the words of the rules: every entry names
    one of the targets with a non-negative amount, and the amounts sum to
    the total. *)
Definition distributes (ids : list string) (total : Z)
    (allocation : list (string * Z)) : Prop :=
  Forall (fun e => In e.1 ids /\ 0 <= e.2) allocation /\
  foldr (fun e acc => e.2 + acc) 0 allocation = total.

(** The damage that the units [refs] carry, summed. *)
Definition damageOn (s : State) (refs : list nat) : Z :=
  foldr (fun i acc => from_option damage 0 (units s !! i) + acc) 0 refs.

(** A wounded Archers unit (3 of 5) and a Militia unit of faction 1 against
    a wounded Cannon (4 of 5) of faction 2 on (3,3).  Faction 1 strikes
    first and destroys the Cannon; the Cannon's 2 points are still handed
    to the allocator. *)
Definition crowdedStand : State :=
  set_units [woundedArchers;
             mkUnit "mi-1" UnitTypes.MILITIA 1 3 3 0 5 false None 1;
             woundedCannon] createGameState.

(** ** The damage allocation modal ([game.js]) *)

(** The buttons of the modal: [−] and [+] of the [k]-th listed enemy. *)
Inductive Press :=
| Minus (k : nat)
| Plus (k : nat).

(** [allocation.get(key)] and [allocation.set(key, v)] on the entries of a
    [Map]; a key that is present keeps its place. *)
Definition mapGet (key : string) (entries : list (string * Z)) : option Z :=
  snd <$> List.find (fun e => String.eqb e.1 key) entries.

Fixpoint mapSet (key : string) (v : Z) (entries : list (string * Z)) : list (string * Z) :=
  match entries with
  | [] => [(key, v)]
  | e :: rest => if String.eqb e.1 key then (e.1, v) :: rest else e :: mapSet key v rest
  end.

(** The modal's state: [allocation] and [remaining]. *)
Definition ModalState : Type := list (string * Z) * Z.

(** [enemies.forEach(enemy => allocation.set(enemy.id, 0))] and
    [let remaining = totalDamage]. *)
Definition openModal (enemies : list Unit) (totalDamage : Z) : ModalState :=
  (fold_left (fun allocation enemy => mapSet (unit_id enemy) 0 allocation) enemies [],
   totalDamage).

(** The click listeners of the two buttons. *)
Definition press (enemies : list Unit) (st : ModalState) (p : Press) : ModalState :=
  match p with
  | Minus k =>
    match enemies !! k with
    | Some enemy =>
      match mapGet (unit_id enemy) st.1 with
      | Some current =>
        if 0 <? current then (mapSet (unit_id enemy) (current - 1) st.1, st.2 + 1) else st
      | None => st
      end
    | None => st
    end
  | Plus k =>
    match enemies !! k with
    | Some enemy =>
      match mapGet (unit_id enemy) st.1 with
      | Some current =>
        if 0 <? st.2 then (mapSet (unit_id enemy) (current + 1) st.1, st.2 - 1) else st
      | None => st
      end
    | None => st
    end
  end.

(** The modal after the presses of a session. *)
Definition modalSession (enemies : list Unit) (totalDamage : Z) (presses : list Press)
    : ModalState :=
  fold_left (press enemies) presses (openModal enemies totalDamage).

(** [showDamageAllocationModal(enemies, totalDamage, attackingFaction,
    onConfirm)] as the allocator that [executeResolutionSequence] hands to
    [resolveCombatAsync]: [presses] are the buttons the players press in
    each session, and the answer is the allocation at the confirmation.
    The confirm button is enabled only while [remaining] is 0. *)
Definition showDamageAllocationModal (presses : list Unit -> Z -> Z -> list Press)
    : Allocator :=
  fun enemies totalDamage attackingFaction =>
    (modalSession enemies totalDamage (presses enemies totalDamage attackingFaction)).1.

Definition confirmEnabled (presses : list Unit -> Z -> Z -> list Press)
    (enemies : list Unit) (totalDamage attackingFaction : Z) : Prop :=
  (modalSession enemies totalDamage (presses enemies totalDamage attackingFaction)).2 = 0.

(** A session in which the player ends with both points on the first
    listed enemy: on the crowded board, the Archers, which they destroy. *)
Definition bothOnArchers : list Unit -> Z -> Z -> list Press :=
  fun _ _ _ => [Plus 0; Plus 1; Minus 1; Plus 0].

(** The sum of the amounts of an allocation. *)
Definition sumOf (entries : list (string * Z)) : Z :=
  foldr (fun e acc => e.2 + acc) 0 entries.

(** What the modal keeps true from its opening on: the keys are ids of
    listed enemies, no amount is negative, and the amounts and [remaining]
    add up to the total. *)
Definition modalInv (enemies : list Unit) (totalDamage : Z) (st : ModalState) : Prop :=
  Forall (fun e => In e.1 (unit_id <$> enemies)) st.1 /\
  Forall (fun e => 0 <= e.2) st.1 /\
  sumOf st.1 + st.2 = totalDamage.

(** Array order of a list of references: a later position holds a greater
    index into [units]. *)
Definition increasing (l : list nat) : Prop :=
  forall a b i j, l !! a = Some i -> l !! b = Some j -> (a < b)%nat -> (i < j)%nat.

(** A living enemy of [u] at distance 1 or 2 from [u]. *)
Definition enemyInRange (u v : Unit) : bool :=
  isAlive v && negb (faction v =? faction u) &&
  (0 <? hexDistance (row u) (col u) (row v) (col v)) &&
  (hexDistance (row u) (col u) (row v) (col v) <=? 2).

(** The battery board with no targeting session: the Cannon picks its
    target itself.  The Archers and the Militia on (1,2) come before the
    Spears on (2,3) in the array; all three are in range. *)
Definition mortarBoard : State := set_abilityTargeting None batteryBoard.

(** A listed unit that the targeting session has still to serve for the
    player at turn: it is that player's and has no selection recorded. *)
Definition awaitsTarget (s : State) (a : AbilityTargeting) (i : nat) : Prop :=
  exists u, units s !! i = Some u /\ faction u = at_currentPlayer a /\
            at_selections a !! unit_id u = None.

(** [i], at position [k] of the session's list, is the first such unit. *)
Definition firstAwaiting (s : State) (a : AbilityTargeting) (k i : nat) : Prop :=
  at_unitsToTarget a !! k = Some i /\ awaitsTarget s a i /\
  forall j i', (j < k)%nat -> at_unitsToTarget a !! j = Some i' -> ~ awaitsTarget s a i'.

(** Two faction-1 Cannons on (3,2) and the enemies of the battery board; a
    session of player 1 that lists the second Cannon before the first. *)
Definition secondCannon : Unit := mkUnit "c-2" UnitTypes.CANNON 1 3 2 0 5 false None 2.
Definition queueSession : AbilityTargeting := mkAT true 1 ∅ [1%nat; 0%nat].
Definition queueBoard : State :=
  set_abilityTargeting (Some queueSession)
    (set_phase ABILITY_TARGETING
       (set_units [batteryCannon; secondCannon; batteryArchers; batteryMilitia; batterySpears]
          createGameState)).

(** Four drafted types of the second player. *)
Definition fourPicks : list (string * UnitType) :=
  [("q-1", UnitTypes.MILITIA); ("q-2", UnitTypes.MUSKETS); ("q-3", UnitTypes.AERIAL);
   ("q-4", UnitTypes.COMMANDER)].

(** The selection as [createGameState] has it: [selectedUnit: null],
    [validMoves: []], [commanderTarget: null]. *)
Definition initialSelecting : Selecting := mkSelecting None [] None.

(** A run of clicks with no placement phase going on and no other input
    between the clicks. *)
Definition clickRun (showUnitPickerModal : UnitPicker) (ui : Selecting) (s : State)
    (hexes : list Hex) : Selecting * State :=
  fold_left (fun st hex =>
               ((handleClick showUnitPickerModal None st.1 st.2 hex).1.2,
                (handleClick showUnitPickerModal None st.1 st.2 hex).2))
            hexes (ui, s).

(** What [endPhase()] does to the selection: its last lines clear
    [selectedUnit] and [validMoves], but the branches of faction 2's phase
    and of ability targeting return before them, and no line touches
    [commanderTarget]. *)
Definition endPhaseSelecting (ui : Selecting) (s : State) : Selecting :=
  match phase s with
  | FACTION_2 | ABILITY_TARGETING => ui
  | _ => mkSelecting None [] (commanderTarget ui)
  end.

(** What the Escape key does: with a unit selected it clears
    [selectedUnit] and [validMoves] and closes a pending second move; it
    leaves [commanderTarget] as it is. *)
Definition escapeKey (ui : Selecting) (s : State) : Selecting * State :=
  match selectedUnit ui with
  | Some _ =>
    (mkSelecting None [] (commanderTarget ui),
     if truthyString (pendingSecondMove s) then
       set_pendingSecondMove None
         (set_activatedUnits
            ({[ default EmptyString (pendingSecondMove s) ]} ∪ activatedUnits s) s)
     else s)
  | None => (ui, s)
  end.

(** A Commander, an Archers unit and a Militia unit of faction 1 on (4,2),
    (4,3) and (4,0), a Commander and a Spears unit of faction 2 on (1,2)
    and (1,3); faction 1's phase. *)
Definition commandBoard : State :=
  set_phase FACTION_1
    (set_units [mkUnit "k-1" UnitTypes.COMMANDER 1 4 2 0 5 false None 1;
                mkUnit "a-1" UnitTypes.ARCHERS 1 4 3 0 5 false None 1;
                mkUnit "k-2" UnitTypes.COMMANDER 2 1 2 0 5 false None 1;
                mkUnit "s-1" UnitTypes.SPEARS 2 1 3 0 5 false None 1;
                mkUnit "mi-1" UnitTypes.MILITIA 1 4 0 0 5 false None 1] createGameState).

(** * Properties *)

(** ** Geometry *)

Lemma isValidHex_spec (r c : Z) :
  isValidHex r c = true <-> 0 <= r < 6 /\ 0 <= c < 6.
Proof. unfold isValidHex. lia. Qed.

Lemma hexDistance_refl (r c : Z) : hexDistance r c r c = 0.
Proof. unfold hexDistance, toCube. lia. Qed.

Lemma hexDistance_sym (r1 c1 r2 c2 : Z) :
  hexDistance r1 c1 r2 c2 = hexDistance r2 c2 r1 c1.
Proof. unfold hexDistance, toCube. lia. Qed.

Lemma hexDistance_zero (r1 c1 r2 c2 : Z) :
  hexDistance r1 c1 r2 c2 = 0 -> r1 = r2 /\ c1 = c2.
Proof.
  unfold hexDistance, toCube. intros H.
  assert (Hc : c1 = c2) by lia. subst c2. lia.
Qed.

Lemma hexDistance_nonneg (r1 c1 r2 c2 : Z) : 0 <= hexDistance r1 c1 r2 c2.
Proof. unfold hexDistance, toCube. lia. Qed.

Lemma adjacent_in_offsets (r c : Z) (b : Hex) :
  In b (getAdjacentHexes r c) ->
  exists dr dc, b = mkHex (r + dr) (c + dc) /\
    In (dr, dc) (if Z.rem c 2 =? 1 then oddOffsets else evenOffsets).
Proof.
  unfold getAdjacentHexes. intros H.
  apply filter_In in H as [H _]. apply in_map_iff in H as [[dr dc] [Hb Hin]].
  exists dr, dc. split; [symmetry; exact Hb | exact Hin].
Qed.

Lemma adjacent_distance (r c : Z) (b : Hex) :
  0 <= c ->
  In b (getAdjacentHexes r c) ->
  hexDistance r c (hex_row b) (hex_col b) = 1.
Proof.
  intros Hc Hin. apply adjacent_in_offsets in Hin as (dr & dc & -> & Hin).
  assert (Hrem : Z.rem c 2 = c mod 2) by (apply Z.rem_mod_nonneg; lia).
  rewrite Hrem in Hin. cbn [hex_row hex_col].
  unfold hexDistance, toCube.
  destruct (c mod 2 =? 1) eqn:Hodd.
  - apply Z.eqb_eq in Hodd.
    unfold oddOffsets in Hin. cbn [In] in Hin.
    repeat (destruct Hin as [Hin | Hin]; [inversion Hin; subst dr dc; clear Hin |]);
      try contradiction;
      Z.to_euclidean_division_equations; lia.
  - apply Z.eqb_neq in Hodd.
    unfold evenOffsets in Hin. cbn [In] in Hin.
    repeat (destruct Hin as [Hin | Hin]; [inversion Hin; subst dr dc; clear Hin |]);
      try contradiction;
      Z.to_euclidean_division_equations; lia.
Qed.

Lemma adjacent_in_bounds (r c : Z) (b : Hex) :
  In b (getAdjacentHexes r c) -> isValidHex (hex_row b) (hex_col b) = true.
Proof. unfold getAdjacentHexes. intros H. apply filter_In in H. tauto. Qed.

(** C8: for in-bounds cells [a] and [b], [hexDistance a a = 0], the distance
    is symmetric, it is [0] only between equal cells, and every cell that
    [getAdjacentHexes a] returns is at distance [1] from [a]. *)
Theorem hexDistance_in_bounds_properties (r1 c1 r2 c2 : Z) :
  isValidHex r1 c1 = true ->
  isValidHex r2 c2 = true ->
  hexDistance r1 c1 r1 c1 = 0 /\
  hexDistance r1 c1 r2 c2 = hexDistance r2 c2 r1 c1 /\
  (hexDistance r1 c1 r2 c2 = 0 -> mkHex r1 c1 = mkHex r2 c2) /\
  (forall b, In b (getAdjacentHexes r1 c1) ->
             hexDistance r1 c1 (hex_row b) (hex_col b) = 1).
Proof.
  intros Ha Hb. apply isValidHex_spec in Ha. apply isValidHex_spec in Hb.
  split; [apply hexDistance_refl |].
  split; [apply hexDistance_sym |].
  split.
  - intros H0. apply hexDistance_zero in H0 as [-> ->]. reflexivity.
  - intros b Hin. apply adjacent_distance; [lia | exact Hin].
Qed.

Lemma hexDistance_in_bounds_properties_witness :
  isValidHex 3 1 = true /\ isValidHex 4 2 = true /\
  hexDistance 3 1 3 1 = 0 /\
  hexDistance 3 1 4 2 = hexDistance 4 2 3 1 /\
  (hexDistance 3 1 4 2 = 0 -> mkHex 3 1 = mkHex 4 2) /\
  (forall b, In b (getAdjacentHexes 3 1) ->
             hexDistance 3 1 (hex_row b) (hex_col b) = 1).
Proof.
  split; [reflexivity |]. split; [reflexivity |].
  apply (hexDistance_in_bounds_properties 3 1 4 2); reflexivity.
Defined.

Example adjacent_hexes_3_1 :
  getAdjacentHexes 3 1 =
  [mkHex 3 0; mkHex 4 0; mkHex 2 1; mkHex 4 1; mkHex 3 2; mkHex 4 2].
Proof. reflexivity. Qed.

Example adjacent_hexes_corner : getAdjacentHexes 0 0 = [mkHex 1 0; mkHex 0 1].
Proof. reflexivity. Qed.

(** ** Archers volley *)

Lemma isNewTarget_spec (u target : Unit) :
  isNewTarget u target = true <->
  exists l, lastTarget u = Some l /\ l <> EmptyString /\ l <> unit_id target.
Proof.
  unfold isNewTarget, truthyString. destruct (lastTarget u) as [l |].
  - rewrite andb_true_iff, !negb_true_iff.
    split.
    + intros [H1 H2]. exists l. split; [reflexivity |].
      split; [apply String.eqb_neq, H1 | apply String.eqb_neq, H2].
    + intros (l' & Hl & H1 & H2). inversion Hl; subst l'.
      split; apply String.eqb_neq; assumption.
  - split; [discriminate | intros (l & Hl & _); discriminate].
Qed.

(** C5: the volley deals base 2, minus 1 if the unit moved this turn, minus
    1 if the target differs from the remembered last target (a unit id,
    hence a non-empty string), floored at 0; a unit that moved and aims at
    a target other than the remembered one deals 0. *)
Theorem calculateArchersVolleyDamage_spec (u target : Unit) :
  lastTarget u <> Some EmptyString ->
  calculateArchersVolleyDamage u target =
    Z.max 0 (2 - movedPenalty u - newTargetPenalty u target) /\
  (movedThisTurn u = true ->
   (exists l, lastTarget u = Some l /\ l <> unit_id target) ->
   calculateArchersVolleyDamage u target = 0).
Proof.
  intros Hid.
  assert (Heq : calculateArchersVolleyDamage u target =
                Z.max 0 (2 - movedPenalty u - newTargetPenalty u target)).
  { unfold calculateArchersVolleyDamage, movedPenalty, newTargetPenalty,
      isNewTarget, truthyString.
    destruct (lastTarget u) as [l |] eqn:Hl.
    - destruct (String.eqb l EmptyString) eqn:He.
      + apply String.eqb_eq in He. subst l. contradiction.
      + cbn [negb andb]. destruct (String.eqb l (unit_id target));
          destruct (movedThisTurn u); reflexivity.
    - cbn [andb]. destruct (movedThisTurn u); reflexivity. }
  split; [exact Heq |].
  intros Hm (l & Hl & Hne). rewrite Heq.
  unfold movedPenalty, newTargetPenalty. rewrite Hm, Hl.
  apply String.eqb_neq in Hne. rewrite Hne. reflexivity.
Qed.

Lemma calculateArchersVolleyDamage_spec_witness :
  lastTarget volleyArcher <> Some EmptyString /\
  calculateArchersVolleyDamage volleyArcher volleyTarget =
    Z.max 0 (2 - movedPenalty volleyArcher - newTargetPenalty volleyArcher volleyTarget) /\
  (movedThisTurn volleyArcher = true ->
   (exists l, lastTarget volleyArcher = Some l /\ l <> unit_id volleyTarget) ->
   calculateArchersVolleyDamage volleyArcher volleyTarget = 0).
Proof.
  split; [discriminate |].
  apply (calculateArchersVolleyDamage_spec volleyArcher volleyTarget). discriminate.
Defined.

Example volley_moved_new_target :
  calculateArchersVolleyDamage volleyArcher volleyTarget = 0.
Proof. reflexivity. Qed.

Example volley_no_remembered_target :
  calculateArchersVolleyDamage (set_lastTarget None volleyArcher) volleyTarget = 1.
Proof. reflexivity. Qed.

Example volley_same_target_not_moved :
  calculateArchersVolleyDamage
    (set_moved false (set_lastTarget (Some "e-2") volleyArcher)) volleyTarget = 2.
Proof. reflexivity. Qed.

(** ** Win evaluator *)

(** C2: the win evaluator.  With the instant-win marker set, that faction
    wins.  Otherwise, with [diff = castleDamage[1] - castleDamage[2]]:
    [diff >= 2] gives faction 2, [diff <= -2] gives faction 1; else
    [diff = 1] increments faction 1's streak and resets faction 2's,
    [diff = -1] the reverse, [diff = 0] resets both; a streak of faction 1
    that reaches 2 makes faction 2 the winner, and symmetrically; otherwise
    there is no winner. *)
Theorem checkWinCondition_spec (s : State) :
  let diff := pf1 (castleDamage s) - pf2 (castleDamage s) in
  let c := consecutiveDamageRounds s in
  (forall f, batteryRamWin s = Some f -> f <> 0 ->
     winnerOf s = Some f /\ (checkWinCondition s).2 = s) /\
  (truthyNumber (batteryRamWin s) = false ->
     (diff >= 2 -> winnerOf s = Some 2) /\
     (diff <= -2 -> winnerOf s = Some 1) /\
     (diff = 1 ->
        streaksAfter s = mkPF (pf1 c + 1) 0 /\
        winnerOf s = if pf1 c + 1 >=? 2 then Some 2 else None) /\
     (diff = -1 ->
        streaksAfter s = mkPF 0 (pf2 c + 1) /\
        winnerOf s = if pf2 c + 1 >=? 2 then Some 1 else None) /\
     (diff = 0 -> streaksAfter s = mkPF 0 0 /\ winnerOf s = None)).
Proof.
  cbv zeta. unfold winnerOf, streaksAfter, checkWinCondition. split.
  - intros f Hf Hne. rewrite Hf. cbn [truthyNumber default].
    destruct (f =? 0) eqn:E; [lia |]. cbn. split; reflexivity.
  - intros Hm. rewrite Hm.
    set (d := pf1 (castleDamage s) - pf2 (castleDamage s)).
    split; [| split; [| split; [| split]]]; intros Hd.
    + destruct (d >=? 2) eqn:E; [reflexivity | lia].
    + destruct (d >=? 2) eqn:E1; [lia |].
      destruct (d <=? -2) eqn:E2; [reflexivity | lia].
    + rewrite Hd. cbn.
      destruct (pf1 (consecutiveDamageRounds s) + 1 >=? 2); split; reflexivity.
    + rewrite Hd. cbn.
      destruct (pf2 (consecutiveDamageRounds s) + 1 >=? 2); split; reflexivity.
    + rewrite Hd. split; reflexivity.
Qed.

Lemma checkWinCondition_spec_witness :
  truthyNumber (batteryRamWin (leadState 1 0 (mkPF 1 0))) = false /\
  streaksAfter (leadState 1 0 (mkPF 1 0)) = mkPF 2 0 /\
  winnerOf (leadState 1 0 (mkPF 1 0)) = Some 2.
Proof.
  split; [reflexivity |].
  exact (proj1 (proj2 (proj2 (proj2 (checkWinCondition_spec (leadState 1 0 (mkPF 1 0)))
                                eq_refl)))
           eq_refl).
Defined.

Example win_by_two : winnerOf (leadState 2 0 (mkPF 0 0)) = Some 2.
Proof. reflexivity. Qed.

Example single_round_lead_no_winner : winnerOf (leadState 1 0 (mkPF 0 0)) = None.
Proof. reflexivity. Qed.

(** Two evaluated rounds in a row with a lead of one: the second evaluation,
    run on the state that the first one left, ends the game. *)
Example two_round_lead_wins :
  let s1 := (checkWinCondition (leadState 1 0 (mkPF 0 0))).2 in
  winnerOf (leadState 1 0 (mkPF 0 0)) = None /\ winnerOf s1 = Some 2.
Proof. split; reflexivity. Qed.

Example marker_overrides_damage :
  winnerOf (set_batteryRamWin (Some 1) (leadState 5 0 (mkPF 0 0))) = Some 1.
Proof. reflexivity. Qed.

(** ** Damage and cleanup *)

Lemma units_set_log (l : list string) (s : State) : units (set_log l s) = units s.
Proof. reflexivity. Qed.

Lemma units_logMessage (m : string) (s : State) : units (logMessage m s) = units s.
Proof. reflexivity. Qed.

(** On the unit array, [applyDamage] is the in-place update of one cell. *)
Lemma units_applyDamage (s : State) (i : nat) (amount : Z) (src : option string) :
  units (applyDamage s i amount src) = alter (addDamage amount) i (units s).
Proof.
  unfold applyDamage. destruct (units s !! i) as [u |] eqn:Hu.
  - assert (Hal : alter (addDamage amount) i (units s)
                  = <[i := addDamage amount u]> (units s)).
    { apply list_eq. intros j. destruct (decide (i = j)) as [<- | Hne].
      - apply lookup_lt_Some in Hu as Hlt.
        rewrite list_lookup_alter_eq, list_lookup_insert_eq, Hu by exact Hlt.
        reflexivity.
      - rewrite list_lookup_alter_ne, list_lookup_insert_ne by exact Hne.
        reflexivity. }
    rewrite Hal. unfold addDamage.
    destruct (negb (truthyString src));
      destruct (damage (set_damage (damage u + amount) u)
                >=? maxHp (set_damage (damage u + amount) u)); reflexivity.
  - apply list_eq. intros j. destruct (decide (i = j)) as [<- | Hne].
    + rewrite list_lookup_alter_eq, Hu. reflexivity.
    + rewrite list_lookup_alter_ne by exact Hne. reflexivity.
Qed.

Lemma applyDamage_lookup_eq (s : State) (i : nat) (amount : Z) (src : option string) :
  units (applyDamage s i amount src) !! i = addDamage amount <$> units s !! i.
Proof. rewrite units_applyDamage. apply list_lookup_alter_eq. Qed.

Lemma applyDamage_lookup_ne (s : State) (i j : nat) (amount : Z) (src : option string) :
  i <> j -> units (applyDamage s i amount src) !! j = units s !! j.
Proof. intros H. rewrite units_applyDamage. apply list_lookup_alter_ne. exact H. Qed.

Lemma applyDamage_length (s : State) (i : nat) (amount : Z) (src : option string) :
  length (units (applyDamage s i amount src)) = length (units s).
Proof. rewrite units_applyDamage. apply length_alter. Qed.

Lemma isAlive_spec (u : Unit) : isAlive u = true <-> damage u < maxHp u.
Proof. unfold isAlive. lia. Qed.

Lemma fold_pushDestroyed (dead : list Unit) (d : PerFaction (list Unit)) :
  fold_left pushDestroyed dead d =
  mkPF (pf1 d ++ List.filter (fun u => negb (faction u =? 1)) dead)
       (pf2 d ++ List.filter (fun u => faction u =? 1) dead).
Proof.
  revert d. induction dead as [| u dead IH]; intros d.
  - cbn. rewrite !app_nil_r. destruct d; reflexivity.
  - cbn [fold_left List.filter]. rewrite IH. unfold pushDestroyed, pf_update.
    destruct (faction u =? 1) eqn:Hf; cbn.
    + rewrite <- app_assoc. reflexivity.
    + rewrite <- app_assoc. reflexivity.
Qed.

Lemma units_removeDeadUnits (s : State) :
  units (removeDeadUnits s) = List.filter isAlive (units s).
Proof. reflexivity. Qed.

(** C10: [applyDamage] adds exactly [amount] to the unit's damage and
    leaves every other unit alone, without clamping at [maxHp] (damage can
    end strictly above it); a unit is alive exactly when
    [damage < maxHp], and [removeDeadUnits] keeps exactly the units that
    satisfy this predicate and moves the others to the destroyed list of
    the opposing faction. *)
Theorem applyDamage_exact_unclamped (s : State) (i : nat) (u : Unit)
    (amount : Z) (src : option string) :
  units s !! i = Some u ->
  let s' := applyDamage s i amount src in
  (exists u', units s' !! i = Some u' /\
              damage u' = damage u + amount /\
              maxHp u' = maxHp u /\
              (maxHp u < damage u + amount -> maxHp u' < damage u') /\
              (isAlive u' = true <-> damage u' < maxHp u')) /\
  (forall j, j <> i -> units s' !! j = units s !! j) /\
  length (units s') = length (units s) /\
  units (removeDeadUnits s') = List.filter (fun v => damage v <? maxHp v) (units s') /\
  pf1 (destroyedUnits (removeDeadUnits s')) =
    pf1 (destroyedUnits s') ++
    List.filter (fun v => negb (faction v =? 1))
      (List.filter (fun v => negb (damage v <? maxHp v)) (units s')) /\
  pf2 (destroyedUnits (removeDeadUnits s')) =
    pf2 (destroyedUnits s') ++
    List.filter (fun v => faction v =? 1)
      (List.filter (fun v => negb (damage v <? maxHp v)) (units s')).
Proof.
  intros Hu s'. split.
  - exists (addDamage amount u). subst s'.
    rewrite applyDamage_lookup_eq, Hu. cbn.
    split; [reflexivity |]. split; [reflexivity |]. split; [reflexivity |].
    split; [lia |]. unfold isAlive, addDamage. cbn. lia.
  - split; [intros j Hj; apply applyDamage_lookup_ne; congruence |].
    split; [apply applyDamage_length |].
    split; [reflexivity |].
    unfold removeDeadUnits. cbn [destroyedUnits set_units set_destroyedUnits].
    rewrite fold_pushDestroyed. cbn [pf1 pf2]. split; reflexivity.
Qed.

Lemma applyDamage_exact_unclamped_witness :
  units oneArcher !! 0%nat = Some freshArcher /\
  exists u', units (applyDamage oneArcher 0 7 None) !! 0%nat = Some u' /\
             damage u' = 7 /\ maxHp u' = 5.
Proof.
  split; [reflexivity |].
  destruct (applyDamage_exact_unclamped oneArcher 0 freshArcher 7 None eq_refl)
    as [[u' (H1 & H2 & H3 & _)] _].
  exists u'. split; [exact H1 |]. split; [exact H2 | exact H3].
Defined.

(** Seven points on a fresh unit: the damage is 7 of 5, and cleanup moves
    the unit to the destroyed list of faction 2. *)
Example overkill_is_recorded :
  damage <$> units (applyDamage oneArcher 0 7 None) !! 0%nat = Some 7 /\
  units (removeDeadUnits (applyDamage oneArcher 0 7 None)) = [] /\
  List.map unit_id (pf2 (destroyedUnits (removeDeadUnits (applyDamage oneArcher 0 7 None))))
    = ["a-1"].
Proof. repeat split. Qed.

Example applyDamage_log :
  log (applyDamage oneArcher 0 7 None) =
  ["🏹 Archers takes 7 damage (7/5)"; "🏹 Archers is destroyed!"].
Proof. vm_compute. reflexivity. Qed.

(** ** Display names *)

Lemma string_app_nil_r (x : string) : x +:+ EmptyString = x.
Proof.
  induction x as [| a x IH]; [reflexivity |].
  change (String a x +:+ EmptyString) with (String a (x +:+ EmptyString)). rewrite IH. reflexivity.
Qed.

Lemma numberedName_neq_plainName (u : Unit) : numberedName u <> plainName u.
Proof.
  unfold numberedName, plainName. intros H.
  apply String.app_inj in H. apply String.app_inj in H.
  rewrite <- (string_app_nil_r (type_name (type u))) in H at 2.
  apply String.app_inj in H. discriminate H.
Qed.

Lemma filter_all_true {A} (p q : A -> bool) (l : list A) :
  (forall x, In x l -> q x = true) ->
  List.filter (fun x => p x && q x) l = List.filter p l.
Proof.
  induction l as [| x l IH]; intros H; [reflexivity |].
  cbn [List.filter]. rewrite (H x) by (left; reflexivity). rewrite andb_true_r.
  rewrite IH by (intros y Hy; apply H; right; exact Hy). reflexivity.
Qed.

(** C7, as the code has it: the numbered form is returned exactly when more
    than one unit of the unit's faction and type is in [state.units],
    destroyed units that cleanup has not yet removed included, and the
    plain form otherwise; the count is taken from [state.units] at every
    call.  When no destroyed unit is in the array the count is the count of
    living units. *)
Theorem getUnitDisplayName_counts_array (s : State) (u : Unit) :
  (getUnitDisplayName s u = numberedName u <-> (1 < length (sameTypeUnits s u))%nat) /\
  (getUnitDisplayName s u = plainName u <-> (length (sameTypeUnits s u) <= 1)%nat) /\
  (forall v, In v (sameTypeUnits s u) <->
             In v (units s) /\ faction v = faction u /\ type_id (type v) = type_id (type u)) /\
  ((forall v, In v (units s) -> isAlive v = true) ->
   sameTypeUnits s u = livingSameType s u).
Proof.
  pose proof (numberedName_neq_plainName u) as Hne.
  unfold getUnitDisplayName. fold (numberedName u). fold (plainName u).
  destruct (1 <? Z.of_nat (length (sameTypeUnits s u))) eqn:E.
  - split; [split; [lia | reflexivity] |].
    split; [split; [intros H; contradiction | lia] |].
    split.
    + intros v. unfold sameTypeUnits.
      rewrite filter_In, andb_true_iff, !Z.eqb_eq. tauto.
    + intros Hall. unfold sameTypeUnits, livingSameType. symmetry.
      apply (filter_all_true
               (fun v => (faction v =? faction u) && (type_id (type v) =? type_id (type u)))
               isAlive). exact Hall.
  - split; [split; [intros H; symmetry in H; contradiction | lia] |].
    split; [split; [lia | reflexivity] |].
    split.
    + intros v. unfold sameTypeUnits.
      rewrite filter_In, andb_true_iff, !Z.eqb_eq. tauto.
    + intros Hall. unfold sameTypeUnits, livingSameType. symmetry.
      apply (filter_all_true
               (fun v => (faction v =? faction u) && (type_id (type v) =? type_id (type u)))
               isAlive). exact Hall.
Qed.

Lemma getUnitDisplayName_counts_array_witness :
  (forall v, In v (units twoArchers) -> isAlive v = true) /\
  sameTypeUnits twoArchers archer1 = livingSameType twoArchers archer1.
Proof.
  assert (H : forall v, In v (units twoArchers) -> isAlive v = true).
  { intros v [<- | [<- | []]]; reflexivity. }
  split; [exact H |].
  exact (proj2 (proj2 (proj2 (getUnitDisplayName_counts_array twoArchers archer1))) H).
Defined.

(** C7 as stated fails: one living Archers unit of faction 1 exists, and the
    name still carries the sequence number. *)
Lemma getUnitDisplayName_counts_destroyed :
  ~ (getUnitDisplayName oneArcherLeft archer1 = numberedName archer1 <->
     (1 < length (livingSameType oneArcherLeft archer1))%nat).
Proof.
  intros [H _].
  assert (Hn : getUnitDisplayName oneArcherLeft archer1 = numberedName archer1)
    by (vm_compute; reflexivity).
  specialize (H Hn). vm_compute in H. lia.
Qed.

Example display_name_values :
  getUnitDisplayName oneArcherLeft archer1 = "🏹 Archers #1" /\
  getUnitDisplayName (removeDeadUnits oneArcherLeft) archer1 = "🏹 Archers" /\
  getUnitDisplayName oneArcher freshArcher = "🏹 Archers".
Proof. vm_compute. repeat split. Qed.

(** The log of the lethal hit names the destroyed unit with its number,
    although a single Archers unit of faction 1 is alive by then. *)
Example display_name_in_damage_log :
  log oneArcherLeft =
  ["🏹 Archers #2 takes 5 damage (5/5)"; "🏹 Archers #2 is destroyed!"].
Proof. vm_compute. reflexivity. Qed.

(** ** Castle damage and the Battery Ram *)

Lemma hasUnengagedRam_units (s s' : State) (f : Z) :
  units s' = units s -> hasUnengagedRam s' f = hasUnengagedRam s f.
Proof.
  intros H.
  unfold hasUnengagedRam, isUnengagedRam, unitsInCastle, isEngaged,
    getFactionUnitsAt, filterRefs, getUnitsAt, filterUnits.
  rewrite H. reflexivity.
Qed.

Lemma castleLoop_ram_first (s : State) (f : Z) (rest : list Z) :
  hasUnengagedRam s f = true ->
  castleLoop (f :: rest) s =
  logMessage ("Battery Ram crashes through! Player " +:+ pretty f +:+ " wins!")
    (set_batteryRamWin (Some f) s).
Proof.
  intros H. cbn [castleLoop]. unfold hasUnengagedRam in H. rewrite H. reflexivity.
Qed.

Lemma castleLoop_no_ram (s : State) (f : Z) (rest : list Z) :
  hasUnengagedRam s f = false ->
  castleLoop (f :: rest) s = castleLoop rest (afterCounting s f).
Proof.
  intros H. cbn [castleLoop]. unfold hasUnengagedRam in H. rewrite H. reflexivity.
Qed.

Lemma units_afterCounting (s : State) (f : Z) : units (afterCounting s f) = units s.
Proof. unfold afterCounting. destruct (0 <? unengagedInCastle s f); reflexivity. Qed.

Lemma castleDamage_afterCounting_1 (s : State) :
  castleDamage (afterCounting s 1) =
  mkPF (pf1 (castleDamage s)) (pf2 (castleDamage s) + unengagedInCastle s 1).
Proof.
  unfold afterCounting. pose proof (Nat2Z.is_nonneg
    (length (List.filter (fun u => negb (isEngaged s u)) (unitsInCastle s 1)))) as Hn.
  fold (unengagedInCastle s 1) in Hn.
  destruct (0 <? unengagedInCastle s 1) eqn:E.
  - reflexivity.
  - assert (H0 : unengagedInCastle s 1 = 0) by lia. rewrite H0, Z.add_0_r.
    destruct (castleDamage s); reflexivity.
Qed.

Lemma batteryRamWin_afterCounting (s : State) (f : Z) :
  batteryRamWin (afterCounting s f) = batteryRamWin s.
Proof. unfold afterCounting. destruct (0 <? unengagedInCastle s f); reflexivity. Qed.

(** C4, as the code has it: castle evaluation visits faction 1, then faction
    2, and stops at the first one that has a living, unengaged Battery Ram
    in the enemy castle row; that faction wins.  With faction 1's ram no
    castle damage is added to either total.  With faction 2's ram (faction 1
    having none) faction 1's total is unchanged, and faction 2's total has
    already received one point per unengaged faction-1 unit in row 0. *)
Theorem calculateCastleDamage_ram_short_circuit (s : State) :
  (hasUnengagedRam s 1 = true ->
     batteryRamWin (calculateCastleDamage s) = Some 1 /\
     castleDamage (calculateCastleDamage s) = castleDamage s /\
     winnerOf (calculateCastleDamage s) = Some 1 /\
     phase (resolveCastleAndWin s) = GAME_OVER) /\
  (hasUnengagedRam s 1 = false -> hasUnengagedRam s 2 = true ->
     batteryRamWin (calculateCastleDamage s) = Some 2 /\
     pf1 (castleDamage (calculateCastleDamage s)) = pf1 (castleDamage s) /\
     pf2 (castleDamage (calculateCastleDamage s)) =
       pf2 (castleDamage s) + unengagedInCastle s 1 /\
     winnerOf (calculateCastleDamage s) = Some 2 /\
     phase (resolveCastleAndWin s) = GAME_OVER).
Proof.
  unfold calculateCastleDamage, resolveCastleAndWin, calculateCastleDamage. split.
  - intros H1. rewrite (castleLoop_ram_first s 1 [2] H1).
    repeat split.
  - intros H1 H2. rewrite (castleLoop_no_ram s 1 [2] H1).
    assert (H2' : hasUnengagedRam (afterCounting s 1) 2 = true).
    { rewrite (hasUnengagedRam_units s); [exact H2 | apply units_afterCounting]. }
    rewrite (castleLoop_ram_first _ 2 [] H2').
    cbn [batteryRamWin castleDamage logMessage set_log set_batteryRamWin].
    rewrite castleDamage_afterCounting_1. cbn [pf1 pf2].
    repeat split.
Qed.

Lemma calculateCastleDamage_ram_short_circuit_witness :
  hasUnengagedRam ramRaid 1 = false /\ hasUnengagedRam ramRaid 2 = true /\
  batteryRamWin (calculateCastleDamage ramRaid) = Some 2 /\
  pf1 (castleDamage (calculateCastleDamage ramRaid)) = pf1 (castleDamage ramRaid) /\
  pf2 (castleDamage (calculateCastleDamage ramRaid)) =
    pf2 (castleDamage ramRaid) + unengagedInCastle ramRaid 1 /\
  winnerOf (calculateCastleDamage ramRaid) = Some 2 /\
  phase (resolveCastleAndWin ramRaid) = GAME_OVER.
Proof.
  split; [reflexivity |]. split; [reflexivity |].
  exact (proj2 (calculateCastleDamage_ram_short_circuit ramRaid) eq_refl eq_refl).
Defined.

(** C4 as stated fails: faction 2 wins by its ram, and faction 2's castle
    total has grown by one in the same evaluation. *)
Lemma ram_of_faction_2_after_counting :
  ~ (hasUnengagedRam ramRaid 2 = true ->
     batteryRamWin (calculateCastleDamage ramRaid) = Some 2 /\
     castleDamage (calculateCastleDamage ramRaid) = castleDamage ramRaid).
Proof.
  intros H. destruct (H eq_refl) as [_ Hc].
  vm_compute in Hc. discriminate Hc.
Qed.

Example ram_raid_totals :
  castleDamage ramRaid = mkPF 0 0 /\
  castleDamage (calculateCastleDamage ramRaid) = mkPF 0 1 /\
  batteryRamWin (calculateCastleDamage ramRaid) = Some 2.
Proof. vm_compute. repeat split. Qed.

(** Both factions hold such a ram: faction 1 is visited first and wins. *)
Example both_rams_faction_1_wins :
  let s := set_units [mkUnit "r-0" UnitTypes.BATTERY_RAM 1 0 0 0 5 false None 1; raidRam]
             createGameState in
  hasUnengagedRam s 2 = true /\ winnerOf (calculateCastleDamage s) = Some 1.
Proof. vm_compute. split; reflexivity. Qed.

(** An engaged ram does not end the game, and engaged units deal no castle
    damage. *)
Example engaged_ram_no_win :
  let s := set_units [raidRam; mkUnit "s-1" UnitTypes.SPEARS 1 5 3 0 5 false None 1]
             createGameState in
  batteryRamWin (calculateCastleDamage s) = None /\
  castleDamage (calculateCastleDamage s) = mkPF 0 0.
Proof. vm_compute. split; reflexivity. Qed.

(** ** Ability targeting scan *)

Lemma indicesFrom_spec (p : Unit -> bool) (l : list Unit) (k i : nat) :
  In i (indicesFrom k p l) <->
  exists u, (k <= i)%nat /\ l !! (i - k)%nat = Some u /\ p u = true.
Proof.
  revert k. induction l as [| x l IH]; intros k.
  - cbn. split; [intros [] | intros (u & _ & H & _); discriminate H].
  - cbn [indicesFrom]. destruct (p x) eqn:Hp.
    + cbn [In]. rewrite IH. split.
      * intros [<- | (u & Hle & Hu & Hpu)].
        -- exists x. rewrite Nat.sub_diag. auto.
        -- exists u. split; [lia |]. split; [| exact Hpu].
           replace (i - k)%nat with (S (i - S k)) by lia. exact Hu.
      * intros (u & Hle & Hu & Hpu).
        destruct (decide (i = k)) as [-> | Hne]; [left; reflexivity | right].
        exists u. split; [lia |]. split; [| exact Hpu].
        replace (i - k)%nat with (S (i - S k)) in Hu by lia. exact Hu.
    + rewrite IH. split.
      * intros (u & Hle & Hu & Hpu). exists u. split; [lia |]. split; [| exact Hpu].
        replace (i - k)%nat with (S (i - S k)) by lia. exact Hu.
      * intros (u & Hle & Hu & Hpu).
        destruct (decide (i = k)) as [-> | Hne].
        -- rewrite Nat.sub_diag in Hu. cbn in Hu. congruence.
        -- exists u. split; [lia |]. split; [| exact Hpu].
           replace (i - k)%nat with (S (i - S k)) in Hu by lia. exact Hu.
Qed.

Lemma filterUnits_spec (p : Unit -> bool) (s : State) (i : nat) :
  In i (filterUnits p s) <-> exists u, units s !! i = Some u /\ p u = true.
Proof.
  unfold filterUnits. rewrite indicesFrom_spec. rewrite Nat.sub_0_r.
  split; intros (u & H); exists u; [tauto | split; [lia | tauto]].
Qed.

(** No Jesters unit ever enters the scan. *)
Lemma scan_skips_jesters (s : State) (i : nat) (u : Unit) :
  units s !! i = Some u ->
  type u = UnitTypes.JESTERS ->
  ~ In i (getUnitsNeedingAbilityTargets s).
Proof.
  intros Hu Hty Hin. unfold getUnitsNeedingAbilityTargets in Hin.
  apply filterUnits_spec in Hin as (u' & Hu' & Hp).
  rewrite Hu in Hu'. inversion Hu'; subst u'.
  unfold needsAbilityTarget in Hp. rewrite Hty in Hp. cbn in Hp.
  destruct (damage u >=? maxHp u); discriminate Hp.
Qed.

(** Which units the scan takes: living, not engaged, and Spears, Archers or
    an unmoved Cannon with a non-empty target list. *)
Lemma scan_spec (s : State) (i : nat) :
  In i (getUnitsNeedingAbilityTargets s) <->
  exists u, units s !! i = Some u /\ isAlive u = true /\ isEngaged s u = false /\
    ((type_name (type u) = "Spears" /\ getSpearsPierceTargets s u <> []) \/
     (type_name (type u) = "Archers" /\ getArchersVolleyTargets s u <> []) \/
     (type_name (type u) = "Cannon" /\ movedThisTurn u = false /\
      getCannonMortarTargets s u <> [])).
Proof.
  unfold getUnitsNeedingAbilityTargets. rewrite filterUnits_spec.
  assert (Hlen : forall l : list nat, (0 <? Z.of_nat (length l)) = true <-> l <> []).
  { intros l. destruct l; cbn [length]; split; intros H; try congruence; lia. }
  split; intros (u & Hu & H); exists u; (split; [exact Hu |]).
  - unfold needsAbilityTarget in H. unfold isAlive.
    destruct (damage u >=? maxHp u) eqn:Ed; [discriminate H |].
    split; [lia |].
    destruct (isEngaged s u); cbn [negb] in H;
      [rewrite !andb_false_r in H; cbn [andb] in H; discriminate H |].
    split; [reflexivity |]. rewrite !andb_true_r in H.
    destruct (String.eqb (type_name (type u)) "Spears" &&
              (0 <? Z.of_nat (length (getSpearsPierceTargets s u)))) eqn:E1.
    { apply andb_true_iff in E1 as [En Et]. left.
      split; [apply String.eqb_eq, En | apply Hlen, Et]. }
    destruct (String.eqb (type_name (type u)) "Archers" &&
              (0 <? Z.of_nat (length (getArchersVolleyTargets s u)))) eqn:E2.
    { apply andb_true_iff in E2 as [En Et]. right. left.
      split; [apply String.eqb_eq, En | apply Hlen, Et]. }
    destruct (String.eqb (type_name (type u)) "Cannon" && negb (movedThisTurn u) &&
              (0 <? Z.of_nat (length (getCannonMortarTargets s u)))) eqn:E3;
      [| discriminate H].
    apply andb_true_iff in E3 as [E3 Et]. apply andb_true_iff in E3 as [En Em].
    right. right. split; [apply String.eqb_eq, En |].
    split; [destruct (movedThisTurn u); [discriminate Em | reflexivity] | apply Hlen, Et].
  - destruct H as (Ha & He & Hcase). unfold needsAbilityTarget.
    unfold isAlive in Ha. destruct (damage u >=? maxHp u) eqn:Ed; [lia |].
    rewrite He. cbn [negb]. rewrite !andb_true_r.
    destruct Hcase as [[Hn Ht] | [[Hn Ht] | (Hn & Hm & Ht)]].
    + apply String.eqb_eq in Hn. apply Hlen in Ht. rewrite Hn, Ht. reflexivity.
    + apply String.eqb_eq in Hn. apply Hlen in Ht. rewrite Hn, Ht. cbn [andb].
      destruct (_ && _); reflexivity.
    + apply String.eqb_eq in Hn. apply Hlen in Ht. rewrite Hn, Hm, Ht. cbn [andb negb].
      destruct (_ && _); [reflexivity |]. destruct (_ && _); reflexivity.
Qed.

(** Ending faction 2's movement phase: a targeting session over the scan
    when it is not empty, else straight to combat resolution. *)
Lemma endPhase_after_faction2 (s : State) :
  phase s = FACTION_2 ->
  (getUnitsNeedingAbilityTargets s <> [] ->
   phase (endPhase s) = ABILITY_TARGETING /\
   (at_unitsToTarget <$> abilityTargeting (endPhase s))
     = Some (getUnitsNeedingAbilityTargets s)) /\
  (getUnitsNeedingAbilityTargets s = [] -> phase (endPhase s) = RESOLUTION_COMBAT).
Proof.
  intros Hp. unfold endPhase.
  change (phase (set_pendingSecondMove None s)) with (phase s). rewrite Hp.
  change (getUnitsNeedingAbilityTargets (set_pendingSecondMove None s))
    with (getUnitsNeedingAbilityTargets s).
  split.
  - intros Hne. destruct (getUnitsNeedingAbilityTargets s) as [| i l] eqn:E;
      [congruence |].
    split; reflexivity.
  - intros ->. cbn [length]. change (0 <? Z.of_nat 0) with false. cbv iota.
    unfold startResolution. cbn [abilityTargeting set_unitsInCombatThisTurn set_phase
      set_pendingSecondMove].
    destruct (abilityTargeting s); reflexivity.
Qed.

(** C6 at the failing input: the Jesters unit is alive, not engaged and has a
    Taunt target, yet the scan is empty and [endPhase] goes to
    [RESOLUTION_COMBAT] without a targeting session. *)
Theorem jesters_left_out_of_scan :
  isAlive tauntJester = true /\
  isEngaged tauntState tauntJester = false /\
  getJestersTauntTargets tauntState tauntJester = [1%nat] /\
  getUnitsNeedingAbilityTargets tauntState = [] /\
  phase (endPhase tauntState) = RESOLUTION_COMBAT /\
  abilityTargeting (endPhase tauntState) = None.
Proof. vm_compute. repeat split. Qed.

(** The same board with Spears in place of the Jesters opens the targeting
    session. *)
Example spears_enter_scan :
  let s := set_phase FACTION_2
             (set_units [mkUnit "s-1" UnitTypes.SPEARS 1 3 2 0 5 false None 1; tauntVictim]
                createGameState) in
  getUnitsNeedingAbilityTargets s = [0%nat] /\
  phase (endPhase s) = ABILITY_TARGETING /\
  (at_currentPlayer <$> abilityTargeting (endPhase s)) = Some 1.
Proof. vm_compute. repeat split. Qed.

(** ** Mounted charge *)

(** The first move of a Mounted unit in a turn: it is relocated and flagged
    as moved, it becomes the pending second mover, it is not added to the
    acted set, and no other unit changes. *)
Lemma moveUnit_first_mounted_move (pick : UnitPicker) (s : State) (i : nat) (u : Unit)
    (newRow newCol : Z) :
  units s !! i = Some u ->
  type_id (type u) = type_id UnitTypes.MOUNTED ->
  movedThisTurn u = false ->
  let s' := moveUnit pick s i newRow newCol in
  pendingSecondMove s' = Some (unit_id u) /\
  activatedUnits s' = activatedUnits s /\
  units s' = <[i := set_moved true (set_pos newRow newCol u)]> (units s).
Proof.
  intros Hu Hty Hm. unfold moveUnit. rewrite Hu. cbv zeta.
  cbn [type set_moved set_pos movedThisTurn unit_id faction]. rewrite Hty, Hm.
  cbn [Z.eqb Pos.eqb UnitTypes.MOUNTED type_id andb negb].
  match goal with |- context [if ?b then _ else _] => destruct b end;
    repeat split.
Qed.

Lemma moveUnit_first_mounted_move_witness :
  let u := mkUnit "m-1" UnitTypes.MOUNTED 1 3 0 0 5 false None 1 in
  let s := set_units [u] createGameState in
  units s !! 0%nat = Some u /\
  pendingSecondMove (moveUnit (fun _ => None) s 0 2 0) = Some "m-1" /\
  activatedUnits (moveUnit (fun _ => None) s 0 2 0) = activatedUnits s.
Proof.
  cbv zeta. split; [reflexivity |].
  destruct (moveUnit_first_mounted_move (fun _ => None)
              (set_units [mkUnit "m-1" UnitTypes.MOUNTED 1 3 0 0 5 false None 1]
                 createGameState)
              0 (mkUnit "m-1" UnitTypes.MOUNTED 1 3 0 0 5 false None 1) 2 0
              eq_refl eq_refl eq_refl) as (H1 & H2 & _).
  split; [exact H1 | exact H2].
Defined.

(** C3 at the failing input: both moves are offered by [getValidMoves], they
    cover one hex-step in total, no counter-charge fires, and the Cannon
    still takes the charge bonus of 2. *)
Theorem charge_bonus_after_one_step :
  In (mkHex 3 0) (getValidMoves chargeState chargeRider) /\
  pendingSecondMove afterStandingStill = Some "m-1" /\
  (exists r, units afterStandingStill !! 0%nat = Some r /\
             In (mkHex 2 0) (getValidMoves afterStandingStill r)) /\
  hexDistance 3 0 3 0 + hexDistance 3 0 2 0 = 1 /\
  counterChargingSpears afterStandingStill 2 0 2 = [] /\
  (damage <$> units afterStandingStill !! 1%nat) = Some 0 /\
  (damage <$> units afterStepIn !! 1%nat) = Some 2.
Proof.
  split; [vm_compute; tauto |].
  split; [vm_compute; reflexivity |].
  split.
  - eexists. split; [vm_compute; reflexivity |]. vm_compute. tauto.
  - vm_compute. repeat split.
Qed.

Example charge_log :
  log afterStepIn =
  ["🐴 Mounted moves to [3, 0]";
   "🐴 Mounted engages with 🚀 Cannon at (2, 0)!";
   "🐴 Mounted Charge: 🚀 Cannon takes 2 damage (3/5) at [2, 0]";
   "🐴 Mounted moves to [2, 0]"].
Proof. vm_compute. reflexivity. Qed.

(** The regular charge: two single steps, (4,0) to (3,0) to (2,0). *)
Example charge_after_two_steps :
  let s := set_units [set_pos 4 0 chargeRider; chargeVictim] createGameState in
  let s2 := moveUnit noPick (moveUnit noPick s 0 3 0) 0 2 0 in
  hexDistance 4 0 3 0 + hexDistance 3 0 2 0 = 2 /\
  (damage <$> units s2 !! 1%nat) = Some 2 /\
  pendingSecondMove s2 = None /\
  activatedUnits s2 = {[ "m-1" ]}.
Proof.
  cbv zeta. split; [reflexivity |]. split; [vm_compute; reflexivity |].
  split; [vm_compute; reflexivity |].
  apply set_eq. intros x. vm_compute activatedUnits. set_solver.
Qed.

(** A faction-2 Spears unit, not engaged, next to the destination: the
    counter-charge fires, the target takes nothing and the rider takes 3. *)
Example charge_countered :
  let spears := mkUnit "s-1" UnitTypes.SPEARS 2 1 0 0 5 false None 1 in
  let s := set_units [set_pos 4 0 chargeRider; chargeVictim; spears] createGameState in
  let s2 := moveUnit noPick (moveUnit noPick s 0 3 0) 0 2 0 in
  (damage <$> units s2 !! 1%nat) = Some 0 /\
  (damage <$> units s2 !! 0%nat) = Some 3.
Proof. vm_compute. split; reflexivity. Qed.

(** A single move into an enemy hex is not a second move: no bonus. *)
Example first_move_into_enemy_no_bonus :
  (damage <$> units (moveUnit noPick chargeState 0 2 0) !! 1%nat) = Some 0 /\
  pendingSecondMove (moveUnit noPick chargeState 0 2 0) = Some "m-1".
Proof. vm_compute. split; reflexivity. Qed.

(** ** Combat resolution *)

Lemma sameUnits_refl (l : list Unit) : sameUnits l l.
Proof. reflexivity. Qed.

Lemma sameUnits_trans (l1 l2 l3 : list Unit) :
  sameUnits l1 l2 -> sameUnits l2 l3 -> sameUnits l1 l3.
Proof. unfold sameUnits. congruence. Qed.

Lemma sameUnits_alter (amount : Z) (i : nat) (l : list Unit) :
  sameUnits (alter (addDamage amount) i l) l.
Proof.
  unfold sameUnits. apply list_eq. intros j. rewrite !list_lookup_fmap.
  destruct (decide (i = j)) as [<- | Hne].
  - rewrite list_lookup_alter_eq. destruct (l !! i); reflexivity.
  - rewrite list_lookup_alter_ne by exact Hne. reflexivity.
Qed.

Lemma sameUnits_lookup (l l' : list Unit) (i : nat) :
  sameUnits l l' -> set_damage 0 <$> l !! i = set_damage 0 <$> l' !! i.
Proof. unfold sameUnits. intros H. rewrite <- !list_lookup_fmap, H. reflexivity. Qed.

Lemma sameUnits_length (l l' : list Unit) : sameUnits l l' -> length l = length l'.
Proof.
  unfold sameUnits. intros H. apply (f_equal length) in H.
  rewrite !length_fmap in H. exact H.
Qed.

Lemma sameUnits_ids (l l' : list Unit) :
  sameUnits l l' -> unit_id <$> l = unit_id <$> l'.
Proof.
  unfold sameUnits. intros H.
  apply (f_equal (fmap unit_id)) in H. rewrite <- !list_fmap_compose in H. exact H.
Qed.

Lemma sameUnits_unitDamage (l l' : list Unit) (i : nat) :
  sameUnits l l' ->
  from_option unitDamage 0 (l !! i) = from_option unitDamage 0 (l' !! i).
Proof.
  intros H. apply (sameUnits_lookup _ _ i) in H.
  destruct (l !! i) as [u |], (l' !! i) as [u' |]; cbn in H; try discriminate H;
    [| reflexivity].
  apply (f_equal (fmap type)) in H. cbn in H. injection H as H.
  cbn. unfold unitDamage. rewrite H. reflexivity.
Qed.

Lemma totalDamage_sameUnits (s s' : State) (refs : list nat) :
  sameUnits (units s) (units s') -> totalDamage s refs = totalDamage s' refs.
Proof.
  intros H. unfold totalDamage.
  assert (Hgen : forall acc,
    fold_left (fun sum i => sum + from_option unitDamage 0 (units s !! i)) refs acc =
    fold_left (fun sum i => sum + from_option unitDamage 0 (units s' !! i)) refs acc).
  { induction refs as [| i refs IH]; intros acc; [reflexivity |].
    cbn [fold_left]. rewrite (sameUnits_unitDamage _ _ i H). apply IH. }
  apply Hgen.
Qed.

Lemma sameUnits_applyDamage (s : State) (i : nat) (amount : Z) (src : option string) :
  sameUnits (units (applyDamage s i amount src)) (units s).
Proof. rewrite units_applyDamage. apply sameUnits_alter. Qed.

Lemma units_markInCombat (s : State) (refs : list nat) :
  units (markInCombat s refs) = units s.
Proof.
  unfold markInCombat. revert s. induction refs as [| i refs IH]; intros s; [reflexivity |].
  cbn [fold_left]. rewrite IH. destruct (units s !! i); reflexivity.
Qed.

Lemma share_single (total : Z) : share total 1 0 = total.
Proof.
  unfold share. change (Z.of_nat 1) with 1. rewrite Z.div_1_r, Z.mod_1_r.
  change (if Z.of_nat 0 <? 0 then 1 else 0) with 0. lia.
Qed.

Lemma distributeEvenly_notin (dpe rem idx : Z) (targets : list nat) (s : State) (j : nat) :
  ~ In j targets ->
  units (distributeEvenly dpe rem idx targets s) !! j = units s !! j.
Proof.
  revert idx s. induction targets as [| t targets IH]; intros idx s Hj; [reflexivity |].
  cbn [distributeEvenly]. rewrite IH by (intros H; apply Hj; right; exact H).
  apply applyDamage_lookup_ne. intros ->. apply Hj. left. reflexivity.
Qed.

Lemma distributeEvenly_in (dpe rem idx : Z) (targets : list nat) (s : State) (k i : nat) :
  List.NoDup targets ->
  targets !! k = Some i ->
  units (distributeEvenly dpe rem idx targets s) !! i =
  addDamage (dpe + (if idx + Z.of_nat k <? rem then 1 else 0)) <$> units s !! i.
Proof.
  revert idx s k. induction targets as [| t targets IH]; intros idx s k Hnd Hk.
  - discriminate Hk.
  - inversion Hnd as [| ? ? Hnotin Hnd']; subst. cbn [distributeEvenly].
    destruct k as [| k].
    + injection Hk as <-. rewrite distributeEvenly_notin by exact Hnotin.
      rewrite applyDamage_lookup_eq. rewrite Z.add_0_r. reflexivity.
    + cbn in Hk. rewrite (IH (idx + 1) _ k Hnd' Hk).
      rewrite applyDamage_lookup_ne.
      * replace (idx + 1 + Z.of_nat k) with (idx + Z.of_nat (S k)) by lia. reflexivity.
      * intros ->. apply Hnotin. apply list_elem_of_In.
        apply list_elem_of_lookup. exists k. exact Hk.
Qed.

Lemma sameUnits_distributeEvenly (dpe rem idx : Z) (targets : list nat) (s : State) :
  sameUnits (units (distributeEvenly dpe rem idx targets s)) (units s).
Proof.
  revert idx s. induction targets as [| t targets IH]; intros idx s;
    [apply sameUnits_refl |].
  cbn [distributeEvenly]. eapply sameUnits_trans; [apply IH |].
  apply sameUnits_applyDamage.
Qed.

Lemma findById_In (s : State) (refs : list nat) (enemyId : string) (i : nat) :
  findById s refs enemyId = Some i -> In i refs.
Proof. unfold findById. intros H. apply find_some in H. tauto. Qed.

Lemma applyAllocation_notin (targets : list nat) (allocation : list (string * Z))
    (s : State) (j : nat) :
  ~ In j targets ->
  units (applyAllocation targets s allocation) !! j = units s !! j.
Proof.
  intros Hj. unfold applyAllocation. revert s.
  induction allocation as [| [enemyId dmg] allocation IH]; intros s; [reflexivity |].
  cbn [fold_left]. rewrite IH.
  destruct (findById s targets enemyId) as [e |] eqn:Hf; [| reflexivity].
  destruct (0 <? dmg); [| reflexivity].
  apply applyDamage_lookup_ne. intros ->. apply Hj.
  eapply findById_In. exact Hf.
Qed.

Lemma sameUnits_applyAllocation (targets : list nat) (allocation : list (string * Z))
    (s : State) :
  sameUnits (units (applyAllocation targets s allocation)) (units s).
Proof.
  unfold applyAllocation. revert s.
  induction allocation as [| [enemyId dmg] allocation IH]; intros s;
    [apply sameUnits_refl |].
  cbn [fold_left]. eapply sameUnits_trans; [apply IH |].
  destruct (findById s targets enemyId) as [e |]; [| apply sameUnits_refl].
  destruct (0 <? dmg); [apply sameUnits_applyDamage | apply sameUnits_refl].
Qed.

Lemma totalDamage_outgoing (s : State) (refs : list nat) :
  totalDamage s refs = outgoingDamage (derefs s refs).
Proof.
  unfold totalDamage.
  assert (Hgen : forall acc,
    fold_left (fun sum i => sum + from_option unitDamage 0 (units s !! i)) refs acc =
    acc + outgoingDamage (derefs s refs)).
  { induction refs as [| i refs IH]; intros acc; [cbn; lia |].
    cbn [fold_left]. rewrite IH. unfold derefs. cbn [omap list_omap].
    fold (derefs s refs). destruct (units s !! i) as [u |]; cbn [from_option].
    - cbn [outgoingDamage foldr]. fold (outgoingDamage (derefs s refs)).
      unfold unitDamage. lia.
    - lia. }
  rewrite Hgen. lia.
Qed.

Lemma outgoingDamage_nonneg (us : list Unit) : 0 <= outgoingDamage us.
Proof.
  induction us as [| u us IH]; [cbn; lia |].
  cbn [outgoingDamage foldr]. fold (outgoingDamage us).
  destruct (type_id (type u) =? type_id UnitTypes.MILITIA); lia.
Qed.

Lemma totalDamage_nonneg (s : State) (refs : list nat) : 0 <= totalDamage s refs.
Proof. rewrite totalDamage_outgoing. apply outgoingDamage_nonneg. Qed.

Lemma strike_notin (alloc : option Allocator) (f : Z) (attackers targets : list nat)
    (s : State) (j : nat) :
  ~ In j targets ->
  units (strike alloc f attackers targets s) !! j = units s !! j.
Proof.
  intros Hj. unfold strike.
  destruct ((0 <? Z.of_nat (length attackers)) && (0 <? Z.of_nat (length targets)));
    [| reflexivity].
  destruct (Z.of_nat (length targets) =? 1).
  - destruct targets as [| e targets]; [reflexivity |].
    apply applyDamage_lookup_ne. intros ->. apply Hj. left. reflexivity.
  - destruct alloc as [modal |].
    + apply applyAllocation_notin. exact Hj.
    + apply distributeEvenly_notin. exact Hj.
Qed.

Lemma sameUnits_strike (alloc : option Allocator) (f : Z) (attackers targets : list nat)
    (s : State) :
  sameUnits (units (strike alloc f attackers targets s)) (units s).
Proof.
  unfold strike.
  destruct ((0 <? Z.of_nat (length attackers)) && (0 <? Z.of_nat (length targets)));
    [| apply sameUnits_refl].
  destruct (Z.of_nat (length targets) =? 1).
  - destruct targets as [| e targets]; [apply sameUnits_refl | apply sameUnits_applyDamage].
  - destruct alloc as [modal |].
    + apply sameUnits_applyAllocation.
    + apply sameUnits_distributeEvenly.
Qed.

(** One strike: without an allocator, or against a single target, the
    [k]-th target takes its share of the attackers' total. *)
Lemma strike_in (alloc : option Allocator) (f : Z) (attackers targets : list nat)
    (s : State) (k i : nat) :
  List.NoDup targets ->
  attackers <> [] ->
  alloc = None \/ length targets = 1%nat ->
  targets !! k = Some i ->
  units (strike alloc f attackers targets s) !! i =
  addDamage (share (totalDamage s attackers) (length targets) k) <$> units s !! i.
Proof.
  intros Hnd Hatt Hmode Hk. unfold strike.
  assert (Ha : (0 <? Z.of_nat (length attackers)) = true)
    by (destruct attackers; [congruence | cbn [length]; lia]).
  assert (Ht : (0 <? Z.of_nat (length targets)) = true)
    by (destruct targets; [discriminate Hk | cbn [length]; lia]).
  rewrite Ha, Ht. cbn [andb].
  destruct (Z.of_nat (length targets) =? 1) eqn:E1.
  - destruct targets as [| e [| e' targets]]; cbn [length] in E1; try lia.
    destruct k as [| k]; [| discriminate Hk]. injection Hk as <-.
    rewrite applyDamage_lookup_eq. cbn [length]. rewrite share_single. reflexivity.
  - destruct Hmode as [-> | Hone]; [| lia].
    rewrite (distributeEvenly_in _ _ _ _ _ k i Hnd Hk). rewrite Z.add_0_l.
    unfold share. rewrite Z.rem_mod_nonneg; [reflexivity | apply totalDamage_nonneg | lia].
Qed.

Lemma wfGroup_sides (g : Group) :
  wfGroup g ->
  List.NoDup (faction1 g) /\ List.NoDup (faction2 g) /\
  (forall i, In i (faction1 g) -> ~ In i (faction2 g)).
Proof.
  intros [Hnd _]. apply NoDup_ListNoDup in Hnd.
  destruct (proj1 (NoDup_app _ _) Hnd) as (H1 & H12 & H2).
  split; [apply NoDup_ListNoDup; exact H1 |].
  split; [apply NoDup_ListNoDup; exact H2 |].
  intros i Hi1 Hi2. apply (H12 i); apply list_elem_of_In; assumption.
Qed.

Lemma lookup_In (l : list nat) (k i : nat) : l !! k = Some i -> In i l.
Proof. intros H. apply list_elem_of_In. apply list_elem_of_lookup. exists k. exact H. Qed.

Lemma processGroup_notin (alloc : option Allocator) (s : State) (g : Group) (j : nat) :
  ~ In j (members g) ->
  units (processGroup alloc s g) !! j = units s !! j.
Proof.
  intros Hj. unfold processGroup, members in *.
  rewrite strike_notin by (intros H; apply Hj; apply in_or_app; left; exact H).
  rewrite strike_notin by (intros H; apply Hj; apply in_or_app; right; exact H).
  rewrite !units_markInCombat. reflexivity.
Qed.

Lemma sameUnits_processGroup (alloc : option Allocator) (s : State) (g : Group) :
  sameUnits (units (processGroup alloc s g)) (units s).
Proof.
  unfold processGroup.
  eapply sameUnits_trans; [apply sameUnits_strike |].
  eapply sameUnits_trans; [apply sameUnits_strike |].
  rewrite !units_markInCombat. apply sameUnits_refl.
Qed.

(** Faction 2's units of a group take the shares of faction 1's total. *)
Lemma processGroup_faction2 (alloc : option Allocator) (s : State) (g : Group) (k i : nat) :
  wfGroup g ->
  alloc = None \/ length (faction2 g) = 1%nat ->
  faction2 g !! k = Some i ->
  units (processGroup alloc s g) !! i =
  addDamage (share (totalDamage s (faction1 g)) (length (faction2 g)) k) <$> units s !! i.
Proof.
  intros Hwf Hmode Hk. pose proof (wfGroup_sides g Hwf) as (Hnd1 & Hnd2 & Hdisj).
  destruct Hwf as (_ & Hne1 & Hne2). unfold processGroup.
  rewrite strike_notin
    by (intros Hin; apply (Hdisj i Hin); eapply lookup_In; exact Hk).
  rewrite (strike_in alloc 1 _ _ _ k i Hnd2 Hne1 Hmode Hk).
  rewrite !units_markInCombat. f_equal. f_equal. f_equal.
  apply totalDamage_sameUnits. rewrite !units_markInCombat. apply sameUnits_refl.
Qed.

(** Faction 1's units take the shares of faction 2's total, which is summed
    over every unit of the group whatever damage faction 1 has just dealt. *)
Lemma processGroup_faction1 (alloc : option Allocator) (s : State) (g : Group) (k i : nat) :
  wfGroup g ->
  alloc = None \/ length (faction1 g) = 1%nat ->
  faction1 g !! k = Some i ->
  units (processGroup alloc s g) !! i =
  addDamage (share (totalDamage s (faction2 g)) (length (faction1 g)) k) <$> units s !! i.
Proof.
  intros Hwf Hmode Hk. pose proof (wfGroup_sides g Hwf) as (Hnd1 & Hnd2 & Hdisj).
  destruct Hwf as (_ & Hne1 & Hne2). unfold processGroup.
  rewrite (strike_in alloc 2 _ _ _ k i Hnd1 Hne2 Hmode Hk).
  rewrite strike_notin by (apply Hdisj; eapply lookup_In; exact Hk).
  rewrite !units_markInCombat. f_equal. f_equal. f_equal.
  apply totalDamage_sameUnits.
  eapply sameUnits_trans; [apply sameUnits_strike |].
  rewrite !units_markInCombat. apply sameUnits_refl.
Qed.

(** *** The groups of [getEngagedGroups] *)

Lemma indicesFrom_NoDup (p : Unit -> bool) (l : list Unit) (k : nat) :
  List.NoDup (indicesFrom k p l).
Proof.
  revert k. induction l as [| x l IH]; intros k; [constructor |].
  cbn [indicesFrom]. destruct (p x); [| apply IH].
  constructor; [| apply IH].
  intros Hin. apply indicesFrom_spec in Hin as (u & Hle & _). lia.
Qed.

Lemma getFactionUnitsAt_spec (s : State) (r c f : Z) (i : nat) :
  In i (getFactionUnitsAt s r c f) <->
  exists u, units s !! i = Some u /\ row u = r /\ col u = c /\
            damage u < maxHp u /\ faction u = f.
Proof.
  unfold getFactionUnitsAt, filterRefs, getUnitsAt. rewrite filter_In, filterUnits_spec.
  split.
  - intros [(u & Hu & Hp) Hf]. rewrite Hu in Hf. exists u.
    split; [exact Hu |]. lia.
  - intros (u & Hu & Hr & Hc & Hd & Hf). split.
    + exists u. split; [exact Hu |]. lia.
    + rewrite Hu. lia.
Qed.

Lemma getFactionUnitsAt_NoDup (s : State) (r c f : Z) :
  List.NoDup (getFactionUnitsAt s r c f).
Proof.
  unfold getFactionUnitsAt, filterRefs, getUnitsAt, filterUnits.
  apply List.NoDup_filter. apply indicesFrom_NoDup.
Qed.

Lemma members_groupAt (s : State) (r c : Z) (i : nat) :
  In i (members (groupAt s r c)) ->
  exists u, units s !! i = Some u /\ row u = r /\ col u = c.
Proof.
  unfold members, groupAt. cbn [faction1 faction2]. intros H.
  apply in_app_or in H as [H | H]; apply getFactionUnitsAt_spec in H as (u & Hu & Hr & Hc & _);
    exists u; auto.
Qed.

Lemma wfGroup_groupAt (s : State) (r c : Z) :
  getFactionUnitsAt s r c 1 <> [] ->
  getFactionUnitsAt s r c 2 <> [] ->
  wfGroup (groupAt s r c).
Proof.
  intros H1 H2. split; [| split; assumption].
  cbn [groupAt faction1 faction2]. apply NoDup_ListNoDup. apply NoDup_app.
  split; [apply NoDup_ListNoDup, getFactionUnitsAt_NoDup |].
  split; [| apply NoDup_ListNoDup, getFactionUnitsAt_NoDup].
  intros i Hi1 Hi2. apply list_elem_of_In in Hi1, Hi2.
  apply getFactionUnitsAt_spec in Hi1 as (u & Hu & _ & _ & _ & Hf1).
  apply getFactionUnitsAt_spec in Hi2 as (u' & Hu' & _ & _ & _ & Hf2).
  rewrite Hu in Hu'. injection Hu' as <-. lia.
Qed.

Lemma nonempty_length {A} (l : list A) : (0 <? Z.of_nat (length l)) = true -> l <> [].
Proof. destruct l; [cbn; discriminate | discriminate]. Qed.

Lemma engagedGroupsLoop_inv (s : State) (us : list Unit) (processed : gset (Z * Z))
    (groups : list Group) :
  groupsInv s processed groups ->
  exists processed', groupsInv s processed' (engagedGroupsLoop s us processed groups).
Proof.
  revert processed groups. induction us as [| u us IH]; intros processed groups Hinv.
  - exists processed. exact Hinv.
  - cbn [engagedGroupsLoop]. destruct (negb (isAlive u)); [apply IH; exact Hinv |].
    destruct (decide ((row u, col u) ∈ processed)) as [Hin | Hnotin];
      [apply IH; exact Hinv |].
    destruct ((0 <? Z.of_nat (length (getFactionUnitsAt s (row u) (col u) 1))) &&
              (0 <? Z.of_nat (length (getFactionUnitsAt s (row u) (col u) 2)))) eqn:E;
      [| apply IH; exact Hinv].
    apply andb_true_iff in E as [E1 E2].
    apply nonempty_length in E1. apply nonempty_length in E2.
    apply IH. destruct Hinv as [Hall Hnd]. split.
    + intros g Hg. apply in_app_or in Hg as [Hg | [<- | []]].
      * destruct (Hall g Hg) as (r & c & Heq & Hp & Hn1 & Hn2).
        exists r, c. split; [exact Heq |]. split; [set_solver | auto].
      * exists (row u), (col u). split; [reflexivity |]. split; [set_solver | auto].
    + rewrite map_app. cbn [List.map group_hex].
      apply NoDup_ListNoDup. apply NoDup_app.
      split; [apply NoDup_ListNoDup; exact Hnd |].
      split; [| apply NoDup_singleton].
      intros h Hh Hh'. apply list_elem_of_singleton in Hh'. subst h.
      apply list_elem_of_In in Hh. apply in_map_iff in Hh as (g & Hgh & Hg).
      destruct (Hall g Hg) as (r & c & -> & Hp & _). cbn in Hgh.
      injection Hgh as -> ->. contradiction.
Qed.

Lemma getEngagedGroups_inv (s : State) :
  exists processed, groupsInv s processed (getEngagedGroups s).
Proof.
  apply engagedGroupsLoop_inv. split; [intros g [] | constructor].
Qed.

Lemma getEngagedGroups_wf (s : State) (g : Group) :
  In g (getEngagedGroups s) -> wfGroup g.
Proof.
  intros Hg. destruct (getEngagedGroups_inv s) as (processed & Hall & _).
  destruct (Hall g Hg) as (r & c & -> & _ & H1 & H2). apply wfGroup_groupAt; assumption.
Qed.

Lemma groupsInv_disjoint (s : State) (processed : gset (Z * Z)) (groups : list Group) :
  groupsInv s processed groups -> disjointGroups groups.
Proof.
  induction groups as [| g groups IH]; intros [Hall Hnd]; [exact I |].
  cbn [List.map] in Hnd. inversion Hnd as [| ? ? Hnotin Hnd']; subst.
  split.
  - intros g' Hg' i Hi Hi'.
    destruct (Hall g (or_introl eq_refl)) as (r & c & -> & _).
    destruct (Hall g' (or_intror Hg')) as (r' & c' & -> & _).
    apply members_groupAt in Hi as (u & Hu & Hr & Hc).
    apply members_groupAt in Hi' as (u' & Hu' & Hr' & Hc').
    rewrite Hu in Hu'. injection Hu' as <-. subst r c r' c'.
    apply Hnotin. apply in_map_iff. exists (groupAt s (row u) (col u)).
    split; [reflexivity | exact Hg'].
  - apply IH. split; [| exact Hnd'].
    intros g' Hg'. apply Hall. right. exact Hg'.
Qed.

Lemma getEngagedGroups_disjoint (s : State) : disjointGroups (getEngagedGroups s).
Proof.
  destruct (getEngagedGroups_inv s) as (processed & Hinv).
  eapply groupsInv_disjoint. exact Hinv.
Qed.

Lemma engagedGroupsLoop_mono (s : State) (us : list Unit) (processed : gset (Z * Z))
    (groups : list Group) (g : Group) :
  In g groups -> In g (engagedGroupsLoop s us processed groups).
Proof.
  revert processed groups. induction us as [| u us IH]; intros processed groups Hg;
    [exact Hg |].
  cbn [engagedGroupsLoop]. destruct (negb (isAlive u)); [apply IH; exact Hg |].
  destruct (decide ((row u, col u) ∈ processed)); [apply IH; exact Hg |].
  destruct ((0 <? Z.of_nat (length (getFactionUnitsAt s (row u) (col u) 1))) &&
            (0 <? Z.of_nat (length (getFactionUnitsAt s (row u) (col u) 2))));
    apply IH; [apply in_or_app; left |]; exact Hg.
Qed.

Lemma length_nonempty {A} (l : list A) : l <> [] -> (0 <? Z.of_nat (length l)) = true.
Proof. destruct l; [congruence | cbn [length]; lia]. Qed.

Lemma engagedGroupsLoop_complete (s : State) (us : list Unit) (processed : gset (Z * Z))
    (groups : list Group) (u : Unit) :
  (forall r c, (r, c) ∈ processed -> In (groupAt s r c) groups) ->
  In u us ->
  isAlive u = true ->
  getFactionUnitsAt s (row u) (col u) 1 <> [] ->
  getFactionUnitsAt s (row u) (col u) 2 <> [] ->
  In (groupAt s (row u) (col u)) (engagedGroupsLoop s us processed groups).
Proof.
  revert processed groups.
  induction us as [| u0 us IH]; intros processed groups Hproc Hin Halive H1 H2;
    [destruct Hin |].
  cbn [engagedGroupsLoop]. destruct (isAlive u0) eqn:Ha0; cbn [negb].
  - destruct (decide ((row u0, col u0) ∈ processed)) as [Hp | Hp].
    + destruct Hin as [-> | Hin]; [| apply IH; assumption].
      apply engagedGroupsLoop_mono. apply Hproc. exact Hp.
    + destruct ((0 <? Z.of_nat (length (getFactionUnitsAt s (row u0) (col u0) 1))) &&
                (0 <? Z.of_nat (length (getFactionUnitsAt s (row u0) (col u0) 2)))) eqn:E.
      * destruct Hin as [-> | Hin].
        -- apply engagedGroupsLoop_mono. apply in_or_app. right. left. reflexivity.
        -- apply IH; try assumption.
           intros r c Hrc. apply in_or_app.
           apply elem_of_union in Hrc as [Hrc | Hrc].
           ++ apply elem_of_singleton in Hrc. injection Hrc as -> ->.
              right. left. reflexivity.
           ++ left. apply Hproc. exact Hrc.
      * destruct Hin as [-> | Hin]; [| apply IH; assumption].
        rewrite (length_nonempty _ H1), (length_nonempty _ H2) in E. discriminate E.
  - destruct Hin as [-> | Hin]; [congruence | apply IH; assumption].
Qed.

(** Every hex on which living units of both factions stand has its group. *)
Lemma getEngagedGroups_complete (s : State) (r c : Z) :
  getFactionUnitsAt s r c 1 <> [] ->
  getFactionUnitsAt s r c 2 <> [] ->
  In (groupAt s r c) (getEngagedGroups s).
Proof.
  intros H1 H2.
  destruct (getFactionUnitsAt s r c 1) as [| i l] eqn:E; [congruence |].
  assert (Hi : In i (getFactionUnitsAt s r c 1)) by (rewrite E; left; reflexivity).
  apply getFactionUnitsAt_spec in Hi as (u & Hu & <- & <- & Hd & _).
  unfold getEngagedGroups. apply engagedGroupsLoop_complete.
  - intros r c Hrc. set_solver.
  - apply list_elem_of_In. apply list_elem_of_lookup. exists i. exact Hu.
  - apply isAlive_spec. exact Hd.
  - rewrite E. discriminate.
  - exact H2.
Qed.

(** *** The loop over the groups *)

Lemma resolveCombatLoop_notin (alloc : option Allocator) (gs : list Group) (s : State)
    (j : nat) :
  (forall g, In g gs -> ~ In j (members g)) ->
  units (resolveCombatLoop alloc gs s) !! j = units s !! j.
Proof.
  unfold resolveCombatLoop. revert s. induction gs as [| g gs IH]; intros s H;
    [reflexivity |].
  cbn [fold_left]. rewrite IH by (intros g' Hg'; apply H; right; exact Hg').
  apply processGroup_notin. apply H. left. reflexivity.
Qed.

Lemma sameUnits_resolveCombatLoop (alloc : option Allocator) (gs : list Group) (s : State) :
  sameUnits (units (resolveCombatLoop alloc gs s)) (units s).
Proof.
  unfold resolveCombatLoop. revert s. induction gs as [| g gs IH]; intros s;
    [apply sameUnits_refl |].
  cbn [fold_left]. eapply sameUnits_trans; [apply IH | apply sameUnits_processGroup].
Qed.

(** A unit of a group takes, over the whole loop, what its own group deals
    to it: [d] is the damage that the group's processing adds, a quantity
    that does not depend on the damage already on the board. *)
Lemma resolveCombatLoop_member (alloc : option Allocator) (gs : list Group) (s : State)
    (g : Group) (i : nat) (d : State -> Z) :
  disjointGroups gs ->
  In g gs ->
  In i (members g) ->
  (forall s', units (processGroup alloc s' g) !! i = addDamage (d s') <$> units s' !! i) ->
  (forall s1 s2, sameUnits (units s1) (units s2) -> d s1 = d s2) ->
  units (resolveCombatLoop alloc gs s) !! i = addDamage (d s) <$> units s !! i.
Proof.
  intros Hdisj Hg Hi Hstep Hd. revert s Hdisj Hg.
  induction gs as [| g0 gs IH]; intros s Hdisj Hg; [destruct Hg |].
  destruct Hdisj as [Hd0 Hdisj].
  change (resolveCombatLoop alloc (g0 :: gs) s)
    with (resolveCombatLoop alloc gs (processGroup alloc s g0)).
  destruct (in_dec Nat.eq_dec i (members g0)) as [Hi0 | Hi0].
  - rewrite resolveCombatLoop_notin by (intros g' Hg'; apply (Hd0 g' Hg' i Hi0)).
    destruct Hg as [-> | Hg]; [apply Hstep |].
    exfalso. exact (Hd0 g Hg i Hi0 Hi).
  - destruct Hg as [-> | Hg]; [contradiction |].
    rewrite (IH _ Hdisj Hg). rewrite processGroup_notin by exact Hi0.
    rewrite (Hd _ s (sameUnits_processGroup alloc s g0)). reflexivity.
Qed.

(** *** Totals and shares *)

Lemma totalDamage_outgoing_sameUnits (s st : State) (refs : list nat) :
  sameUnits (units st) (units s) ->
  totalDamage st refs = outgoingDamage (derefs s refs).
Proof.
  intros H. rewrite (totalDamage_sameUnits st s refs H). apply totalDamage_outgoing.
Qed.

Lemma resolveCombatAsync_cleanup (alloc : option Allocator) (s : State) (g : Group) :
  In g (getEngagedGroups s) ->
  resolveCombatAsync alloc s = removeDeadUnits (combatBeforeCleanup alloc s).
Proof.
  intros Hg. unfold resolveCombatAsync, combatBeforeCleanup.
  destruct (getEngagedGroups s) as [| g0 gs]; [destruct Hg |]. reflexivity.
Qed.

Lemma combat_faction2 (alloc : option Allocator) (s : State) (g : Group) (k i : nat) :
  In g (getEngagedGroups s) ->
  alloc = None \/ length (faction2 g) = 1%nat ->
  faction2 g !! k = Some i ->
  units (combatBeforeCleanup alloc s) !! i =
  addDamage (share (outgoingDamage (derefs s (faction1 g))) (length (faction2 g)) k)
    <$> units s !! i.
Proof.
  intros Hg Hmode Hk. unfold combatBeforeCleanup.
  rewrite (resolveCombatLoop_member alloc _ _ g i
             (fun st => share (totalDamage st (faction1 g)) (length (faction2 g)) k)).
  - rewrite (totalDamage_outgoing_sameUnits s) by apply sameUnits_refl.
    reflexivity.
  - apply getEngagedGroups_disjoint.
  - exact Hg.
  - unfold members. apply in_or_app. right. eapply lookup_In. exact Hk.
  - intros s'. apply processGroup_faction2;
      [eapply getEngagedGroups_wf; exact Hg | exact Hmode | exact Hk].
  - intros s1 s2 H. rewrite (totalDamage_sameUnits s1 s2 _ H). reflexivity.
Qed.

Lemma combat_faction1 (alloc : option Allocator) (s : State) (g : Group) (k i : nat) :
  In g (getEngagedGroups s) ->
  alloc = None \/ length (faction1 g) = 1%nat ->
  faction1 g !! k = Some i ->
  units (combatBeforeCleanup alloc s) !! i =
  addDamage (share (outgoingDamage (derefs s (faction2 g))) (length (faction1 g)) k)
    <$> units s !! i.
Proof.
  intros Hg Hmode Hk. unfold combatBeforeCleanup.
  rewrite (resolveCombatLoop_member alloc _ _ g i
             (fun st => share (totalDamage st (faction2 g)) (length (faction1 g)) k)).
  - rewrite (totalDamage_outgoing_sameUnits s) by apply sameUnits_refl.
    reflexivity.
  - apply getEngagedGroups_disjoint.
  - exact Hg.
  - unfold members. apply in_or_app. left. eapply lookup_In. exact Hk.
  - intros s'. apply processGroup_faction1;
      [eapply getEngagedGroups_wf; exact Hg | exact Hmode | exact Hk].
  - intros s1 s2 H. rewrite (totalDamage_sameUnits s1 s2 _ H). reflexivity.
Qed.

(** C1: on every hex where living units of both factions stand, with
    [side1] and [side2] the living units of faction 1 and of faction 2 on
    the hex in array order, the hex has its group, and each side's total is
    3 per Militia unit and 2 per other unit of that side; a single opposing
    unit takes the whole total, and without an allocator the [k]-th of
    several opposing units takes [floor(total / count)] plus 1 when
    [k < total mod count].  The board meant is the one before cleanup. *)
Theorem resolveCombat_even_split (alloc : option Allocator) (s : State) (r c : Z) :
  getFactionUnitsAt s r c 1 <> [] ->
  getFactionUnitsAt s r c 2 <> [] ->
  let side1 := getFactionUnitsAt s r c 1 in
  let side2 := getFactionUnitsAt s r c 2 in
  let s' := combatBeforeCleanup alloc s in
  In (mkGroup (mkHex r c) side1 side2) (getEngagedGroups s) /\
  resolveCombatAsync alloc s = removeDeadUnits s' /\
  (alloc = None \/ length side2 = 1%nat ->
   forall k i, side2 !! k = Some i ->
     units s' !! i =
     addDamage (share (outgoingDamage (derefs s side1)) (length side2) k) <$> units s !! i) /\
  (alloc = None \/ length side1 = 1%nat ->
   forall k i, side1 !! k = Some i ->
     units s' !! i =
     addDamage (share (outgoingDamage (derefs s side2)) (length side1) k) <$> units s !! i) /\
  (forall total, share total 1 0 = total).
Proof.
  intros H1 H2 side1 side2 s'.
  pose proof (getEngagedGroups_complete s r c H1 H2) as Hg.
  split; [exact Hg |].
  split; [eapply resolveCombatAsync_cleanup; exact Hg |].
  split; [| split].
  - intros Hmode k i Hk. exact (combat_faction2 alloc s _ k i Hg Hmode Hk).
  - intros Hmode k i Hk. exact (combat_faction1 alloc s _ k i Hg Hmode Hk).
  - apply share_single.
Qed.

Lemma resolveCombat_even_split_witness :
  getFactionUnitsAt militiaFight 2 2 1 = [0%nat] /\
  getFactionUnitsAt militiaFight 2 2 2 = [1%nat; 2%nat] /\
  (damage <$> units (combatBeforeCleanup None militiaFight) !! 1%nat) = Some 2 /\
  (damage <$> units (combatBeforeCleanup None militiaFight) !! 2%nat) = Some 1 /\
  (damage <$> units (combatBeforeCleanup None militiaFight) !! 0%nat) = Some 4.
Proof.
  split; [reflexivity |]. split; [reflexivity |].
  destruct (resolveCombat_even_split None militiaFight 2 2)
    as (_ & _ & Hdef & Hatt & _); [discriminate | discriminate |].
  rewrite (Hdef (or_introl eq_refl) 0%nat 1%nat eq_refl).
  rewrite (Hdef (or_introl eq_refl) 1%nat 2%nat eq_refl).
  rewrite (Hatt (or_introl eq_refl) 0%nat 0%nat eq_refl).
  repeat split.
Defined.

Example militia_split_by_evaluation :
  List.map damage (units (resolveCombatAsync None militiaFight)) = [4; 2; 1].
Proof. vm_compute. reflexivity. Qed.

(** One non-Militia unit against one: both take 2. *)
Example duel_two_each :
  let s := set_units [mkUnit "a-1" UnitTypes.ARCHERS 1 3 3 0 5 false None 1;
                      mkUnit "c-1" UnitTypes.CANNON 2 3 3 0 5 false None 1]
             createGameState in
  List.map (fun u => maxHp u - damage u) (units (resolveCombatAsync None s)) = [3; 3].
Proof. vm_compute. reflexivity. Qed.

(** With an allocator the engine applies the answer as it comes: here all
    three points on the second defender. *)
Example militia_allocated :
  List.map damage
    (units (resolveCombatAsync (Some (fun _ total _ => [("s-2", total)])) militiaFight))
  = [4; 0; 3].
Proof. vm_compute. reflexivity. Qed.

(** *** Allocated damage *)

Lemma addDamage_zero (u : Unit) : addDamage 0 u = u.
Proof. destruct u. unfold addDamage, set_damage. cbn. f_equal. lia. Qed.

Lemma addDamage_add (a b : Z) (u : Unit) :
  addDamage a (addDamage b u) = addDamage (b + a) u.
Proof. destruct u. unfold addDamage, set_damage. cbn. f_equal. lia. Qed.

Lemma derefs_ext (s1 s2 : State) (refs : list nat) :
  (forall j, In j refs -> units s1 !! j = units s2 !! j) ->
  derefs s1 refs = derefs s2 refs.
Proof.
  unfold derefs. induction refs as [| i refs IH]; intros H; [reflexivity |].
  cbn [omap list_omap]. rewrite (H i (or_introl eq_refl)).
  rewrite IH by (intros j Hj; apply H; right; exact Hj). reflexivity.
Qed.

Lemma derefs_cons (s : State) (i : nat) (refs : list nat) (u : Unit) :
  units s !! i = Some u -> derefs s (i :: refs) = u :: derefs s refs.
Proof. intros H. unfold derefs. cbn [omap list_omap]. rewrite H. reflexivity. Qed.

Lemma derefs_ids (s1 s2 : State) (refs : list nat) :
  sameUnits (units s1) (units s2) ->
  unit_id <$> derefs s1 refs = unit_id <$> derefs s2 refs.
Proof.
  intros H. apply sameUnits_ids in H.
  assert (Hat : forall i, unit_id <$> units s1 !! i = unit_id <$> units s2 !! i).
  { intros i. rewrite <- !list_lookup_fmap. rewrite H. reflexivity. }
  unfold derefs. induction refs as [| i refs IH]; [reflexivity |].
  cbn [omap list_omap]. specialize (Hat i).
  destruct (units s1 !! i) as [u1 |], (units s2 !! i) as [u2 |]; cbn in Hat;
    try discriminate Hat.
  - rewrite !fmap_cons. f_equal; [congruence | exact IH].
  - exact IH.
Qed.

Lemma sameUnits_is_Some (l l' : list Unit) (j : nat) :
  sameUnits l l' -> is_Some (l' !! j) -> is_Some (l !! j).
Proof.
  intros H Hj. apply lookup_lt_is_Some. rewrite (sameUnits_length _ _ H).
  apply lookup_lt_is_Some. exact Hj.
Qed.

Lemma bearsFirst_head (x : string) (ids : list string) (enemyId : string) :
  bearsFirst (x :: ids) 0 enemyId = String.eqb x enemyId.
Proof. unfold bearsFirst. cbn. apply andb_true_r. Qed.

Lemma bearsFirst_tail (x : string) (ids : list string) (k : nat) (enemyId : string) :
  bearsFirst (x :: ids) (S k) enemyId =
  negb (String.eqb x enemyId) && bearsFirst ids k enemyId.
Proof.
  unfold bearsFirst. cbn [lookup list_lookup take forallb].
  change ((x :: ids) !! S k) with (ids !! k).
  destruct (ids !! k) as [y |]; [| rewrite andb_false_r; reflexivity].
  destruct (String.eqb y enemyId), (String.eqb x enemyId); reflexivity.
Qed.

(** [find] by id answers the target at position [k] exactly when that
    position is the first that bears the id. *)
Lemma findById_bearsFirst (s : State) (targets : list nat) (enemyId : string)
    (k i : nat) :
  List.NoDup targets ->
  (forall j, In j targets -> is_Some (units s !! j)) ->
  targets !! k = Some i ->
  findById s targets enemyId = Some i <->
  bearsFirst (unit_id <$> derefs s targets) k enemyId = true.
Proof.
  revert k. induction targets as [| t targets IH]; intros k Hnd Hvalid Hk;
    [discriminate Hk |].
  inversion Hnd as [| ? ? Hnotin Hnd']; subst.
  destruct (Hvalid t (or_introl eq_refl)) as [u Hu].
  rewrite (derefs_cons _ _ _ _ Hu), fmap_cons.
  unfold findById. cbn [List.find]. rewrite Hu. fold (findById s targets enemyId).
  assert (Hvalid' : forall j, In j targets -> is_Some (units s !! j))
    by (intros j Hj; apply Hvalid; right; exact Hj).
  destruct k as [| k].
  - injection Hk as <-. rewrite bearsFirst_head.
    destruct (String.eqb (unit_id u) enemyId); [tauto |].
    split; [| discriminate]. intros Hf. exfalso. apply Hnotin.
    eapply findById_In. exact Hf.
  - cbn in Hk. rewrite bearsFirst_tail.
    destruct (String.eqb (unit_id u) enemyId); cbn [negb andb].
    + split; [| discriminate]. intros Hf. injection Hf as <-.
      exfalso. apply Hnotin. eapply lookup_In. exact Hk.
    + apply IH; assumption.
Qed.

(** The loop over the allocation's entries gives the [k]-th target what the
    entries naming it hold. *)
Lemma applyAllocation_in (targets : list nat) (allocation : list (string * Z))
    (s : State) (k i : nat) :
  List.NoDup targets ->
  (forall j, In j targets -> is_Some (units s !! j)) ->
  targets !! k = Some i ->
  units (applyAllocation targets s allocation) !! i =
  addDamage (allotted (unit_id <$> derefs s targets) k allocation) <$> units s !! i.
Proof.
  intros Hnd Hvalid Hk. unfold applyAllocation. revert s Hvalid.
  induction allocation as [| [enemyId dmg] allocation IH]; intros s Hvalid.
  - cbn [fold_left allotted foldr]. destruct (units s !! i) as [u |]; [| reflexivity].
    cbn. rewrite addDamage_zero. reflexivity.
  - cbn [fold_left allotted foldr fst snd].
    fold (allotted (unit_id <$> derefs s targets) k allocation).
    pose proof (findById_bearsFirst s targets enemyId k i Hnd Hvalid Hk) as Hfind.
    set (s1 := match findById s targets enemyId with
               | Some enemy => if 0 <? dmg then applyDamage s enemy dmg None else s
               | None => s
               end).
    assert (Hsame : sameUnits (units s1) (units s)).
    { subst s1. destruct (findById s targets enemyId); [| apply sameUnits_refl].
      destruct (0 <? dmg); [apply sameUnits_applyDamage | apply sameUnits_refl]. }
    rewrite IH
      by (intros j Hj; eapply sameUnits_is_Some; [exact Hsame | apply Hvalid; exact Hj]).
    rewrite (derefs_ids s1 s targets Hsame).
    assert (Hstep : units s1 !! i =
                    addDamage (if bearsFirst (unit_id <$> derefs s targets) k enemyId
                                  && (0 <? dmg) then dmg else 0) <$> units s !! i).
    { subst s1. destruct (findById s targets enemyId) as [e |] eqn:Hf.
      - destruct (Nat.eq_dec e i) as [-> | Hne].
        + rewrite (proj1 Hfind eq_refl). cbn [andb].
          destruct (0 <? dmg); [apply applyDamage_lookup_eq |].
          destruct (units s !! i); [cbn; rewrite addDamage_zero |]; reflexivity.
        + assert (Hb : bearsFirst (unit_id <$> derefs s targets) k enemyId = false).
          { destruct (bearsFirst _ k enemyId) eqn:Hb; [| reflexivity].
            pose proof (proj2 Hfind eq_refl) as Hei. congruence. }
          rewrite Hb. cbn [andb].
          destruct (0 <? dmg); [rewrite applyDamage_lookup_ne by exact Hne |];
            (destruct (units s !! i); [cbn; rewrite addDamage_zero |]; reflexivity).
      - assert (Hb : bearsFirst (unit_id <$> derefs s targets) k enemyId = false).
        { destruct (bearsFirst _ k enemyId) eqn:Hb; [| reflexivity].
          pose proof (proj2 Hfind eq_refl) as Hei. discriminate Hei. }
        rewrite Hb. cbn [andb].
        destruct (units s !! i); [cbn; rewrite addDamage_zero |]; reflexivity. }
    rewrite Hstep. destruct (units s !! i) as [u |]; [| reflexivity].
    cbn. rewrite addDamage_add. reflexivity.
Qed.

(** One strike with an allocator against several targets: the allocator is
    asked with the targets as they stand and with the attackers' total, and
    the [k]-th target takes what the answer allots to it. *)
Lemma strike_alloc (modal : Allocator) (f : Z) (attackers targets : list nat)
    (s : State) (k i : nat) :
  List.NoDup targets ->
  attackers <> [] ->
  length targets <> 1%nat ->
  (forall j, In j targets -> is_Some (units s !! j)) ->
  targets !! k = Some i ->
  units (strike (Some modal) f attackers targets s) !! i =
  addDamage (allotted (unit_id <$> derefs s targets) k
               (modal (derefs s targets) (totalDamage s attackers) f)) <$> units s !! i.
Proof.
  intros Hnd Hatt Hlen Hvalid Hk. unfold strike.
  assert (Ha : (0 <? Z.of_nat (length attackers)) = true)
    by (destruct attackers; [congruence | cbn [length]; lia]).
  assert (Ht : (0 <? Z.of_nat (length targets)) = true)
    by (destruct targets; [discriminate Hk | cbn [length]; lia]).
  rewrite Ha, Ht. cbn [andb].
  destruct (Z.of_nat (length targets) =? 1) eqn:E1; [lia |].
  apply applyAllocation_in; assumption.
Qed.

Lemma derefs_units (s1 s2 : State) (refs : list nat) :
  units s1 = units s2 -> derefs s1 refs = derefs s2 refs.
Proof. intros H. unfold derefs. rewrite H. reflexivity. Qed.

Lemma totalDamage_ext (s1 s2 : State) (refs : list nat) :
  (forall j, In j refs -> units s1 !! j = units s2 !! j) ->
  totalDamage s1 refs = totalDamage s2 refs.
Proof. intros H. rewrite !totalDamage_outgoing. rewrite (derefs_ext _ _ _ H). reflexivity. Qed.

(** Faction 2's units of a group take what the answer to faction 1's total
    allots to them. *)
Lemma processGroup_alloc_faction2 (modal : Allocator) (s : State) (g : Group) (k i : nat) :
  wfGroup g ->
  (forall j, In j (members g) -> is_Some (units s !! j)) ->
  length (faction2 g) <> 1%nat ->
  faction2 g !! k = Some i ->
  units (processGroup (Some modal) s g) !! i =
  addDamage (allotted (unit_id <$> derefs s (faction2 g)) k
               (modal (derefs s (faction2 g)) (totalDamage s (faction1 g)) 1))
    <$> units s !! i.
Proof.
  intros Hwf Hvalid Hlen Hk. pose proof (wfGroup_sides g Hwf) as (Hnd1 & Hnd2 & Hdisj).
  destruct Hwf as (_ & Hne1 & Hne2). unfold processGroup.
  set (s1 := markInCombat (markInCombat s (faction1 g)) (faction2 g)).
  assert (Hu : units s1 = units s) by (subst s1; rewrite !units_markInCombat; reflexivity).
  rewrite strike_notin
    by (intros Hin; apply (Hdisj i Hin); eapply lookup_In; exact Hk).
  rewrite (strike_alloc modal 1 _ _ _ k i Hnd2 Hne1 Hlen).
  - rewrite (derefs_units s1 s _ Hu), Hu.
    rewrite (totalDamage_sameUnits s1 s) by (rewrite Hu; apply sameUnits_refl).
    reflexivity.
  - intros j Hj. rewrite Hu. apply Hvalid. unfold members. apply in_or_app. right. exact Hj.
  - exact Hk.
Qed.

(** Faction 1's units take what the answer to faction 2's total allots to
    them; the allocator sees them as they were, for faction 1's strike has
    touched faction 2's units only. *)
Lemma processGroup_alloc_faction1 (modal : Allocator) (s : State) (g : Group) (k i : nat) :
  wfGroup g ->
  (forall j, In j (members g) -> is_Some (units s !! j)) ->
  length (faction1 g) <> 1%nat ->
  faction1 g !! k = Some i ->
  units (processGroup (Some modal) s g) !! i =
  addDamage (allotted (unit_id <$> derefs s (faction1 g)) k
               (modal (derefs s (faction1 g)) (totalDamage s (faction2 g)) 2))
    <$> units s !! i.
Proof.
  intros Hwf Hvalid Hlen Hk. pose proof (wfGroup_sides g Hwf) as (Hnd1 & Hnd2 & Hdisj).
  destruct Hwf as (_ & Hne1 & Hne2). unfold processGroup.
  set (s1 := markInCombat (markInCombat s (faction1 g)) (faction2 g)).
  set (s2 := strike (Some modal) 1 (faction1 g) (faction2 g) s1).
  assert (Hu : units s1 = units s) by (subst s1; rewrite !units_markInCombat; reflexivity).
  assert (Hsame : sameUnits (units s2) (units s)).
  { subst s2. eapply sameUnits_trans; [apply sameUnits_strike |].
    rewrite Hu. apply sameUnits_refl. }
  assert (Hkeep : forall j, In j (faction1 g) -> units s2 !! j = units s !! j).
  { intros j Hj. subst s2. rewrite strike_notin by (apply Hdisj; exact Hj).
    rewrite Hu. reflexivity. }
  rewrite (strike_alloc modal 2 _ _ _ k i Hnd1 Hne2 Hlen).
  - rewrite (derefs_ext s2 s _ Hkeep).
    rewrite (totalDamage_sameUnits s2 s _ Hsame).
    rewrite (Hkeep i) by (eapply lookup_In; exact Hk). reflexivity.
  - intros j Hj. rewrite (Hkeep j Hj). apply Hvalid. unfold members.
    apply in_or_app. left. exact Hj.
  - exact Hk.
Qed.

(** A unit of a group takes, over the whole loop, what its own group deals
    to it, when that quantity [d] depends on the group's own units only and
    the boards differ from [s0] in damage only. *)
Lemma resolveCombatLoop_member_local (alloc : option Allocator) (gs : list Group)
    (s0 s : State) (g : Group) (i : nat) (d : State -> Z) :
  disjointGroups gs ->
  In g gs ->
  In i (members g) ->
  sameUnits (units s) (units s0) ->
  (forall s', sameUnits (units s') (units s0) ->
     units (processGroup alloc s' g) !! i = addDamage (d s') <$> units s' !! i) ->
  (forall s1 s2, (forall j, In j (members g) -> units s1 !! j = units s2 !! j) ->
     d s1 = d s2) ->
  units (resolveCombatLoop alloc gs s) !! i = addDamage (d s) <$> units s !! i.
Proof.
  intros Hdisj Hg Hi Hs Hstep Hd. revert s Hs Hdisj Hg.
  induction gs as [| g0 gs IH]; intros s Hs Hdisj Hg; [destruct Hg |].
  destruct Hdisj as [Hd0 Hdisj].
  change (resolveCombatLoop alloc (g0 :: gs) s)
    with (resolveCombatLoop alloc gs (processGroup alloc s g0)).
  destruct (in_dec Nat.eq_dec i (members g0)) as [Hi0 | Hi0].
  - rewrite resolveCombatLoop_notin by (intros g' Hg'; apply (Hd0 g' Hg' i Hi0)).
    destruct Hg as [-> | Hg]; [apply Hstep; exact Hs |].
    exfalso. exact (Hd0 g Hg i Hi0 Hi).
  - destruct Hg as [-> | Hg]; [contradiction |].
    rewrite (IH (processGroup alloc s g0)); [| | exact Hdisj | exact Hg].
    + rewrite processGroup_notin by exact Hi0.
      rewrite (Hd (processGroup alloc s g0) s); [reflexivity |].
      intros j Hj. apply processGroup_notin. intros Hj0. exact (Hd0 g Hg j Hj0 Hj).
    + eapply sameUnits_trans; [apply sameUnits_processGroup | exact Hs].
Qed.

Lemma getEngagedGroups_valid (s : State) (g : Group) (j : nat) :
  In g (getEngagedGroups s) -> In j (members g) -> is_Some (units s !! j).
Proof.
  intros Hg Hj. destruct (getEngagedGroups_inv s) as (processed & Hall & _).
  destruct (Hall g Hg) as (r & c & -> & _).
  apply members_groupAt in Hj. destruct Hj as (u & Hu & _). exists u. exact Hu.
Qed.

Lemma units_combat_start (s : State) (msg : string) : units (logMessage msg s) = units s.
Proof. reflexivity. Qed.

Lemma combat_alloc_faction2 (modal : Allocator) (s : State) (g : Group) (k i : nat) :
  In g (getEngagedGroups s) ->
  length (faction2 g) <> 1%nat ->
  faction2 g !! k = Some i ->
  units (combatBeforeCleanup (Some modal) s) !! i =
  addDamage (allotted (unit_id <$> derefs s (faction2 g)) k
               (modal (derefs s (faction2 g)) (outgoingDamage (derefs s (faction1 g))) 1))
    <$> units s !! i.
Proof.
  intros Hg Hlen Hk. unfold combatBeforeCleanup.
  set (s0 := logMessage _ s).
  assert (Hu : units s0 = units s) by reflexivity.
  rewrite (resolveCombatLoop_member_local (Some modal) _ s s0 g i
             (fun st => allotted (unit_id <$> derefs st (faction2 g)) k
                          (modal (derefs st (faction2 g)) (totalDamage st (faction1 g)) 1))).
  - rewrite (derefs_units s0 s _ Hu), Hu.
    rewrite (totalDamage_outgoing_sameUnits s s0) by (rewrite Hu; apply sameUnits_refl).
    reflexivity.
  - apply getEngagedGroups_disjoint.
  - exact Hg.
  - unfold members. apply in_or_app. right. eapply lookup_In. exact Hk.
  - rewrite Hu. apply sameUnits_refl.
  - intros s' Hs'. apply processGroup_alloc_faction2;
      [eapply getEngagedGroups_wf; exact Hg | | exact Hlen | exact Hk].
    intros j Hj. eapply sameUnits_is_Some; [exact Hs' |].
    eapply getEngagedGroups_valid; [exact Hg | exact Hj].
  - intros s1 s2 H.
    assert (H1 : forall j, In j (faction1 g) -> units s1 !! j = units s2 !! j)
      by (intros j Hj; apply H; unfold members; apply in_or_app; left; exact Hj).
    assert (H2 : forall j, In j (faction2 g) -> units s1 !! j = units s2 !! j)
      by (intros j Hj; apply H; unfold members; apply in_or_app; right; exact Hj).
    rewrite (derefs_ext s1 s2 _ H2), (totalDamage_ext s1 s2 _ H1). reflexivity.
Qed.

Lemma combat_alloc_faction1 (modal : Allocator) (s : State) (g : Group) (k i : nat) :
  In g (getEngagedGroups s) ->
  length (faction1 g) <> 1%nat ->
  faction1 g !! k = Some i ->
  units (combatBeforeCleanup (Some modal) s) !! i =
  addDamage (allotted (unit_id <$> derefs s (faction1 g)) k
               (modal (derefs s (faction1 g)) (outgoingDamage (derefs s (faction2 g))) 2))
    <$> units s !! i.
Proof.
  intros Hg Hlen Hk. unfold combatBeforeCleanup.
  set (s0 := logMessage _ s).
  assert (Hu : units s0 = units s) by reflexivity.
  rewrite (resolveCombatLoop_member_local (Some modal) _ s s0 g i
             (fun st => allotted (unit_id <$> derefs st (faction1 g)) k
                          (modal (derefs st (faction1 g)) (totalDamage st (faction2 g)) 2))).
  - rewrite (derefs_units s0 s _ Hu), Hu.
    rewrite (totalDamage_outgoing_sameUnits s s0) by (rewrite Hu; apply sameUnits_refl).
    reflexivity.
  - apply getEngagedGroups_disjoint.
  - exact Hg.
  - unfold members. apply in_or_app. left. eapply lookup_In. exact Hk.
  - rewrite Hu. apply sameUnits_refl.
  - intros s' Hs'. apply processGroup_alloc_faction1;
      [eapply getEngagedGroups_wf; exact Hg | | exact Hlen | exact Hk].
    intros j Hj. eapply sameUnits_is_Some; [exact Hs' |].
    eapply getEngagedGroups_valid; [exact Hg | exact Hj].
  - intros s1 s2 H.
    assert (H1 : forall j, In j (faction1 g) -> units s1 !! j = units s2 !! j)
      by (intros j Hj; apply H; unfold members; apply in_or_app; left; exact Hj).
    assert (H2 : forall j, In j (faction2 g) -> units s1 !! j = units s2 !! j)
      by (intros j Hj; apply H; unfold members; apply in_or_app; right; exact Hj).
    rewrite (derefs_ext s1 s2 _ H1), (totalDamage_ext s1 s2 _ H2). reflexivity.
Qed.

(** *** Sums of what the targets take *)

Lemma sum_snoc (f : nat -> Z) (l : list nat) (x : nat) :
  foldr Z.add 0 (f <$> l ++ [x]) = foldr Z.add 0 (f <$> l) + f x.
Proof.
  induction l as [| y l IH]; [cbn; lia |].
  cbn [app]. rewrite !fmap_cons. cbn [foldr]. rewrite IH. lia.
Qed.

Lemma sum_pointwise (f g : nat -> Z) (l : list nat) :
  foldr Z.add 0 ((fun k => f k + g k) <$> l) =
  foldr Z.add 0 (f <$> l) + foldr Z.add 0 (g <$> l).
Proof. induction l as [| k l IH]; [reflexivity |]. rewrite !fmap_cons. cbn [foldr]. lia. Qed.

Lemma sum_zero (f : nat -> Z) (l : list nat) :
  (forall k, f k = 0) -> foldr Z.add 0 (f <$> l) = 0.
Proof.
  intros H. induction l as [| k l IH]; [reflexivity |].
  rewrite fmap_cons. cbn [foldr]. rewrite H, IH. reflexivity.
Qed.

Lemma sum_shift (f : nat -> Z) (n : nat) :
  foldr Z.add 0 (f <$> seq 0 (S n)) =
  f 0%nat + foldr Z.add 0 ((fun k => f (S k)) <$> seq 0 n).
Proof.
  cbn [seq]. rewrite fmap_cons. cbn [foldr]. f_equal.
  rewrite <- fmap_S_seq, <- list_fmap_compose. reflexivity.
Qed.

(** The shares of the even split sum to the total. *)
Lemma share_sum (total : Z) (n : nat) :
  0 <= total -> (0 < n)%nat ->
  foldr Z.add 0 (share total n <$> seq 0 n) = total.
Proof.
  intros Ht Hn. unfold share.
  set (q := total / Z.of_nat n). set (r := total mod Z.of_nat n).
  assert (Hr : 0 <= r < Z.of_nat n) by (subst r; apply Z.mod_pos_bound; lia).
  assert (Hgen : forall m,
    foldr Z.add 0 ((fun k => q + (if Z.of_nat k <? r then 1 else 0)) <$> seq 0 m) =
    q * Z.of_nat m + Z.min (Z.of_nat m) r).
  { induction m as [| m IH]; [cbn; lia |].
    rewrite seq_S, sum_snoc, IH. cbn [plus].
    destruct (Z.of_nat m <? r) eqn:E; lia. }
  rewrite Hgen. subst q r.
  pose proof (Z.div_mod total (Z.of_nat n)). lia.
Qed.

(** Exactly one position bears an id first, when some position bears it. *)
Lemma bearsFirst_sum (ids : list string) (enemyId : string) (d : Z) :
  In enemyId ids ->
  foldr Z.add 0 ((fun k => if bearsFirst ids k enemyId then d else 0)
                   <$> seq 0 (length ids)) = d.
Proof.
  induction ids as [| x ids IH]; intros Hin; [destruct Hin |].
  cbn [length]. rewrite sum_shift. rewrite bearsFirst_head.
  destruct (String.eqb x enemyId) eqn:E.
  - rewrite sum_zero; [lia |]. intros k. rewrite bearsFirst_tail, E. reflexivity.
  - destruct Hin as [-> | Hin]; [rewrite String.eqb_refl in E; discriminate E |].
    etransitivity; [| apply (IH Hin)]. rewrite Z.add_0_l.
    apply (f_equal (foldr Z.add 0)).
    apply list_fmap_ext. intros _ k _. rewrite bearsFirst_tail, E. reflexivity.
Qed.

(** An answer that distributes the total allots, over all the targets, the
    total. *)
Lemma allotted_sum (ids : list string) (total : Z) (allocation : list (string * Z)) :
  distributes ids total allocation ->
  foldr Z.add 0 ((fun k => allotted ids k allocation) <$> seq 0 (length ids)) = total.
Proof.
  intros [Hall Hsum]. subst total.
  induction Hall as [| [enemyId dmg] allocation [Hin Hpos] Hall IH].
  - cbn [allotted foldr]. apply sum_zero. reflexivity.
  - change (fun k => allotted ids k ((enemyId, dmg) :: allocation))
      with (fun k => (if bearsFirst ids k enemyId && (0 <? dmg) then dmg else 0)
                     + allotted ids k allocation).
    cbn [foldr fst snd].
    rewrite (sum_pointwise
               (fun k => if bearsFirst ids k enemyId && (0 <? dmg) then dmg else 0)
               (fun k => allotted ids k allocation)).
    rewrite IH. f_equal. cbn [fst snd] in Hin, Hpos.
    destruct (0 <? dmg) eqn:E.
    + etransitivity; [| apply (bearsFirst_sum ids enemyId dmg Hin)].
      apply (f_equal (foldr Z.add 0)). apply list_fmap_ext. intros _ k _.
      rewrite andb_true_r. reflexivity.
    + rewrite sum_zero; [lia |]. intros k. rewrite andb_false_r. reflexivity.
Qed.

Lemma damageOn_add (s s' : State) (targets : list nat) (amt : nat -> Z) :
  (forall j, In j targets -> is_Some (units s !! j)) ->
  (forall k i, targets !! k = Some i ->
     units s' !! i = addDamage (amt k) <$> units s !! i) ->
  damageOn s' targets =
  damageOn s targets + foldr Z.add 0 (amt <$> seq 0 (length targets)).
Proof.
  revert amt. induction targets as [| t targets IH]; intros amt Hvalid H;
    [cbn; lia |].
  cbn [length]. rewrite sum_shift. cbn [damageOn foldr].
  fold (damageOn s' targets). fold (damageOn s targets).
  rewrite (IH (fun k => amt (S k)))
    by (first [intros j Hj; apply Hvalid; right; exact Hj
              | intros k i Hk; apply (H (S k) i); exact Hk]).
  rewrite (H 0%nat t eq_refl).
  destruct (Hvalid t (or_introl eq_refl)) as [u ->]. cbn. lia.
Qed.

Lemma derefs_length (s : State) (refs : list nat) :
  (forall j, In j refs -> is_Some (units s !! j)) ->
  length (derefs s refs) = length refs.
Proof.
  induction refs as [| i refs IH]; intros H; [reflexivity |].
  destruct (H i (or_introl eq_refl)) as [u Hu].
  rewrite (derefs_cons _ _ _ _ Hu). cbn [length].
  rewrite IH by (intros j Hj; apply H; right; exact Hj). reflexivity.
Qed.

(** *** The modal's answers *)

Lemma mapSet_present (key : string) (v cur : Z) (entries : list (string * Z)) :
  mapGet key entries = Some cur ->
  fst <$> mapSet key v entries = fst <$> entries /\
  sumOf (mapSet key v entries) = sumOf entries - cur + v /\
  (0 <= v -> Forall (fun e => 0 <= e.2) entries ->
   Forall (fun e => 0 <= e.2) (mapSet key v entries)).
Proof.
  unfold mapGet, sumOf. induction entries as [| e rest IH]; intros H; [discriminate H |].
  cbn [List.find] in H. cbn [mapSet]. destruct (String.eqb e.1 key) eqn:E.
  - cbn in H. injection H as <-. rewrite !fmap_cons. cbn [foldr fst snd].
    split; [reflexivity |]. split; [lia |].
    intros Hv Hall. inversion Hall; subst. constructor; [exact Hv | assumption].
  - destruct (IH H) as (Hk & Hs & Hp). rewrite !fmap_cons. cbn [foldr].
    split; [f_equal; exact Hk |]. split; [lia |].
    intros Hv Hall. inversion Hall; subst. constructor; [assumption | apply Hp; assumption].
Qed.

Lemma mapSet_keys (key : string) (v : Z) (entries : list (string * Z)) (ids : list string) :
  In key ids -> Forall (fun e => In e.1 ids) entries ->
  Forall (fun e => In e.1 ids) (mapSet key v entries).
Proof.
  intros Hk. induction entries as [| e rest IH]; intros Hall; cbn [mapSet].
  - constructor; [exact Hk | constructor].
  - inversion Hall; subst. destruct (String.eqb e.1 key);
      constructor; try assumption. apply IH. assumption.
Qed.

Lemma mapSet_zero (key : string) (entries : list (string * Z)) :
  Forall (fun e => e.2 = 0) entries -> Forall (fun e => e.2 = 0) (mapSet key 0 entries).
Proof.
  induction entries as [| e rest IH]; intros Hall; cbn [mapSet].
  - constructor; [reflexivity | constructor].
  - inversion Hall; subst. destruct (String.eqb e.1 key);
      constructor; try assumption; [reflexivity | apply IH; assumption].
Qed.

Lemma openModal_inv (enemies : list Unit) (totalDamage : Z) :
  modalInv enemies totalDamage (openModal enemies totalDamage).
Proof.
  unfold openModal, modalInv. cbn [fst snd].
  assert (Hgen : forall (l : list Unit) (acc : list (string * Z)),
            (forall e, In e l -> In (unit_id e) (unit_id <$> enemies)) ->
            Forall (fun e => In e.1 (unit_id <$> enemies)) acc ->
            Forall (fun e => e.2 = 0) acc ->
            let r := fold_left (fun allocation enemy => mapSet (unit_id enemy) 0 allocation)
                       l acc in
            Forall (fun e => In e.1 (unit_id <$> enemies)) r /\ Forall (fun e => e.2 = 0) r).
  { induction l as [| x l IH]; intros acc Hl Hk Hz; [split; assumption |].
    cbn [fold_left]. apply IH.
    - intros e He. apply Hl. right. exact He.
    - apply mapSet_keys; [apply Hl; left; reflexivity | exact Hk].
    - apply mapSet_zero. exact Hz. }
  destruct (Hgen enemies []) as [Hk Hz].
  - intros e He. apply list_elem_of_In, list_elem_of_fmap. exists e.
    split; [reflexivity | apply list_elem_of_In; exact He].
  - constructor.
  - constructor.
  - split; [exact Hk |].
    assert (Hsum : forall l, Forall (fun e : string * Z => e.2 = 0) l ->
                     Forall (fun e : string * Z => 0 <= e.2) l /\ sumOf l = 0).
    { induction l as [| e l IH]; intros H; [split; [constructor | reflexivity] |].
      inversion H; subst. destruct (IH ltac:(assumption)) as [Hp Hs].
      split; [constructor; [lia | exact Hp] |]. unfold sumOf in *. cbn [foldr]. lia. }
    destruct (Hsum _ Hz) as [Hp Hs]. split; [exact Hp | lia].
Qed.

Lemma press_inv (enemies : list Unit) (totalDamage : Z) (st : ModalState) (p : Press) :
  modalInv enemies totalDamage st -> modalInv enemies totalDamage (press enemies st p).
Proof.
  intros (Hk & Hp & Hs). unfold press.
  destruct p as [k | k]; destruct (enemies !! k) as [enemy |] eqn:He;
    try (split; [| split]; assumption);
    destruct (mapGet (unit_id enemy) st.1) as [current |] eqn:Hg;
    try (split; [| split]; assumption).
  - destruct (0 <? current) eqn:E; [| split; [| split]; assumption].
    destruct (mapSet_present _ (current - 1) _ _ Hg) as (_ & Hsum & Hpos).
    unfold modalInv. cbn [fst snd]. split; [| split].
    + apply mapSet_keys; [| exact Hk]. apply list_elem_of_In, list_elem_of_fmap.
      exists enemy. split; [reflexivity |]. apply list_elem_of_lookup. exists k. exact He.
    + apply Hpos; [lia | exact Hp].
    + lia.
  - destruct (0 <? st.2) eqn:E; [| split; [| split]; assumption].
    destruct (mapSet_present _ (current + 1) _ _ Hg) as (_ & Hsum & Hpos).
    assert (Hcur : 0 <= current).
    { unfold mapGet in Hg. destruct (List.find _ st.1) as [e |] eqn:Hf; [| discriminate Hg].
      injection Hg as <-. apply find_some in Hf as [Hin _].
      rewrite Forall_forall in Hp. apply Hp. apply list_elem_of_In. exact Hin. }
    unfold modalInv. cbn [fst snd]. split; [| split].
    + apply mapSet_keys; [| exact Hk]. apply list_elem_of_In, list_elem_of_fmap.
      exists enemy. split; [reflexivity |]. apply list_elem_of_lookup. exists k. exact He.
    + apply Hpos; [lia | exact Hp].
    + lia.
Qed.

Lemma modalSession_inv (enemies : list Unit) (totalDamage : Z) (presses : list Press) :
  modalInv enemies totalDamage (modalSession enemies totalDamage presses).
Proof.
  unfold modalSession. generalize (openModal_inv enemies totalDamage).
  generalize (openModal enemies totalDamage). induction presses as [| p presses IH];
    intros st Hst; [exact Hst |].
  cbn [fold_left]. apply IH. apply press_inv. exact Hst.
Qed.

(** A confirmed answer of the modal distributes the total over the listed
    enemies. *)
Lemma showDamageAllocationModal_distributes (presses : list Unit -> Z -> Z -> list Press)
    (enemies : list Unit) (totalDamage attackingFaction : Z) :
  confirmEnabled presses enemies totalDamage attackingFaction ->
  distributes (unit_id <$> enemies) totalDamage
    (showDamageAllocationModal presses enemies totalDamage attackingFaction).
Proof.
  unfold confirmEnabled, showDamageAllocationModal. intros Hzero.
  destruct (modalSession_inv enemies totalDamage
              (presses enemies totalDamage attackingFaction)) as (Hk & Hp & Hs).
  split.
  - rewrite Forall_forall in Hk, Hp. rewrite List.Forall_forall. intros e He.
    apply list_elem_of_In in He. split; [apply Hk | apply Hp]; exact He.
  - unfold sumOf in Hs. lia.
Qed.

(** C9: for a group of [getEngagedGroups], a side's total is summed over
    every unit of the group on any board that differs from the initial one
    only in damage (so also after the opposing side has struck and
    destroyed some of them), and the other side's units take that total:
    the full shares of it without an allocator or when there is a single
    target; with an allocator and several targets the allocator is asked
    with the targets as they stood and with that total, each target takes
    exactly the positive amounts that the answer gives to its id, and the
    damage on the targets grows by the whole total whenever the answer
    distributes it (every entry names a target, no amount is negative, the
    amounts sum to the total), as every confirmed answer of the modal of
    [game.js] does.  The loop over the groups removes no unit from the
    array, and the cleanup that drops the destroyed units runs on the
    board that the whole loop leaves. *)
Theorem combat_totals_count_destroyed_units (alloc : option Allocator) (s : State)
    (g : Group) :
  In g (getEngagedGroups s) ->
  let s' := combatBeforeCleanup alloc s in
  let total1 := outgoingDamage (derefs s (faction1 g)) in
  let total2 := outgoingDamage (derefs s (faction2 g)) in
  let ids1 := unit_id <$> derefs s (faction1 g) in
  let ids2 := unit_id <$> derefs s (faction2 g) in
  (forall st, sameUnits (units st) (units s) ->
     totalDamage st (faction1 g) = total1 /\
     totalDamage st (faction2 g) = total2) /\
  (alloc = None \/ length (faction1 g) = 1%nat ->
   forall k i, faction1 g !! k = Some i ->
     units s' !! i =
     addDamage (share total2 (length (faction1 g)) k) <$> units s !! i) /\
  (alloc = None \/ length (faction2 g) = 1%nat ->
   forall k i, faction2 g !! k = Some i ->
     units s' !! i =
     addDamage (share total1 (length (faction2 g)) k) <$> units s !! i) /\
  (forall modal, alloc = Some modal -> length (faction1 g) <> 1%nat ->
   forall k i, faction1 g !! k = Some i ->
     units s' !! i =
     addDamage (allotted ids1 k (modal (derefs s (faction1 g)) total2 2))
       <$> units s !! i) /\
  (forall modal, alloc = Some modal -> length (faction2 g) <> 1%nat ->
   forall k i, faction2 g !! k = Some i ->
     units s' !! i =
     addDamage (allotted ids2 k (modal (derefs s (faction2 g)) total1 1))
       <$> units s !! i) /\
  (match alloc with
   | Some modal => length (faction1 g) = 1%nat \/
                   distributes ids1 total2 (modal (derefs s (faction1 g)) total2 2)
   | None => True
   end ->
   damageOn s' (faction1 g) = damageOn s (faction1 g) + total2) /\
  (match alloc with
   | Some modal => length (faction2 g) = 1%nat \/
                   distributes ids2 total1 (modal (derefs s (faction2 g)) total1 1)
   | None => True
   end ->
   damageOn s' (faction2 g) = damageOn s (faction2 g) + total1) /\
  (forall presses, alloc = Some (showDamageAllocationModal presses) ->
     (length (faction1 g) = 1%nat \/
      confirmEnabled presses (derefs s (faction1 g)) total2 2 ->
      damageOn s' (faction1 g) = damageOn s (faction1 g) + total2) /\
     (length (faction2 g) = 1%nat \/
      confirmEnabled presses (derefs s (faction2 g)) total1 1 ->
      damageOn s' (faction2 g) = damageOn s (faction2 g) + total1)) /\
  unit_id <$> units s' = unit_id <$> units s /\
  length (units s') = length (units s) /\
  units (resolveCombatAsync alloc s) = List.filter isAlive (units s').
Proof.
  intros Hg s' total1 total2 ids1 ids2.
  assert (Hsame : sameUnits (units s') (units s)).
  { subst s'. unfold combatBeforeCleanup.
    eapply sameUnits_trans; [apply sameUnits_resolveCombatLoop | apply sameUnits_refl]. }
  pose proof (getEngagedGroups_wf s g Hg) as (_ & Hne1 & Hne2).
  assert (Hv1 : forall j, In j (faction1 g) -> is_Some (units s !! j)).
  { intros j Hj. apply (getEngagedGroups_valid s g j Hg). unfold members.
    apply in_or_app. left. exact Hj. }
  assert (Hv2 : forall j, In j (faction2 g) -> is_Some (units s !! j)).
  { intros j Hj. apply (getEngagedGroups_valid s g j Hg). unfold members.
    apply in_or_app. right. exact Hj. }
  assert (Hshare1 : alloc = None \/ length (faction1 g) = 1%nat ->
                    damageOn s' (faction1 g) = damageOn s (faction1 g) + total2).
  { intros Hmode.
    rewrite (damageOn_add s s' _ (share total2 (length (faction1 g))) Hv1)
      by (intros k i Hk; exact (combat_faction1 alloc s g k i Hg Hmode Hk)).
    rewrite share_sum; [reflexivity | apply outgoingDamage_nonneg |].
    destruct (faction1 g); [congruence | cbn [length]; lia]. }
  assert (Hshare2 : alloc = None \/ length (faction2 g) = 1%nat ->
                    damageOn s' (faction2 g) = damageOn s (faction2 g) + total1).
  { intros Hmode.
    rewrite (damageOn_add s s' _ (share total1 (length (faction2 g))) Hv2)
      by (intros k i Hk; exact (combat_faction2 alloc s g k i Hg Hmode Hk)).
    rewrite share_sum; [reflexivity | apply outgoingDamage_nonneg |].
    destruct (faction2 g); [congruence | cbn [length]; lia]. }
  split.
  { intros st Hst. split; apply totalDamage_outgoing_sameUnits; exact Hst. }
  split; [intros Hmode k i Hk; exact (combat_faction1 alloc s g k i Hg Hmode Hk) |].
  split; [intros Hmode k i Hk; exact (combat_faction2 alloc s g k i Hg Hmode Hk) |].
  split.
  { intros modal Halloc Hlen k i Hk. subst s'. rewrite Halloc.
    exact (combat_alloc_faction1 modal s g k i Hg Hlen Hk). }
  split.
  { intros modal Halloc Hlen k i Hk. subst s'. rewrite Halloc.
    exact (combat_alloc_faction2 modal s g k i Hg Hlen Hk). }
  assert (Hfull1 : match alloc with
                   | Some modal =>
                     length (faction1 g) = 1%nat \/
                     distributes ids1 total2 (modal (derefs s (faction1 g)) total2 2)
                   | None => True
                   end ->
                   damageOn s' (faction1 g) = damageOn s (faction1 g) + total2).
  { destruct alloc as [modal |]; [| intros _; apply Hshare1; left; reflexivity].
    intros Hmode.
    destruct (Nat.eq_dec (length (faction1 g)) 1%nat) as [Hone | Hmany];
      [apply Hshare1; right; exact Hone |].
    destruct Hmode as [Hone | Hdist]; [contradiction |].
    rewrite (damageOn_add s s' _
               (fun k => allotted ids1 k (modal (derefs s (faction1 g)) total2 2)) Hv1)
      by (intros k i Hk; exact (combat_alloc_faction1 modal s g k i Hg Hmany Hk)).
    rewrite <- (derefs_length s _ Hv1), <- (length_fmap unit_id).
    fold ids1. rewrite (allotted_sum ids1 total2 _ Hdist). reflexivity. }
  assert (Hfull2 : match alloc with
                   | Some modal =>
                     length (faction2 g) = 1%nat \/
                     distributes ids2 total1 (modal (derefs s (faction2 g)) total1 1)
                   | None => True
                   end ->
                   damageOn s' (faction2 g) = damageOn s (faction2 g) + total1).
  { destruct alloc as [modal |]; [| intros _; apply Hshare2; left; reflexivity].
    intros Hmode.
    destruct (Nat.eq_dec (length (faction2 g)) 1%nat) as [Hone | Hmany];
      [apply Hshare2; right; exact Hone |].
    destruct Hmode as [Hone | Hdist]; [contradiction |].
    rewrite (damageOn_add s s' _
               (fun k => allotted ids2 k (modal (derefs s (faction2 g)) total1 1)) Hv2)
      by (intros k i Hk; exact (combat_alloc_faction2 modal s g k i Hg Hmany Hk)).
    rewrite <- (derefs_length s _ Hv2), <- (length_fmap unit_id).
    fold ids2. rewrite (allotted_sum ids2 total1 _ Hdist). reflexivity. }
  split; [exact Hfull1 |]. split; [exact Hfull2 |].
  split.
  { intros presses Halloc. rewrite Halloc in Hfull1, Hfull2. split.
    - intros [Hone | Hconf]; apply Hfull1; [left; exact Hone | right].
      apply showDamageAllocationModal_distributes. exact Hconf.
    - intros [Hone | Hconf]; apply Hfull2; [left; exact Hone | right].
      apply showDamageAllocationModal_distributes. exact Hconf. }
  split; [apply sameUnits_ids; exact Hsame |].
  split; [apply sameUnits_length; exact Hsame |].
  rewrite (resolveCombatAsync_cleanup alloc s g Hg). reflexivity.
Qed.

Lemma combat_totals_count_destroyed_units_witness :
  (In (groupAt lastStand 3 3) (getEngagedGroups lastStand) /\
   (damage <$> units (combatBeforeCleanup None lastStand) !! 0%nat) = Some 5 /\
   (damage <$> units (combatBeforeCleanup None lastStand) !! 1%nat) = Some 6 /\
   length (units (combatBeforeCleanup None lastStand)) = 2%nat /\
   units (resolveCombatAsync None lastStand) = []) /\
  (let modal := showDamageAllocationModal bothOnArchers in
   In (groupAt crowdedStand 3 3) (getEngagedGroups crowdedStand) /\
   modal (derefs crowdedStand [0%nat; 1%nat]) 2 2 = [("a-1", 2); ("mi-1", 0)] /\
   (damage <$> units (combatBeforeCleanup (Some modal) crowdedStand) !! 0%nat) = Some 5 /\
   (damage <$> units (combatBeforeCleanup (Some modal) crowdedStand) !! 1%nat) = Some 0 /\
   (damage <$> units (combatBeforeCleanup (Some modal) crowdedStand) !! 2%nat) = Some 9 /\
   damageOn (combatBeforeCleanup (Some modal) crowdedStand) [0%nat; 1%nat] = 3 + 2 /\
   List.map unit_id (units (resolveCombatAsync (Some modal) crowdedStand)) = ["mi-1"]).
Proof.
  split.
  - assert (Hg : In (groupAt lastStand 3 3) (getEngagedGroups lastStand))
      by (left; reflexivity).
    split; [exact Hg |].
    destruct (combat_totals_count_destroyed_units None lastStand _ Hg)
      as (_ & H1 & H2 & _ & _ & _ & _ & _ & _ & Hlen & Hclean).
    rewrite (H1 (or_introl eq_refl) 0%nat 0%nat eq_refl).
    rewrite (H2 (or_introl eq_refl) 0%nat 1%nat eq_refl).
    rewrite Hclean.
    split; [reflexivity |]. split; [reflexivity |]. split; [exact Hlen |].
    vm_compute. reflexivity.
  - intros modal.
    assert (Hg : In (groupAt crowdedStand 3 3) (getEngagedGroups crowdedStand))
      by (left; reflexivity).
    split; [exact Hg |]. split; [reflexivity |].
    destruct (combat_totals_count_destroyed_units (Some modal) crowdedStand _ Hg)
      as (_ & _ & H2 & A1 & _ & _ & _ & M & _ & _ & Hclean).
    rewrite (A1 modal eq_refl ltac:(discriminate) 0%nat 0%nat eq_refl).
    rewrite (A1 modal eq_refl ltac:(discriminate) 1%nat 1%nat eq_refl).
    rewrite (H2 (or_intror eq_refl) 0%nat 2%nat eq_refl).
    split; [reflexivity |]. split; [reflexivity |]. split; [reflexivity |].
    split.
    + apply (proj1 (M bothOnArchers eq_refl)). right. reflexivity.
    + rewrite Hclean. vm_compute. reflexivity.
Defined.

(** The state between the two strikes of the group: the Cannon is already
    destroyed (6 of 5), is still in the array, and faction 2's total is
    still 2. *)
Example cannon_fires_after_destruction :
  let s1 := strike None 1 [0%nat] [1%nat] lastStand in
  (isAlive <$> units s1 !! 1%nat) = Some false /\
  totalDamage s1 [1%nat] = 2 /\
  (damage <$> units (strike None 2 [1%nat] [0%nat] s1) !! 0%nat) = Some 5.
Proof. vm_compute. repeat split. Qed.

Example last_stand_log :
  log (resolveCombatAsync None lastStand) =
  ["Resolving 1 engagement(s)...";
   "🚀 Cannon takes 2 damage (6/5)"; "🚀 Cannon is destroyed!";
   "🏹 Archers takes 2 damage (5/5)"; "🏹 Archers is destroyed!"].
Proof. vm_compute. reflexivity. Qed.

Example last_stand_destroyed_lists :
  List.map unit_id (pf1 (destroyedUnits (resolveCombatAsync None lastStand))) = ["c-1"] /\
  List.map unit_id (pf2 (destroyedUnits (resolveCombatAsync None lastStand))) = ["a-1"].
Proof. vm_compute. split; reflexivity. Qed.

(** * Further properties *)

(** ** Geometry, continued *)

(** X1: the distance obeys the triangle inequality, on all integer cells. *)
Theorem hexDistance_triangle (r1 c1 r2 c2 r3 c3 : Z) :
  hexDistance r1 c1 r3 c3 <= hexDistance r1 c1 r2 c2 + hexDistance r2 c2 r3 c3.
Proof.
  unfold hexDistance, toCube.
  generalize (c1 / 2), (c2 / 2), (c3 / 2). intros q1 q2 q3.
  assert (Hx : Z.abs (c1 - c3) <= Z.abs (c1 - c2) + Z.abs (c2 - c3)) by lia.
  assert (Hy : Z.abs (- c1 - (r1 - q1) - (- c3 - (r3 - q3))) <=
               Z.abs (- c1 - (r1 - q1) - (- c2 - (r2 - q2))) +
               Z.abs (- c2 - (r2 - q2) - (- c3 - (r3 - q3)))) by lia.
  assert (Hz : Z.abs (r1 - q1 - (r3 - q3)) <=
               Z.abs (r1 - q1 - (r2 - q2)) + Z.abs (r2 - q2 - (r3 - q3))) by lia.
  revert Hx Hy Hz.
  generalize (Z.abs (c1 - c3)), (Z.abs (c1 - c2)), (Z.abs (c2 - c3)),
    (Z.abs (- c1 - (r1 - q1) - (- c3 - (r3 - q3)))),
    (Z.abs (- c1 - (r1 - q1) - (- c2 - (r2 - q2)))),
    (Z.abs (- c2 - (r2 - q2) - (- c3 - (r3 - q3)))),
    (Z.abs (r1 - q1 - (r3 - q3))), (Z.abs (r1 - q1 - (r2 - q2))),
    (Z.abs (r2 - q2 - (r3 - q3))).
  intros. lia.
Qed.

Lemma Hex_eqb_eq (a b : Hex) : Hex_eqb a b = true <-> a = b.
Proof.
  destruct a as [r c], b as [r' c']. unfold Hex_eqb. cbn [hex_row hex_col].
  rewrite andb_true_iff, !Z.eqb_eq. split; [intros [-> ->]; reflexivity |].
  intros H. injection H as -> ->. split; reflexivity.
Qed.

Lemma boardCells_spec (r c : Z) : In (mkHex r c) boardCells <-> isValidHex r c = true.
Proof.
  split.
  - intros H. cbv [boardCells flat_map List.map app] in H. cbn [In] in H.
    repeat (destruct H as [H | H]; [injection H as <- <-; reflexivity |]).
    destruct H.
  - intros H. apply isValidHex_spec in H as [Hr Hc].
    assert (Hr' : r = 0 \/ r = 1 \/ r = 2 \/ r = 3 \/ r = 4 \/ r = 5) by lia.
    assert (Hc' : c = 0 \/ c = 1 \/ c = 2 \/ c = 3 \/ c = 4 \/ c = 5) by lia.
    cbv [boardCells flat_map List.map app]. cbn [In].
    repeat (destruct Hr' as [-> | Hr']);
      repeat (destruct Hc' as [-> | Hc']); subst; tauto.
Qed.

(** Checked on the 36 x 36 pairs of board cells: a cell at distance 1 is
    listed among the neighbours. *)
Lemma distance_one_listed :
  forallb (fun a =>
    forallb (fun b =>
      implb (hexDistance (hex_row a) (hex_col a) (hex_row b) (hex_col b) =? 1)
            (existsb (Hex_eqb b) (getAdjacentHexes (hex_row a) (hex_col a))))
      boardCells) boardCells = true.
Proof. vm_compute. reflexivity. Qed.

Lemma NoDup_map_injective {A B} (f : A -> B) (l : list A) :
  (forall x y, In x l -> In y l -> f x = f y -> x = y) ->
  List.NoDup l -> List.NoDup (List.map f l).
Proof.
  induction l as [| a l IH]; intros Hinj Hnd; [constructor |].
  inversion Hnd as [| ? ? Hnotin Hnd']; subst. cbn [List.map]. constructor.
  - intros Hin. apply in_map_iff in Hin as (x & Hfx & Hx).
    assert (x = a) by (apply Hinj; [right; exact Hx | left; reflexivity | exact Hfx]).
    subst x. contradiction.
  - apply IH; [| exact Hnd'].
    intros x y Hx Hy. apply Hinj; right; assumption.
Qed.

Lemma getAdjacentHexes_NoDup (r c : Z) : List.NoDup (getAdjacentHexes r c).
Proof.
  unfold getAdjacentHexes. apply List.NoDup_filter. apply NoDup_map_injective.
  - intros [dr dc] [dr' dc'] _ _ H. injection H as H1 H2. f_equal; lia.
  - destruct (Z.rem c 2 =? 1); unfold oddOffsets, evenOffsets;
      repeat (constructor; [cbn [In]; intros H;
        repeat (destruct H as [H | H]; [discriminate H |]); exact H |]);
      constructor.
Qed.

(** X2: for an in-bounds cell, [getAdjacentHexes] returns exactly the
    in-bounds cells at distance 1, each once, and so at most six cells and
    never the cell itself. *)
Theorem getAdjacentHexes_exact (r c : Z) :
  isValidHex r c = true ->
  (forall b, In b (getAdjacentHexes r c) <->
             isValidHex (hex_row b) (hex_col b) = true /\
             hexDistance r c (hex_row b) (hex_col b) = 1) /\
  List.NoDup (getAdjacentHexes r c) /\
  (length (getAdjacentHexes r c) <= 6)%nat /\
  ~ In (mkHex r c) (getAdjacentHexes r c).
Proof.
  intros Hv. apply isValidHex_spec in Hv as [Hr Hc].
  assert (Hiff : forall b, In b (getAdjacentHexes r c) <->
             isValidHex (hex_row b) (hex_col b) = true /\
             hexDistance r c (hex_row b) (hex_col b) = 1).
  { intros [r2 c2]. cbn [hex_row hex_col]. split.
    - intros Hin. split.
      + exact (adjacent_in_bounds r c _ Hin).
      + apply (adjacent_distance r c (mkHex r2 c2)); [lia | exact Hin].
    - intros [Hv2 Hd].
      pose proof distance_one_listed as Hall.
      rewrite forallb_forall in Hall.
      specialize (Hall (mkHex r c) (proj2 (boardCells_spec r c)
                                      (proj2 (isValidHex_spec r c) (conj Hr Hc)))).
      rewrite forallb_forall in Hall.
      specialize (Hall (mkHex r2 c2) (proj2 (boardCells_spec r2 c2) Hv2)).
      cbn [hex_row hex_col] in Hall. rewrite Hd in Hall. cbn [Z.eqb Pos.eqb implb] in Hall.
      apply existsb_exists in Hall as (b & Hb & Heq).
      apply Hex_eqb_eq in Heq. subst b. exact Hb. }
  split; [exact Hiff |].
  split; [apply getAdjacentHexes_NoDup |].
  split.
  - unfold getAdjacentHexes. etransitivity; [apply List.filter_length_le |].
    rewrite length_map. destruct (Z.rem c 2 =? 1); cbn; lia.
  - intros Hin. apply Hiff in Hin as [_ Hd]. cbn [hex_row hex_col] in Hd.
    rewrite hexDistance_refl in Hd. discriminate Hd.
Qed.

Lemma getAdjacentHexes_exact_witness :
  isValidHex 0 5 = true /\
  (forall b, In b (getAdjacentHexes 0 5) <->
             isValidHex (hex_row b) (hex_col b) = true /\
             hexDistance 0 5 (hex_row b) (hex_col b) = 1) /\
  length (getAdjacentHexes 0 5) = 3%nat.
Proof.
  split; [reflexivity |].
  destruct (getAdjacentHexes_exact 0 5 eq_refl) as (H & _).
  split; [exact H | reflexivity].
Defined.

(** ** Legal moves *)

Lemma hex_key_inj (h h' : Hex) :
  (hex_row h, hex_col h) = (hex_row h', hex_col h') -> h = h'.
Proof. destruct h, h'. cbn. intros H. injection H as -> ->. reflexivity. Qed.

Lemma validMovesLoop_step (fuel : nat) (s : State) (u : Unit) (maxMovement : Z)
    (hex : Hex) (distance : Z) (queue : list (Hex * Z)) (visited : gset (Z * Z))
    (moves : list Hex) :
  bool_decide ((hex_row hex, hex_col hex) ∈ visited) || (maxMovement <? distance) = false ->
  validMovesLoop (S fuel) s u maxMovement ((hex, distance) :: queue) visited moves =
  validMovesLoop fuel s u maxMovement
    (if distance <? maxMovement then
       queue ++
       List.map (fun nextHex => (nextHex, distance + 1))
         (List.filter (fun nextHex =>
            negb (bool_decide ((hex_row nextHex, hex_col nextHex)
                               ∈ {[ (hex_row hex, hex_col hex) ]} ∪ visited)))
            (getAdjacentHexes (hex_row hex) (hex_col hex)))
     else queue)
    ({[ (hex_row hex, hex_col hex) ]} ∪ visited)
    (if 0 <? distance then
       if Z.of_nat (length (getFactionUnitsAt s (hex_row hex) (hex_col hex) (faction u))) <? 2
       then moves ++ [hex] else moves
     else moves).
Proof. intros H. simpl validMovesLoop at 1. rewrite H. reflexivity. Qed.

(** The search loop on a queue of cells that are all one step away. *)
Lemma validMovesLoop_ring (fuel : nat) (s : State) (u : Unit) (q : list Hex)
    (visited : gset (Z * Z)) (moves : list Hex) :
  (length q <= fuel)%nat ->
  List.NoDup q ->
  (forall h, In h q -> (hex_row h, hex_col h) ∉ visited) ->
  validMovesLoop fuel s u 1 (List.map (fun h => (h, 1)) q) visited moves =
  moves ++ List.filter (fun h =>
    Z.of_nat (length (getFactionUnitsAt s (hex_row h) (hex_col h) (faction u))) <? 2) q.
Proof.
  revert fuel visited moves. induction q as [| h q IH]; intros fuel visited moves Hf Hnd Hv.
  - cbn [List.map List.filter]. rewrite app_nil_r. destruct fuel; reflexivity.
  - destruct fuel as [| fuel]; [cbn [length] in Hf; lia |].
    inversion Hnd as [| ? ? Hnotin Hnd']; subst.
    cbn [List.map]. rewrite validMovesLoop_step.
    2:{ rewrite bool_decide_eq_false_2 by (apply Hv; left; reflexivity). reflexivity. }
    change (1 <? 1) with false. change (0 <? 1) with true. cbv iota.
    rewrite IH.
    + cbn [List.filter].
      destruct (Z.of_nat (length (getFactionUnitsAt s (hex_row h) (hex_col h) (faction u)))
                <? 2);
        [rewrite <- app_assoc |]; reflexivity.
    + cbn [length] in Hf. lia.
    + exact Hnd'.
    + intros h' Hh' Hin. apply elem_of_union in Hin as [Hin | Hin].
      * apply elem_of_singleton in Hin. apply hex_key_inj in Hin. subst h'. contradiction.
      * apply (Hv h'); [right; exact Hh' | exact Hin].
Qed.

Lemma self_not_adjacent (r c : Z) : ~ In (mkHex r c) (getAdjacentHexes r c).
Proof.
  unfold getAdjacentHexes. intros H. apply filter_In in H as [H _].
  apply in_map_iff in H as ([dr dc] & Heq & Hin). injection Heq as H1 H2.
  assert (dr = 0 /\ dc = 0) as [-> ->] by lia.
  destruct (Z.rem c 2 =? 1); unfold oddOffsets, evenOffsets in Hin; cbn [In] in Hin;
    repeat (destruct Hin as [Hin | Hin]; [discriminate Hin |]); exact Hin.
Qed.

Lemma getAdjacentHexes_length (r c : Z) : (length (getAdjacentHexes r c) <= 6)%nat.
Proof.
  unfold getAdjacentHexes. etransitivity; [apply List.filter_length_le |].
  rewrite length_map. destruct (Z.rem c 2 =? 1); cbn; lia.
Qed.

Lemma filter_true_id {A} (p : A -> bool) (l : list A) :
  (forall x, In x l -> p x = true) -> List.filter p l = l.
Proof.
  induction l as [| x l IH]; intros H; [reflexivity |].
  cbn [List.filter]. rewrite (H x) by (left; reflexivity).
  rewrite IH by (intros y Hy; apply H; right; exact Hy). reflexivity.
Qed.

(** The moves of a unit that is neither Commander nor Aerial, when the
    engagement rule lets it move. *)
Lemma getValidMoves_walk (s : State) (u : Unit) :
  isEngaged s u = false \/ type_id (type u) = type_id UnitTypes.ASSAULT_BEASTS ->
  type_id (type u) <> type_id UnitTypes.COMMANDER ->
  type_id (type u) <> type_id UnitTypes.AERIAL ->
  getValidMoves s u =
  List.filter (fun h =>
      Z.of_nat (length (getFactionUnitsAt s (hex_row h) (hex_col h) (faction u))) <? 2)
    (getAdjacentHexes (row u) (col u))
  ++ [mkHex (row u) (col u)].
Proof.
  intros Hmove Hc Ha. unfold getValidMoves.
  assert (Hgate : isEngaged s u &&
                  negb (type_id (type u) =? type_id UnitTypes.ASSAULT_BEASTS) = false).
  { destruct Hmove as [-> | ->]; [reflexivity |]. rewrite Z.eqb_refl. apply andb_false_r. }
  rewrite Hgate.
  destruct (type_id (type u) =? type_id UnitTypes.COMMANDER) eqn:E1; [lia |].
  destruct (type_id (type u) =? type_id UnitTypes.AERIAL) eqn:E2; [lia |].
  f_equal. cbv zeta.
  change 256%nat with (S 255). rewrite validMovesLoop_step.
  2:{ rewrite bool_decide_eq_false_2 by set_solver. reflexivity. }
  cbn [hex_row hex_col].
  change (0 <? 0) with false. change (0 <? 1) with true. cbv iota.
  cbn [app]. change (0 + 1) with 1.
  rewrite (filter_true_id _ (getAdjacentHexes (row u) (col u))).
  - rewrite validMovesLoop_ring; [reflexivity | | apply getAdjacentHexes_NoDup |].
    + pose proof (getAdjacentHexes_length (row u) (col u)). lia.
    + intros h Hh Hin. apply elem_of_union in Hin as [Hin | Hin]; [| set_solver].
      apply elem_of_singleton in Hin.
      assert (h = mkHex (row u) (col u)) by (apply hex_key_inj; exact Hin).
      subst h. exact (self_not_adjacent _ _ Hh).
  - intros h Hh. apply negb_true_iff. apply bool_decide_eq_false_2.
    intros Hin. apply elem_of_union in Hin as [Hin | Hin]; [| set_solver].
    apply elem_of_singleton in Hin.
    assert (h = mkHex (row u) (col u)) by (apply hex_key_inj; exact Hin).
    subst h. exact (self_not_adjacent _ _ Hh).
Qed.

(** X3: movement of a unit that is neither Commander nor Aerial, standing
    in bounds.  Engaged, it has no move at all unless it is Assault Beasts.
    Otherwise its moves are its own hex and the in-bounds cells at distance
    1 that hold fewer than two living units of its faction, each once. *)
Theorem getValidMoves_one_step (s : State) (u : Unit) :
  isValidHex (row u) (col u) = true ->
  type_id (type u) <> type_id UnitTypes.COMMANDER ->
  type_id (type u) <> type_id UnitTypes.AERIAL ->
  (isEngaged s u = true ->
   type_id (type u) <> type_id UnitTypes.ASSAULT_BEASTS ->
   getValidMoves s u = []) /\
  (isEngaged s u = false \/ type_id (type u) = type_id UnitTypes.ASSAULT_BEASTS ->
   (forall h, In h (getValidMoves s u) <->
      h = mkHex (row u) (col u) \/
      (isValidHex (hex_row h) (hex_col h) = true /\
       hexDistance (row u) (col u) (hex_row h) (hex_col h) = 1 /\
       (length (getFactionUnitsAt s (hex_row h) (hex_col h) (faction u)) < 2)%nat)) /\
   List.NoDup (getValidMoves s u)).
Proof.
  intros Hv Hc Ha. split.
  - intros He Hb. unfold getValidMoves. rewrite He.
    destruct (type_id (type u) =? type_id UnitTypes.ASSAULT_BEASTS) eqn:E; [lia |].
    reflexivity.
  - intros Hmove. rewrite (getValidMoves_walk s u Hmove Hc Ha).
    destruct (getAdjacentHexes_exact (row u) (col u) Hv) as (Hadj & Hnd & _ & Hself).
    split.
    + intros h. rewrite in_app_iff, filter_In, Hadj. cbn [In]. split.
      * intros [[[H1 H2] H3] | [<- | []]]; [right | left; reflexivity].
        split; [exact H1 |]. split; [exact H2 | lia].
      * intros [-> | (H1 & H2 & H3)]; [right; left; reflexivity | left].
        split; [split; assumption | lia].
    + apply NoDup_ListNoDup. apply NoDup_app. split; [| split].
      * apply NoDup_ListNoDup. apply List.NoDup_filter. exact Hnd.
      * intros h Hh Hh'. apply list_elem_of_singleton in Hh'. subst h.
        apply list_elem_of_In in Hh. apply filter_In in Hh as [Hh _]. contradiction.
      * apply NoDup_singleton.
Qed.

Lemma getValidMoves_one_step_witness :
  isValidHex (row chargeRider) (col chargeRider) = true /\
  isEngaged chargeState chargeRider = false /\
  (In (mkHex 2 0) (getValidMoves chargeState chargeRider) <->
   mkHex 2 0 = mkHex (row chargeRider) (col chargeRider) \/
   (isValidHex 2 0 = true /\ hexDistance (row chargeRider) (col chargeRider) 2 0 = 1 /\
    (length (getFactionUnitsAt chargeState 2 0 (faction chargeRider)) < 2)%nat)).
Proof.
  split; [reflexivity |]. split; [reflexivity |].
  destruct (getValidMoves_one_step chargeState chargeRider eq_refl) as [_ H];
    [discriminate | discriminate |].
  destruct (H (or_introl eq_refl)) as [Hiff _]. exact (Hiff (mkHex 2 0)).
Defined.

Lemma getUnitsAt_spec (s : State) (r c : Z) (i : nat) :
  In i (getUnitsAt s r c) <->
  exists v, units s !! i = Some v /\ row v = r /\ col v = c /\ isAlive v = true.
Proof.
  unfold getUnitsAt. rewrite filterUnits_spec. unfold isAlive.
  split; intros (v & Hv & H); exists v; (split; [exact Hv | lia]).
Qed.

(** X4: an Aerial unit that is not engaged may move to exactly the board
    cells other than its own that are outside the enemy castle row (row 0
    for faction 1, row 5 otherwise) and hold no living unit of either
    faction. *)
Theorem getValidMoves_aerial (s : State) (u : Unit) (h : Hex) :
  type_id (type u) = type_id UnitTypes.AERIAL ->
  isEngaged s u = false ->
  (In h (getValidMoves s u) <->
   isValidHex (hex_row h) (hex_col h) = true /\
   h <> mkHex (row u) (col u) /\
   hex_row h <> (if faction u =? 1 then 0 else 5) /\
   (forall i v, units s !! i = Some v -> isAlive v = true ->
                ~ (row v = hex_row h /\ col v = hex_col h))).
Proof.
  intros Hty He. unfold getValidMoves. rewrite He, Hty. cbn [andb].
  change (type_id UnitTypes.AERIAL =? type_id UnitTypes.COMMANDER) with false.
  change (type_id UnitTypes.AERIAL =? type_id UnitTypes.AERIAL) with true. cbv iota zeta.
  rewrite filter_In. destruct h as [hr hc]. cbn [hex_row hex_col].
  rewrite boardCells_spec.
  assert (Hempty : (Z.of_nat (length (getUnitsAt s hr hc)) =? 0) = true <->
                   (forall i v, units s !! i = Some v -> isAlive v = true ->
                                ~ (row v = hr /\ col v = hc))).
  { split.
    - intros Hl i v Hv Hal [Hr Hc].
      assert (Hin : In i (getUnitsAt s hr hc))
        by (apply getUnitsAt_spec; exists v; auto).
      destruct (getUnitsAt s hr hc); [destruct Hin | cbn [length] in Hl; lia].
    - intros Hno. destruct (getUnitsAt s hr hc) as [| i l] eqn:E; [reflexivity |].
      assert (Hin : In i (getUnitsAt s hr hc)) by (rewrite E; left; reflexivity).
      apply getUnitsAt_spec in Hin as (v & Hv & Hr & Hc & Hal).
      exfalso. exact (Hno i v Hv Hal (conj Hr Hc)). }
  rewrite <- Hempty. split.
  - intros [Hb Hf].
    destruct ((hr =? row u) && (hc =? col u)) eqn:E1; [discriminate Hf |].
    destruct (hr =? (if faction u =? 1 then 0 else 5)) eqn:E2; [discriminate Hf |].
    split; [exact Hb |]. split; [| split; [lia | exact Hf]].
    intros Heq. injection Heq as -> ->. rewrite !Z.eqb_refl in E1. discriminate E1.
  - intros (Hb & Hne & Hrow & Hl). split; [exact Hb |].
    destruct ((hr =? row u) && (hc =? col u)) eqn:E1.
    + exfalso. apply Hne. f_equal; lia.
    + destruct (hr =? (if faction u =? 1 then 0 else 5)) eqn:E2; [lia | exact Hl].
Qed.

Lemma getValidMoves_aerial_witness :
  In (mkHex 3 3) (getValidMoves scoutBoard (mkUnit "ae-1" UnitTypes.AERIAL 1 4 1 0 5 false None 1))
  /\ ~ In (mkHex 2 3)
       (getValidMoves scoutBoard (mkUnit "ae-1" UnitTypes.AERIAL 1 4 1 0 5 false None 1))
  /\ ~ In (mkHex 0 3)
       (getValidMoves scoutBoard (mkUnit "ae-1" UnitTypes.AERIAL 1 4 1 0 5 false None 1)).
Proof.
  pose proof (fun h => getValidMoves_aerial scoutBoard
                (mkUnit "ae-1" UnitTypes.AERIAL 1 4 1 0 5 false None 1) h eq_refl eq_refl)
    as H.
  split; [| split].
  - apply H. cbn [hex_row hex_col row col faction]. split; [reflexivity |].
    split; [discriminate |]. split; [discriminate |].
    intros [| [| i]] v Hv; cbn in Hv; try discriminate Hv; injection Hv as <-;
      intros _ [Hr Hc]; discriminate.
  - intros Hin. apply H in Hin as (_ & _ & _ & Hno).
    apply (Hno 1%nat (mkUnit "c-1" UnitTypes.CANNON 2 2 3 0 5 false None 1) eq_refl eq_refl).
    split; reflexivity.
  - intros Hin. apply H in Hin as (_ & _ & Hrow & _). apply Hrow. reflexivity.
Defined.

Lemma commanderTargetHexes_spec (u : Unit) (us : list Unit) (seen : gset (Z * Z))
    (targets : list Hex) :
  (forall h, (hex_row h, hex_col h) ∈ seen <-> In h targets) ->
  List.NoDup targets ->
  (forall h, In h (commanderTargetHexes u us seen targets) <->
     In h targets \/
     exists v, In v us /\ unit_id v <> unit_id u /\ faction v = faction u /\
               isAlive v = true /\ h = mkHex (row v) (col v) /\
               0 < hexDistance (row u) (col u) (row v) (col v) <= 2) /\
  List.NoDup (commanderTargetHexes u us seen targets).
Proof.
  revert seen targets. induction us as [| w us IH]; intros seen targets Hseen Hnd.
  - cbn [commanderTargetHexes]. split; [| exact Hnd].
    intros h. split; [tauto | intros [H | (v & [] & _)]; exact H].
  - cbn [commanderTargetHexes].
    (* [w] contributes nothing new in every branch but the last one *)
    assert (Hsame :
      (forall h, ~ (unit_id w <> unit_id u /\ faction w = faction u /\ isAlive w = true /\
                    h = mkHex (row w) (col w) /\
                    0 < hexDistance (row u) (col u) (row w) (col w) <= 2) \/ In h targets) ->
      (forall h, In h (commanderTargetHexes u us seen targets) <->
         In h targets \/
         exists v, In v (w :: us) /\ unit_id v <> unit_id u /\ faction v = faction u /\
                   isAlive v = true /\ h = mkHex (row v) (col v) /\
                   0 < hexDistance (row u) (col u) (row v) (col v) <= 2) /\
      List.NoDup (commanderTargetHexes u us seen targets)).
    { intros Hno. destruct (IH seen targets Hseen Hnd) as [Hiff Hnd'].
      split; [| exact Hnd']. intros h. rewrite Hiff. split.
      - intros [H | (v & Hv & Hq)]; [left; exact H | right].
        exists v. split; [right; exact Hv | exact Hq].
      - intros [H | (v & [<- | Hv] & Hq)]; [left; exact H | | right; exists v; tauto].
        destruct (Hno h) as [Hn | Hin]; [exfalso; apply Hn; exact Hq | left; exact Hin]. }
    destruct (String.eqb (unit_id w) (unit_id u)) eqn:Eid.
    { apply Hsame. intros h. left. apply String.eqb_eq in Eid. tauto. }
    destruct (negb (faction w =? faction u)) eqn:Ef.
    { apply Hsame. intros h. left. intros (_ & Hf & _). lia. }
    destruct (damage w >=? maxHp w) eqn:Ed.
    { apply Hsame. intros h. left. unfold isAlive. intros (_ & _ & Ha & _). lia. }
    destruct ((0 <? hexDistance (row u) (col u) (row w) (col w)) &&
              (hexDistance (row u) (col u) (row w) (col w) <=? 2) &&
              negb (bool_decide ((row w, col w) ∈ seen))) eqn:Er.
    + apply andb_true_iff in Er as [Er Hns]. apply negb_true_iff in Hns.
      apply bool_decide_eq_false_1 in Hns.
      assert (Hnew : ~ In (mkHex (row w) (col w)) targets)
        by (intros Hin; apply Hns; apply (Hseen (mkHex (row w) (col w))); exact Hin).
      destruct (IH ({[ (row w, col w) ]} ∪ seen) (targets ++ [mkHex (row w) (col w)]))
        as [Hiff Hnd'].
      * intros h. rewrite elem_of_union, elem_of_singleton, in_app_iff, Hseen.
        cbn [In]. split.
        -- intros [Hk | Hin]; [right; left; symmetry; apply hex_key_inj; exact Hk
                              | left; exact Hin].
        -- intros [Hin | [<- | []]]; [right; exact Hin | left; reflexivity].
      * apply NoDup_ListNoDup. apply NoDup_app.
        split; [apply NoDup_ListNoDup; exact Hnd |]. split; [| apply NoDup_singleton].
        intros h Hh Hh'. apply list_elem_of_singleton in Hh'. subst h.
        apply list_elem_of_In in Hh. contradiction.
      * split; [| exact Hnd']. intros h. rewrite Hiff, in_app_iff. cbn [In]. split.
        -- intros [[Hin | [<- | []]] | (v & Hv & Hq)].
           ++ left; exact Hin.
           ++ right. exists w. split; [left; reflexivity |].
              apply String.eqb_neq in Eid. unfold isAlive.
              repeat split; try lia; exact Eid.
           ++ right. exists v. split; [right; exact Hv | exact Hq].
        -- intros [Hin | (v & [<- | Hv] & Hq)].
           ++ left; left; exact Hin.
           ++ left. right. left. symmetry. tauto.
           ++ right. exists v. tauto.
    + apply Hsame. intros h.
      destruct (bool_decide ((row w, col w) ∈ seen)) eqn:Es.
      * apply bool_decide_eq_true_1 in Es.
        destruct (Hex_eqb h (mkHex (row w) (col w))) eqn:Eh.
        -- apply Hex_eqb_eq in Eh. subst h. right. apply Hseen. exact Es.
        -- left. intros (_ & _ & _ & Heq & _). subst h.
           rewrite (proj2 (Hex_eqb_eq _ _) eq_refl) in Eh. discriminate Eh.
      * left. cbn [negb] in Er. rewrite andb_true_r in Er. intros (_ & _ & _ & _ & Hd). lia.
Qed.

(** X5: a Commander that is not engaged is offered exactly the hexes on
    which another living unit of its own faction stands at distance 1 or 2,
    each hex once. *)
Theorem getValidMoves_commander (s : State) (u : Unit) :
  type_id (type u) = type_id UnitTypes.COMMANDER ->
  isEngaged s u = false ->
  (forall h, In h (getValidMoves s u) <->
     exists v, In v (units s) /\ unit_id v <> unit_id u /\ faction v = faction u /\
               isAlive v = true /\ h = mkHex (row v) (col v) /\
               0 < hexDistance (row u) (col u) (row v) (col v) <= 2) /\
  List.NoDup (getValidMoves s u).
Proof.
  intros Hty He. unfold getValidMoves. rewrite He, Hty. cbn [andb].
  change (type_id UnitTypes.COMMANDER =? type_id UnitTypes.COMMANDER) with true. cbv iota.
  destruct (commanderTargetHexes_spec u (units s) ∅ []) as [Hiff Hnd].
  - intros h. cbn [In]. set_solver.
  - constructor.
  - split; [| exact Hnd]. intros h. rewrite Hiff. cbn [In]. tauto.
Qed.

Lemma getValidMoves_commander_witness :
  getValidMoves commandPost (mkUnit "k-1" UnitTypes.COMMANDER 1 4 2 0 5 false None 1)
    = [mkHex 3 2] /\
  List.NoDup (getValidMoves commandPost
                (mkUnit "k-1" UnitTypes.COMMANDER 1 4 2 0 5 false None 1)).
Proof.
  split; [reflexivity |].
  exact (proj2 (getValidMoves_commander commandPost
                  (mkUnit "k-1" UnitTypes.COMMANDER 1 4 2 0 5 false None 1)
                  eq_refl eq_refl)).
Defined.

(** ** Moving a unit *)

Lemma applyDamage_bookkeeping (s : State) (i : nat) (amount : Z) (src : option string) :
  activatedUnits (applyDamage s i amount src) = activatedUnits s /\
  pendingSecondMove (applyDamage s i amount src) = pendingSecondMove s /\
  unitsInCombatThisTurn (applyDamage s i amount src) = unitsInCombatThisTurn s /\
  castleDamage (applyDamage s i amount src) = castleDamage s /\
  phase (applyDamage s i amount src) = phase s.
Proof.
  unfold applyDamage. destruct (units s !! i) as [u |]; [| repeat split].
  destruct (negb (truthyString src));
    destruct (damage (set_damage (damage u + amount) u)
              >=? maxHp (set_damage (damage u + amount) u)); repeat split.
Qed.

Lemma applyMountedChargeBonus_effect (s : State) (unit target : nat) (d : Z) :
  (units (applyMountedChargeBonus s unit target d) = units s \/
   units (applyMountedChargeBonus s unit target d) = alter (addDamage 2) target (units s)) /\
  activatedUnits (applyMountedChargeBonus s unit target d) = activatedUnits s /\
  pendingSecondMove (applyMountedChargeBonus s unit target d) = pendingSecondMove s.
Proof.
  unfold applyMountedChargeBonus.
  destruct (units s !! unit) as [u |]; [| auto].
  destruct (units s !! target) as [t |] eqn:Ht; [| auto].
  destruct (negb (type_id (type u) =? type_id UnitTypes.MOUNTED)); [auto |].
  destruct (d =? 2); [| auto].
  pose proof (applyDamage_bookkeeping s target 2 (Some "ability")) as (Ha & Hp & _).
  destruct (units (applyDamage s target 2 (Some "ability")) !! target);
    cbn [units activatedUnits pendingSecondMove logMessage set_log];
    rewrite ?Ha, ?Hp; (split; [right; apply units_applyDamage | auto]).
Qed.

Lemma applySpearCounterCharge_effect (s : State) (unit attacker : nat) :
  (units (applySpearCounterCharge s unit attacker) = units s \/
   units (applySpearCounterCharge s unit attacker) = alter (addDamage 3) attacker (units s)) /\
  activatedUnits (applySpearCounterCharge s unit attacker) = activatedUnits s /\
  pendingSecondMove (applySpearCounterCharge s unit attacker) = pendingSecondMove s.
Proof.
  unfold applySpearCounterCharge.
  destruct (units s !! unit) as [u |]; [| auto].
  destruct (units s !! attacker) as [a |]; [| auto].
  destruct (negb (type_id (type u) =? type_id UnitTypes.SPEARS)); [auto |].
  destruct (negb (type_id (type a) =? type_id UnitTypes.MOUNTED)); [auto |].
  pose proof (applyDamage_bookkeeping s attacker 3 (Some "ability")) as (Ha & Hp & _).
  destruct (units (applyDamage s attacker 3 (Some "ability")) !! attacker);
    cbn [units activatedUnits pendingSecondMove logMessage set_log];
    rewrite ?Ha, ?Hp; (split; [right; apply units_applyDamage | auto]).
Qed.

(** What [moveUnit] leaves in the unit array and in the turn bookkeeping:
    the relocated unit, and at most one hit (the charge bonus of 2 on some
    unit, or the counter-charge of 3). *)
Lemma moveUnit_effect (pick : UnitPicker) (s : State) (i : nat) (u : Unit)
    (newRow newCol : Z) :
  units s !! i = Some u ->
  let moved := <[i := set_moved true (set_pos newRow newCol u)]> (units s) in
  let s' := moveUnit pick s i newRow newCol in
  (units s' = moved \/
   exists t, units s' = alter (addDamage 2) t moved \/
             units s' = alter (addDamage 3) t moved) /\
  (if (type_id (type u) =? type_id UnitTypes.MOUNTED) && negb (movedThisTurn u)
   then pendingSecondMove s' = Some (unit_id u) /\ activatedUnits s' = activatedUnits s
   else pendingSecondMove s' = None /\
        activatedUnits s' = {[ unit_id u ]} ∪ activatedUnits s).
Proof.
  intros Hu moved s'. subst s'. unfold moveUnit. rewrite Hu. cbv zeta.
  fold moved.
  cbn [type set_moved set_pos movedThisTurn unit_id faction].
  set (second := (type_id (type u) =? type_id UnitTypes.MOUNTED) && movedThisTurn u).
  assert (Hfirst : (type_id (type u) =? type_id UnitTypes.MOUNTED) && negb second =
                   (type_id (type u) =? type_id UnitTypes.MOUNTED) && negb (movedThisTurn u)).
  { subst second. destruct (type_id (type u) =? type_id UnitTypes.MOUNTED),
      (movedThisTurn u); reflexivity. }
  rewrite Hfirst.
  set (s2 := if (type_id (type u) =? type_id UnitTypes.MOUNTED) && negb (movedThisTurn u)
             then _ else _).
  assert (Hs2 : units s2 = moved /\
    (if (type_id (type u) =? type_id UnitTypes.MOUNTED) && negb (movedThisTurn u)
     then pendingSecondMove s2 = Some (unit_id u) /\ activatedUnits s2 = activatedUnits s
     else pendingSecondMove s2 = None /\
          activatedUnits s2 = {[ unit_id u ]} ∪ activatedUnits s)).
  { subst s2.
    destruct ((type_id (type u) =? type_id UnitTypes.MOUNTED) && negb (movedThisTurn u));
      repeat split. }
  destruct Hs2 as [Hunits Hbook]. clearbody s2 second.
  assert (Hlift : forall st,
    (units st = units s2 \/ exists t, units st = alter (addDamage 2) t (units s2) \/
                                      units st = alter (addDamage 3) t (units s2)) ->
    activatedUnits st = activatedUnits s2 ->
    pendingSecondMove st = pendingSecondMove s2 ->
    (units st = moved \/ exists t, units st = alter (addDamage 2) t moved \/
                                   units st = alter (addDamage 3) t moved) /\
    (if (type_id (type u) =? type_id UnitTypes.MOUNTED) && negb (movedThisTurn u)
     then pendingSecondMove st = Some (unit_id u) /\ activatedUnits st = activatedUnits s
     else pendingSecondMove st = None /\
          activatedUnits st = {[ unit_id u ]} ∪ activatedUnits s)).
  { intros st Hst Ha Hp. rewrite Hunits in Hst. rewrite Ha, Hp. split; assumption. }
  destruct (0 <? Z.of_nat (length
              (getFactionUnitsAt s2 newRow newCol (if faction u =? 1 then 2 else 1))));
    [| apply Hlift; [left |..]; reflexivity].
  set (s3 := logMessage _ s2).
  destruct second; [| apply Hlift; [left |..]; reflexivity].
  destruct (counterChargingSpears s3 newRow newCol (if faction u =? 1 then 2 else 1))
    as [| spear rest].
  - destruct (1 <? Z.of_nat (length
                (getFactionUnitsAt s2 newRow newCol (if faction u =? 1 then 2 else 1)))).
    + destruct (pick _) as [k |]; [| apply Hlift; [left |..]; reflexivity].
      destruct (getFactionUnitsAt s2 newRow newCol (if faction u =? 1 then 2 else 1) !! k)
        as [sel |]; [| apply Hlift; [left |..]; reflexivity].
      destruct (applyMountedChargeBonus_effect s3 i sel 2) as ([H | H] & Ha & Hp);
        apply Hlift; cbn [units activatedUnits pendingSecondMove logMessage set_log];
        rewrite ?H, ?Ha, ?Hp; try reflexivity; [left; reflexivity |].
      right. exists sel. left. reflexivity.
    + destruct (getFactionUnitsAt s2 newRow newCol (if faction u =? 1 then 2 else 1))
        as [| enemy l]; [apply Hlift; [left |..]; reflexivity |].
      destruct (applyMountedChargeBonus_effect s3 i enemy 2) as ([H | H] & Ha & Hp);
        apply Hlift; cbn [units activatedUnits pendingSecondMove logMessage set_log];
        rewrite ?H, ?Ha, ?Hp; try reflexivity; [left; reflexivity |].
      right. exists enemy. left. reflexivity.
  - destruct (applySpearCounterCharge_effect s3 spear i) as ([H | H] & Ha & Hp);
      apply Hlift; cbn [units activatedUnits pendingSecondMove logMessage set_log];
      rewrite ?H, ?Ha, ?Hp; try reflexivity; [left; reflexivity |].
    right. exists i. right. reflexivity.
Qed.

Lemma alter_addDamage_lookup (k : Z) (t j : nat) (l : list Unit) (v : Unit) :
  0 <= k ->
  l !! j = Some v ->
  exists v', alter (addDamage k) t l !! j = Some v' /\
             set_damage 0 v' = set_damage 0 v /\ damage v <= damage v'.
Proof.
  intros Hk Hv. destruct (decide (t = j)) as [-> | Hne].
  - rewrite list_lookup_alter_eq, Hv. exists (addDamage k v).
    split; [reflexivity |]. split; [reflexivity | cbn; lia].
  - rewrite list_lookup_alter_ne by exact Hne. exists v. split; [exact Hv |].
    split; [reflexivity | lia].
Qed.

(** X6: [moveUnit] relocates the unit and flags it as moved; every unit
    keeps its identity, type, faction and flags, every other unit keeps its
    position, no unit loses damage and none enters or leaves the array.
    The first move of a Mounted unit leaves it pending and not yet acted;
    every other move marks the unit as acted and clears the pending
    marker. *)
Theorem moveUnit_relocates (pick : UnitPicker) (s : State) (i : nat) (u : Unit)
    (newRow newCol : Z) :
  units s !! i = Some u ->
  let s' := moveUnit pick s i newRow newCol in
  (exists u', units s' !! i = Some u' /\
              set_damage 0 u' = set_damage 0 (set_moved true (set_pos newRow newCol u)) /\
              damage u <= damage u') /\
  (forall j v, j <> i -> units s !! j = Some v ->
     exists v', units s' !! j = Some v' /\ set_damage 0 v' = set_damage 0 v /\
                damage v <= damage v') /\
  length (units s') = length (units s) /\
  (type_id (type u) = type_id UnitTypes.MOUNTED -> movedThisTurn u = false ->
   pendingSecondMove s' = Some (unit_id u) /\ activatedUnits s' = activatedUnits s) /\
  (type_id (type u) <> type_id UnitTypes.MOUNTED \/ movedThisTurn u = true ->
   pendingSecondMove s' = None /\ unit_id u ∈ activatedUnits s').
Proof.
  intros Hu s'. destruct (moveUnit_effect pick s i u newRow newCol Hu) as [Hunits Hbook].
  fold s' in Hunits, Hbook.
  set (moved := <[i := set_moved true (set_pos newRow newCol u)]> (units s)) in *.
  assert (Hi : moved !! i = Some (set_moved true (set_pos newRow newCol u))).
  { subst moved. apply list_lookup_insert_eq. eapply lookup_lt_Some. exact Hu. }
  assert (Hj : forall j, j <> i -> moved !! j = units s !! j).
  { intros j Hne. subst moved. apply list_lookup_insert_ne. congruence. }
  assert (Hlen : length moved = length (units s)) by (subst moved; apply length_insert).
  assert (Hall : forall j v, moved !! j = Some v ->
            exists v', units s' !! j = Some v' /\ set_damage 0 v' = set_damage 0 v /\
                       damage v <= damage v').
  { intros j v Hv. destruct Hunits as [-> | (t & [-> | ->])].
    - exists v. split; [exact Hv |]. split; [reflexivity | lia].
    - apply alter_addDamage_lookup; [lia | exact Hv].
    - apply alter_addDamage_lookup; [lia | exact Hv]. }
  split; [| split; [| split; [| split]]].
  - destruct (Hall i _ Hi) as (u' & H1 & H2 & H3). exists u'.
    split; [exact H1 |]. split; [exact H2 | exact H3].
  - intros j v Hne Hv. apply Hall. rewrite Hj by exact Hne. exact Hv.
  - destruct Hunits as [-> | (t & [-> | ->])]; rewrite ?length_alter; exact Hlen.
  - intros Hty Hm. rewrite Hty, Hm in Hbook. exact Hbook.
  - intros Hcase.
    assert (Hb : (type_id (type u) =? type_id UnitTypes.MOUNTED) && negb (movedThisTurn u)
                 = false).
    { destruct Hcase as [Hne | ->]; [| apply andb_false_r].
      destruct (type_id (type u) =? type_id UnitTypes.MOUNTED) eqn:E; [lia | reflexivity]. }
    rewrite Hb in Hbook. destruct Hbook as [Hp Hact]. split; [exact Hp |].
    rewrite Hact. apply elem_of_union. left. apply elem_of_singleton. reflexivity.
Qed.

Lemma moveUnit_relocates_witness :
  units chargeState !! 0%nat = Some chargeRider /\
  (exists u', units (moveUnit noPick chargeState 0 2 1) !! 0%nat = Some u' /\
              row u' = 2 /\ col u' = 1 /\ movedThisTurn u' = true) /\
  pendingSecondMove (moveUnit noPick chargeState 0 2 1) = Some "m-1".
Proof.
  split; [reflexivity |].
  destruct (moveUnit_relocates noPick chargeState 0 chargeRider 2 1 eq_refl)
    as ((u' & H1 & H2 & _) & _ & _ & Hfirst & _).
  split.
  - exists u'. split; [exact H1 |].
    apply (f_equal row) in H2 as Hr. apply (f_equal col) in H2 as Hc.
    apply (f_equal movedThisTurn) in H2 as Hm. cbn in Hr, Hc, Hm. auto.
  - exact (proj1 (Hfirst eq_refl eq_refl)).
Defined.

Lemma applyMountedChargeBonus_hits (s : State) (i t : nat) (u tv : Unit) :
  units s !! i = Some u ->
  type_id (type u) = type_id UnitTypes.MOUNTED ->
  units s !! t = Some tv ->
  units (applyMountedChargeBonus s i t 2) = alter (addDamage 2) t (units s).
Proof.
  intros Hu Hty Ht. unfold applyMountedChargeBonus. rewrite Hu, Ht, Hty.
  cbn [negb Z.eqb Pos.eqb UnitTypes.MOUNTED type_id].
  destruct (units (applyDamage s t 2 (Some "ability")) !! t);
    cbn [units logMessage set_log]; apply units_applyDamage.
Qed.

Lemma applySpearCounterCharge_hits (s : State) (sp i : nat) (spv u : Unit) :
  units s !! sp = Some spv ->
  type_id (type spv) = type_id UnitTypes.SPEARS ->
  units s !! i = Some u ->
  type_id (type u) = type_id UnitTypes.MOUNTED ->
  units (applySpearCounterCharge s sp i) = alter (addDamage 3) i (units s).
Proof.
  intros Hsp Hts Hu Hty. unfold applySpearCounterCharge. rewrite Hsp, Hu, Hts, Hty.
  cbn [negb Z.eqb Pos.eqb UnitTypes.MOUNTED UnitTypes.SPEARS type_id].
  destruct (units (applyDamage s i 3 (Some "ability")) !! i);
    cbn [units logMessage set_log]; apply units_applyDamage.
Qed.

Lemma counterChargingSpears_spec (s : State) (r c f : Z) (x : nat) :
  In x (counterChargingSpears s r c f) ->
  exists v, units s !! x = Some v /\ type_id (type v) = type_id UnitTypes.SPEARS /\
            faction v = f /\ isAlive v = true /\ isEngaged s v = false /\
            In (mkHex (row v) (col v)) (getAdjacentHexes r c).
Proof.
  unfold counterChargingSpears. intros H. apply in_flat_map in H as (adj & Hadj & Hx).
  unfold filterRefs in Hx. apply filter_In in Hx as [Hx Hp].
  apply getFactionUnitsAt_spec in Hx as (v & Hv & Hr & Hc & Hd & Hf).
  rewrite Hv in Hp. exists v. split; [exact Hv |].
  apply andb_true_iff in Hp as [Hp He]. apply andb_true_iff in Hp as [Ht _].
  split; [lia |]. split; [exact Hf |]. split; [apply isAlive_spec; exact Hd |].
  split; [destruct (isEngaged s v); [discriminate He | reflexivity] |].
  rewrite Hr, Hc. destruct adj as [ar ac]. exact Hadj.
Qed.

(** X7: the second move of a Mounted unit, judged on the board with the
    unit already relocated.  With no living enemy on the destination
    nothing else happens.  With an enemy there and an unengaged enemy
    Spears unit on an adjacent hex, the rider takes exactly 3 and no enemy
    is hit.  With no such Spears unit and a single enemy, that enemy takes
    exactly 2, whatever the distance of the move; with several, the one
    the player picks takes 2, and nobody does when the picker is closed. *)
Theorem moveUnit_second_move (pick : UnitPicker) (s : State) (i : nat) (u : Unit)
    (newRow newCol : Z) :
  units s !! i = Some u ->
  type_id (type u) = type_id UnitTypes.MOUNTED ->
  movedThisTurn u = true ->
  let relocated := set_units (<[i := set_moved true (set_pos newRow newCol u)]> (units s)) s in
  let enemyFaction := if faction u =? 1 then 2 else 1 in
  let enemies := getFactionUnitsAt relocated newRow newCol enemyFaction in
  let spears := counterChargingSpears relocated newRow newCol enemyFaction in
  let s' := moveUnit pick s i newRow newCol in
  (enemies = [] -> units s' = units relocated) /\
  (enemies <> [] -> spears <> [] ->
   units s' = alter (addDamage 3) i (units relocated)) /\
  (forall e, enemies = [e] -> spears = [] ->
   units s' = alter (addDamage 2) e (units relocated)) /\
  (forall k e, (1 < length enemies)%nat -> spears = [] ->
   pick (derefs relocated enemies) = Some k -> enemies !! k = Some e ->
   units s' = alter (addDamage 2) e (units relocated)) /\
  ((1 < length enemies)%nat -> spears = [] ->
   pick (derefs relocated enemies) = None -> units s' = units relocated).
Proof.
  intros Hu Hty Hm relocated enemyFaction enemies spears s'.
  assert (Hi : units relocated !! i = Some (set_moved true (set_pos newRow newCol u))).
  { apply list_lookup_insert_eq. eapply lookup_lt_Some. exact Hu. }
  subst s'. unfold moveUnit. rewrite Hu. cbv zeta.
  cbn [type set_moved set_pos movedThisTurn unit_id faction]. rewrite Hty, Hm.
  change (type_id UnitTypes.MOUNTED =? type_id UnitTypes.MOUNTED) with true.
  cbn [andb negb].
  set (s2 := set_pendingSecondMove None _).
  change (getFactionUnitsAt s2 newRow newCol (if faction u =? 1 then 2 else 1))
    with enemies.
  set (s3 := logMessage _ s2).
  change (counterChargingSpears s3 newRow newCol (if faction u =? 1 then 2 else 1))
    with spears.
  change (derefs s3 enemies) with (derefs relocated enemies).
  assert (H3 : units s3 = units relocated) by reflexivity.
  assert (Hen : forall e, In e enemies -> exists ev, units s3 !! e = Some ev).
  { intros e He. apply getFactionUnitsAt_spec in He as (ev & Hev & _).
    exists ev. rewrite H3. exact Hev. }
  assert (Hbonus : forall e, In e enemies ->
            units (applyMountedChargeBonus s3 i e 2) = alter (addDamage 2) e (units relocated)).
  { intros e He. destruct (Hen e He) as (ev & Hev). rewrite <- H3.
    eapply applyMountedChargeBonus_hits; [rewrite H3; exact Hi | exact Hty | exact Hev]. }
  split; [| split; [| split; [| split]]].
  - intros ->. reflexivity.
  - intros Hne Hsp. rewrite (length_nonempty _ Hne).
    destruct spears as [| spear rest] eqn:Es; [congruence |].
    assert (Hin : In spear (counterChargingSpears relocated newRow newCol enemyFaction))
      by (fold spears; rewrite Es; left; reflexivity).
    apply counterChargingSpears_spec in Hin as (sv & Hsv & Hts & _).
    cbn [units logMessage set_log]. rewrite <- H3.
    eapply applySpearCounterCharge_hits;
      [rewrite H3; exact Hsv | exact Hts | rewrite H3; exact Hi | exact Hty].
  - intros e He Hsp. rewrite He, Hsp. cbn [length].
    change (0 <? Z.of_nat 1) with true. change (1 <? Z.of_nat 1) with false. cbv iota.
    cbn [units logMessage set_log]. apply Hbonus. rewrite He. left. reflexivity.
  - intros k e Hlen Hsp Hpick Hk. rewrite Hsp, Hpick, Hk.
    assert (H0 : (0 <? Z.of_nat (length enemies)) = true) by lia.
    assert (H1 : (1 <? Z.of_nat (length enemies)) = true) by lia.
    rewrite H0, H1. cbn [units logMessage set_log].
    apply Hbonus. eapply lookup_In. exact Hk.
  - intros Hlen Hsp Hpick. rewrite Hsp, Hpick.
    assert (H0 : (0 <? Z.of_nat (length enemies)) = true) by lia.
    assert (H1 : (1 <? Z.of_nat (length enemies)) = true) by lia.
    rewrite H0, H1. reflexivity.
Qed.

Lemma moveUnit_second_move_witness :
  units afterStandingStill !! 0%nat = Some (set_moved true chargeRider) /\
  units afterStepIn =
    alter (addDamage 2) 1%nat
      (<[0%nat := set_moved true (set_pos 2 0 (set_moved true chargeRider))]>
         (units afterStandingStill)).
Proof.
  split; [reflexivity |].
  destruct (moveUnit_second_move noPick afterStandingStill 0 (set_moved true chargeRider) 2 0
              eq_refl eq_refl eq_refl) as (_ & _ & Hone & _).
  exact (Hone 1%nat eq_refl eq_refl).
Defined.

(** ** Placement check *)

Lemma unitsOn_cons (u : Unit) (us : list Unit) (r c f : Z) :
  Z.of_nat (length (unitsOn (u :: us) r c f)) =
  (if decide ((row u, col u, faction u) = (r, c, f)) then 1 else 0)
  + Z.of_nat (length (unitsOn us r c f)).
Proof.
  unfold unitsOn. cbn [List.filter].
  destruct (decide ((row u, col u, faction u) = (r, c, f))) as [Heq | Hne].
  - injection Heq as -> -> ->. rewrite !Z.eqb_refl. cbn [andb length]. lia.
  - destruct ((row u =? r) && (col u =? c) && (faction u =? f)) eqn:E; [| lia].
    exfalso. apply Hne. f_equal; [f_equal |]; lia.
Qed.

Lemma isValidPlacementLoop_spec (us : list Unit) (hexCounts : gmap (Z * Z * Z) Z) :
  (forall key, 0 <= default 0 (hexCounts !! key) <= 2) ->
  (isValidPlacementLoop us hexCounts = true <->
   forall r c f, default 0 (hexCounts !! (r, c, f))
                 + Z.of_nat (length (unitsOn us r c f)) <= 2).
Proof.
  revert hexCounts. induction us as [| u us IH]; intros hexCounts Hrange.
  - cbn [isValidPlacementLoop unitsOn List.filter length]. split; [| reflexivity].
    intros _ r c f. specialize (Hrange (r, c, f)). lia.
  - cbn [isValidPlacementLoop].
    destruct (default 0 (hexCounts !! (row u, col u, faction u)) >=? 2) eqn:E.
    + split; [discriminate |]. intros H.
      specialize (H (row u) (col u) (faction u)). rewrite unitsOn_cons in H.
      rewrite decide_True in H by reflexivity. lia.
    + pose proof (Hrange (row u, col u, faction u)) as Hk.
      set (n := default 0 (hexCounts !! (row u, col u, faction u))) in *.
      rewrite IH.
      * split; intros H r c f; specialize (H r c f); rewrite unitsOn_cons in *;
          destruct (decide ((row u, col u, faction u) = (r, c, f))) as [Heq | Hne].
        -- rewrite <- Heq in H. rewrite lookup_insert_eq in H. cbn [default from_option id] in H.
           rewrite <- Heq. fold n. lia.
        -- rewrite lookup_insert_ne in H by exact Hne. lia.
        -- rewrite <- Heq in H. fold n in H.
           rewrite <- Heq. rewrite lookup_insert_eq. cbn [default from_option id]. lia.
        -- rewrite lookup_insert_ne by exact Hne. lia.
      * intros key. destruct (decide ((row u, col u, faction u) = key)) as [<- | Hne].
        -- rewrite lookup_insert_eq. cbn [default from_option id]. lia.
        -- rewrite lookup_insert_ne by exact Hne. apply Hrange.
Qed.

(** X8: [isValidPlacement] accepts a list of units exactly when no faction
    has more than two of them on one hex; units of different factions on a
    hex are counted apart. *)
Theorem isValidPlacement_spec (us : list Unit) :
  isValidPlacement us = true <->
  forall r c f, (length (unitsOn us r c f) <= 2)%nat.
Proof.
  unfold isValidPlacement. rewrite isValidPlacementLoop_spec.
  - split; intros H r c f; specialize (H r c f); rewrite lookup_empty in *;
      cbn [default from_option id] in *; lia.
  - intros key. rewrite lookup_empty. cbn [default from_option id]. lia.
Qed.

Example placement_three_on_a_hex :
  isValidPlacement [archer1; archer1; archer2] = true /\
  isValidPlacement [archer1; archer1; archer1] = false /\
  isValidPlacement [archer1; archer1; set_pos 4 2 tauntVictim; set_pos 4 2 tauntVictim] = true.
Proof. vm_compute. repeat split. Qed.

(** ** Unit factory *)

Lemma lookup_In_req (l : list UnitRequest) (k : nat) (q : UnitRequest) :
  l !! k = Some q -> In q l.
Proof. intros H. apply list_elem_of_In. apply list_elem_of_lookup. exists k. exact H. Qed.

Lemma createUnits_numbers (fa : UnitFactory) (reqs : list UnitRequest) :
  (forall q, In q reqs -> req_faction q = 1 \/ req_faction q = 2) ->
  exists crs, createUnits fa reqs = Some crs /\
    length crs = length reqs /\
    forall k q cr, reqs !! k = Some q -> crs !! k = Some cr ->
      number (created_unit cr) =
        default 0 (pf_get (req_faction q) (unitTypeCounters fa) !! type_id (req_type q))
        + Z.of_nat (length (sameKind q (take k reqs))) + 1 /\
      unit_id (created_unit cr) = req_id q /\
      type (created_unit cr) = req_type q /\
      faction (created_unit cr) = req_faction q /\
      row (created_unit cr) = req_row q /\ col (created_unit cr) = req_col q /\
      damage (created_unit cr) = 0 /\ maxHp (created_unit cr) = 5 /\
      movedThisTurn (created_unit cr) = false /\ lastTarget (created_unit cr) = None.
Proof.
  revert fa. induction reqs as [| q0 reqs IH]; intros fa Hf.
  - exists []. split; [reflexivity |]. split; [reflexivity |].
    intros k q cr Hk. discriminate Hk.
  - cbn [createUnits]. unfold createUnitWith.
    assert (Hq0 : (req_faction q0 =? 1) || (req_faction q0 =? 2) = true)
      by (destruct (Hf q0 (or_introl eq_refl)) as [-> | ->]; reflexivity).
    rewrite Hq0. cbv zeta.
    set (cr0 := mkCreated _ _ _).
    destruct (IH (created_factory cr0)) as (crs & Hcrs & Hlen & Hall).
    { intros q Hq. apply Hf. right. exact Hq. }
    rewrite Hcrs. exists (cr0 :: crs). split; [reflexivity |].
    split; [cbn [length]; rewrite Hlen; reflexivity |].
    intros [| k] q cr Hk Hc.
    + injection Hk as <-. injection Hc as <-. cbn [take sameKind List.filter length].
      subst cr0. cbn. repeat split; lia.
    + cbn in Hk, Hc. destruct (Hall k q cr Hk Hc) as (Hnum & Hrest).
      split; [| exact Hrest]. rewrite Hnum. cbn [take]. unfold sameKind at 2.
      cbn [List.filter]. fold (sameKind q (take k reqs)).
      subst cr0. cbn [created_factory unitTypeCounters].
      unfold pf_get, pf_update.
      destruct (Hf q0 (or_introl eq_refl)) as [Hf0 | Hf0];
        destruct (Hf q (or_intror (lookup_In_req _ _ _ Hk))) as [Hfq | Hfq];
        rewrite Hf0, Hfq; cbn [Z.eqb Pos.eqb andb pf1 pf2];
        try (cbn [length]; lia);
        destruct (type_id (req_type q0) =? type_id (req_type q)) eqn:Et;
        [ apply Z.eqb_eq in Et; rewrite Et, lookup_insert_eq; cbn [default from_option id length]; lia
        | apply Z.eqb_neq in Et; rewrite lookup_insert_ne by exact Et; cbn [length]; lia
        | apply Z.eqb_eq in Et; rewrite Et, lookup_insert_eq; cbn [default from_option id length]; lia
        | apply Z.eqb_neq in Et; rewrite lookup_insert_ne by exact Et; cbn [length]; lia ].
Qed.

Lemma createUnits_colors (fa : UnitFactory) (reqs : list UnitRequest) :
  (forall q, In q reqs -> req_faction q = 1 \/ req_faction q = 2) ->
  forall crs, createUnits fa reqs = Some crs ->
    forall k q cr, reqs !! k = Some q -> crs !! k = Some cr ->
      paletteOf (req_faction q) !!
        Z.to_nat (Z.rem (pf_get (req_faction q) (unitColorIndex fa)
                         + Z.of_nat (length (sameFaction q (take k reqs)))) 6)
      = Some (created_color cr)
      \/ (paletteOf (req_faction q) !!
            Z.to_nat (Z.rem (pf_get (req_faction q) (unitColorIndex fa)
                             + Z.of_nat (length (sameFaction q (take k reqs)))) 6) = None /\
          created_color cr = EmptyString).
Proof.
  revert fa. induction reqs as [| q0 reqs IH]; intros fa Hf crs Hcrs k q cr Hk Hc.
  - discriminate Hk.
  - cbn [createUnits] in Hcrs. unfold createUnitWith in Hcrs.
    assert (Hq0 : (req_faction q0 =? 1) || (req_faction q0 =? 2) = true)
      by (destruct (Hf q0 (or_introl eq_refl)) as [-> | ->]; reflexivity).
    rewrite Hq0 in Hcrs. cbv zeta in Hcrs.
    set (cr0 := mkCreated _ _ _) in Hcrs.
    destruct (createUnits (created_factory cr0) reqs) as [crs' |] eqn:Hrest;
      [| discriminate Hcrs].
    injection Hcrs as <-. destruct k as [| k].
    + injection Hk as <-. injection Hc as <-.
      cbn [take sameFaction List.filter length]. rewrite Z.add_0_r.
      subst cr0. cbn [created_color]. fold (paletteOf (req_faction q0)).
      assert (Hlen : Z.of_nat (length (paletteOf (req_faction q0))) = 6)
        by (unfold paletteOf; destruct (req_faction q0 =? 1); reflexivity).
      rewrite Hlen.
      destruct (paletteOf (req_faction q0) !!
                  Z.to_nat (Z.rem (pf_get (req_faction q0) (unitColorIndex fa)) 6));
        [left | right; split]; reflexivity.
    + cbn in Hk, Hc.
      specialize (IH (created_factory cr0) (fun p Hp => Hf p (or_intror Hp)) crs' Hrest
                     k q cr Hk Hc).
      cbn [take]. unfold sameFaction at 1 2. cbn [List.filter].
      fold (sameFaction q (take k reqs)).
      assert (Hidx : pf_get (req_faction q) (unitColorIndex (created_factory cr0))
                     + Z.of_nat (length (sameFaction q (take k reqs)))
                     = pf_get (req_faction q) (unitColorIndex fa)
                       + Z.of_nat (length (if req_faction q0 =? req_faction q
                                           then q0 :: sameFaction q (take k reqs)
                                           else sameFaction q (take k reqs)))).
      { subst cr0. cbn [created_factory unitColorIndex]. unfold pf_get, pf_update.
        destruct (Hf q0 (or_introl eq_refl)) as [Hf0 | Hf0];
          destruct (Hf q (or_intror (lookup_In_req _ _ _ Hk))) as [Hfq | Hfq];
          rewrite Hf0, Hfq; cbn [Z.eqb Pos.eqb pf1 pf2 length]; lia. }
      rewrite Hidx in IH. exact IH.
Qed.

(** X9: successive [createUnit] calls from fresh counters.  Every unit
    starts undamaged with 5 hit points, unmoved and without a remembered
    target; its sequence number is one more than the number of earlier
    units of the same faction and type, whatever else was created in
    between; its colour is the entry of its faction's six-colour palette at
    the number of earlier units of that faction, modulo 6. *)
Theorem createUnits_sequence (reqs : list UnitRequest) :
  (forall q, In q reqs -> req_faction q = 1 \/ req_faction q = 2) ->
  exists crs, createUnits initialFactory reqs = Some crs /\
    length crs = length reqs /\
    forall k q cr, reqs !! k = Some q -> crs !! k = Some cr ->
      created_unit cr =
        mkUnit (req_id q) (req_type q) (req_faction q) (req_row q) (req_col q)
               0 5 false None (Z.of_nat (length (sameKind q (take k reqs))) + 1) /\
      paletteOf (req_faction q) !!
        (length (sameFaction q (take k reqs)) mod 6)%nat = Some (created_color cr).
Proof.
  intros Hf. destruct (createUnits_numbers initialFactory reqs Hf) as (crs & Hcrs & Hlen & Hall).
  exists crs. split; [exact Hcrs |]. split; [exact Hlen |].
  intros k q cr Hk Hc.
  destruct (Hall k q cr Hk Hc) as (Hn & Hid & Hty & Hfa & Hr & Hco & Hd & Hm & Hmv & Hl).
  split.
  - assert (Hz : default 0 (pf_get (req_faction q) (unitTypeCounters initialFactory)
                            !! type_id (req_type q)) = 0).
    { unfold pf_get, initialFactory. cbn [unitTypeCounters pf1 pf2].
      destruct (req_faction q =? 1); rewrite lookup_empty; reflexivity. }
    rewrite Hz in Hn. destruct (created_unit cr).
    cbn [unit_id type faction row col damage maxHp movedThisTurn lastTarget number] in *.
    subst. f_equal; try lia.
  - pose proof (createUnits_colors initialFactory reqs Hf crs Hcrs k q cr Hk Hc) as Hcol.
    assert (Hz : pf_get (req_faction q) (unitColorIndex initialFactory) = 0)
      by (unfold pf_get, initialFactory; cbn; destruct (req_faction q =? 1); reflexivity).
    rewrite Hz, Z.add_0_l in Hcol.
    assert (Hidx : Z.to_nat (Z.rem (Z.of_nat (length (sameFaction q (take k reqs)))) 6)
                   = (length (sameFaction q (take k reqs)) mod 6)%nat).
    { rewrite Z.rem_mod_nonneg by lia.
      change 6 with (Z.of_nat 6). rewrite <- Nat2Z.inj_mod. apply Nat2Z.id. }
    rewrite Hidx in Hcol. destruct Hcol as [Hcol | [Hnone _]]; [exact Hcol |].
    exfalso. apply lookup_ge_None in Hnone.
    assert (Hl6 : length (paletteOf (req_faction q)) = 6%nat)
      by (unfold paletteOf; destruct (req_faction q =? 1); reflexivity).
    pose proof (Nat.mod_upper_bound (length (sameFaction q (take k reqs))) 6).
    lia.
Qed.

Lemma createUnits_sequence_witness :
  (forall q, In q demoRequests -> req_faction q = 1 \/ req_faction q = 2) /\
  (option_map (List.map (fun cr => number (created_unit cr)))
     (createUnits initialFactory demoRequests)) = Some [1; 1; 1; 2; 2; 2; 1] /\
  exists crs, createUnits initialFactory demoRequests = Some crs /\
              length crs = length demoRequests.
Proof.
  assert (Hf : forall q, In q demoRequests -> req_faction q = 1 \/ req_faction q = 2).
  { intros q Hq. cbv [demoRequests] in Hq. cbn [In] in Hq.
    repeat (destruct Hq as [<- | Hq]; [cbn; auto |]). destruct Hq. }
  split; [exact Hf |]. split; [vm_compute; reflexivity |].
  destruct (createUnits_sequence demoRequests Hf) as (crs & H1 & H2 & _).
  exists crs. split; [exact H1 | exact H2].
Defined.

(** A faction other than 1 and 2 makes the source throw. *)
Example createUnit_unknown_faction :
  createUnitWith initialFactory "x" UnitTypes.ARCHERS 3 0 0 = None.
Proof. reflexivity. Qed.

(** ** Cleanup *)

Lemma filter_filter_same {A} (p : A -> bool) (l : list A) :
  List.filter p (List.filter p l) = List.filter p l.
Proof.
  apply filter_true_id. intros x Hx. apply filter_In in Hx. tauto.
Qed.

Lemma filter_none {A} (p : A -> bool) (l : list A) :
  (forall x, In x l -> p x = false) -> List.filter p l = [].
Proof.
  induction l as [| x l IH]; intros H; [reflexivity |].
  cbn [List.filter]. rewrite (H x) by (left; reflexivity).
  apply IH. intros y Hy. apply H. right. exact Hy.
Qed.

Lemma pushDestroyed_nil (d : PerFaction (list Unit)) : fold_left pushDestroyed [] d = d.
Proof. reflexivity. Qed.

(** X10: [removeDeadUnits] loses no unit (every unit of the array stays in
    it or goes to one destroyed list), only appends to the destroyed lists,
    changes nothing when every unit is alive, and running it twice is
    running it once. *)
Theorem removeDeadUnits_conserves (s : State) :
  let s' := removeDeadUnits s in
  (length (units s) + length (pf1 (destroyedUnits s)) + length (pf2 (destroyedUnits s))
   = length (units s') + length (pf1 (destroyedUnits s'))
     + length (pf2 (destroyedUnits s')))%nat /\
  (exists added, pf1 (destroyedUnits s') = pf1 (destroyedUnits s) ++ added) /\
  (exists added, pf2 (destroyedUnits s') = pf2 (destroyedUnits s) ++ added) /\
  ((forall v, In v (units s) -> isAlive v = true) -> s' = s) /\
  removeDeadUnits s' = s'.
Proof.
  cbv zeta. unfold removeDeadUnits.
  cbn [units destroyedUnits set_units set_destroyedUnits].
  rewrite !fold_pushDestroyed. cbn [pf1 pf2].
  split; [| split; [| split; [| split]]].
  - rewrite !length_app.
    pose proof (List.filter_length isAlive (units s)) as H1.
    pose proof (List.filter_length (fun u => faction u =? 1)
                  (List.filter (fun u => negb (isAlive u)) (units s))) as H2.
    lia.
  - eexists. reflexivity.
  - eexists. reflexivity.
  - intros Hall.
    rewrite (filter_none (fun u => negb (isAlive u)) (units s))
      by (intros v Hv; rewrite (Hall v Hv); reflexivity).
    rewrite (filter_true_id isAlive (units s) Hall).
    cbn [List.filter]. rewrite !app_nil_r. destruct s as [? ? ? [? ?] ? ? ? ? ? ? ? ?].
    reflexivity.
  - rewrite (filter_none (fun u => negb (isAlive u)) (List.filter isAlive (units s))).
    + rewrite filter_filter_same. cbn [List.filter]. rewrite !app_nil_r.
      unfold set_units, set_destroyedUnits. cbn. reflexivity.
    + intros v Hv. apply filter_In in Hv as [_ Hv]. rewrite Hv. reflexivity.
Qed.

(** ** Castle damage without a ram *)

Lemma unengagedInCastle_units (s s' : State) (f : Z) :
  units s' = units s -> unengagedInCastle s' f = unengagedInCastle s f.
Proof.
  intros H.
  unfold unengagedInCastle, unitsInCastle, isEngaged,
    getFactionUnitsAt, filterRefs, getUnitsAt, filterUnits.
  rewrite H. reflexivity.
Qed.

Lemma castleDamage_afterCounting_2 (s : State) :
  castleDamage (afterCounting s 2) =
  mkPF (pf1 (castleDamage s) + unengagedInCastle s 2) (pf2 (castleDamage s)).
Proof.
  unfold afterCounting. pose proof (Nat2Z.is_nonneg
    (length (List.filter (fun u => negb (isEngaged s u)) (unitsInCastle s 2)))) as Hn.
  fold (unengagedInCastle s 2) in Hn.
  destruct (0 <? unengagedInCastle s 2) eqn:E.
  - reflexivity.
  - assert (H0 : unengagedInCastle s 2 = 0) by lia. rewrite H0, Z.add_0_r.
    destruct (castleDamage s); reflexivity.
Qed.

Lemma unengagedInCastle_nonneg (s : State) (f : Z) : 0 <= unengagedInCastle s f.
Proof. unfold unengagedInCastle. lia. Qed.

(** X11: castle damage when no faction has an unengaged Battery Ram in the
    enemy castle row: each castle takes one point per living, unengaged
    enemy unit standing in its row (faction 2's units in row 5 count against
    castle 1, faction 1's units in row 0 against castle 2), the marker and
    the units are untouched.  In every case no castle total decreases. *)
Theorem calculateCastleDamage_counts (s : State) :
  (hasUnengagedRam s 1 = false -> hasUnengagedRam s 2 = false ->
   castleDamage (calculateCastleDamage s) =
     mkPF (pf1 (castleDamage s) + unengagedInCastle s 2)
          (pf2 (castleDamage s) + unengagedInCastle s 1) /\
   batteryRamWin (calculateCastleDamage s) = batteryRamWin s) /\
  pf1 (castleDamage s) <= pf1 (castleDamage (calculateCastleDamage s)) /\
  pf2 (castleDamage s) <= pf2 (castleDamage (calculateCastleDamage s)) /\
  units (calculateCastleDamage s) = units s.
Proof.
  unfold calculateCastleDamage.
  pose proof (unengagedInCastle_nonneg s 1) as Hn1.
  pose proof (unengagedInCastle_nonneg s 2) as Hn2.
  assert (Hu1 : units (afterCounting s 1) = units s) by apply units_afterCounting.
  destruct (hasUnengagedRam s 1) eqn:H1.
  - rewrite (castleLoop_ram_first s 1 [2] H1).
    split; [discriminate |]. repeat split; cbn; lia.
  - rewrite (castleLoop_no_ram s 1 [2] H1).
    destruct (hasUnengagedRam s 2) eqn:H2.
    + assert (H2' : hasUnengagedRam (afterCounting s 1) 2 = true)
        by (rewrite (hasUnengagedRam_units s); [exact H2 | exact Hu1]).
      rewrite (castleLoop_ram_first _ 2 [] H2').
      split; [discriminate |].
      cbn [castleDamage units logMessage set_log set_batteryRamWin].
      rewrite castleDamage_afterCounting_1, Hu1. cbn [pf1 pf2].
      repeat split; lia.
    + assert (H2' : hasUnengagedRam (afterCounting s 1) 2 = false)
        by (rewrite (hasUnengagedRam_units s); [exact H2 | exact Hu1]).
      rewrite (castleLoop_no_ram _ 2 [] H2'). cbn [castleLoop].
      rewrite castleDamage_afterCounting_2, castleDamage_afterCounting_1.
      rewrite (unengagedInCastle_units s _ 2 Hu1).
      rewrite !batteryRamWin_afterCounting, !units_afterCounting. cbn [pf1 pf2].
      repeat split; lia.
Qed.

Lemma calculateCastleDamage_counts_witness :
  hasUnengagedRam castleVisit 1 = false /\ hasUnengagedRam castleVisit 2 = false /\
  castleDamage (calculateCastleDamage castleVisit) = mkPF 1 2.
Proof.
  split; [reflexivity |]. split; [reflexivity |].
  rewrite (proj1 (proj1 (calculateCastleDamage_counts castleVisit) eq_refl eq_refl)).
  reflexivity.
Defined.

(** ** Streaks over consecutive evaluations *)

Lemma checkWinCondition_lead_one (s : State) :
  truthyNumber (batteryRamWin s) = false ->
  pf1 (castleDamage s) - pf2 (castleDamage s) = 1 ->
  checkWinCondition s =
  ((if pf1 (consecutiveDamageRounds s) + 1 >=? 2
    then Some (mkWin 2 "Player 1 had more damage for 2 consecutive rounds") else None),
   set_consecutiveDamageRounds (mkPF (pf1 (consecutiveDamageRounds s) + 1) 0) s).
Proof.
  intros Hm Hd. unfold checkWinCondition. rewrite Hm, Hd. cbn.
  destruct (pf1 (consecutiveDamageRounds s) + 1 >=? 2); reflexivity.
Qed.

Lemma checkWinCondition_trail_one (s : State) :
  truthyNumber (batteryRamWin s) = false ->
  pf1 (castleDamage s) - pf2 (castleDamage s) = -1 ->
  checkWinCondition s =
  ((if pf2 (consecutiveDamageRounds s) + 1 >=? 2
    then Some (mkWin 1 "Player 2 had more damage for 2 consecutive rounds") else None),
   set_consecutiveDamageRounds (mkPF 0 (pf2 (consecutiveDamageRounds s) + 1)) s).
Proof.
  intros Hm Hd. unfold checkWinCondition. rewrite Hm, Hd. cbn.
  destruct (pf2 (consecutiveDamageRounds s) + 1 >=? 2); reflexivity.
Qed.

Lemma checkWinCondition_level (s : State) :
  truthyNumber (batteryRamWin s) = false ->
  pf1 (castleDamage s) - pf2 (castleDamage s) = 0 ->
  checkWinCondition s = (None, set_consecutiveDamageRounds (mkPF 0 0) s).
Proof. intros Hm Hd. unfold checkWinCondition. rewrite Hm, Hd. reflexivity. Qed.

Lemma no_winner_close (s : State) :
  winnerOf s = None ->
  truthyNumber (batteryRamWin s) = false /\
  -1 <= pf1 (castleDamage s) - pf2 (castleDamage s) <= 1.
Proof.
  unfold winnerOf, checkWinCondition. intros Hw.
  destruct (truthyNumber (batteryRamWin s)); [discriminate Hw |].
  destruct (pf1 (castleDamage s) - pf2 (castleDamage s) >=? 2) eqn:E1; [discriminate Hw |].
  destruct (pf1 (castleDamage s) - pf2 (castleDamage s) <=? -2) eqn:E2; [discriminate Hw |].
  split; [reflexivity | lia].
Qed.

Lemma winnerOf_marked (s : State) :
  truthyNumber (batteryRamWin s) = true -> winnerOf s = batteryRamWin s.
Proof.
  intros Hm. unfold winnerOf, checkWinCondition. rewrite Hm. cbn.
  destruct (batteryRamWin s); [reflexivity | discriminate Hm].
Qed.

(** X12: an evaluation that names no winner found no ram marker, leaves
    both streaks below 2 and at most one of them above 0, and the castle
    totals then differ by at most one.  If faction 1's castle leads by
    exactly one at such an evaluation and again at the next one, on any
    state that carries the streaks the first one left, the next one names
    faction 2 the winner, unless a ram marker has been set in between: then
    it names the marker's faction.  Symmetrically for faction 2's castle. *)
Theorem checkWinCondition_streaks (s : State) :
  0 <= pf1 (consecutiveDamageRounds s) ->
  0 <= pf2 (consecutiveDamageRounds s) ->
  winnerOf s = None ->
  let diff := pf1 (castleDamage s) - pf2 (castleDamage s) in
  let c' := streaksAfter s in
  truthyNumber (batteryRamWin s) = false /\
  -1 <= diff <= 1 /\
  0 <= pf1 c' < 2 /\ 0 <= pf2 c' < 2 /\ (pf1 c' = 0 \/ pf2 c' = 0) /\
  (forall next, consecutiveDamageRounds next = c' ->
     diff = 1 -> pf1 (castleDamage next) - pf2 (castleDamage next) = 1 ->
     winnerOf next =
     if truthyNumber (batteryRamWin next) then batteryRamWin next else Some 2) /\
  (forall next, consecutiveDamageRounds next = c' ->
     diff = -1 -> pf1 (castleDamage next) - pf2 (castleDamage next) = -1 ->
     winnerOf next =
     if truthyNumber (batteryRamWin next) then batteryRamWin next else Some 1).
Proof.
  intros H1 H2 Hw. cbv zeta.
  destruct (no_winner_close s Hw) as [Hm Hd].
  split; [exact Hm |]. split; [exact Hd |].
  unfold streaksAfter.
  assert (Hcase : pf1 (castleDamage s) - pf2 (castleDamage s) = 1 \/
                  pf1 (castleDamage s) - pf2 (castleDamage s) = -1 \/
                  pf1 (castleDamage s) - pf2 (castleDamage s) = 0) by lia.
  destruct Hcase as [Hc | [Hc | Hc]].
  - unfold winnerOf in Hw. rewrite (checkWinCondition_lead_one s Hm Hc) in *.
    cbn [fst snd] in *.
    destruct (pf1 (consecutiveDamageRounds s) + 1 >=? 2) eqn:E; [discriminate Hw |].
    cbn [consecutiveDamageRounds set_consecutiveDamageRounds pf1 pf2].
    split; [lia |]. split; [lia |]. split; [right; reflexivity |].
    split; [| intros next _ Hx; lia].
    intros next Hnext _ Hcd.
    destruct (truthyNumber (batteryRamWin next)) eqn:Hm2;
      [apply winnerOf_marked; exact Hm2 |].
    unfold winnerOf. rewrite (checkWinCondition_lead_one next Hm2 Hcd).
    cbn [fst]. rewrite Hnext. cbn [pf1].
    destruct (pf1 (consecutiveDamageRounds s) + 1 + 1 >=? 2) eqn:E6; [reflexivity | lia].
  - unfold winnerOf in Hw. rewrite (checkWinCondition_trail_one s Hm Hc) in *.
    cbn [fst snd] in *.
    destruct (pf2 (consecutiveDamageRounds s) + 1 >=? 2) eqn:E; [discriminate Hw |].
    cbn [consecutiveDamageRounds set_consecutiveDamageRounds pf1 pf2].
    split; [lia |]. split; [lia |]. split; [left; reflexivity |].
    split; [intros next _ Hx; lia |].
    intros next Hnext _ Hcd.
    destruct (truthyNumber (batteryRamWin next)) eqn:Hm2;
      [apply winnerOf_marked; exact Hm2 |].
    unfold winnerOf. rewrite (checkWinCondition_trail_one next Hm2 Hcd).
    cbn [fst]. rewrite Hnext. cbn [pf2].
    destruct (pf2 (consecutiveDamageRounds s) + 1 + 1 >=? 2) eqn:E6; [reflexivity | lia].
  - rewrite (checkWinCondition_level s Hm Hc) in *.
    cbn [snd consecutiveDamageRounds set_consecutiveDamageRounds pf1 pf2].
    split; [lia |]. split; [lia |]. split; [left; reflexivity |].
    split; intros next _ Hx; lia.
Qed.

Lemma checkWinCondition_streaks_witness :
  winnerOf (leadState 3 2 (mkPF 0 0)) = None /\
  streaksAfter (leadState 3 2 (mkPF 0 0)) = mkPF 1 0 /\
  winnerOf (set_castleDamage (mkPF 5 4) (checkWinCondition (leadState 3 2 (mkPF 0 0))).2)
    = Some 2 /\
  winnerOf (set_batteryRamWin (Some 1) (leadState 5 4 (mkPF 1 0))) = Some 1.
Proof.
  split; [reflexivity |]. split; [reflexivity |].
  destruct (checkWinCondition_streaks (leadState 3 2 (mkPF 0 0)))
    as (_ & _ & _ & _ & _ & Hnext & _); [cbn; lia | cbn; lia | reflexivity |].
  split.
  - exact (Hnext (set_castleDamage (mkPF 5 4)
                    (checkWinCondition (leadState 3 2 (mkPF 0 0))).2)
             eq_refl eq_refl eq_refl).
  - exact (Hnext (set_batteryRamWin (Some 1) (leadState 5 4 (mkPF 1 0)))
             eq_refl eq_refl eq_refl).
Defined.

(** ** Engaged groups and the marks of combat *)

Lemma increasing_cons (x : nat) (l : list nat) :
  increasing (x :: l) <-> (forall j, In j l -> (x < j)%nat) /\ increasing l.
Proof.
  unfold increasing. split.
  - intros H. split.
    + intros j Hj. apply list_elem_of_In, list_elem_of_lookup in Hj as [b Hb].
      apply (H 0%nat (S b) x j); [reflexivity | exact Hb | lia].
    + intros a b i j Ha Hb Hab. apply (H (S a) (S b) i j); [exact Ha | exact Hb | lia].
  - intros [Hx Hl] a b i j Ha Hb Hab.
    destruct b as [| b]; [lia |]. cbn in Hb.
    destruct a as [| a].
    + injection Ha as <-. apply Hx. eapply lookup_In. exact Hb.
    + cbn in Ha. apply (Hl a b i j Ha Hb). lia.
Qed.

Lemma increasing_filter (q : nat -> bool) (l : list nat) :
  increasing l -> increasing (List.filter q l).
Proof.
  induction l as [| x l IH]; intros H; [exact H |].
  apply increasing_cons in H as [Hx Hl]. cbn [List.filter].
  destruct (q x); [| apply IH; exact Hl].
  apply increasing_cons. split; [| apply IH; exact Hl].
  intros j Hj. apply filter_In in Hj as [Hj _]. apply Hx. exact Hj.
Qed.

Lemma indicesFrom_increasing (p : Unit -> bool) (l : list Unit) (k : nat) :
  increasing (indicesFrom k p l).
Proof.
  revert k. induction l as [| x l IH]; intros k; [intros a b i j Ha; discriminate Ha |].
  cbn [indicesFrom]. destruct (p x); [| apply IH].
  apply increasing_cons. split; [| apply IH].
  intros j Hj. apply indicesFrom_spec in Hj as (u & Hle & _). lia.
Qed.

Lemma getFactionUnitsAt_increasing (s : State) (r c f : Z) :
  increasing (getFactionUnitsAt s r c f).
Proof.
  unfold getFactionUnitsAt, filterRefs, getUnitsAt, filterUnits.
  apply increasing_filter. apply indicesFrom_increasing.
Qed.

(** X13: [getEngagedGroups] returns one group for each hex on which living
    units of both factions stand and nothing else: the group of the hex
    lists the living units of faction 1 and of faction 2 there, in array
    order (a later position of the list holds a greater index of [units])
    and without repetition, and no hex has two groups. *)
Theorem getEngagedGroups_exact (s : State) :
  (forall g, In g (getEngagedGroups s) <->
     exists r c, g = mkGroup (mkHex r c) (getFactionUnitsAt s r c 1)
                             (getFactionUnitsAt s r c 2) /\
                 getFactionUnitsAt s r c 1 <> [] /\ getFactionUnitsAt s r c 2 <> []) /\
  List.NoDup (List.map group_hex (getEngagedGroups s)) /\
  (forall r c f i, In i (getFactionUnitsAt s r c f) <->
     exists u, units s !! i = Some u /\ row u = r /\ col u = c /\
               damage u < maxHp u /\ faction u = f) /\
  (forall r c f, List.NoDup (getFactionUnitsAt s r c f)) /\
  (forall r c f a b i j,
     getFactionUnitsAt s r c f !! a = Some i ->
     getFactionUnitsAt s r c f !! b = Some j ->
     (a < b)%nat -> (i < j)%nat) /\
  (forall g, In g (getEngagedGroups s) ->
     increasing (faction1 g) /\ increasing (faction2 g)).
Proof.
  destruct (getEngagedGroups_inv s) as (processed & Hall & Hnd).
  split; [| split; [exact Hnd | split; [| split; [| split]]]].
  - intros g. split.
    + intros Hg. destruct (Hall g Hg) as (r & c & Heq & _ & H1 & H2).
      exists r, c. split; [exact Heq | split; assumption].
    + intros (r & c & -> & H1 & H2). apply getEngagedGroups_complete; assumption.
  - intros r c f i. apply getFactionUnitsAt_spec.
  - intros r c f. apply getFactionUnitsAt_NoDup.
  - intros r c f. apply getFactionUnitsAt_increasing.
  - intros g Hg. destruct (Hall g Hg) as (r & c & -> & _).
    cbn [groupAt faction1 faction2]. split; apply getFactionUnitsAt_increasing.
Qed.

(** Two faction-2 units on one hex come in the group in the order of the
    array. *)
Example group_in_array_order :
  getEngagedGroups militiaFight = [mkGroup (mkHex 2 2) [0%nat] [1%nat; 2%nat]].
Proof. vm_compute. reflexivity. Qed.

(** X14: when no hex holds living units of both factions, combat
    resolution only writes "No combats to resolve" to the log. *)
Theorem resolveCombatAsync_no_engagement (alloc : option Allocator) (s : State) :
  (forall r c, getFactionUnitsAt s r c 1 = [] \/ getFactionUnitsAt s r c 2 = []) ->
  resolveCombatAsync alloc s = logMessage "No combats to resolve" s.
Proof.
  intros Hno. unfold resolveCombatAsync.
  destruct (getEngagedGroups s) as [| g gs] eqn:E; [reflexivity |].
  exfalso. destruct (getEngagedGroups_inv s) as (processed & Hall & _).
  destruct (Hall g) as (r & c & _ & _ & H1 & H2); [rewrite E; left; reflexivity |].
  destruct (Hno r c); contradiction.
Qed.

Lemma resolveCombatAsync_no_engagement_witness :
  (forall r c, getFactionUnitsAt chargeState r c 1 = [] \/
               getFactionUnitsAt chargeState r c 2 = []) /\
  units (resolveCombatAsync None chargeState) = units chargeState.
Proof.
  assert (H : forall r c, getFactionUnitsAt chargeState r c 1 = [] \/
                          getFactionUnitsAt chargeState r c 2 = []).
  { intros r c.
    destruct (getFactionUnitsAt chargeState r c 1) as [| i l] eqn:E1; [left; reflexivity |].
    destruct (getFactionUnitsAt chargeState r c 2) as [| j l'] eqn:E2; [right; reflexivity |].
    exfalso.
    assert (Hi : In i (getFactionUnitsAt chargeState r c 1)) by (rewrite E1; left; reflexivity).
    assert (Hj : In j (getFactionUnitsAt chargeState r c 2)) by (rewrite E2; left; reflexivity).
    apply getFactionUnitsAt_spec in Hi as (u & Hu & Hr & Hc & _ & Hf).
    apply getFactionUnitsAt_spec in Hj as (v & Hv & Hr' & Hc' & _ & Hf').
    destruct i as [| [| i]]; cbn in Hu; try discriminate Hu; injection Hu as <-;
      destruct j as [| [| j]]; cbn in Hv; try discriminate Hv; injection Hv as <-;
      cbn in *; lia. }
  split; [exact H |].
  rewrite (resolveCombatAsync_no_engagement None chargeState H). reflexivity.
Defined.

Lemma marks_applyDamage (s : State) (i : nat) (amount : Z) (src : option string) :
  unitsInCombatThisTurn (applyDamage s i amount src) = unitsInCombatThisTurn s.
Proof. apply applyDamage_bookkeeping. Qed.

Lemma marks_distributeEvenly (dpe rem idx : Z) (targets : list nat) (s : State) :
  unitsInCombatThisTurn (distributeEvenly dpe rem idx targets s) = unitsInCombatThisTurn s.
Proof.
  revert idx s. induction targets as [| t targets IH]; intros idx s; [reflexivity |].
  cbn [distributeEvenly]. rewrite IH. apply marks_applyDamage.
Qed.

Lemma marks_applyAllocation (targets : list nat) (allocation : list (string * Z))
    (s : State) :
  unitsInCombatThisTurn (applyAllocation targets s allocation) = unitsInCombatThisTurn s.
Proof.
  unfold applyAllocation. revert s.
  induction allocation as [| [enemyId dmg] allocation IH]; intros s; [reflexivity |].
  cbn [fold_left]. rewrite IH.
  destruct (findById s targets enemyId); [| reflexivity].
  destruct (0 <? dmg); [apply marks_applyDamage | reflexivity].
Qed.

Lemma marks_strike (alloc : option Allocator) (f : Z) (attackers targets : list nat)
    (s : State) :
  unitsInCombatThisTurn (strike alloc f attackers targets s) = unitsInCombatThisTurn s.
Proof.
  unfold strike.
  destruct ((0 <? Z.of_nat (length attackers)) && (0 <? Z.of_nat (length targets)));
    [| reflexivity].
  destruct (Z.of_nat (length targets) =? 1).
  - destruct targets; [reflexivity | apply marks_applyDamage].
  - destruct alloc; [apply marks_applyAllocation | apply marks_distributeEvenly].
Qed.

Lemma marks_markInCombat (s : State) (refs : list nat) (x : string) :
  x ∈ unitsInCombatThisTurn (markInCombat s refs) <->
  x ∈ unitsInCombatThisTurn s \/
  exists i u, In i refs /\ units s !! i = Some u /\ unit_id u = x.
Proof.
  unfold markInCombat. revert s. induction refs as [| i refs IH]; intros s.
  - cbn [fold_left]. split; [tauto | intros [H | (i & u & [] & _)]; exact H].
  - cbn [fold_left]. rewrite IH. destruct (units s !! i) as [u |] eqn:Hu.
    + cbn [unitsInCombatThisTurn units set_unitsInCombatThisTurn].
      rewrite elem_of_union, elem_of_singleton. split.
      * intros [[-> | H] | (j & v & Hj & Hv & Hx)].
        -- right. exists i, u. split; [left; reflexivity | auto].
        -- left. exact H.
        -- right. exists j, v. split; [right; exact Hj | auto].
      * intros [H | (j & v & [<- | Hj] & Hv & Hx)].
        -- left. right. exact H.
        -- left. left. rewrite Hu in Hv. injection Hv as <-. symmetry. exact Hx.
        -- right. exists j, v. auto.
    + split.
      * intros [H | (j & v & Hj & Hv & Hx)]; [left; exact H | right].
        exists j, v. split; [right; exact Hj | auto].
      * intros [H | (j & v & [<- | Hj] & Hv & Hx)]; [left; exact H | congruence | right].
        exists j, v. auto.
Qed.

Lemma sameUnits_id_lookup (l l' : list Unit) (i : nat) (x : string) :
  sameUnits l l' ->
  (exists u, l !! i = Some u /\ unit_id u = x) <->
  (exists u, l' !! i = Some u /\ unit_id u = x).
Proof.
  intros H. apply sameUnits_ids in H.
  assert (Hl : unit_id <$> l !! i = unit_id <$> l' !! i)
    by (rewrite <- !list_lookup_fmap, H; reflexivity).
  split; intros (u & Hu & Hx); rewrite Hu in Hl; cbn in Hl.
  - destruct (l' !! i) as [u' |]; [| discriminate Hl]. injection Hl as Hl.
    exists u'. split; [reflexivity | congruence].
  - destruct (l !! i) as [u' |]; [| discriminate Hl]. injection Hl as Hl.
    exists u'. split; [reflexivity | congruence].
Qed.

Lemma marks_processGroup (alloc : option Allocator) (s : State) (g : Group) (x : string) :
  x ∈ unitsInCombatThisTurn (processGroup alloc s g) <->
  x ∈ unitsInCombatThisTurn s \/
  exists i u, In i (members g) /\ units s !! i = Some u /\ unit_id u = x.
Proof.
  unfold processGroup. rewrite !marks_strike, !marks_markInCombat, units_markInCombat.
  unfold members. split.
  - intros [[H | (i & u & Hi & Hu)] | (i & u & Hi & Hu)]; [left; exact H | right | right];
      exists i, u; (split; [apply in_or_app; auto | exact Hu]).
  - intros [H | (i & u & Hi & Hu)]; [left; left; exact H |].
    apply in_app_or in Hi as [Hi | Hi]; [left; right | right]; exists i, u; auto.
Qed.

Lemma marks_resolveCombatLoop (alloc : option Allocator) (gs : list Group) (s : State)
    (x : string) :
  x ∈ unitsInCombatThisTurn (resolveCombatLoop alloc gs s) <->
  x ∈ unitsInCombatThisTurn s \/
  exists g i u, In g gs /\ In i (members g) /\ units s !! i = Some u /\ unit_id u = x.
Proof.
  unfold resolveCombatLoop. revert s. induction gs as [| g gs IH]; intros s.
  - cbn [fold_left]. split; [tauto | intros [H | (g & _ & _ & [] & _)]; exact H].
  - cbn [fold_left]. rewrite IH, marks_processGroup. split.
    + intros [[H | (i & u & Hi & Hu)] | (g' & i & u & Hg' & Hi & Hu & Hx)].
      * left. exact H.
      * right. exists g, i, u. split; [left; reflexivity | auto].
      * right.
        destruct (proj1 (sameUnits_id_lookup _ _ i x (sameUnits_processGroup alloc s g))
                    (ex_intro _ u (conj Hu Hx))) as (u' & Hu' & Hx').
        exists g', i, u'. split; [right; exact Hg' | auto].
    + intros [H | (g' & i & u & [<- | Hg'] & Hi & Hu & Hx)].
      * left. left. exact H.
      * left. right. exists i, u. auto.
      * right.
        destruct (proj2 (sameUnits_id_lookup _ _ i x (sameUnits_processGroup alloc s g))
                    (ex_intro _ u (conj Hu Hx))) as (u' & Hu' & Hx').
        exists g', i, u'. auto.
Qed.

(** X15: combat resolution marks as having fought exactly the units that
    stand, alive, on a hex shared with a living enemy, on top of the marks
    that were there; the cleanup does not touch the marks. *)
Theorem resolveCombatAsync_marks (alloc : option Allocator) (s : State) (x : string) :
  x ∈ unitsInCombatThisTurn (resolveCombatAsync alloc s) <->
  x ∈ unitsInCombatThisTurn s \/
  exists i u, units s !! i = Some u /\ unit_id u = x /\
              isAlive u = true /\ isEngaged s u = true /\
              (faction u = 1 \/ faction u = 2).
Proof.
  assert (Hmember : (exists g i u, In g (getEngagedGroups s) /\ In i (members g) /\
                                   units s !! i = Some u /\ unit_id u = x) <->
                    (exists i u, units s !! i = Some u /\ unit_id u = x /\
                                 isAlive u = true /\ isEngaged s u = true /\
                                 (faction u = 1 \/ faction u = 2))).
  { split.
    - intros (g & i & u & Hg & Hi & Hu & Hx).
      destruct (getEngagedGroups_inv s) as (processed & Hall & _).
      destruct (Hall g Hg) as (r & c & -> & _ & H1 & H2).
      exists i, u. split; [exact Hu |]. split; [exact Hx |].
      unfold members, groupAt in Hi. cbn [faction1 faction2] in Hi.
      apply in_app_or in Hi as [Hi | Hi];
        apply getFactionUnitsAt_spec in Hi as (u' & Hu' & Hr & Hc & Hd & Hf);
        rewrite Hu in Hu'; injection Hu' as <-;
        (split; [apply isAlive_spec; exact Hd |]);
        (split; [| auto]);
        unfold isEngaged; rewrite Hf, Hr, Hc; cbn [Z.eqb Pos.eqb];
        apply length_nonempty; assumption.
    - intros (i & u & Hu & Hx & Ha & He & Hf).
      assert (Hmine : In i (getFactionUnitsAt s (row u) (col u) (faction u))).
      { apply getFactionUnitsAt_spec. exists u. apply isAlive_spec in Ha. auto. }
      unfold isEngaged in He.
      assert (Hen : getFactionUnitsAt s (row u) (col u) (if faction u =? 1 then 2 else 1)
                    <> []) by (apply nonempty_length; exact He).
      exists (groupAt s (row u) (col u)), i, u.
      split; [| split; [| auto]].
      + apply getEngagedGroups_complete; destruct Hf as [Hf | Hf]; rewrite Hf in *;
          cbn [Z.eqb Pos.eqb] in Hen; try exact Hen;
          intros Hnil; rewrite Hnil in Hmine; destruct Hmine.
      + unfold members, groupAt. cbn [faction1 faction2]. apply in_or_app.
        destruct Hf as [Hf | Hf]; rewrite Hf in Hmine; auto. }
  rewrite <- Hmember. unfold resolveCombatAsync.
  destruct (Z.of_nat (length (getEngagedGroups s)) =? 0) eqn:E.
  - cbn [unitsInCombatThisTurn logMessage set_log]. split; [tauto |].
    intros [H | (g & _ & _ & Hg & _)]; [exact H |].
    destruct (getEngagedGroups s); [destruct Hg | cbn [length] in E; lia].
  - change (unitsInCombatThisTurn (removeDeadUnits ?st)) with (unitsInCombatThisTurn st).
    rewrite marks_resolveCombatLoop. reflexivity.
Qed.

Example last_stand_marks :
  unitsInCombatThisTurn (resolveCombatAsync None lastStand) = {[ "a-1"; "c-1" ]}.
Proof.
  apply set_eq. intros x. rewrite resolveCombatAsync_marks.
  rewrite elem_of_union, !elem_of_singleton. split.
  - intros [H | (i & u & Hu & Hx & _)]; [set_solver |].
    destruct i as [| [| i]]; cbn in Hu; try discriminate Hu; injection Hu as <-;
      cbn in Hx; auto.
  - intros [-> | ->]; right.
    + exists 0%nat, woundedArchers. repeat split; auto.
    + exists 1%nat, woundedCannon. repeat split; auto.
Qed.

(** ** Manual two-unit allocation *)

(** X16: [allocateCombatDamage] on two different units gives [2 - d] to
    the first and [d] to the second when both amounts are positive, and
    skips an amount that is not; it does not check [d]: above 2 the second
    unit takes all of [d], below 0 the first takes [2 - d].  For
    [0 <= d <= 2] exactly two points are dealt. *)
Theorem allocateCombatDamage_split (s : State) (unit1 unit2 : nat) (d : Z) :
  unit1 <> unit2 ->
  let s' := allocateCombatDamage s unit1 unit2 d in
  units s' !! unit1 = addDamage (Z.max 0 (2 - d)) <$> units s !! unit1 /\
  units s' !! unit2 = addDamage (Z.max 0 d) <$> units s !! unit2 /\
  (forall j, j <> unit1 -> j <> unit2 -> units s' !! j = units s !! j) /\
  (0 <= d <= 2 -> Z.max 0 (2 - d) + Z.max 0 d = 2).
Proof.
  intros Hne. cbv zeta. unfold allocateCombatDamage.
  assert (Hz : forall o : option Unit, addDamage 0 <$> o = o)
    by (intros [u |]; cbn; [rewrite addDamage_zero |]; reflexivity).
  destruct (0 <? 2 - d) eqn:E1; destruct (0 <? d) eqn:E2.
  - rewrite applyDamage_lookup_ne by congruence.
    rewrite !applyDamage_lookup_eq. rewrite applyDamage_lookup_ne by congruence.
    rewrite !Z.max_r by lia.
    split; [reflexivity |]. split; [reflexivity |]. split; [| lia].
    intros j H1 H2. rewrite !applyDamage_lookup_ne by congruence. reflexivity.
  - rewrite applyDamage_lookup_eq. rewrite applyDamage_lookup_ne by congruence.
    rewrite (Z.max_r 0 (2 - d)) by lia. rewrite (Z.max_l 0 d) by lia. rewrite Hz.
    split; [reflexivity |]. split; [reflexivity |]. split; [| lia].
    intros j H1 H2. rewrite !applyDamage_lookup_ne by congruence. reflexivity.
  - rewrite applyDamage_lookup_eq. rewrite applyDamage_lookup_ne by congruence.
    rewrite (Z.max_l 0 (2 - d)) by lia. rewrite (Z.max_r 0 d) by lia. rewrite Hz.
    split; [reflexivity |]. split; [reflexivity |]. split; [| lia].
    intros j H1 H2. rewrite !applyDamage_lookup_ne by congruence. reflexivity.
  - lia.
Qed.

Lemma allocateCombatDamage_split_witness :
  (damage <$> units (allocateCombatDamage lastStand 0 1 5) !! 0%nat) = Some 3 /\
  (damage <$> units (allocateCombatDamage lastStand 0 1 5) !! 1%nat) = Some 9.
Proof.
  destruct (allocateCombatDamage_split lastStand 0 1 5) as (H1 & H2 & _); [discriminate |].
  rewrite H1, H2. split; reflexivity.
Defined.

(** ** Ability resolution *)

Lemma ledger_logMessage (m : string) (s : State) : ledger (logMessage m s) = ledger s.
Proof. reflexivity. Qed.

Lemma ledger_applyDamage (s : State) (i : nat) (amount : Z) (src : option string) :
  ledger (applyDamage s i amount src) = ledger s.
Proof.
  unfold applyDamage. destruct (units s !! i) as [u |]; [| reflexivity].
  destruct (negb (truthyString src));
    destruct (damage (set_damage (damage u + amount) u)
              >=? maxHp (set_damage (damage u + amount) u)); reflexivity.
Qed.

Lemma ledger_abilityHit (un an tn : string) (d : Z) (place : option Hex)
    (s : State) (t : nat) :
  ledger (abilityHit un an tn d place s t) = ledger s.
Proof.
  unfold abilityHit. cbv zeta.
  destruct (units (applyDamage s t d (Some "ability")) !! t);
    rewrite ?ledger_logMessage; apply ledger_applyDamage.
Qed.

Lemma units_abilityHit (un an tn : string) (d : Z) (place : option Hex)
    (s : State) (t : nat) :
  units (abilityHit un an tn d place s t) = alter (addDamage d) t (units s).
Proof.
  unfold abilityHit. cbv zeta.
  destruct (units (applyDamage s t d (Some "ability")) !! t);
    rewrite ?units_logMessage; apply units_applyDamage.
Qed.

Lemma units_hits (name : State -> nat -> string) (un an : string) (d : Z)
    (place : option Hex) (l : list nat) (s : State) :
  units (fold_left (fun st e => abilityHit un an (name st e) d place st e) l s) =
  fold_left (fun acc e => alter (addDamage d) e acc) l (units s).
Proof.
  revert s. induction l as [| e l IH]; intros s; [reflexivity |].
  cbn [fold_left]. rewrite IH, units_abilityHit. reflexivity.
Qed.

Lemma ledger_hits (name : State -> nat -> string) (un an : string) (d : Z)
    (place : option Hex) (l : list nat) (s : State) :
  ledger (fold_left (fun st e => abilityHit un an (name st e) d place st e) l s) = ledger s.
Proof.
  revert s. induction l as [| e l IH]; intros s; [reflexivity |].
  cbn [fold_left]. rewrite IH, ledger_abilityHit. reflexivity.
Qed.

Lemma fold_alter_indices (p : Unit -> bool) (f : Unit -> Unit) (l pre : list Unit) :
  fold_left (fun acc e => alter f e acc) (indicesFrom (length pre) p l) (pre ++ l)
  = pre ++ hitAll p f l.
Proof.
  revert pre. induction l as [| u l IH]; intros pre; [reflexivity |].
  unfold hitAll. rewrite fmap_cons. fold (hitAll p f l).
  assert (Hpre : forall x y, pre ++ x :: y = (pre ++ [x]) ++ y)
    by (intros; rewrite <- app_assoc; reflexivity).
  assert (Hlen : forall x, S (length pre) = length (pre ++ [x]))
    by (intros; rewrite length_app; simpl; lia).
  cbn [indicesFrom]. destruct (p u) eqn:E.
  - cbn [fold_left].
    replace (alter f (length pre) (pre ++ u :: l)) with (pre ++ f u :: l).
    + rewrite (Hpre (f u) l), (Hlen (f u)), IH, <- app_assoc. reflexivity.
    + replace (length pre) with (length pre + 0)%nat at 1 by lia.
      rewrite alter_app_r. reflexivity.
  - rewrite (Hpre u l), (Hlen u), IH, <- app_assoc. reflexivity.
Qed.

Lemma fold_alter_filterUnits (p : Unit -> bool) (f : Unit -> Unit) (s : State) :
  fold_left (fun acc e => alter f e acc) (filterUnits p s) (units s) = hitAll p f (units s).
Proof. apply (fold_alter_indices p f (units s) []). Qed.

Lemma hitAll_ext (p q : Unit -> bool) (f g : Unit -> Unit) (l : list Unit) :
  (forall v, In v l -> (if p v then f v else v) = (if q v then g v else v)) ->
  hitAll p f l = hitAll q g l.
Proof.
  intros H. unfold hitAll. induction l as [| u l IH]; [reflexivity |].
  rewrite !fmap_cons. f_equal; [apply H; left; reflexivity |].
  apply IH. intros v Hv. apply H. right. exact Hv.
Qed.

Lemma hitAll_none (p : Unit -> bool) (f : Unit -> Unit) (l : list Unit) :
  (forall v, In v l -> p v = false \/ f v = v) -> hitAll p f l = l.
Proof.
  intros H. unfold hitAll. induction l as [| u l IH]; [reflexivity |].
  rewrite fmap_cons. f_equal.
  - destruct (H u (or_introl eq_refl)) as [E | E]; [rewrite E; reflexivity |].
    destruct (p u); [exact E | reflexivity].
  - apply IH. intros v Hv. apply H. right. exact Hv.
Qed.

(** *** What each phase can change *)

Lemma changes_refl (R : Unit -> Unit -> Prop) (l : list Unit) :
  (forall u, R u u) -> Forall2 R l l.
Proof. intros H. induction l; constructor; auto. Qed.

Lemma changes_trans (R : Unit -> Unit -> Prop) (l1 l2 l3 : list Unit) :
  (forall a b c, R a b -> R b c -> R a c) ->
  Forall2 R l1 l2 -> Forall2 R l2 l3 -> Forall2 R l1 l3.
Proof.
  intros HR H12. revert l3.
  induction H12; intros l3 H23; inversion H23; subst; constructor; eauto.
Qed.

Lemma changes_alter (R : Unit -> Unit -> Prop) (f : Unit -> Unit) (i : nat) (l : list Unit) :
  (forall u, R u u) -> (forall u, R u (f u)) -> Forall2 R l (alter f i l).
Proof.
  intros Hr Hf. apply Forall2_alter_r; [apply changes_refl; exact Hr |].
  intros x y Hx Hy _. rewrite Hx in Hy. injection Hy as <-. apply Hf.
Qed.

Lemma changes_insert (R : Unit -> Unit -> Prop) (i : nat) (l : list Unit) (u u' : Unit) :
  (forall v, R v v) -> l !! i = Some u -> R u u' -> Forall2 R l (<[i := u']> l).
Proof.
  intros Hr Hu HR. apply Forall2_same_length_lookup_2; [rewrite length_insert; reflexivity |].
  intros j x y Hx Hy. destruct (decide (i = j)) as [<- | Hne].
  - rewrite list_lookup_insert_eq in Hy by (eapply lookup_lt_Some; exact Hu).
    rewrite Hu in Hx. injection Hx as <-. injection Hy as <-. exact HR.
  - rewrite list_lookup_insert_ne in Hy by exact Hne.
    rewrite Hx in Hy. injection Hy as <-. apply Hr.
Qed.

Lemma changes_fold_alter (R : Unit -> Unit -> Prop) (f : Unit -> Unit) (es : list nat)
    (l : list Unit) :
  (forall u, R u u) -> (forall a b c, R a b -> R b c -> R a c) -> (forall u, R u (f u)) ->
  Forall2 R l (fold_left (fun acc e => alter f e acc) es l).
Proof.
  intros Hr Ht Hf. revert l. induction es as [| e es IH]; intros l.
  - apply changes_refl. exact Hr.
  - cbn [fold_left]. eapply changes_trans; [exact Ht | | apply IH].
    apply changes_alter; assumption.
Qed.

Lemma changes_fold (R : Unit -> Unit -> Prop) (f : State -> nat -> State) (es : list nat)
    (s : State) :
  (forall u, R u u) -> (forall a b c, R a b -> R b c -> R a c) ->
  (forall st e, Forall2 R (units st) (units (f st e))) ->
  Forall2 R (units s) (units (fold_left f es s)).
Proof.
  intros Hr Ht Hf. revert s. induction es as [| e es IH]; intros s.
  - apply changes_refl. exact Hr.
  - cbn [fold_left]. eapply changes_trans; [exact Ht | apply Hf | apply IH].
Qed.

Lemma ledger_fold (f : State -> nat -> State) (es : list nat) (s : State) :
  (forall st e, ledger (f st e) = ledger st) -> ledger (fold_left f es s) = ledger s.
Proof.
  intros Hf. revert s. induction es as [| e es IH]; intros s; [reflexivity |].
  cbn [fold_left]. rewrite IH. apply Hf.
Qed.

Lemma meleeChange_refl (u : Unit) : meleeChange u u.
Proof. split; [reflexivity | lia]. Qed.

Lemma meleeChange_trans (a b c : Unit) :
  meleeChange a b -> meleeChange b c -> meleeChange a c.
Proof. intros [E1 L1] [E2 L2]. split; [rewrite E2; exact E1 | lia]. Qed.

Lemma meleeChange_addDamage (d : Z) (u : Unit) : 0 <= d -> meleeChange u (addDamage d u).
Proof. intros H. split; [reflexivity | cbn; lia]. Qed.

Lemma rangedChange_refl (u : Unit) : rangedChange u u.
Proof. split; [reflexivity | lia]. Qed.

Lemma rangedChange_trans (a b c : Unit) :
  rangedChange a b -> rangedChange b c -> rangedChange a c.
Proof. intros [E1 L1] [E2 L2]. split; [rewrite E2; exact E1 | lia]. Qed.

Lemma rangedChange_addDamage (d : Z) (u : Unit) : 0 <= d -> rangedChange u (addDamage d u).
Proof. intros H. split; [reflexivity | cbn; lia]. Qed.

Lemma pierce_frame (s : State) (u : Unit) :
  ledger (pierce s u) = ledger s /\ Forall2 meleeChange (units s) (units (pierce s u)).
Proof.
  unfold pierce.
  destruct (chosenUnit s u (getSpearsPierceTargets s u)) as [t |];
    [| split; [reflexivity | apply changes_refl, meleeChange_refl]].
  destruct (units s !! t) as [tv |];
    [| split; [reflexivity | apply changes_refl, meleeChange_refl]].
  destruct (isAlive tv);
    [| split; [reflexivity | apply changes_refl, meleeChange_refl]].
  split; [apply ledger_abilityHit |].
  rewrite units_abilityHit. apply changes_alter; [apply meleeChange_refl |].
  intros v. apply meleeChange_addDamage. unfold calculateSpearsPierceDamage. lia.
Qed.

Lemma applyJestersTaunt_frame (s : State) (j t : nat) :
  ledger (applyJestersTaunt s j t) = ledger s /\
  Forall2 meleeChange (units s) (units (applyJestersTaunt s j t)).
Proof.
  unfold applyJestersTaunt.
  destruct (units s !! j) as [ju |];
    [| split; [reflexivity | apply changes_refl, meleeChange_refl]].
  destruct (units s !! t) as [tv |] eqn:Ht;
    [| split; [reflexivity | apply changes_refl, meleeChange_refl]].
  destruct (negb (type_id (type ju) =? type_id UnitTypes.JESTERS));
    [split; [reflexivity | apply changes_refl, meleeChange_refl] |].
  split; [reflexivity |].
  rewrite units_logMessage. cbn [units set_units].
  eapply changes_insert; [apply meleeChange_refl | exact Ht |].
  split; [reflexivity | cbn; lia].
Qed.

Lemma taunt_frame (s : State) (i : nat) (u : Unit) :
  ledger (taunt s i u) = ledger s /\ Forall2 meleeChange (units s) (units (taunt s i u)).
Proof.
  unfold taunt.
  destruct (chosenUnit s u (getJestersTauntTargets s u)) as [t |];
    [| split; [reflexivity | apply changes_refl, meleeChange_refl]].
  destruct (units s !! t) as [tv |];
    [| split; [reflexivity | apply changes_refl, meleeChange_refl]].
  destruct (isAlive tv);
    [| split; [reflexivity | apply changes_refl, meleeChange_refl]].
  apply applyJestersTaunt_frame.
Qed.

Lemma meleeStep_frame (s : State) (i : nat) :
  ledger (meleeStep s i) = ledger s /\ Forall2 meleeChange (units s) (units (meleeStep s i)).
Proof.
  unfold meleeStep.
  destruct (units s !! i) as [u |];
    [| split; [reflexivity | apply changes_refl, meleeChange_refl]].
  destruct (sitsOut s u);
    [split; [reflexivity | apply changes_refl, meleeChange_refl] |].
  destruct (pierce_frame s u) as [Hl1 Hc1].
  destruct (type_id (type u) =? type_id UnitTypes.SPEARS).
  - destruct (taunt_frame (pierce s u) i u) as [Hl2 Hc2].
    destruct (type_id (type u) =? type_id UnitTypes.JESTERS).
    + split; [rewrite Hl2; exact Hl1 |].
      eapply changes_trans; [apply meleeChange_trans | exact Hc1 | exact Hc2].
    + split; assumption.
  - destruct (type_id (type u) =? type_id UnitTypes.JESTERS).
    + apply taunt_frame.
    + split; [reflexivity | apply changes_refl, meleeChange_refl].
Qed.

Lemma meleeLoop_frame (s : State) :
  ledger (meleeLoop s) = ledger s /\ Forall2 meleeChange (units s) (units (meleeLoop s)).
Proof.
  unfold meleeLoop. split.
  - apply ledger_fold. intros st e. apply meleeStep_frame.
  - apply changes_fold; [apply meleeChange_refl | apply meleeChange_trans |].
    intros st e. apply meleeStep_frame.
Qed.

Lemma volley_frame (s : State) (i : nat) (u : Unit) :
  ledger (volley s i u) = ledger s /\ Forall2 rangedChange (units s) (units (volley s i u)).
Proof.
  unfold volley. cbv zeta.
  match goal with
  | |- context [match ?tgt with Some t => _ | None => s end] => destruct tgt as [t |]
  end; [| split; [reflexivity | apply changes_refl, rangedChange_refl]].
  destruct (units s !! t) as [tv |];
    [| split; [reflexivity | apply changes_refl, rangedChange_refl]].
  destruct (isAlive tv);
    [| split; [reflexivity | apply changes_refl, rangedChange_refl]].
  destruct (0 <? calculateArchersVolleyDamage u tv) eqn:Hd;
    [| split; [reflexivity | apply changes_refl, rangedChange_refl]].
  split.
  - change (ledger (set_units ?l ?x)) with (ledger x). apply ledger_abilityHit.
  - cbn [units set_units]. rewrite units_abilityHit.
    apply (changes_trans rangedChange _
             (alter (addDamage (calculateArchersVolleyDamage u tv)) t (units s)));
      [apply rangedChange_trans | |].
    + apply changes_alter; [apply rangedChange_refl |].
      intros v. apply rangedChange_addDamage. lia.
    + apply changes_alter; [apply rangedChange_refl |].
      intros v. split; [reflexivity | cbn; lia].
Qed.

Lemma calculateCannonMortarDamage_nonneg (u : Unit) : 0 <= calculateCannonMortarDamage u.
Proof. unfold calculateCannonMortarDamage. destruct (movedThisTurn u); lia. Qed.

Lemma mortar_frame (s : State) (u : Unit) :
  ledger (mortar s u) = ledger s /\ Forall2 rangedChange (units s) (units (mortar s u)).
Proof.
  unfold mortar. cbv zeta.
  match goal with
  | |- context [match ?tgt with Some h => _ | None => s end] => destruct tgt as [h |]
  end; [| split; [reflexivity | apply changes_refl, rangedChange_refl]].
  destruct ((0 <? hexDistance (row u) (col u) (hex_row h) (hex_col h)) &&
            (hexDistance (row u) (col u) (hex_row h) (hex_col h) <=? 2));
    [| split; [reflexivity | apply changes_refl, rangedChange_refl]].
  split; [apply ledger_hits |].
  rewrite (units_hits nameOf).
  apply changes_fold_alter; [apply rangedChange_refl | apply rangedChange_trans |].
  intros v. apply rangedChange_addDamage, calculateCannonMortarDamage_nonneg.
Qed.

Lemma fire_frame (s : State) (u : Unit) :
  ledger (fire s u) = ledger s /\ Forall2 rangedChange (units s) (units (fire s u)).
Proof.
  unfold fire. cbv zeta.
  destruct (0 <? Z.of_nat (length (getMusketsFireTargets s u)));
    [| split; [reflexivity | apply changes_refl, rangedChange_refl]].
  destruct (0 <? calculateMusketsFireDamage u) eqn:Hd;
    [| split; [reflexivity | apply changes_refl, rangedChange_refl]].
  split; [apply ledger_hits |].
  rewrite (units_hits nameOf).
  apply changes_fold_alter; [apply rangedChange_refl | apply rangedChange_trans |].
  intros v. apply rangedChange_addDamage. lia.
Qed.

Lemma rangedStep_frame (s : State) (i : nat) :
  ledger (rangedStep s i) = ledger s /\
  Forall2 rangedChange (units s) (units (rangedStep s i)).
Proof.
  unfold rangedStep. cbv zeta.
  destruct (units s !! i) as [u |];
    [| split; [reflexivity | apply changes_refl, rangedChange_refl]].
  destruct (sitsOut s u);
    [split; [reflexivity | apply changes_refl, rangedChange_refl] |].
  set (s1 := if type_id (type u) =? type_id UnitTypes.ARCHERS then volley s i u else s).
  assert (H1 : ledger s1 = ledger s /\ Forall2 rangedChange (units s) (units s1)).
  { subst s1. destruct (type_id (type u) =? type_id UnitTypes.ARCHERS);
      [apply volley_frame | split; [reflexivity | apply changes_refl, rangedChange_refl]]. }
  set (s2 := if type_id (type u) =? type_id UnitTypes.CANNON then mortar s1 u else s1).
  assert (H2 : ledger s2 = ledger s /\ Forall2 rangedChange (units s) (units s2)).
  { subst s2. destruct (type_id (type u) =? type_id UnitTypes.CANNON); [| exact H1].
    destruct (mortar_frame s1 u) as [Hl Hc]. destruct H1 as [Hl1 Hc1].
    split; [rewrite Hl; exact Hl1 |].
    eapply changes_trans; [apply rangedChange_trans | exact Hc1 | exact Hc]. }
  destruct (type_id (type u) =? type_id UnitTypes.MUSKETS); [| exact H2].
  destruct (fire_frame s2 u) as [Hl Hc]. destruct H2 as [Hl2 Hc2].
  split; [rewrite Hl; exact Hl2 |].
  eapply changes_trans; [apply rangedChange_trans | exact Hc2 | exact Hc].
Qed.

Lemma rangedLoop_frame (s : State) :
  ledger (rangedLoop s) = ledger s /\ Forall2 rangedChange (units s) (units (rangedLoop s)).
Proof.
  unfold rangedLoop. split.
  - apply ledger_fold. intros st e. apply rangedStep_frame.
  - apply changes_fold; [apply rangedChange_refl | apply rangedChange_trans |].
    intros st e. apply rangedStep_frame.
Qed.

(** *** Taunt *)

(** X17: Taunt moves the target onto the Jesters unit's hex, whatever
    stands there already, and leaves every other unit where it is; with
    both alive and of opposite factions, both are engaged afterwards. *)
Theorem applyJestersTaunt_engages (s : State) (j t : nat) (ju tv : Unit) :
  units s !! j = Some ju -> units s !! t = Some tv ->
  type_id (type ju) = type_id UnitTypes.JESTERS ->
  isAlive ju = true -> isAlive tv = true ->
  (faction ju = 1 /\ faction tv = 2) \/ (faction ju = 2 /\ faction tv = 1) ->
  let s' := applyJestersTaunt s j t in
  units s' = <[t := set_pos (row ju) (col ju) tv]> (units s) /\
  isEngaged s' ju = true /\
  isEngaged s' (set_pos (row ju) (col ju) tv) = true.
Proof.
  intros Hj Ht Hty Haj Hat Hf s'.
  assert (Hne : t <> j).
  { intros ->. rewrite Hj in Ht. injection Ht as ->. lia. }
  assert (Hu : units s' = <[t := set_pos (row ju) (col ju) tv]> (units s)).
  { subst s'. unfold applyJestersTaunt. rewrite Hj, Ht, Hty. reflexivity. }
  assert (Ht' : units s' !! t = Some (set_pos (row ju) (col ju) tv)).
  { rewrite Hu. apply list_lookup_insert_eq. eapply lookup_lt_Some. exact Ht. }
  assert (Hj' : units s' !! j = Some ju).
  { rewrite Hu, list_lookup_insert_ne by exact Hne. exact Hj. }
  apply isAlive_spec in Haj. apply isAlive_spec in Hat.
  split; [exact Hu |]. split.
  - unfold isEngaged. apply length_nonempty. intros Hnil.
    assert (Hin : In t (getFactionUnitsAt s' (row ju) (col ju)
                          (if faction ju =? 1 then 2 else 1))).
    { apply getFactionUnitsAt_spec. exists (set_pos (row ju) (col ju) tv).
      split; [exact Ht' |]. cbn [row col damage maxHp faction set_pos].
      repeat split; [exact Hat |].
      destruct Hf as [[-> ->] | [-> ->]]; reflexivity. }
    rewrite Hnil in Hin. destruct Hin.
  - unfold isEngaged. apply length_nonempty. intros Hnil.
    cbn [row col faction set_pos] in Hnil.
    assert (Hin : In j (getFactionUnitsAt s' (row ju) (col ju)
                          (if faction tv =? 1 then 2 else 1))).
    { apply getFactionUnitsAt_spec. exists ju.
      split; [exact Hj' |]. repeat split; [exact Haj |].
      destruct Hf as [[-> ->] | [-> ->]]; reflexivity. }
    rewrite Hnil in Hin. destruct Hin.
Qed.

Lemma applyJestersTaunt_engages_witness :
  units (applyJestersTaunt tauntState 0 1) = [tauntJester; set_pos 3 2 tauntVictim] /\
  isEngaged (applyJestersTaunt tauntState 0 1) tauntJester = true.
Proof.
  destruct (applyJestersTaunt_engages tauntState 0 1 tauntJester tauntVictim
              eq_refl eq_refl eq_refl eq_refl eq_refl (or_introl (conj eq_refl eq_refl)))
    as (Hu & He & _).
  split; [exact Hu | exact He].
Defined.

(** *** Who acts *)

Lemma fold_idle (f : State -> nat -> State) (es : list nat) (s : State) :
  (forall i, f s i = s) -> fold_left f es s = s.
Proof.
  intros H. induction es as [| e es IH]; [reflexivity |].
  cbn [fold_left]. rewrite H. exact IH.
Qed.

Lemma meleeStep_idle (s : State) (i : nat) :
  (forall u, In u (units s) -> actsInMelee s u = false) -> meleeStep s i = s.
Proof.
  intros H. unfold meleeStep. destruct (units s !! i) as [u |] eqn:Hu; [| reflexivity].
  assert (Hin : In u (units s)).
  { apply list_elem_of_In, list_elem_of_lookup. exists i. exact Hu. }
  specialize (H u Hin). unfold actsInMelee in H.
  destruct (sitsOut s u); [reflexivity |].
  cbn [negb andb] in H. apply orb_false_elim in H as [-> ->]. reflexivity.
Qed.

Lemma rangedStep_idle (s : State) (i : nat) :
  (forall u, In u (units s) -> actsInRanged s u = false) -> rangedStep s i = s.
Proof.
  intros H. unfold rangedStep. destruct (units s !! i) as [u |] eqn:Hu; [| reflexivity].
  assert (Hin : In u (units s)).
  { apply list_elem_of_In, list_elem_of_lookup. exists i. exact Hu. }
  specialize (H u Hin). unfold actsInRanged in H.
  destruct (sitsOut s u); [reflexivity |].
  cbn [negb andb] in H. apply orb_false_elim in H as [H ->].
  apply orb_false_elim in H as [-> ->]. reflexivity.
Qed.

(** X18: the ability phases have nothing to do but to write their
    headline and to clean up when no unit is free to act: in the melee
    phase only Spears and Jesters act, in the ranged phase only Archers,
    Cannon and Muskets, and none of them when it is destroyed, shares a hex
    with a living enemy or has fought this turn. *)
Theorem abilities_need_a_free_unit (s : State) :
  ((forall u, In u (units s) -> actsInMelee s u = false) ->
   resolveMeleeAbilities s =
   removeDeadUnits (logMessage "Resolving melee abilities..." s)) /\
  ((forall u, In u (units s) -> actsInRanged s u = false) ->
   resolveRangedAbilities s =
   removeDeadUnits (logMessage "Resolving ranged abilities..." s)).
Proof.
  split; intros H.
  - unfold resolveMeleeAbilities, meleeLoop. f_equal.
    apply fold_idle. intros i. apply meleeStep_idle. exact H.
  - unfold resolveRangedAbilities, rangedLoop. f_equal.
    apply fold_idle. intros i. apply rangedStep_idle. exact H.
Qed.

Lemma abilities_need_a_free_unit_witness :
  (forall u, In u (units lastStand) -> actsInRanged lastStand u = false) /\
  resolveRangedAbilities lastStand =
  removeDeadUnits (logMessage "Resolving ranged abilities..." lastStand).
Proof.
  assert (H : forall u, In u (units lastStand) -> actsInRanged lastStand u = false).
  { intros u [<- | [<- | []]]; reflexivity. }
  split; [exact H |].
  exact (proj2 (abilities_need_a_free_unit lastStand) H).
Defined.

(** *** Frames *)

Lemma ledger_restore (d : PerFaction (list Unit)) (s : State) :
  ledger (set_destroyedUnits d (removeDeadUnits s)) = set_destroyedUnits d (ledger s).
Proof. reflexivity. Qed.

Lemma ledger_destroyedUnits (s : State) : set_destroyedUnits (destroyedUnits s) (ledger s) = ledger s.
Proof. destruct s. reflexivity. Qed.

(** X19: the melee phase changes units only in position and damage and
    never lowers a damage total: every unit keeps its id, type, faction,
    hit points, moved flag and remembered target until the cleanup, which
    keeps exactly the living units.  Apart from the units, the log and the
    destroyed lists, the state is as before: castle totals, streaks,
    round, phase, combat marks and recorded selections. *)
Theorem resolveMeleeAbilities_frame (s : State) :
  exists mid,
    Forall2 meleeChange (units s) mid /\
    units (resolveMeleeAbilities s) = List.filter isAlive mid /\
    ledger (set_destroyedUnits (destroyedUnits s) (resolveMeleeAbilities s)) = ledger s.
Proof.
  destruct (meleeLoop_frame (logMessage "Resolving melee abilities..." s)) as [Hl Hc].
  exists (units (meleeLoop (logMessage "Resolving melee abilities..." s))).
  split; [exact Hc |]. split; [reflexivity |].
  unfold resolveMeleeAbilities. rewrite ledger_restore, Hl, ledger_logMessage.
  apply ledger_destroyedUnits.
Qed.

(** X20: the ranged phase changes units only in damage and remembered
    target and never lowers a damage total: no unit changes position, id,
    type, faction, hit points or moved flag.  Apart from the units, the log
    and the destroyed lists, the state is as before. *)
Theorem resolveRangedAbilities_frame (s : State) :
  exists mid,
    Forall2 rangedChange (units s) mid /\
    units (resolveRangedAbilities s) = List.filter isAlive mid /\
    ledger (set_destroyedUnits (destroyedUnits s) (resolveRangedAbilities s)) = ledger s.
Proof.
  destruct (rangedLoop_frame (logMessage "Resolving ranged abilities..." s)) as [Hl Hc].
  exists (units (rangedLoop (logMessage "Resolving ranged abilities..." s))).
  split; [exact Hc |]. split; [reflexivity |].
  unfold resolveRangedAbilities. rewrite ledger_restore, Hl, ledger_logMessage.
  apply ledger_destroyedUnits.
Qed.

(** *** First targets *)

Lemma head_indicesFrom (p : Unit -> bool) (l : list Unit) (k : nat) :
  match head (indicesFrom k p l) with
  | Some t => (k <= t)%nat /\ firstWhere p l (t - k)
  | None => forall v, In v l -> p v = false
  end.
Proof.
  revert k. induction l as [| u l IH]; intros k; cbn [indicesFrom].
  - cbn [head]. intros v [].
  - destruct (p u) eqn:E.
    + cbn [head]. split; [lia |]. rewrite Nat.sub_diag. split.
      * exists u. split; [reflexivity | exact E].
      * intros j v Hj. lia.
    + specialize (IH (S k)). destruct (head (indicesFrom (S k) p l)) as [t |].
      * destruct IH as [Hle [(v & Hv & Hp) Hmin]]. split; [lia |].
        replace (t - k)%nat with (S (t - S k)) by lia. split.
        -- exists v. split; [exact Hv | exact Hp].
        -- intros j w Hj Hw. destruct j as [| j].
           ++ injection Hw as <-. exact E.
           ++ apply (Hmin j w); [lia | exact Hw].
      * intros v [<- | Hv]; [exact E | apply IH; exact Hv].
Qed.

Lemma head_filterUnits (p : Unit -> bool) (s : State) :
  match head (filterUnits p s) with
  | Some t => firstWhere p (units s) t
  | None => forall v, In v (units s) -> p v = false
  end.
Proof.
  unfold filterUnits. pose proof (head_indicesFrom p (units s) 0) as H.
  destruct (head (indicesFrom 0 p (units s))) as [t |]; [| exact H].
  destruct H as [_ H]. rewrite Nat.sub_0_r in H. exact H.
Qed.

Lemma find_seq_first (f : nat -> bool) (a n : nat) :
  match List.find f (seq a n) with
  | Some t => f t = true /\ (a <= t < a + n)%nat /\
              forall j, (a <= j < t)%nat -> f j = false
  | None => forall j, (a <= j < a + n)%nat -> f j = false
  end.
Proof.
  revert a. induction n as [| n IH]; intros a; cbn [seq List.find].
  - intros j Hj. lia.
  - destruct (f a) eqn:E.
    + split; [exact E |]. split; [lia |]. intros j Hj. lia.
    + specialize (IH (S a)). destruct (List.find f (seq (S a) n)) as [t |].
      * destruct IH as (Ht & Hr & Hmin). split; [exact Ht |]. split; [lia |].
        intros j Hj. destruct (decide (j = a)) as [-> | Hne]; [exact E |].
        apply Hmin. lia.
      * intros j Hj. destruct (decide (j = a)) as [-> | Hne]; [exact E |].
        apply IH. lia.
Qed.

Lemma findUnit_first (s : State) (uid : string) :
  match findUnit s uid with
  | Some t => firstWhere (fun v => String.eqb (unit_id v) uid) (units s) t
  | None => forall v, In v (units s) -> String.eqb (unit_id v) uid = false
  end.
Proof.
  unfold findUnit.
  pose proof (find_seq_first
                (fun i => match units s !! i with
                          | Some u => String.eqb (unit_id u) uid
                          | None => false
                          end) 0 (length (units s))) as H.
  match goal with
  | |- match ?f with Some _ => _ | None => _ end => destruct f as [t |]
  end.
  - destruct H as (Ht & _ & Hmin). split.
    + destruct (units s !! t) as [v |]; [| discriminate].
      exists v. split; [reflexivity | exact Ht].
    + intros j v Hj Hv. specialize (Hmin j ltac:(lia)). rewrite Hv in Hmin. exact Hmin.
  - intros v Hv. apply list_elem_of_In, list_elem_of_lookup in Hv as [j Hj].
    specialize (H j). rewrite Hj in H. apply H.
    apply lookup_lt_Some in Hj. lia.
Qed.

Lemma firstWhere_unique (p : Unit -> bool) (l : list Unit) (t t' : nat) :
  firstWhere p l t -> firstWhere p l t' -> t = t'.
Proof.
  intros [(v & Hv & Hp) Hmin] [(v' & Hv' & Hp') Hmin'].
  destruct (lt_eq_lt_dec t t') as [[Hlt | Heq] | Hgt]; [| exact Heq |].
  - rewrite (Hmin' t v Hlt Hv) in Hp. discriminate.
  - rewrite (Hmin t' v' Hgt Hv') in Hp'. discriminate.
Qed.

Lemma filterUnits_ext (p q : Unit -> bool) (s : State) :
  (forall v, p v = q v) -> filterUnits p s = filterUnits q s.
Proof.
  intros H. unfold filterUnits. generalize 0%nat.
  induction (units s) as [| v l IH]; intros k; [reflexivity |].
  cbn [indicesFrom]. rewrite H, !IH. reflexivity.
Qed.

Lemma enemyInRange_test (u : Unit) (s : State) :
  filterUnits (fun enemy =>
                 if negb (isAlive enemy) || (faction enemy =? faction u) then false
                 else
                   let distance := hexDistance (row u) (col u) (row enemy) (col enemy) in
                   (0 <? distance) && (distance <=? 2)) s
  = filterUnits (enemyInRange u) s.
Proof.
  apply filterUnits_ext. intros v. unfold enemyInRange. cbv zeta.
  destruct (isAlive v); destruct (faction v =? faction u); reflexivity.
Qed.

(** *** Mortar and Fire *)

Lemma rangedStep_cannon (s : State) (i : nat) (u : Unit) :
  units s !! i = Some u -> type_id (type u) = type_id UnitTypes.CANNON ->
  sitsOut s u = false -> rangedStep s i = mortar s u.
Proof. intros Hi Hty Hs. unfold rangedStep. rewrite Hi, Hs, Hty. reflexivity. Qed.

Lemma rangedStep_muskets (s : State) (i : nat) (u : Unit) :
  units s !! i = Some u -> type_id (type u) = type_id UnitTypes.MUSKETS ->
  sitsOut s u = false -> rangedStep s i = fire s u.
Proof. intros Hi Hty Hs. unfold rangedStep. rewrite Hi, Hs, Hty. reflexivity. Qed.

(** X21: the Mortar of a Cannon that is free to act.  With a hex recorded
    as its target, every living enemy unit on that hex takes exactly 1,
    provided the Cannon has not moved and the hex is at distance 1 or 2;
    otherwise no unit is touched.  A recorded selection that names a unit
    does nothing.  Without a recorded selection a Cannon that has moved
    does nothing, and one that has not moved aims at the hex of the first
    unit of the array that is a living enemy at distance 1 or 2: every
    living enemy on that hex takes exactly 1; when the array holds no such
    unit the state stays as it is. *)
Theorem rangedStep_mortar (s : State) (i : nat) (u : Unit) :
  units s !! i = Some u ->
  type_id (type u) = type_id UnitTypes.CANNON ->
  sitsOut s u = false ->
  (forall h, selectionFor s u = Some (SelHex h) ->
     let d := hexDistance (row u) (col u) (hex_row h) (hex_col h) in
     units (rangedStep s i) =
     hitAll (fun v => negb (movedThisTurn u) && (0 <? d) && (d <=? 2) &&
                      (row v =? hex_row h) && (col v =? hex_col h) &&
                      negb (faction v =? faction u) && isAlive v)
            (addDamage 1) (units s)) /\
  (forall uid, selectionFor s u = Some (SelUnit uid) -> rangedStep s i = s) /\
  (selectionFor s u = None ->
     (movedThisTurn u = true -> rangedStep s i = s) /\
     (movedThisTurn u = false ->
      (exists t tv,
         firstWhere (enemyInRange u) (units s) t /\ units s !! t = Some tv /\
         units (rangedStep s i) =
         hitAll (fun v => (row v =? row tv) && (col v =? col tv) &&
                          negb (faction v =? faction u) && isAlive v)
                (addDamage 1) (units s)) \/
      ((forall v, In v (units s) -> enemyInRange u v = false) /\ rangedStep s i = s))).
Proof.
  intros Hi Hty Hs. rewrite (rangedStep_cannon s i u Hi Hty Hs).
  split; [| split].
  - intros h Hsel d. unfold mortar. rewrite Hsel. cbv zeta. fold d.
    destruct ((0 <? d) && (d <=? 2)) eqn:Hr.
    + rewrite (units_hits nameOf), fold_alter_filterUnits.
      apply andb_true_iff in Hr as [Hr1 Hr2]. rewrite Hr1, Hr2.
      apply hitAll_ext. intros v _. unfold calculateCannonMortarDamage.
      destruct (movedThisTurn u); cbn [negb andb]; [| reflexivity].
      rewrite addDamage_zero.
      destruct ((row v =? hex_row h) && (col v =? hex_col h) &&
                negb (faction v =? faction u) && isAlive v); reflexivity.
    + symmetry. apply hitAll_none. intros v _. left.
      apply andb_false_iff in Hr.
      destruct (movedThisTurn u); [reflexivity |]. cbn [negb andb].
      destruct Hr as [-> | ->]; [reflexivity |].
      destruct (0 <? d); reflexivity.
  - intros uid Hsel. unfold mortar. rewrite Hsel. reflexivity.
  - intros Hsel. split.
    + intros Hm. unfold mortar, getCannonMortarTargets. rewrite Hsel, Hty, Hm.
      reflexivity.
    + intros Hm. unfold mortar, getCannonMortarTargets. rewrite Hsel, Hty, Hm.
      change (negb (type_id UnitTypes.CANNON =? type_id UnitTypes.CANNON)) with false.
      cbv iota. rewrite enemyInRange_test.
      pose proof (head_filterUnits (enemyInRange u) s) as Hhead.
      destruct (filterUnits (enemyInRange u) s) as [| t rest]; cbn [head] in Hhead;
        [right; split; [exact Hhead | reflexivity] |].
      destruct Hhead as [(tv & Htv & Hp) Hmin]. left. exists t, tv.
      split; [split; [exists tv; split; assumption | exact Hmin] |].
      split; [exact Htv |].
      rewrite Htv. cbn [fmap option_fmap option_map]. cbv zeta. cbn [hex_row hex_col].
      unfold enemyInRange in Hp.
      apply andb_true_iff in Hp as [Hp Hp2]. apply andb_true_iff in Hp as [_ Hp1].
      rewrite Hp1, Hp2. cbn [andb].
      rewrite (units_hits nameOf), fold_alter_filterUnits.
      unfold calculateCannonMortarDamage. rewrite Hm. reflexivity.
Qed.

Lemma rangedStep_mortar_witness :
  units (rangedStep batteryBoard 0) =
  [batteryCannon; addDamage 1 batteryArchers; addDamage 1 batteryMilitia; batterySpears] /\
  firstWhere (enemyInRange batteryCannon) (units mortarBoard) 1 /\
  units (rangedStep mortarBoard 0) =
  [batteryCannon; addDamage 1 batteryArchers; addDamage 1 batteryMilitia; batterySpears].
Proof.
  split.
  { rewrite (proj1 (rangedStep_mortar batteryBoard 0 batteryCannon eq_refl eq_refl eq_refl)
               (mkHex 1 2) eq_refl).
    reflexivity. }
  assert (Hfirst : firstWhere (enemyInRange batteryCannon) (units mortarBoard) 1).
  { split; [exists batteryArchers; split; reflexivity |].
    intros j v Hj Hv. destruct j as [| j]; [| lia]. injection Hv as <-. reflexivity. }
  split; [exact Hfirst |].
  destruct (proj2 (proj2 (proj2 (rangedStep_mortar mortarBoard 0 batteryCannon
                                   eq_refl eq_refl eq_refl)) eq_refl) eq_refl)
    as [(t & tv & Ht & Htv & Hunits) | [Hnone _]].
  - rewrite (firstWhere_unique _ _ _ _ Ht Hfirst) in Htv. injection Htv as <-.
    rewrite Hunits. reflexivity.
  - exfalso. specialize (Hnone batteryArchers (or_intror (or_introl eq_refl))).
    discriminate Hnone.
Defined.

(** X22: the Fire! of a Muskets unit that is free to act: when it has not
    moved, every living enemy unit in its column takes exactly 1, whatever
    the distance and whatever stands in between, and no other unit is
    touched; when it has moved, nothing happens. *)
Theorem rangedStep_fire (s : State) (i : nat) (u : Unit) :
  units s !! i = Some u ->
  type_id (type u) = type_id UnitTypes.MUSKETS ->
  sitsOut s u = false ->
  units (rangedStep s i) =
  hitAll (fun v => negb (movedThisTurn u) && isAlive v &&
                   negb (faction v =? faction u) && (col v =? col u))
         (addDamage 1) (units s) /\
  (movedThisTurn u = true -> rangedStep s i = s).
Proof.
  intros Hi Hty Hs. rewrite (rangedStep_muskets s i u Hi Hty Hs).
  unfold fire, getMusketsFireTargets, calculateMusketsFireDamage. rewrite Hty.
  change (type_id UnitTypes.MUSKETS =? type_id UnitTypes.MUSKETS) with true.
  cbn [negb]. destruct (movedThisTurn u) eqn:Hm.
  - split; [| reflexivity]. cbn [length]. symmetry. apply hitAll_none.
    intros v _. left. reflexivity.
  - split; [| discriminate]. cbv zeta.
    set (p := fun enemy : Unit =>
                if negb (isAlive enemy) || (faction enemy =? faction u) then false
                else col enemy =? col u).
    assert (Hfold : fold_left (fun acc e => alter (addDamage 1) e acc)
                      (filterUnits p s) (units s) =
                    hitAll (fun v => negb false && isAlive v &&
                                     negb (faction v =? faction u) && (col v =? col u))
                           (addDamage 1) (units s)).
    { rewrite fold_alter_filterUnits. apply hitAll_ext. intros v _. subst p.
      cbn [negb andb].
      destruct (isAlive v); destruct (faction v =? faction u); reflexivity. }
    rewrite <- Hfold.
    destruct (0 <? Z.of_nat (length (filterUnits p s))) eqn:Hlen.
    + change (0 <? 1) with true. cbv iota. apply (units_hits nameOf).
    + destruct (filterUnits p s); [reflexivity | cbn [length] in Hlen; lia].
Qed.

Lemma rangedStep_fire_witness :
  units (rangedStep firingLine 0) =
  [lineMuskets; addDamage 1 lineFar; lineFriend; addDamage 1 lineNear; lineAside].
Proof.
  rewrite (proj1 (rangedStep_fire firingLine 0 lineMuskets eq_refl eq_refl eq_refl)).
  reflexivity.
Defined.

(** ** The resolution sequence *)

Lemma tally_ledger (s s' : State) : ledger s' = ledger s -> tally s' = tally s.
Proof. intros H. unfold tally. rewrite H. reflexivity. Qed.

Lemma tally_applyDamage (s : State) (i : nat) (amount : Z) (src : option string) :
  tally (applyDamage s i amount src) = tally s.
Proof. apply tally_ledger, ledger_applyDamage. Qed.

Lemma tally_markInCombat (s : State) (refs : list nat) : tally (markInCombat s refs) = tally s.
Proof.
  unfold markInCombat. revert s. induction refs as [| i refs IH]; intros s; [reflexivity |].
  cbn [fold_left]. rewrite IH. destruct (units s !! i); reflexivity.
Qed.

Lemma tally_distributeEvenly (dpe rem idx : Z) (targets : list nat) (s : State) :
  tally (distributeEvenly dpe rem idx targets s) = tally s.
Proof.
  revert idx s. induction targets as [| t targets IH]; intros idx s; [reflexivity |].
  cbn [distributeEvenly]. rewrite IH. apply tally_applyDamage.
Qed.

Lemma tally_applyAllocation (targets : list nat) (allocation : list (string * Z))
    (s : State) :
  tally (applyAllocation targets s allocation) = tally s.
Proof.
  unfold applyAllocation. revert s.
  induction allocation as [| [enemyId dmg] allocation IH]; intros s; [reflexivity |].
  cbn [fold_left]. rewrite IH.
  destruct (findById s targets enemyId) as [e |]; [| reflexivity].
  destruct (0 <? dmg); [apply tally_applyDamage | reflexivity].
Qed.

Lemma tally_strike (alloc : option Allocator) (f : Z) (attackers targets : list nat)
    (s : State) :
  tally (strike alloc f attackers targets s) = tally s.
Proof.
  unfold strike.
  destruct ((0 <? Z.of_nat (length attackers)) && (0 <? Z.of_nat (length targets)));
    [| reflexivity].
  cbv zeta. destruct (Z.of_nat (length targets) =? 1).
  - destruct targets; [reflexivity | apply tally_applyDamage].
  - destruct alloc; [apply tally_applyAllocation | apply tally_distributeEvenly].
Qed.

Lemma tally_processGroup (alloc : option Allocator) (s : State) (g : Group) :
  tally (processGroup alloc s g) = tally s.
Proof. unfold processGroup. cbv zeta. rewrite !tally_strike, !tally_markInCombat. reflexivity. Qed.

Lemma tally_resolveCombatLoop (alloc : option Allocator) (gs : list Group) (s : State) :
  tally (resolveCombatLoop alloc gs s) = tally s.
Proof.
  unfold resolveCombatLoop. revert s.
  induction gs as [| g gs IH]; intros s; [reflexivity |].
  cbn [fold_left]. rewrite IH. apply tally_processGroup.
Qed.

Lemma tally_resolveCombatAsync (alloc : option Allocator) (s : State) :
  tally (resolveCombatAsync alloc s) = tally s.
Proof.
  unfold resolveCombatAsync. cbv zeta.
  destruct (Z.of_nat (length (getEngagedGroups s)) =? 0); [reflexivity |].
  change (tally (removeDeadUnits ?x)) with (tally x).
  rewrite tally_resolveCombatLoop. reflexivity.
Qed.

Lemma tally_resolveMeleeAbilities (s : State) : tally (resolveMeleeAbilities s) = tally s.
Proof.
  unfold resolveMeleeAbilities. change (tally (removeDeadUnits ?x)) with (tally x).
  apply tally_ledger. rewrite (proj1 (meleeLoop_frame _)). reflexivity.
Qed.

Lemma tally_resolveRangedAbilities (s : State) : tally (resolveRangedAbilities s) = tally s.
Proof.
  unfold resolveRangedAbilities. change (tally (removeDeadUnits ?x)) with (tally x).
  apply tally_ledger. rewrite (proj1 (rangedLoop_frame _)). reflexivity.
Qed.

Lemma identity_sameUnits (l l' : list Unit) :
  sameUnits l l' -> identityOf <$> l = identityOf <$> l'.
Proof.
  unfold sameUnits. intros H. apply (f_equal (fmap identityOf)) in H.
  rewrite <- !list_fmap_compose in H. exact H.
Qed.

Lemma identity_changes (R : Unit -> Unit -> Prop) (l l' : list Unit) :
  (forall u u', R u u' -> identityOf u' = identityOf u) ->
  Forall2 R l l' -> identityOf <$> l' = identityOf <$> l.
Proof.
  intros HR H. induction H as [| u u' l l' Hu _ IH]; [reflexivity |].
  rewrite !fmap_cons. f_equal; [apply HR; exact Hu | exact IH].
Qed.

Lemma identity_meleeChange (u u' : Unit) : meleeChange u u' -> identityOf u' = identityOf u.
Proof. intros [E _]. apply (f_equal identityOf) in E. exact E. Qed.

Lemma identity_rangedChange (u u' : Unit) : rangedChange u u' -> identityOf u' = identityOf u.
Proof. intros [E _]. apply (f_equal identityOf) in E. exact E. Qed.

Lemma identity_filter (p : Unit -> bool) (l : list Unit) :
  identityOf <$> List.filter p l `sublist_of` identityOf <$> l.
Proof.
  induction l as [| u l IH]; [reflexivity |].
  cbn [List.filter]. destruct (p u); rewrite ?fmap_cons;
    [apply sublist_skip | apply sublist_cons]; exact IH.
Qed.

Lemma identity_resolveCombatAsync (alloc : option Allocator) (s : State) :
  identityOf <$> units (resolveCombatAsync alloc s) `sublist_of` identityOf <$> units s.
Proof.
  unfold resolveCombatAsync. cbv zeta.
  destruct (Z.of_nat (length (getEngagedGroups s)) =? 0); [reflexivity |].
  rewrite units_removeDeadUnits.
  etransitivity; [apply identity_filter |].
  rewrite (identity_sameUnits _ _ (sameUnits_resolveCombatLoop _ _ _)). reflexivity.
Qed.

Lemma identity_resolveMeleeAbilities (s : State) :
  identityOf <$> units (resolveMeleeAbilities s) `sublist_of` identityOf <$> units s.
Proof.
  unfold resolveMeleeAbilities. rewrite units_removeDeadUnits.
  etransitivity; [apply identity_filter |].
  rewrite (identity_changes meleeChange _ _ identity_meleeChange
             (proj2 (meleeLoop_frame _))).
  reflexivity.
Qed.

Lemma identity_resolveRangedAbilities (s : State) :
  identityOf <$> units (resolveRangedAbilities s) `sublist_of` identityOf <$> units s.
Proof.
  unfold resolveRangedAbilities. rewrite units_removeDeadUnits.
  etransitivity; [apply identity_filter |].
  rewrite (identity_changes rangedChange _ _ identity_rangedChange
             (proj2 (rangedLoop_frame _))).
  reflexivity.
Qed.

Lemma castleLoop_frame (factions : list Z) (s : State) :
  units (castleLoop factions s) = units s /\
  round (castleLoop factions s) = round s /\
  pf1 (castleDamage s) <= pf1 (castleDamage (castleLoop factions s)) /\
  pf2 (castleDamage s) <= pf2 (castleDamage (castleLoop factions s)).
Proof.
  revert s. induction factions as [| f rest IH]; intros s; cbn [castleLoop]; cbv zeta.
  - split; [reflexivity |]. split; [reflexivity |]. lia.
  - destruct (existsb (isUnengagedRam s) (unitsInCastle s f)).
    + split; [reflexivity |]. split; [reflexivity |]. cbn. lia.
    + set (dealt := Z.of_nat (length (List.filter (fun u => negb (isEngaged s u))
                                        (unitsInCastle s f)))).
      destruct (0 <? dealt) eqn:Hd; [| apply IH].
      apply Z.ltb_lt in Hd. clearbody dealt.
      match goal with |- context [castleLoop rest ?m] => set (mid := m) end.
      assert (Hmid : pf1 (castleDamage s) <= pf1 (castleDamage mid) /\
                     pf2 (castleDamage s) <= pf2 (castleDamage mid)).
      { subst mid. cbn [castleDamage logMessage set_log set_castleDamage].
        unfold pf_update. destruct (f =? 1); cbn; lia. }
      destruct (IH mid) as (Hu & Hr & H1 & H2).
      split; [exact Hu |]. split; [exact Hr |]. lia.
Qed.

Lemma checkWinCondition_frame (s : State) :
  units (checkWinCondition s).2 = units s /\
  round (checkWinCondition s).2 = round s /\
  castleDamage (checkWinCondition s).2 = castleDamage s.
Proof.
  unfold checkWinCondition. cbv zeta.
  repeat match goal with
         | |- context [if ?b then _ else _] => destruct b
         end; repeat split; reflexivity.
Qed.

Lemma resolveCastleAndWin_effect (s : State) :
  let s' := resolveCastleAndWin s in
  pf1 (castleDamage s) <= pf1 (castleDamage s') /\
  pf2 (castleDamage s) <= pf2 (castleDamage s') /\
  ((phase s' = GAME_OVER /\ round s' = round s /\ units s' = units s) \/
   (phase s' = FACTION_1 /\ round s' = round s + 1 /\ activatedUnits s' = ∅ /\
    pendingSecondMove s' = None /\
    units s' = List.map (fun u => set_lastTarget None (set_moved false u)) (units s))).
Proof.
  intros s'. subst s'. unfold resolveCastleAndWin. cbv zeta.
  destruct (castleLoop_frame [1; 2] s) as (Hu & Hr & H1 & H2).
  fold (calculateCastleDamage s) in Hu, Hr, H1, H2.
  destruct (checkWinCondition_frame (calculateCastleDamage s)) as (Hu' & Hr' & Hc').
  destruct (checkWinCondition (calculateCastleDamage s)) as [w s2].
  cbn [snd] in Hu', Hr', Hc'.
  destruct w as [w |].
  - cbn [castleDamage phase round units logMessage set_log set_phase].
    rewrite Hc', Hr', Hu', Hr, Hu.
    split; [exact H1 |]. split; [exact H2 |]. left. repeat split.
  - cbn [castleDamage phase round units activatedUnits pendingSecondMove
           logMessage set_log set_phase set_activatedUnits].
    rewrite Hc', Hr', Hu', Hr, Hu.
    split; [exact H1 |]. split; [exact H2 |]. right. repeat split.
Qed.

Lemma tally_round (s s' : State) : tally s' = tally s -> round s' = round s.
Proof. intros H. apply (f_equal round) in H. exact H. Qed.

Lemma tally_castleDamage (s s' : State) :
  tally s' = tally s -> castleDamage s' = castleDamage s.
Proof. intros H. apply (f_equal castleDamage) in H. exact H. Qed.

Lemma removeDeadUnits_alive (s : State) (v : Unit) :
  In v (units (removeDeadUnits s)) -> isAlive v = true.
Proof. rewrite units_removeDeadUnits. intros H. apply filter_In in H. apply H. Qed.

(** X23: the resolution sequence as a whole (combat, melee abilities,
    ranged abilities, castle damage, win check) ends either in the game
    over, in the same round, or in faction 1's phase of the next round
    with nobody activated, no pending second move, and every unit unmoved
    and without a remembered target.  In both cases every unit left on the
    board is alive, the units left are units of the start in their order
    (same id, type, faction, hit points and number; none is created), and
    no castle total has decreased. *)
Theorem executeResolutionSequence_round (showAllocationModal : Allocator) (s : State) :
  let s' := executeResolutionSequence showAllocationModal s in
  (phase s' = GAME_OVER \/ phase s' = FACTION_1) /\
  (phase s' = GAME_OVER -> round s' = round s) /\
  (phase s' = FACTION_1 ->
   round s' = round s + 1 /\ activatedUnits s' = ∅ /\ pendingSecondMove s' = None /\
   forall v, In v (units s') -> movedThisTurn v = false /\ lastTarget v = None) /\
  (forall v, In v (units s') -> isAlive v = true) /\
  identityOf <$> units s' `sublist_of` identityOf <$> units s /\
  pf1 (castleDamage s) <= pf1 (castleDamage s') /\
  pf2 (castleDamage s) <= pf2 (castleDamage s').
Proof.
  intros s'. subst s'. unfold executeResolutionSequence. cbv zeta.
  set (s1 := startResolution s).
  set (s2 := resolveCombatAsync (Some showAllocationModal) s1).
  set (s3 := resolveMeleeAbilities s2).
  set (s4 := resolveRangedAbilities s3).
  assert (H1 : units s1 = units s /\ round s1 = round s /\ castleDamage s1 = castleDamage s).
  { subst s1. unfold startResolution. cbv zeta.
    destruct (abilityTargeting (set_unitsInCombatThisTurn ∅ s)); repeat split. }
  destruct H1 as (Hu1 & Hr1 & Hc1).
  assert (Ht : tally s4 = tally s1).
  { subst s4 s3 s2.
    rewrite tally_resolveRangedAbilities, tally_resolveMeleeAbilities.
    apply tally_resolveCombatAsync. }
  assert (Hr4 : round s4 = round s) by (rewrite (tally_round _ _ Ht); exact Hr1).
  assert (Hc4 : castleDamage s4 = castleDamage s)
    by (rewrite (tally_castleDamage _ _ Ht); exact Hc1).
  assert (Hid : identityOf <$> units s4 `sublist_of` identityOf <$> units s).
  { rewrite <- Hu1. subst s4 s3 s2.
    etransitivity; [apply identity_resolveRangedAbilities |].
    etransitivity; [apply identity_resolveMeleeAbilities |].
    apply identity_resolveCombatAsync. }
  assert (Hal : forall v, In v (units s4) -> isAlive v = true).
  { subst s4. unfold resolveRangedAbilities. apply removeDeadUnits_alive. }
  destruct (resolveCastleAndWin_effect s4) as (Hd1 & Hd2 & Hcase).
  cbv zeta in Hd1, Hd2, Hcase. rewrite Hc4 in Hd1, Hd2.
  destruct Hcase as [(Hp & Hr & Hu) | (Hp & Hr & Ha & Hpe & Hu)].
  - split; [left; exact Hp |].
    split; [intros _; rewrite Hr; exact Hr4 |].
    split; [rewrite Hp; discriminate |].
    split; [rewrite Hu; exact Hal |].
    split; [rewrite Hu; exact Hid |].
    split; assumption.
  - split; [right; exact Hp |].
    split; [rewrite Hp; discriminate |].
    split.
    { intros _. split; [rewrite Hr, Hr4; reflexivity |].
      split; [exact Ha |]. split; [exact Hpe |].
      intros v Hv. rewrite Hu in Hv. apply in_map_iff in Hv as (v0 & <- & _).
      split; reflexivity. }
    split.
    { intros v Hv. rewrite Hu in Hv. apply in_map_iff in Hv as (v0 & <- & Hv0).
      apply (Hal v0 Hv0). }
    split; [| split; assumption].
    rewrite Hu.
    replace (identityOf <$>
             List.map (fun u => set_lastTarget None (set_moved false u)) (units s4))
      with (identityOf <$> units s4); [exact Hid |].
    generalize (units s4). intros l. induction l as [| u l IH]; [reflexivity |].
    cbn [List.map]. rewrite !fmap_cons, IH. reflexivity.
Qed.

(** ** Recording ability targets *)

Lemma filterRefs_In (p : Unit -> bool) (s : State) (refs : list nat) (i : nat) :
  In i (filterRefs p s refs) ->
  In i refs /\ exists u, units s !! i = Some u /\ p u = true.
Proof.
  unfold filterRefs. intros H. apply filter_In in H as [Hin Hp].
  split; [exact Hin |].
  destruct (units s !! i) as [u |]; [exists u; split; [reflexivity | exact Hp] | discriminate].
Qed.

Lemma enemy_test (su tv : Unit) (b : bool) :
  (if negb (isAlive tv) || (faction tv =? faction su) then false else b) = true ->
  isAlive tv = true /\ faction tv <> faction su /\ b = true.
Proof.
  destruct (isAlive tv); destruct (faction tv =? faction su) eqn:E; cbn; try discriminate.
  intros H. split; [reflexivity |]. split; [lia | exact H].
Qed.

Lemma getSpearsPierceTargets_In (s : State) (su : Unit) (t : nat) :
  In t (getSpearsPierceTargets s su) ->
  type_id (type su) = type_id UnitTypes.SPEARS /\
  exists tv, units s !! t = Some tv /\ isAlive tv = true /\ faction tv <> faction su /\
             hexDistance (row su) (col su) (row tv) (col tv) = 1.
Proof.
  unfold getSpearsPierceTargets.
  destruct (type_id (type su) =? type_id UnitTypes.SPEARS) eqn:E; cbn [negb]; [| intros []].
  intros H. apply filterUnits_spec in H as (tv & Htv & Hp).
  apply enemy_test in Hp as (Ha & Hf & Hd).
  split; [lia |]. exists tv. repeat split; try assumption. lia.
Qed.

Lemma getJestersTauntTargets_In (s : State) (su : Unit) (t : nat) :
  In t (getJestersTauntTargets s su) ->
  type_id (type su) = type_id UnitTypes.JESTERS /\
  exists tv, units s !! t = Some tv /\ isAlive tv = true /\ faction tv <> faction su /\
             hexDistance (row su) (col su) (row tv) (col tv) = 1.
Proof.
  unfold getJestersTauntTargets.
  destruct (type_id (type su) =? type_id UnitTypes.JESTERS) eqn:E; cbn [negb]; [| intros []].
  intros H. apply filterUnits_spec in H as (tv & Htv & Hp).
  apply enemy_test in Hp as (Ha & Hf & Hd).
  split; [lia |]. exists tv. repeat split; try assumption. lia.
Qed.

Lemma getArchersVolleyTargets_In (s : State) (su : Unit) (t : nat) :
  In t (getArchersVolleyTargets s su) ->
  type_id (type su) = type_id UnitTypes.ARCHERS /\
  exists tv, units s !! t = Some tv /\ isAlive tv = true /\ faction tv <> faction su /\
             0 < hexDistance (row su) (col su) (row tv) (col tv) <= 2.
Proof.
  unfold getArchersVolleyTargets.
  destruct (type_id (type su) =? type_id UnitTypes.ARCHERS) eqn:E; cbn [negb]; [| intros []].
  cbv zeta. intros H. apply filterUnits_spec in H as (tv & Htv & Hp).
  apply enemy_test in Hp as (Ha & Hf & Hd).
  split; [lia |]. exists tv. repeat split; try assumption; lia.
Qed.

Lemma getCannonMortarTargets_In (s : State) (su : Unit) (t : nat) :
  In t (getCannonMortarTargets s su) ->
  type_id (type su) = type_id UnitTypes.CANNON /\ movedThisTurn su = false /\
  exists tv, units s !! t = Some tv /\ isAlive tv = true /\ faction tv <> faction su /\
             0 < hexDistance (row su) (col su) (row tv) (col tv) <= 2.
Proof.
  unfold getCannonMortarTargets.
  destruct (type_id (type su) =? type_id UnitTypes.CANNON) eqn:E; cbn [negb]; [| intros []].
  destruct (movedThisTurn su); [intros [] |].
  cbv zeta. intros H. apply filterUnits_spec in H as (tv & Htv & Hp).
  apply enemy_test in Hp as (Ha & Hf & Hd).
  split; [lia |]. split; [reflexivity |]. exists tv. repeat split; try assumption; lia.
Qed.

Lemma targetsAtHex_In (s : State) (validTargets : list nat) (hex : Hex) (t : nat) :
  In t (targetsAtHex s validTargets hex) ->
  In t validTargets /\
  exists tv, units s !! t = Some tv /\ row tv = hex_row hex /\ col tv = hex_col hex.
Proof.
  intros H. apply filterRefs_In in H as (Hin & tv & Htv & Hp).
  split; [exact Hin |]. exists tv. split; [exact Htv |]. lia.
Qed.

Lemma pickAtHex_spec (pick : UnitPicker) (verb : string) (s : State) (a : AbilityTargeting)
    (su : Unit) (validTargets : list nat) (hex : Hex) :
  match pickAtHex pick verb s a su validTargets hex with
  | Returned s' =>
    s' = s \/
    exists t tv m, In t validTargets /\ units s !! t = Some tv /\
                   row tv = hex_row hex /\ col tv = hex_col hex /\
                   s' = logMessage m (recordSelection a (unit_id su) (SelUnit (unit_id tv)) s)
  | Chosen (Some sel) =>
    exists t tv, In t validTargets /\ units s !! t = Some tv /\
                 row tv = hex_row hex /\ col tv = hex_col hex /\ sel = SelUnit (unit_id tv)
  | Chosen None => True
  end.
Proof.
  unfold pickAtHex. cbv zeta.
  destruct (1 <? Z.of_nat (length (targetsAtHex s validTargets hex))).
  - destruct (pick (derefs s (targetsAtHex s validTargets hex))) as [k |];
      [| left; reflexivity].
    destruct (targetsAtHex s validTargets hex !! k) as [t |] eqn:Hk; [| left; reflexivity].
    apply lookup_In, targetsAtHex_In in Hk as (Hin & tv & Htv & Hr & Hc).
    rewrite Htv. right. exists t, tv. eexists.
    split; [exact Hin |]. split; [exact Htv |]. split; [exact Hr |]. split; [exact Hc |].
    reflexivity.
  - destruct (Z.of_nat (length (targetsAtHex s validTargets hex)) =? 1); [| exact I].
    destruct (targetsAtHex s validTargets hex) as [| t rest] eqn:Ht; [exact I |].
    assert (Hin : In t (targetsAtHex s validTargets hex)) by (rewrite Ht; left; reflexivity).
    apply targetsAtHex_In in Hin as (Hin & tv & Htv & Hr & Hc).
    rewrite Htv. cbn [fmap option_fmap option_map].
    exists t, tv. repeat split; assumption.
Qed.

Lemma handleAbilityTargetingClick_cases (showUnitPickerModal : UnitPicker) (s : State)
    (hex : Hex) (a : AbilityTargeting) :
  abilityTargeting s = Some a ->
  let s' := handleAbilityTargetingClick showUnitPickerModal s hex in
  (at_active a = false -> s' = s) /\
  (s' = s \/ (exists m, s' = logMessage m s) \/
   exists i su sel m,
     head (stillNeedingTargets s a (at_currentPlayer a)) = Some i /\
     units s !! i = Some su /\ faction su = at_currentPlayer a /\
     at_selections a !! unit_id su = None /\
     validSelection s su hex sel /\
     s' = logMessage m (recordSelection a (unit_id su) sel s)).
Proof.
  intros Ha s'. subst s'. unfold handleAbilityTargetingClick. rewrite Ha.
  destruct (at_active a) eqn:Hact; cbn [negb];
    [| split; [reflexivity | left; reflexivity]].
  cbv zeta.
  destruct (stillNeedingTargets s a (at_currentPlayer a)) as [| i rest] eqn:Hst;
    [split; [discriminate | left; reflexivity] |].
  destruct (units s !! i) as [su |] eqn:Hi;
    [| split; [discriminate | left; reflexivity]].
  assert (Hpending : faction su = at_currentPlayer a /\ at_selections a !! unit_id su = None).
  { assert (Hin : In i (stillNeedingTargets s a (at_currentPlayer a)))
      by (rewrite Hst; left; reflexivity).
    unfold stillNeedingTargets in Hin. apply filter_In in Hin as [_ Hp].
    rewrite Hi in Hp. apply andb_true_iff in Hp as [Hf Hn].
    split; [lia |]. apply negb_true_iff, bool_decide_eq_false in Hn.
    destruct (at_selections a !! unit_id su); [exfalso; apply Hn; eauto | reflexivity]. }
  destruct Hpending as [Hfac Hnone].
  match goal with
  | |- context [match ?o with Returned _ => _ | Chosen _ => _ end] => set (outcome := o)
  end.
  assert (Hout : match outcome with
                 | Returned s' =>
                   s' = s \/
                   exists sel m, s' = logMessage m (recordSelection a (unit_id su) sel s) /\
                                 validSelection s su hex sel
                 | Chosen (Some sel) => validSelection s su hex sel
                 | Chosen None => True
                 end).
  { subst outcome.
    destruct (String.eqb (type_name (type su)) "Spears").
    { pose proof (pickAtHex_spec showUnitPickerModal "target" s a su
                    (getSpearsPierceTargets s su) hex) as Hspec.
      destruct (pickAtHex showUnitPickerModal "target" s a su
                  (getSpearsPierceTargets s su) hex) as [s' | [sel |]]; [| | exact I].
      - destruct Hspec as [-> | (t & tv & m & Hin & Htv & Hr & Hc & ->)];
          [left; reflexivity |].
        right. exists (SelUnit (unit_id tv)), m. split; [reflexivity |].
        apply getSpearsPierceTargets_In in Hin as (Hty & tv' & Htv' & Hal & Hf & Hd).
        rewrite Htv in Htv'. injection Htv' as <-.
        exists t, tv. rewrite Hr, Hc in Hd. cbv zeta.
        repeat split; try assumption. left. split; assumption.
      - destruct Hspec as (t & tv & Hin & Htv & Hr & Hc & ->).
        apply getSpearsPierceTargets_In in Hin as (Hty & tv' & Htv' & Hal & Hf & Hd).
        rewrite Htv in Htv'. injection Htv' as <-.
        exists t, tv. rewrite Hr, Hc in Hd. cbv zeta.
        repeat split; try assumption. left. split; assumption. }
    destruct (String.eqb (type_name (type su)) "Archers").
    { pose proof (pickAtHex_spec showUnitPickerModal "target" s a su
                    (getArchersVolleyTargets s su) hex) as Hspec.
      destruct (pickAtHex showUnitPickerModal "target" s a su
                  (getArchersVolleyTargets s su) hex) as [s' | [sel |]]; [| | exact I].
      - destruct Hspec as [-> | (t & tv & m & Hin & Htv & Hr & Hc & ->)];
          [left; reflexivity |].
        right. exists (SelUnit (unit_id tv)), m. split; [reflexivity |].
        apply getArchersVolleyTargets_In in Hin as (Hty & tv' & Htv' & Hal & Hf & Hd).
        rewrite Htv in Htv'. injection Htv' as <-.
        exists t, tv. rewrite Hr, Hc in Hd. cbv zeta.
        repeat split; try assumption. right. left. split; assumption.
      - destruct Hspec as (t & tv & Hin & Htv & Hr & Hc & ->).
        apply getArchersVolleyTargets_In in Hin as (Hty & tv' & Htv' & Hal & Hf & Hd).
        rewrite Htv in Htv'. injection Htv' as <-.
        exists t, tv. rewrite Hr, Hc in Hd. cbv zeta.
        repeat split; try assumption. right. left. split; assumption. }
    destruct (String.eqb (type_name (type su)) "Jesters").
    { pose proof (pickAtHex_spec showUnitPickerModal "taunt" s a su
                    (getJestersTauntTargets s su) hex) as Hspec.
      destruct (pickAtHex showUnitPickerModal "taunt" s a su
                  (getJestersTauntTargets s su) hex) as [s' | [sel |]]; [| | exact I].
      - destruct Hspec as [-> | (t & tv & m & Hin & Htv & Hr & Hc & ->)];
          [left; reflexivity |].
        right. exists (SelUnit (unit_id tv)), m. split; [reflexivity |].
        apply getJestersTauntTargets_In in Hin as (Hty & tv' & Htv' & Hal & Hf & Hd).
        rewrite Htv in Htv'. injection Htv' as <-.
        exists t, tv. rewrite Hr, Hc in Hd. cbv zeta.
        repeat split; try assumption. right. right. split; assumption.
      - destruct Hspec as (t & tv & Hin & Htv & Hr & Hc & ->).
        apply getJestersTauntTargets_In in Hin as (Hty & tv' & Htv' & Hal & Hf & Hd).
        rewrite Htv in Htv'. injection Htv' as <-.
        exists t, tv. rewrite Hr, Hc in Hd. cbv zeta.
        repeat split; try assumption. right. right. split; assumption. }
    destruct (String.eqb (type_name (type su)) "Cannon"); [| exact I].
    destruct (targetsAtHex s (getCannonMortarTargets s su) hex) as [| t rest'] eqn:Ht;
      [exact I |].
    assert (Hin : In t (targetsAtHex s (getCannonMortarTargets s su) hex))
      by (rewrite Ht; left; reflexivity).
    apply targetsAtHex_In in Hin as (Hin & tv & Htv & Hr & Hc).
    apply getCannonMortarTargets_In in Hin as (Hty & Hm & tv' & Htv' & Hal & Hf & Hd).
    rewrite Htv in Htv'. injection Htv' as <-.
    exists t, tv. rewrite Hr, Hc in Hd. cbv zeta.
    repeat split; try assumption; apply Hd. }
  clearbody outcome. split; [discriminate |].
  destruct outcome as [s' | [sel |]].
  - destruct Hout as [-> | (sel & m & -> & Hvalid)]; [left; reflexivity |].
    right. right. exists i, su, sel, m.
    split; [reflexivity |]. split; [exact Hi |]. split; [exact Hfac |].
    split; [exact Hnone |]. split; [exact Hvalid | reflexivity].
  - right. right. exists i, su, sel. eexists.
    split; [reflexivity |]. split; [exact Hi |]. split; [exact Hfac |].
    split; [exact Hnone |]. split; [exact Hout | reflexivity].
  - right. left. eexists. reflexivity.
Qed.

Lemma head_filter_first (q : nat -> bool) (l : list nat) (i : nat) :
  head (List.filter q l) = Some i ->
  exists k, l !! k = Some i /\ q i = true /\
            forall j i', (j < k)%nat -> l !! j = Some i' -> q i' = false.
Proof.
  induction l as [| x l IH]; intros H; [discriminate H |].
  cbn [List.filter] in H. destruct (q x) eqn:E.
  - injection H as <-. exists 0%nat. split; [reflexivity |]. split; [exact E |].
    intros j i' Hj. lia.
  - destruct (IH H) as (k & Hk & Hq & Hmin). exists (S k).
    split; [exact Hk |]. split; [exact Hq |].
    intros j i' Hj Hi'. destruct j as [| j].
    + injection Hi' as <-. exact E.
    + apply (Hmin j i'); [lia | exact Hi'].
Qed.

Lemma awaitsTarget_test (s : State) (a : AbilityTargeting) (i : nat) :
  match units s !! i with
  | Some u => (faction u =? at_currentPlayer a) &&
              negb (bool_decide (is_Some (at_selections a !! unit_id u)))
  | None => false
  end = true <-> awaitsTarget s a i.
Proof.
  unfold awaitsTarget. destruct (units s !! i) as [u |].
  - rewrite andb_true_iff, negb_true_iff, bool_decide_eq_false. split.
    + intros [Hf Hn]. exists u. split; [reflexivity |]. split; [lia |].
      destruct (at_selections a !! unit_id u); [exfalso; apply Hn; eauto | reflexivity].
    + intros (u' & Hu' & Hf & Hn). injection Hu' as <-. split; [lia |].
      rewrite Hn. intros [x Hx]. discriminate Hx.
  - split; [discriminate | intros (u & Hu & _); discriminate Hu].
Qed.

(** The unit that the click handler serves is the first of the session's
    list that awaits a target. *)
Lemma stillNeedingTargets_first (s : State) (a : AbilityTargeting) (i : nat) :
  head (stillNeedingTargets s a (at_currentPlayer a)) = Some i ->
  exists k, firstAwaiting s a k i.
Proof.
  intros H. unfold stillNeedingTargets in H.
  apply head_filter_first in H as (k & Hk & Hq & Hmin). exists k.
  split; [exact Hk |]. split; [apply awaitsTarget_test; exact Hq |].
  intros j i' Hj Hi' Haw. apply awaitsTarget_test in Haw.
  rewrite (Hmin j i' Hj Hi') in Haw. discriminate Haw.
Qed.

Lemma firstAwaiting_unique (s : State) (a : AbilityTargeting) (k k' i i' : nat) :
  firstAwaiting s a k i -> firstAwaiting s a k' i' -> k = k' /\ i = i'.
Proof.
  intros (Hk & Haw & Hmin) (Hk' & Haw' & Hmin').
  destruct (lt_eq_lt_dec k k') as [[Hlt | ->] | Hgt].
  - exfalso. exact (Hmin' k i Hlt Hk Haw).
  - split; [reflexivity | congruence].
  - exfalso. exact (Hmin k' i' Hgt Hk' Haw').
Qed.

(** X24: a click during ability targeting never touches the units or the
    phase, and it changes the recorded selections in one way only: it
    records a selection for the first unit of the session's list that is
    the current player's and has none yet (so no selection is overwritten,
    no unit of the other player is served and no later unit of the list is
    served before an earlier one), and the selection fits the unit's
    ability: a living enemy unit on the clicked hex at distance 1 for
    Spears and Jesters, at distance 1 to 2 for Archers; for a Cannon that
    has not moved, the clicked hex itself, at distance 1 to 2 and with a
    living enemy on it.  A click without a targeting session, or while
    targeting is inactive, changes nothing. *)
Theorem handleAbilityTargetingClick_records (showUnitPickerModal : UnitPicker) (s : State)
    (hex : Hex) :
  let s' := handleAbilityTargetingClick showUnitPickerModal s hex in
  units s' = units s /\ phase s' = phase s /\
  (abilityTargeting s = None -> s' = s) /\
  (forall a, abilityTargeting s = Some a ->
     (at_active a = false -> s' = s) /\
     (abilityTargeting s' = Some a \/
      exists k i su sel,
        firstAwaiting s a k i /\ units s !! i = Some su /\
        abilityTargeting s' =
          Some (mkAT (at_active a) (at_currentPlayer a)
                  (<[unit_id su := sel]> (at_selections a)) (at_unitsToTarget a)) /\
        validSelection s su hex sel)).
Proof.
  intros s'. destruct (abilityTargeting s) as [a |] eqn:Ha.
  - destruct (handleAbilityTargetingClick_cases showUnitPickerModal s hex a Ha)
      as [Hoff Hcases].
    cbv zeta in Hoff, Hcases. fold s' in Hoff, Hcases.
    assert (Hrec : abilityTargeting s' = Some a \/
              exists k i su sel,
                firstAwaiting s a k i /\ units s !! i = Some su /\
                abilityTargeting s' =
                  Some (mkAT (at_active a) (at_currentPlayer a)
                          (<[unit_id su := sel]> (at_selections a)) (at_unitsToTarget a)) /\
                validSelection s su hex sel).
    { destruct Hcases as [E | [(m & E) | (i & su & sel & m & Hi & Hu & Hf & Hn & Hv & E)]];
        rewrite E.
      - left. exact Ha.
      - left. exact Ha.
      - right. destruct (stillNeedingTargets_first s a i Hi) as [k Hk].
        exists k, i, su, sel. split; [exact Hk |]. split; [exact Hu |].
        split; [reflexivity | exact Hv]. }
    assert (Hframe : units s' = units s /\ phase s' = phase s).
    { destruct Hcases as [E | [(m & E) | (i & su & sel & m & _ & _ & _ & _ & _ & E)]];
        rewrite E; split; reflexivity. }
    destruct Hframe as [Hu Hp].
    split; [exact Hu |]. split; [exact Hp |]. split; [discriminate |].
    intros a' Ha'. injection Ha' as <-. split; [exact Hoff | exact Hrec].
  - assert (E : s' = s).
    { subst s'. unfold handleAbilityTargetingClick. rewrite Ha. reflexivity. }
    rewrite E. split; [reflexivity |]. split; [reflexivity |].
    split; [reflexivity |]. intros a Ha'. discriminate Ha'.
Qed.

Lemma handleAbilityTargetingClick_records_witness :
  firstAwaiting queueBoard queueSession 0 1 /\
  (at_selections <$> abilityTargeting
     (handleAbilityTargetingClick noPick queueBoard (mkHex 1 2))) =
  Some (<[ "c-2" := SelHex (mkHex 1 2) ]> ∅) /\
  handleAbilityTargetingClick noPick (set_abilityTargeting None queueBoard) (mkHex 1 2) =
  set_abilityTargeting None queueBoard.
Proof.
  assert (Hfirst : firstAwaiting queueBoard queueSession 0 1).
  { split; [reflexivity |]. split.
    - exists secondCannon. repeat split.
    - intros j i' Hj. lia. }
  split; [exact Hfirst |].
  destruct (handleAbilityTargetingClick_records noPick queueBoard (mkHex 1 2))
    as (_ & _ & _ & Hrec).
  split.
  - destruct (Hrec queueSession eq_refl)
      as [_ [Hsame | (k & i & su & sel & Hk & Hsu & Hat & Hvalid)]].
    + vm_compute in Hsame. discriminate Hsame.
    + destruct (firstAwaiting_unique _ _ _ _ _ _ Hk Hfirst) as [-> ->].
      injection Hsu as <-. rewrite Hat. cbn [fmap option_fmap option_map at_selections].
      destruct Hvalid as (t & tv & _ & _ & _ & _ & _ & Hsel). cbv zeta in Hsel.
      destruct sel as [uid | h].
      * exfalso. destruct Hsel as [_ [[Hty _] | [[Hty _] | [Hty _]]]]; discriminate Hty.
      * destruct Hsel as [-> _]. reflexivity.
  - destruct (handleAbilityTargetingClick_records noPick
                (set_abilityTargeting None queueBoard) (mkHex 1 2)) as (_ & _ & Hnone & _).
    exact (Hnone eq_refl).
Defined.

(** ** Placement *)

Lemma indicesWhere_spec (p : nat -> Unit -> bool) (l : list Unit) (k i : nat) :
  In i (indicesWhere k p l) ->
  exists u, (k <= i)%nat /\ l !! (i - k)%nat = Some u /\ p i u = true.
Proof.
  revert k. induction l as [| u l IH]; intros k; cbn [indicesWhere]; [intros [] |].
  intros H.
  assert (Hrest : In i (indicesWhere (S k) p l) ->
                  exists u0, (k <= i)%nat /\ (u :: l) !! (i - k)%nat = Some u0 /\ p i u0 = true).
  { intros Hin. apply IH in Hin as (u0 & Hle & Hu0 & Hp). exists u0.
    split; [lia |]. split; [| exact Hp].
    replace (i - k)%nat with (S (i - S k)) by lia. exact Hu0. }
  destruct (p k u) eqn:E; [| apply Hrest; exact H].
  destruct H as [<- | H]; [| apply Hrest; exact H].
  exists u. split; [lia |]. split; [| exact E].
  replace (k - k)%nat with 0%nat by lia. reflexivity.
Qed.

Lemma indicesWhere_above (q : Unit -> bool) (m k : nat) (l : list Unit) :
  (m < k)%nat ->
  length (indicesWhere k (fun i u => q u && negb (Nat.eqb i m)) l) = length (List.filter q l).
Proof.
  revert k. induction l as [| u l IH]; intros k Hk; [reflexivity |].
  cbn [indicesWhere List.filter].
  assert (E : Nat.eqb k m = false) by (apply Nat.eqb_neq; lia).
  rewrite E, andb_true_r. destruct (q u); cbn [length]; rewrite IH by lia; reflexivity.
Qed.

Lemma indicesWhere_except (q : Unit -> bool) (m k : nat) (l : list Unit) :
  (k <= m)%nat ->
  length (indicesWhere k (fun i u => q u && negb (Nat.eqb i m)) l) =
  (length (List.filter q (take (m - k) l)) + length (List.filter q (drop (S (m - k)) l)))%nat.
Proof.
  revert k. induction l as [| u l IH]; intros k Hk.
  - rewrite take_nil, drop_nil. reflexivity.
  - cbn [indicesWhere]. destruct (decide (k = m)) as [-> | Hne].
    + rewrite Nat.eqb_refl, andb_false_r, Nat.sub_diag.
      rewrite indicesWhere_above by lia. reflexivity.
    + assert (E : Nat.eqb k m = false) by (apply Nat.eqb_neq; exact Hne).
      rewrite E, andb_true_r.
      replace (m - k)%nat with (S (m - S k)) by lia.
      cbn [take drop List.filter].
      destruct (q u); cbn [length]; rewrite IH by lia; reflexivity.
Qed.

Lemma standingOn_alter (l : list Unit) (m : nat) (um : Unit) (f : Unit -> Unit) (r c : Z) :
  l !! m = Some um ->
  length (standingOn l r c) =
    (length (standingOn (take m l) r c) + length (standingOn [um] r c)
     + length (standingOn (drop (S m) l) r c))%nat /\
  length (standingOn (alter f m l) r c) =
    (length (standingOn (take m l) r c) + length (standingOn [f um] r c)
     + length (standingOn (drop (S m) l) r c))%nat.
Proof.
  intros Hm. pose proof (take_drop_middle l m um Hm) as Hsplit.
  assert (Hlen : length (take m l) = m).
  { rewrite length_take. apply lookup_lt_Some in Hm. lia. }
  assert (Halt : alter f m l = take m l ++ f um :: drop (S m) l).
  { rewrite <- Hsplit at 1.
    replace m with (length (take m l) + 0)%nat at 1 by lia.
    rewrite alter_app_r. reflexivity. }
  unfold standingOn. split.
  - rewrite <- Hsplit at 1.
    rewrite List.filter_app, length_app.
    change (um :: drop (S m) l) with ([um] ++ drop (S m) l).
    rewrite List.filter_app, length_app. lia.
  - rewrite Halt. rewrite List.filter_app, length_app.
    change (f um :: drop (S m) l) with ([f um] ++ drop (S m) l).
    rewrite List.filter_app, length_app. lia.
Qed.

Lemma In_alter (f : Unit -> Unit) (m : nat) (l : list Unit) (u' : Unit) :
  In u' (alter f m l) -> In u' l \/ exists um, l !! m = Some um /\ u' = f um.
Proof.
  intros H. apply list_elem_of_In, list_elem_of_lookup in H as [j Hj].
  destruct (decide (m = j)) as [<- | Hne].
  - rewrite list_lookup_alter_eq in Hj. destruct (l !! m) as [um |]; [| discriminate].
    injection Hj as <-. right. exists um. split; reflexivity.
  - rewrite list_lookup_alter_ne in Hj by exact Hne.
    left. apply list_elem_of_In, list_elem_of_lookup. exists j. exact Hj.
Qed.

Lemma handlePlacementClick_step (pp : PlacementPhase) (s : State) (hex : Hex) :
  placementInv pp s ->
  let pp' := (handlePlacementClick pp s hex).1 in
  let s' := (handlePlacementClick pp s hex).2 in
  placementInv pp' s' /\
  pp_currentPlayer pp' = pp_currentPlayer pp /\
  pp_placedUnits pp' = pp_placedUnits pp /\
  ledger s' = ledger s /\ log s' = log s /\
  Forall2 placementChange (units s) (units s') /\
  (forall j, pp_selectedUnit pp <> Some j -> units s' !! j = units s !! j) /\
  (forall u', In u' (units s') ->
     In u' (units s) \/ (row u' = hex_row hex /\ col u' = hex_col hex)).
Proof.
  intros (Hsel & Hrows & Hstack) pp' s'. subst pp' s'.
  assert (Hsame : forall pp1,
            placementInv pp1 s ->
            pp_currentPlayer pp1 = pp_currentPlayer pp ->
            pp_placedUnits pp1 = pp_placedUnits pp ->
            placementInv pp1 s /\
            pp_currentPlayer pp1 = pp_currentPlayer pp /\
            pp_placedUnits pp1 = pp_placedUnits pp /\
            ledger s = ledger s /\ log s = log s /\
            Forall2 placementChange (units s) (units s) /\
            (forall j, pp_selectedUnit pp <> Some j -> units s !! j = units s !! j) /\
            (forall u', In u' (units s) ->
               In u' (units s) \/ (row u' = hex_row hex /\ col u' = hex_col hex))).
  { intros pp1 H1 H2 H3. split; [exact H1 |]. split; [exact H2 |]. split; [exact H3 |].
    split; [reflexivity |]. split; [reflexivity |].
    split; [apply changes_refl; intros u; reflexivity |].
    split; [reflexivity | intros u' Hu'; left; exact Hu']. }
  assert (Hinv : placementInv pp s) by (split; [exact Hsel | split; assumption]).
  unfold handlePlacementClick. cbv zeta.
  destruct (head (indicesWhere 0
              (fun i u => (row u =? hex_row hex) && (col u =? hex_col hex) &&
                          (faction u =? pp_currentPlayer pp) &&
                          bool_decide (i ∈ pp_placedUnits pp)) (units s)))
    as [c |] eqn:Hc.
  - assert (Hcu : exists u, units s !! c = Some u /\ faction u = pp_currentPlayer pp).
    { destruct (indicesWhere 0 _ (units s)) as [| c0 rest] eqn:Hl; [discriminate |].
      injection Hc as ->.
      assert (Hin : In c (c :: rest)) by (left; reflexivity).
      rewrite <- Hl in Hin. apply indicesWhere_spec in Hin as (u & _ & Hu & Hp).
      rewrite Nat.sub_0_r in Hu. exists u. split; [exact Hu |].
      apply andb_true_iff in Hp as [Hp _]. apply andb_true_iff in Hp as [_ Hp]. lia. }
    destruct (bool_decide (pp_selectedUnit pp = Some c)); cbn [fst snd].
    + apply Hsame; [| reflexivity | reflexivity].
      split; [intros c0 H0; discriminate | split; assumption].
    + apply Hsame; [| reflexivity | reflexivity].
      split; [| split; assumption].
      intros c0 H0. cbn [pp_selectedUnit] in H0. injection H0 as <-. exact Hcu.
  - destruct (pp_selectedUnit pp) as [m |] eqn:Hm;
      [| cbn [fst snd]; apply Hsame; [exact Hinv | reflexivity | reflexivity]].
    destruct (negb (existsb (Z.eqb (hex_row hex))
                      (if pp_currentPlayer pp =? 1 then [3; 4; 5] else [0; 1; 2]))) eqn:Hrow;
      [cbn [fst snd]; apply Hsame; [exact Hinv | reflexivity | reflexivity] |].
    destruct (Z.of_nat (length (indicesWhere 0
                (fun i u => (row u =? hex_row hex) && (col u =? hex_col hex) &&
                            negb (Nat.eqb i m)) (units s))) >=? 2) eqn:Hfull;
      [cbn [fst snd]; apply Hsame; [exact Hinv | reflexivity | reflexivity] |].
    cbn [fst snd units set_units pp_currentPlayer pp_placedUnits pp_selectedUnit].
    destruct (Hsel m eq_refl) as (um & Hum & Hfum).
    apply negb_false_iff in Hrow.
    assert (Hhome : homeRow (faction um) (hex_row hex)).
    { unfold homeRow. rewrite Hfum.
      destruct (pp_currentPlayer pp =? 1); cbn [existsb] in Hrow; lia. }
    split; [| split; [reflexivity |]; split; [reflexivity |]; split; [reflexivity |];
              split; [reflexivity |]; split; [| split]].
    + split; [intros c0 H0; discriminate |]. split.
      * intros u' Hin. apply In_alter in Hin as [Hin | (um' & Hum' & ->)];
          [apply Hrows; exact Hin |].
        rewrite Hum in Hum'. injection Hum' as <-. exact Hhome.
      * intros r c. cbn [units set_units].
        destruct (standingOn_alter (units s) m um
                    (set_pos (hex_row hex) (hex_col hex)) r c Hum) as [Hbefore Hafter].
        rewrite Hafter. specialize (Hstack r c). rewrite Hbefore in Hstack.
        destruct ((hex_row hex =? r) && (hex_col hex =? c)) eqn:Hcell.
        -- assert (Hr : hex_row hex = r) by lia. assert (Hc' : hex_col hex = c) by lia.
           subst r c.
           pose proof (indicesWhere_except
                         (fun u => (row u =? hex_row hex) && (col u =? hex_col hex))
                         m 0 (units s) (Nat.le_0_l m)) as Hex.
           rewrite Nat.sub_0_r in Hex. unfold standingOn at 1 3.
           assert (Hone : (length (standingOn [set_pos (hex_row hex) (hex_col hex) um]
                                     (hex_row hex) (hex_col hex)) <= 1)%nat).
           { unfold standingOn. cbn [List.filter].
             destruct (_ && _); cbn [length]; lia. }
           lia.
        -- assert (Hzero : length (standingOn [set_pos (hex_row hex) (hex_col hex) um] r c)
                           = 0%nat).
           { unfold standingOn. cbn [List.filter row col set_pos]. rewrite Hcell.
             reflexivity. }
           lia.
    + apply changes_alter; intros u; reflexivity.
    + intros j Hj. apply list_lookup_alter_ne. intros ->. apply Hj. reflexivity.
    + intros u' Hin. apply In_alter in Hin as [Hin | (um' & Hum' & ->)];
        [left; exact Hin | right; split; reflexivity].
Qed.

Lemma placementChange_trans (a b c : Unit) :
  placementChange a b -> placementChange b c -> placementChange a c.
Proof. unfold placementChange. intros E1 E2. rewrite E2. exact E1. Qed.

Lemma placementClicks_cons (pp : PlacementPhase) (s : State) (hex : Hex) (clicks : list Hex) :
  placementClicks pp s (hex :: clicks) =
  placementClicks (handlePlacementClick pp s hex).1 (handlePlacementClick pp s hex).2 clicks.
Proof.
  unfold placementClicks. cbn [fold_left fst snd].
  destruct (handlePlacementClick pp s hex). reflexivity.
Qed.

(** X25: placement clicks keep the placement in order.  If the selected
    unit belongs to the player who is placing, every unit stands in a home
    row of its faction (rows 3 to 5 for faction 1, rows 0 to 2 otherwise)
    and no cell holds more than two units, then the same is true after any
    run of clicks.  The clicks change nothing but the selection and the
    position of units, they move no unit of another faction than the
    placing player's, and when every click is on the board and every unit
    was, every unit still is. *)
Theorem placementClicks_invariant (pp : PlacementPhase) (s : State) (clicks : list Hex) :
  placementInv pp s ->
  let pp' := (placementClicks pp s clicks).1 in
  let s' := (placementClicks pp s clicks).2 in
  placementInv pp' s' /\
  pp_currentPlayer pp' = pp_currentPlayer pp /\
  pp_placedUnits pp' = pp_placedUnits pp /\
  ledger s' = ledger s /\ log s' = log s /\
  Forall2 placementChange (units s) (units s') /\
  (forall j u, units s !! j = Some u -> faction u <> pp_currentPlayer pp ->
               units s' !! j = Some u) /\
  ((forall h, In h clicks -> isValidHex (hex_row h) (hex_col h) = true) ->
   (forall u, In u (units s) -> isValidHex (row u) (col u) = true) ->
   forall u, In u (units s') -> isValidHex (row u) (col u) = true).
Proof.
  revert pp s. induction clicks as [| hex clicks IH]; intros pp s Hinv.
  - cbn [placementClicks fold_left fst snd].
    split; [exact Hinv |]. split; [reflexivity |]. split; [reflexivity |].
    split; [reflexivity |]. split; [reflexivity |].
    split; [apply changes_refl; intros u; reflexivity |].
    split; [intros j u Hu _; exact Hu | intros _ H; exact H].
  - rewrite placementClicks_cons.
    destruct (handlePlacementClick_step pp s hex Hinv)
      as (Hinv1 & Hp1 & Hl1 & Hled1 & Hlog1 & Hch1 & Hmove1 & Hpos1).
    cbv zeta in Hinv1, Hp1, Hl1, Hled1, Hlog1, Hch1, Hmove1, Hpos1.
    specialize (IH _ _ Hinv1).
    cbv zeta in IH. destruct IH as (Hinv2 & Hp2 & Hl2 & Hled2 & Hlog2 & Hch2 & Hmove2 & Hpos2).
    cbv zeta.
    split; [exact Hinv2 |]. split; [rewrite Hp2; exact Hp1 |].
    split; [rewrite Hl2; exact Hl1 |]. split; [rewrite Hled2; exact Hled1 |].
    split; [rewrite Hlog2; exact Hlog1 |].
    split; [eapply changes_trans; [apply placementChange_trans | exact Hch1 | exact Hch2] |].
    split.
    + intros j u Hu Hf. apply Hmove2; [| rewrite Hp1; exact Hf].
      rewrite Hmove1; [exact Hu |].
      intros Hsel. destruct Hinv as (Hselinv & _).
      destruct (Hselinv j Hsel) as (u0 & Hu0 & Hf0).
      rewrite Hu in Hu0. injection Hu0 as <-. apply Hf. exact Hf0.
    + intros Hclicks Hboard. apply Hpos2.
      * intros h Hh. apply Hclicks. right. exact Hh.
      * intros u' Hu'. destruct (Hpos1 u' Hu') as [Hin | [Hr Hc]];
          [apply Hboard; exact Hin |].
        rewrite Hr, Hc. apply Hclicks. left. reflexivity.
Qed.

Lemma placementClicks_invariant_witness :
  placementInv placingPhase placingBoard /\
  placementInv (placementClicks placingPhase placingBoard [mkHex 4 1; mkHex 3 1]).1
               (placementClicks placingPhase placingBoard [mkHex 4 1; mkHex 3 1]).2 /\
  List.map (fun u => (row u, col u))
    (units (placementClicks placingPhase placingBoard [mkHex 4 1; mkHex 3 1]).2) =
  [(4, 1); (3, 1)] /\
  pp_selectedUnit (placementClicks placingPhase placingBoard [mkHex 4 1; mkHex 3 1]).1 =
  Some 1%nat.
Proof.
  assert (H : placementInv placingPhase placingBoard).
  { split; [| split].
    - intros c Hc. injection Hc as <-. eexists. split; reflexivity.
    - intros u [<- | [<- | []]]; cbn; lia.
    - intros r c. unfold standingOn, placingBoard. cbn [units set_units].
      pose proof (filter_length_le (fun u => (row u =? r) && (col u =? c))
                    [createUnit "a-1" UnitTypes.ARCHERS 1 3 0 1;
                     createUnit "s-1" UnitTypes.SPEARS 1 3 1 1]) as Hle.
      cbn [length] in Hle. exact Hle. }
  split; [exact H |].
  split; [exact (proj1 (placementClicks_invariant placingPhase placingBoard
                          [mkHex 4 1; mkHex 3 1] H)) |].
  split; reflexivity.
Defined.

(** *** Default placement *)

Lemma createUnitWith_unit (fa : UnitFactory) (uid : string) (ty : UnitType) (f r c : Z) :
  f = 1 \/ f = 2 ->
  exists cr n, createUnitWith fa uid ty f r c = Some cr /\
               created_unit cr = mkUnit uid ty f r c 0 5 false None n.
Proof.
  intros Hf. unfold createUnitWith.
  assert (E : (f =? 1) || (f =? 2) = true) by (destruct Hf; subst; reflexivity).
  rewrite E. cbv zeta. eexists. eexists. split; reflexivity.
Qed.

Lemma placeLoop_spec (f : Z) (rowOf : Z -> Z) (picks : list (string * UnitType)) :
  f = 1 \/ f = 2 ->
  forall (i : nat) (fa : UnitFactory) (us : list Unit) (placed : list nat),
  exists fa' news,
    placeLoop f rowOf i picks fa us placed =
      Some (fa', us ++ news, placed ++ seq (length us) (length picks)) /\
    placedAs f picks news /\
    forall k u, news !! k = Some u ->
      row u = rowOf (Z.of_nat (i + k)) /\ col u = Z.of_nat (i + k) mod 3 /\ faction u = f.
Proof.
  intros Hf. induction picks as [| [uid ty] rest IH]; intros i fa us placed.
  - exists fa, []. cbn [placeLoop length seq]. rewrite !app_nil_r.
    split; [reflexivity |]. split; [constructor |]. intros k u Hk. discriminate.
  - cbn [placeLoop]. cbv zeta.
    destruct (createUnitWith_unit fa uid ty f (rowOf (Z.of_nat i)) (Z.rem (Z.of_nat i) 3) Hf)
      as (cr & n & Hcr & Hu).
    rewrite Hcr.
    destruct (IH (S i) (created_factory cr) (us ++ [created_unit cr]) (placed ++ [length us]))
      as (fa' & news & Hloop & Hplaced & Hcells).
    exists fa', (created_unit cr :: news).
    split; [| split].
    + rewrite Hloop. f_equal. f_equal.
      * rewrite <- app_assoc. reflexivity.
      * rewrite <- app_assoc, length_app. cbn [length app seq].
        replace (length us + 1)%nat with (S (length us)) by lia. reflexivity.
    + constructor; [| exact Hplaced]. rewrite Hu. cbn. repeat split.
    + intros k u Hk. destruct k as [| k].
      * injection Hk as <-. rewrite Hu. cbn [row col faction].
        rewrite Nat.add_0_r. split; [reflexivity |]. split; [| reflexivity].
        apply Z.rem_mod_nonneg; lia.
      * cbn [lookup list_lookup] in Hk. destruct (Hcells k u Hk) as (Hr & Hc & Hfa).
        replace (i + S k)%nat with (S i + k)%nat by lia. repeat split; assumption.
Qed.

Lemma filter_at_most_one (q : Unit -> bool) (l : list Unit) :
  (forall i j u v, l !! i = Some u -> l !! j = Some v ->
                   q u = true -> q v = true -> i = j) ->
  (length (List.filter q l) <= 1)%nat.
Proof.
  induction l as [| u l IH]; intros H; [cbn; lia |].
  cbn [List.filter].
  assert (Hrest : forall i j u0 v, l !! i = Some u0 -> l !! j = Some v ->
                                   q u0 = true -> q v = true -> i = j).
  { intros i j u0 v Hi Hj Hu0 Hv.
    assert (E : S i = S j) by (apply (H (S i) (S j) u0 v); assumption). lia. }
  destruct (q u) eqn:E; [| apply IH; exact Hrest].
  assert (Hnone : List.filter q l = []).
  { destruct (List.filter q l) as [| v rest] eqn:Hf; [reflexivity |].
    assert (Hin : In v (List.filter q l)) by (rewrite Hf; left; reflexivity).
    apply filter_In in Hin as [Hin Hv].
    apply list_elem_of_In, list_elem_of_lookup in Hin as [j Hj].
    assert (E0 : 0%nat = S j) by (apply (H 0%nat (S j) u v); [reflexivity | exact Hj | |];
                                   assumption).
    discriminate. }
  rewrite Hnone. cbn. lia.
Qed.

Lemma default_cells (f : Z) (rowOf : Z -> Z) (news : list Unit) :
  (forall a b, 0 <= a -> 0 <= b -> rowOf a = rowOf b -> a / 3 = b / 3) ->
  (forall k u, news !! k = Some u ->
     row u = rowOf (Z.of_nat k) /\ col u = Z.of_nat k mod 3 /\ faction u = f) ->
  forall r c, (length (standingOn news r c) <= 1)%nat.
Proof.
  intros Hrow Hcells r c. unfold standingOn. apply filter_at_most_one.
  intros i j u v Hi Hj Hu Hv.
  destruct (Hcells i u Hi) as (Hru & Hcu & _).
  destruct (Hcells j v Hj) as (Hrv & Hcv & _).
  assert (Hq : Z.of_nat i / 3 = Z.of_nat j / 3).
  { apply Hrow; [lia | lia |]. rewrite <- Hru, <- Hrv. lia. }
  assert (Hm : Z.of_nat i mod 3 = Z.of_nat j mod 3) by (rewrite <- Hcu, <- Hcv; lia).
  pose proof (Z.div_mod (Z.of_nat i) 3 ltac:(lia)) as Ei.
  pose proof (Z.div_mod (Z.of_nat j) 3 ltac:(lia)) as Ej.
  lia.
Qed.

Lemma placedAs_length (f : Z) (picks : list (string * UnitType)) (news : list Unit) :
  placedAs f picks news -> length news = length picks.
Proof. intros H. symmetry. eapply Forall2_length. exact H. Qed.

Lemma standingOn_app (l1 l2 : list Unit) (r c : Z) :
  length (standingOn (l1 ++ l2) r c) =
  (length (standingOn l1 r c) + length (standingOn l2 r c))%nat.
Proof. unfold standingOn. rewrite List.filter_app, length_app. reflexivity. Qed.

Lemma standingOn_none (l : list Unit) (r c : Z) :
  (forall u, In u l -> row u <> r) -> length (standingOn l r c) = 0%nat.
Proof.
  intros H. unfold standingOn. induction l as [| u l IH]; [reflexivity |].
  cbn [List.filter].
  assert (E : (row u =? r) = false) by (apply Z.eqb_neq, H; left; reflexivity).
  rewrite E. cbn [andb]. apply IH. intros v Hv. apply H. right. exact Hv.
Qed.

(** X26: the default placement puts the placement in order.  For at most
    nine picks, [completeDraft] on an empty board creates the picked units
    for faction 1, fresh and in the order of the picks, the [k]-th on row
    [3 + floor(k / 3)] and column [k mod 3]: one per cell, in rows 3 to 5
    and columns 0 to 2; it opens player 1's placement with all of them
    placed and none selected.  When player 1 confirms a placement that is
    in order and consists of faction-1 units, the picked units of faction 2
    are added behind them, the [k]-th on row [2 - floor(k / 3)] and column
    [k mod 3]: one per cell, in rows 0 to 2 and columns 0 to 2; player 1's
    units stay as they are, and player 2's placement opens in order.  When
    player 2 confirms, the placement phase ends and the game is in faction
    1's phase with the units as they stand. *)
Theorem default_placement_in_order (picks : list (string * UnitType)) (fa : UnitFactory)
    (s : State) :
  (length picks <= 9)%nat ->
  (units s = [] ->
   exists fa' s',
     completeDraft picks fa s =
       Some (fa', mkPlacement 1 (seq 0 (length picks)) None, s') /\
     placedAs 1 picks (units s') /\
     placementInv (mkPlacement 1 (seq 0 (length picks)) None) s' /\
     onBoard (units s') /\
     (forall r c, (length (standingOn (units s') r c) <= 1)%nat) /\
     (forall k u, units s' !! k = Some u ->
        row u = 3 + Z.of_nat k / 3 /\ col u = Z.of_nat k mod 3) /\
     (forall u, In u (units s') -> 3 <= row u <= 5 /\ 0 <= col u <= 2)) /\
  (forall pp,
     pp_currentPlayer pp = 1 -> placementInv pp s ->
     (forall u, In u (units s) -> faction u = 1) ->
     exists fa' s' news,
       confirmPlacement picks fa (Some pp) s =
         Some (fa', Some (mkPlacement 2 (seq (length (units s)) (length picks)) None), s') /\
       units s' = units s ++ news /\ placedAs 2 picks news /\
       placementInv (mkPlacement 2 (seq (length (units s)) (length picks)) None) s' /\
       (onBoard (units s) -> onBoard (units s')) /\
       (forall k u, news !! k = Some u ->
          row u = 2 - Z.of_nat k / 3 /\ col u = Z.of_nat k mod 3) /\
       (forall u, In u news -> 0 <= row u <= 2 /\ 0 <= col u <= 2) /\
       (forall r c, (length (standingOn news r c) <= 1)%nat)) /\
  (forall pp,
     pp_currentPlayer pp <> 1 ->
     exists s', confirmPlacement picks fa (Some pp) s = Some (fa, None, s') /\
                phase s' = FACTION_1 /\ units s' = units s).
Proof.
  intros Hlen.
  assert (Hrows1 : forall a b, 0 <= a -> 0 <= b -> 3 + a / 3 = 3 + b / 3 -> a / 3 = b / 3)
    by (intros; lia).
  assert (Hrows2 : forall a b, 0 <= a -> 0 <= b -> 2 - a / 3 = 2 - b / 3 -> a / 3 = b / 3)
    by (intros; lia).
  assert (Hcell : forall (news : list Unit) k u, news !! k = Some u ->
                    length news = length picks ->
                    0 <= Z.of_nat k / 3 <= 2 /\ 0 <= Z.of_nat k mod 3 <= 2).
  { intros news k u Hk Hl. apply lookup_lt_Some in Hk.
    pose proof (Z.div_mod (Z.of_nat k) 3 ltac:(lia)) as E.
    pose proof (Z.mod_pos_bound (Z.of_nat k) 3 ltac:(lia)) as B. lia. }
  split; [| split].
  - intros Hempty. unfold completeDraft. rewrite Hempty.
    destruct (placeLoop_spec 1 (fun i => 3 + i / 3) picks (or_introl eq_refl) 0%nat fa [] [])
      as (fa' & news & Hloop & Hplaced & Hcells).
    rewrite Hloop. cbn [app length]. eexists. eexists. split; [reflexivity |].
    cbn [units logMessage set_log set_units].
    pose proof (placedAs_length _ _ _ Hplaced) as Hl.
    assert (Hat : forall u, In u news ->
                    exists k, news !! k = Some u /\ row u = 3 + Z.of_nat k / 3 /\
                              col u = Z.of_nat k mod 3 /\ faction u = 1).
    { intros u Hu. apply list_elem_of_In, list_elem_of_lookup in Hu as [k Hk].
      exists k. split; [exact Hk |]. apply (Hcells k u Hk). }
    assert (Hone : forall r c, (length (standingOn news r c) <= 1)%nat).
    { apply (default_cells 1 (fun i => 3 + i / 3)); [exact Hrows1 |]. exact Hcells. }
    split; [exact Hplaced |].
    split; [| split; [| split; [exact Hone | split]]].
    + split; [intros c Hc; discriminate |]. split.
      * intros u Hu. destruct (Hat u Hu) as (k & Hk & Hr & _ & Hf).
        destruct (Hcell news k u Hk Hl) as [Hq _].
        unfold homeRow. rewrite Hf, Hr. cbn. lia.
      * intros r c. cbn [units logMessage set_log set_units].
        specialize (Hone r c). lia.
    + intros u Hu. destruct (Hat u Hu) as (k & Hk & Hr & Hc & _).
      destruct (Hcell news k u Hk Hl) as [Hq Hm].
      apply isValidHex_spec. lia.
    + intros k u Hk. destruct (Hcells k u Hk) as (Hr & Hc & _).
      split; [exact Hr | exact Hc].
    + intros u Hu. destruct (Hat u Hu) as (k & Hk & Hr & Hc & _).
      destruct (Hcell news k u Hk Hl) as [Hq Hm]. lia.
  - intros pp Hcp (Hsel & Hhome & Hstack) Hfac.
    unfold confirmPlacement. rewrite Hcp. cbn [Z.eqb Pos.eqb].
    destruct (placeLoop_spec 2 (fun i => 2 - i / 3) picks (or_intror eq_refl)
                0%nat fa (units s) [])
      as (fa' & news & Hloop & Hplaced & Hcells).
    rewrite Hloop. cbn [app]. eexists. eexists. exists news.
    split; [reflexivity |].
    cbn [units logMessage set_log set_units].
    pose proof (placedAs_length _ _ _ Hplaced) as Hl.
    assert (Hat : forall u, In u news ->
                    exists k, news !! k = Some u /\ row u = 2 - Z.of_nat k / 3 /\
                              col u = Z.of_nat k mod 3 /\ faction u = 2).
    { intros u Hu. apply list_elem_of_In, list_elem_of_lookup in Hu as [k Hk].
      exists k. split; [exact Hk |]. apply (Hcells k u Hk). }
    assert (Hlow : forall u, In u news -> 0 <= row u <= 2 /\ 0 <= col u <= 2).
    { intros u Hu. destruct (Hat u Hu) as (k & Hk & Hr & Hc & _).
      destruct (Hcell news k u Hk Hl) as [Hq Hm]. lia. }
    assert (Hhigh : forall u, In u (units s) -> 3 <= row u <= 5).
    { intros u Hu. specialize (Hhome u Hu). unfold homeRow in Hhome.
      rewrite (Hfac u Hu) in Hhome. exact Hhome. }
    split; [reflexivity |]. split; [exact Hplaced |].
    split; [| split; [| split; [| split; [exact Hlow |]]]].
    + split; [intros c Hc; discriminate |]. split.
      * intros u Hu. cbn [units logMessage set_log set_units] in Hu.
        apply in_app_or in Hu as [Hu | Hu]; [apply Hhome; exact Hu |].
        destruct (Hat u Hu) as (k & _ & _ & _ & Hf). unfold homeRow. rewrite Hf. cbn.
        apply (Hlow u Hu).
      * intros r c. cbn [units logMessage set_log set_units]. rewrite standingOn_app.
        destruct (decide (3 <= r)) as [Hr | Hr].
        -- rewrite (standingOn_none news r c).
           ++ specialize (Hstack r c). lia.
           ++ intros u Hu. specialize (Hlow u Hu). lia.
        -- rewrite (standingOn_none (units s) r c).
           ++ pose proof (default_cells 2 (fun i => 2 - i / 3) news Hrows2 Hcells r c). lia.
           ++ intros u Hu. specialize (Hhigh u Hu). lia.
    + intros Hboard u Hu. apply in_app_or in Hu as [Hu | Hu]; [apply Hboard; exact Hu |].
      specialize (Hlow u Hu). apply isValidHex_spec. lia.
    + intros k u Hk. destruct (Hcells k u Hk) as (Hr & Hc & _).
      split; [exact Hr | exact Hc].
    + exact (default_cells 2 (fun i => 2 - i / 3) news Hrows2 Hcells).
  - intros pp Hcp. unfold confirmPlacement.
    assert (E : (pp_currentPlayer pp =? 1) = false) by lia. rewrite E.
    eexists. split; [reflexivity |]. split; reflexivity.
Qed.

Lemma default_placement_in_order_witness :
  exists fa' s' fa2 s2 news,
    completeDraft sixPicks initialFactory createGameState =
      Some (fa', mkPlacement 1 (seq 0 6) None, s') /\
    placementInv (mkPlacement 1 (seq 0 6) None) s' /\
    List.map (fun u => (row u, col u)) (units s') =
      [(3, 0); (3, 1); (3, 2); (4, 0); (4, 1); (4, 2)] /\
    confirmPlacement fourPicks fa' (Some (mkPlacement 1 (seq 0 6) None)) s' =
      Some (fa2, Some (mkPlacement 2 (seq 6 4) None), s2) /\
    units s2 = units s' ++ news /\
    placementInv (mkPlacement 2 (seq 6 4) None) s2 /\
    List.map (fun u => (faction u, row u, col u)) news =
      [(2, 2, 0); (2, 2, 1); (2, 2, 2); (2, 1, 0)].
Proof.
  assert (Hlen : (length sixPicks <= 9)%nat) by (cbn; lia).
  destruct (proj1 (default_placement_in_order sixPicks initialFactory createGameState Hlen)
              eq_refl) as (fa' & s' & Hdraft & Hplaced & Hinv & _ & _ & Hcells & _).
  assert (Hfac : forall u, In u (units s') -> faction u = 1).
  { intros u Hu. apply list_elem_of_In in Hu.
    destruct (proj1 (list_elem_of_lookup _ _) Hu) as [k Hk].
    destruct (Forall2_lookup_r _ _ _ _ _ Hplaced Hk) as (pk & _ & _ & _ & Hf & _).
    exact Hf. }
  assert (Hlen2 : (length fourPicks <= 9)%nat) by (cbn; lia).
  destruct (proj1 (proj2 (default_placement_in_order fourPicks fa' s' Hlen2))
              (mkPlacement 1 (seq 0 6) None) eq_refl Hinv Hfac)
    as (fa2 & s2 & news & Hconf & Hunits & Hplaced2 & Hinv2 & _ & Hcells2 & _).
  assert (Hn : length (units s') = 6%nat).
  { rewrite <- (Forall2_length _ _ _ Hplaced). reflexivity. }
  rewrite Hn in Hconf, Hinv2.
  exists fa', s', fa2, s2, news.
  split; [exact Hdraft |]. split; [exact Hinv |].
  split.
  { destruct (units s') as [| u0 [| u1 [| u2 [| u3 [| u4 [| u5 [| u6 l]]]]]]];
      try discriminate Hn.
    cbn [List.map].
    destruct (Hcells 0%nat u0 eq_refl) as [-> ->].
    destruct (Hcells 1%nat u1 eq_refl) as [-> ->].
    destruct (Hcells 2%nat u2 eq_refl) as [-> ->].
    destruct (Hcells 3%nat u3 eq_refl) as [-> ->].
    destruct (Hcells 4%nat u4 eq_refl) as [-> ->].
    destruct (Hcells 5%nat u5 eq_refl) as [-> ->].
    reflexivity. }
  split; [exact Hconf |]. split; [exact Hunits |]. split; [exact Hinv2 |].
  pose proof (Forall2_length _ _ _ Hplaced2) as Hn2. cbn [length fourPicks] in Hn2.
  destruct news as [| v0 [| v1 [| v2 [| v3 [| v4 l]]]]]; try discriminate Hn2.
  cbn [List.map].
  destruct (Forall2_lookup_r _ _ _ 0%nat _ Hplaced2 eq_refl) as (p0 & _ & _ & _ & -> & _).
  destruct (Forall2_lookup_r _ _ _ 1%nat _ Hplaced2 eq_refl) as (p1 & _ & _ & _ & -> & _).
  destruct (Forall2_lookup_r _ _ _ 2%nat _ Hplaced2 eq_refl) as (p2 & _ & _ & _ & -> & _).
  destruct (Forall2_lookup_r _ _ _ 3%nat _ Hplaced2 eq_refl) as (p3 & _ & _ & _ & -> & _).
  destruct (Hcells2 0%nat v0 eq_refl) as [-> ->].
  destruct (Hcells2 1%nat v1 eq_refl) as [-> ->].
  destruct (Hcells2 2%nat v2 eq_refl) as [-> ->].
  destruct (Hcells2 3%nat v3 eq_refl) as [-> ->].
  reflexivity.
Defined.

(** ** The targeting session *)






Example targeting_session_of_a_cannon :
  phase (endPhase (handleAbilityTargetingClick noPick targetingBoard (mkHex 1 2))) =
  RESOLUTION_COMBAT /\
  phase (endPhase targetingBoard) = ABILITY_TARGETING.
Proof. split; vm_compute; reflexivity. Qed.

(** ** Selecting and moving *)

Lemma phase_applyMountedChargeBonus (s : State) (unit target : nat) (d : Z) :
  phase (applyMountedChargeBonus s unit target d) = phase s.
Proof.
  unfold applyMountedChargeBonus.
  destruct (units s !! unit) as [uv |]; [| reflexivity].
  destruct (units s !! target) as [tv |]; [| reflexivity].
  destruct (negb (type_id (type uv) =? type_id UnitTypes.MOUNTED)); [reflexivity |].
  destruct (d =? 2); [| reflexivity]. cbv zeta.
  destruct (units (applyDamage s target 2 (Some "ability")) !! target);
    cbn [phase logMessage set_log]; apply applyDamage_bookkeeping.
Qed.

Lemma phase_applySpearCounterCharge (s : State) (unit attacker : nat) :
  phase (applySpearCounterCharge s unit attacker) = phase s.
Proof.
  unfold applySpearCounterCharge.
  destruct (units s !! unit) as [uv |]; [| reflexivity].
  destruct (units s !! attacker) as [av |]; [| reflexivity].
  destruct (negb (type_id (type uv) =? type_id UnitTypes.SPEARS)); [reflexivity |].
  destruct (negb (type_id (type av) =? type_id UnitTypes.MOUNTED)); [reflexivity |].
  cbv zeta.
  destruct (units (applyDamage s attacker 3 (Some "ability")) !! attacker);
    cbn [phase logMessage set_log]; apply applyDamage_bookkeeping.
Qed.

Lemma phase_moveUnit (pick : UnitPicker) (s : State) (i : nat) (newRow newCol : Z) :
  phase (moveUnit pick s i newRow newCol) = phase s.
Proof.
  unfold moveUnit. destruct (units s !! i) as [u |]; [| reflexivity]. cbv zeta.
  cbn [type set_moved set_pos movedThisTurn unit_id faction].
  set (second := (type_id (type u) =? type_id UnitTypes.MOUNTED) && movedThisTurn u).
  set (s2 := if (type_id (type u) =? type_id UnitTypes.MOUNTED) && negb second
             then _ else _).
  assert (H2 : phase s2 = phase s).
  { subst s2. destruct ((type_id (type u) =? type_id UnitTypes.MOUNTED) && negb second);
      reflexivity. }
  clearbody s2 second.
  destruct (0 <? Z.of_nat (length
              (getFactionUnitsAt s2 newRow newCol (if faction u =? 1 then 2 else 1))));
    [| exact H2].
  set (s3 := logMessage _ s2).
  assert (H3 : phase s3 = phase s) by exact H2.
  clearbody s3.
  destruct second; [| exact H3].
  destruct (counterChargingSpears s3 newRow newCol (if faction u =? 1 then 2 else 1))
    as [| spear rest].
  - destruct (1 <? Z.of_nat (length
                (getFactionUnitsAt s2 newRow newCol (if faction u =? 1 then 2 else 1)))).
    + destruct (pick _) as [k |]; [| exact H3].
      destruct (getFactionUnitsAt s2 newRow newCol (if faction u =? 1 then 2 else 1) !! k)
        as [sel |]; [| exact H3].
      cbn [phase logMessage set_log]. rewrite phase_applyMountedChargeBonus. exact H3.
    + destruct (getFactionUnitsAt s2 newRow newCol (if faction u =? 1 then 2 else 1))
        as [| enemy l]; [exact H3 |].
      cbn [phase logMessage set_log]. rewrite phase_applyMountedChargeBonus. exact H3.
  - cbn [phase logMessage set_log]. rewrite phase_applySpearCounterCharge. exact H3.
Qed.

Lemma isValidMove_In (ui : Selecting) (hex : Hex) :
  isValidMove ui hex = true -> In hex (validMoves ui).
Proof.
  unfold isValidMove. intros H. apply existsb_exists in H as (m & Hin & Hm).
  replace hex with m; [exact Hin |].
  destruct m, hex. cbn [hex_row hex_col] in Hm. f_equal; lia.
Qed.

Lemma movesOf_lookup (s : State) (i : nat) (u : Unit) :
  units s !! i = Some u -> movesOf s i = getValidMoves s u.
Proof. intros H. unfold movesOf. rewrite H. reflexivity. Qed.

Lemma getFactionUnitsAt_living (s : State) (r c f : Z) (i : nat) :
  In i (getFactionUnitsAt s r c f) ->
  exists u, units s !! i = Some u /\ isAlive u = true /\ faction u = f.
Proof.
  intros H. apply getFactionUnitsAt_spec in H as (u & Hu & _ & _ & Hd & Hf).
  exists u. split; [exact Hu |]. split; [apply isAlive_spec; exact Hd | exact Hf].
Qed.

Lemma selectionInv_select (s : State) (c : nat) (row0 col0 : Z) :
  In c (getFactionUnitsAt s row0 col0 (currentFaction s)) ->
  selectionInv (mkSelecting (Some c) (movesOf s c) None) s.
Proof.
  intros H. apply getFactionUnitsAt_living in H as (u & Hu & Ha & Hf).
  unfold selectionInv. cbn [selectedUnit commanderTarget validMoves].
  exists u. split; [exact Hu |]. split; [exact Ha |]. split; [exact Hf |].
  apply movesOf_lookup. exact Hu.
Qed.

Lemma selectionInv_order (s : State) (sel t : nat) (su : Unit) (row0 col0 : Z)
    (p : Unit -> bool) :
  units s !! sel = Some su -> isAlive su = true -> faction su = currentFaction s ->
  (type_id (type su) =? type_id UnitTypes.COMMANDER) = true ->
  In t (filterRefs p s (getFactionUnitsAt s row0 col0 (currentFaction s))) ->
  selectionInv (mkSelecting (Some sel) (movesOf s t) (Some t)) s.
Proof.
  intros Hsu Ha Hf Hcom Hin.
  apply filterRefs_In in Hin as (Hin & _).
  apply getFactionUnitsAt_living in Hin as (tv & Htv & Hat & Hft).
  unfold selectionInv. cbn [selectedUnit commanderTarget validMoves].
  exists su. split; [exact Hsu |]. split; [exact Ha |]. split; [exact Hf |].
  split; [lia |]. exists tv. split; [exact Htv |]. split; [exact Hat |].
  split; [exact Hft |]. apply movesOf_lookup. exact Htv.
Qed.

Lemma selectOrMove_spec (pick : UnitPicker) (ui : Selecting) (s : State) (hex : Hex) :
  selectionInv ui s ->
  let ui' := (selectOrMove pick ui s hex).1 in
  let s' := (selectOrMove pick ui s hex).2 in
  phase s' = phase s /\ selectionInv ui' s' /\
  ((units s' = units s /\ activatedUnits s ⊆ activatedUnits s') \/
   exists i u,
     units s !! i = Some u /\ isAlive u = true /\ faction u = currentFaction s /\
     In hex (getValidMoves s u) /\
     units s' = units (moveUnit pick s i (hex_row hex) (hex_col hex)) /\
     (selectedUnit ui = Some i \/
      exists c cu, selectedUnit ui = Some c /\ commanderTarget ui = Some i /\
                   units s !! c = Some cu /\
                   type_id (type cu) = type_id UnitTypes.COMMANDER /\
                   unit_id cu ∈ activatedUnits s')).
Proof.
  intros Hinv ui' s'. subst ui' s'.
  assert (Hkeep : forall ui1, selectionInv ui1 s ->
            phase s = phase s /\ selectionInv ui1 s /\
            ((units s = units s /\ activatedUnits s ⊆ activatedUnits s) \/
             exists i u,
               units s !! i = Some u /\ isAlive u = true /\ faction u = currentFaction s /\
               In hex (getValidMoves s u) /\
               units s = units (moveUnit pick s i (hex_row hex) (hex_col hex)) /\
               (selectedUnit ui = Some i \/
                exists c cu, selectedUnit ui = Some c /\ commanderTarget ui = Some i /\
                             units s !! c = Some cu /\
                             type_id (type cu) = type_id UnitTypes.COMMANDER /\
                             unit_id cu ∈ activatedUnits s))).
  { intros ui1 H1. split; [reflexivity |]. split; [exact H1 |]. left.
    split; [reflexivity | intros x Hx; exact Hx]. }
  unfold selectOrMove. unfold selectionInv in Hinv.
  destruct (selectedUnit ui) as [sel |] eqn:Hsel.
  - destruct Hinv as (su & Hsu & Halive & Hfac & Hmoves). rewrite Hsu.
    destruct (commanderTarget ui) as [t |] eqn:Htgt.
    + (* a Commander that has chosen its unit *)
      destruct Hmoves as (Hcom & tv & Htv & Hat & Hft & Hvm).
      assert (Ecom : (type_id (type su) =? type_id UnitTypes.COMMANDER) = true) by lia.
      rewrite Ecom.
      assert (Eb : bool_decide (is_Some (Some t)) = true)
        by (apply bool_decide_eq_true_2; eexists; reflexivity).
      rewrite Eb. cbn [andb negb].
      destruct (isValidMove ui hex) eqn:Hvalid; cbv zeta; cbn [fst snd].
      * split; [cbn [phase set_activatedUnits]; apply phase_moveUnit |].
        split; [reflexivity |]. right. exists t, tv.
        split; [exact Htv |]. split; [exact Hat |]. split; [exact Hft |].
        split; [rewrite <- Hvm; apply isValidMove_In; exact Hvalid |].
        split; [reflexivity |]. right. exists sel, su.
        split; [reflexivity |]. split; [reflexivity |]. split; [exact Hsu |].
        split; [exact Hcom |]. cbn [activatedUnits set_activatedUnits].
        apply elem_of_union. left. apply elem_of_singleton. reflexivity.
      * apply Hkeep. unfold selectionInv. cbn [selectedUnit commanderTarget validMoves].
        exists su. split; [exact Hsu |]. split; [exact Halive |]. split; [exact Hfac |].
        apply movesOf_lookup. exact Hsu.
    + assert (Eb : bool_decide (is_Some (@None nat)) = false)
        by (apply bool_decide_eq_false_2; intros [x Hx]; discriminate).
      rewrite Eb. cbn [negb]. rewrite andb_true_r.
      destruct (type_id (type su) =? type_id UnitTypes.COMMANDER) eqn:Ecom.
      * (* a Commander choosing the unit to order forward *)
        destruct (isValidMove ui hex) eqn:Hvalid; cbv zeta.
        -- match goal with
           | |- context [length ?l] => remember l as friendlyUnits eqn:Hfr0
           end.
           destruct (1 <? Z.of_nat (length friendlyUnits)).
           ++ destruct (pick (derefs s friendlyUnits)) as [k |];
                [| cbn [fst snd]; apply Hkeep; unfold selectionInv; rewrite Hsel, Htgt;
                   exists su; repeat split; assumption].
              destruct (friendlyUnits !! k) as [t |] eqn:Hk;
                [| cbn [fst snd]; apply Hkeep; unfold selectionInv; rewrite Hsel, Htgt;
                   exists su; repeat split; assumption].
              cbn [fst snd]. apply Hkeep.
              apply lookup_In in Hk. rewrite Hfr0 in Hk.
              eapply selectionInv_order; eassumption.
           ++ destruct (Z.of_nat (length friendlyUnits) =? 1);
                [| cbn [fst snd]; apply Hkeep; unfold selectionInv; rewrite Hsel, Htgt;
                   exists su; repeat split; assumption].
              destruct friendlyUnits as [| t rest];
                [cbn [fst snd]; apply Hkeep; unfold selectionInv; rewrite Hsel, Htgt;
                 exists su; repeat split; assumption |].
              cbn [fst snd]. apply Hkeep.
              assert (Hin : In t (t :: rest)) by (left; reflexivity).
              rewrite Hfr0 in Hin.
              eapply selectionInv_order; eassumption.
        -- cbn [fst snd]. apply Hkeep. unfold selectionInv.
           cbn [selectedUnit commanderTarget]. reflexivity.
      * (* any other unit *)
        destruct (isValidMove ui hex) eqn:Hvalid; cbv zeta.
        -- set (s1 := moveUnit pick s sel (hex_row hex) (hex_col hex)).
           assert (Hph : phase s1 = phase s) by apply phase_moveUnit.
           assert (Hmove : exists i u,
                     units s !! i = Some u /\ isAlive u = true /\
                     faction u = currentFaction s /\ In hex (getValidMoves s u) /\
                     units s1 = units (moveUnit pick s i (hex_row hex) (hex_col hex)) /\
                     (Some sel = Some i \/
                      exists c cu, Some sel = Some c /\ @None nat = Some i /\
                                   units s !! c = Some cu /\
                                   type_id (type cu) = type_id UnitTypes.COMMANDER /\
                                   unit_id cu ∈ activatedUnits s1)).
           { exists sel, su. split; [exact Hsu |]. split; [exact Halive |].
             split; [exact Hfac |].
             split; [rewrite <- Hmoves; apply isValidMove_In; exact Hvalid |].
             split; [reflexivity | left; reflexivity]. }
           destruct (bool_decide (pendingSecondMove s1 = Some (unit_id su))) eqn:Hpend;
             cbn [fst snd].
           ++ split; [exact Hph |]. split; [| right; exact Hmove].
              apply bool_decide_eq_true in Hpend.
              pose proof (moveUnit_effect pick s sel su (hex_row hex) (hex_col hex) Hsu)
                as [_ Hbook].
              cbv zeta in Hbook. fold s1 in Hbook.
              destruct ((type_id (type su) =? type_id UnitTypes.MOUNTED) &&
                        negb (movedThisTurn su)) eqn:Hfirst;
                [| destruct Hbook as [Hnone _]; rewrite Hnone in Hpend; discriminate].
              apply andb_true_iff in Hfirst as [Hty Hmv].
              apply negb_true_iff in Hmv.
              destruct (moveUnit_first_mounted_move pick s sel su (hex_row hex) (hex_col hex)
                          Hsu ltac:(lia) Hmv) as (_ & _ & Hunits).
              cbv zeta in Hunits. fold s1 in Hunits.
              assert (Hnew : units s1 !! sel =
                             Some (set_moved true (set_pos (hex_row hex) (hex_col hex) su))).
              { rewrite Hunits. apply list_lookup_insert_eq.
                eapply lookup_lt_Some. exact Hsu. }
              unfold selectionInv. cbn [selectedUnit commanderTarget validMoves].
              eexists. split; [exact Hnew |]. split; [exact Halive |].
              split; [unfold currentFaction; rewrite Hph; exact Hfac |].
              apply movesOf_lookup. exact Hnew.
           ++ split; [exact Hph |]. split; [reflexivity | right; exact Hmove].
        -- cbn [fst snd].
           destruct (truthyString (pendingSecondMove s)).
           ++ split; [reflexivity |]. split; [reflexivity |]. left.
              split; [reflexivity |]. cbn [activatedUnits set_activatedUnits
                set_pendingSecondMove]. apply union_subseteq_r.
           ++ apply Hkeep. reflexivity.
  - (* nothing selected: try to select *)
    assert (Hnone : selectionInv ui s) by (unfold selectionInv; rewrite Hsel; exact Hinv).
    rewrite Hinv in *.
    cbv zeta. destruct (truthyString (pendingSecondMove s)).
    + destruct (findById s _ _) as [p |] eqn:Hfind; cbn [fst snd]; apply Hkeep;
        [| exact Hnone].
      apply findById_In in Hfind. eapply selectionInv_select. exact Hfind.
    + match goal with
      | |- context [length ?l] => remember l as unactivated eqn:Hun0
      end.
      destruct (1 <? Z.of_nat (length unactivated)).
      * destruct (pick (derefs s unactivated)) as [k |];
          [| cbn [fst snd]; apply Hkeep; exact Hnone].
        destruct (unactivated !! k) as [c |] eqn:Hk;
          [| cbn [fst snd]; apply Hkeep; exact Hnone].
        cbn [fst snd]. apply Hkeep.
        apply lookup_In in Hk. rewrite Hun0 in Hk. apply filterRefs_In in Hk as [Hk _].
        eapply selectionInv_select. exact Hk.
      * destruct (Z.of_nat (length unactivated) =? 1);
          [| cbn [fst snd]; apply Hkeep; exact Hnone].
        destruct unactivated as [| c rest];
          [cbn [fst snd]; apply Hkeep; exact Hnone |].
        cbn [fst snd]. apply Hkeep.
        assert (Hin : In c (c :: rest)) by (left; reflexivity).
        rewrite Hun0 in Hin. apply filterRefs_In in Hin as [Hin _].
        eapply selectionInv_select. exact Hin.
Qed.

Lemma handleClick_faction (pick : UnitPicker) (ui : Selecting) (s : State) (hex : Hex) :
  phase s = FACTION_1 \/ phase s = FACTION_2 ->
  handleClick pick None ui s hex =
  (None, (selectOrMove pick ui s hex).1, (selectOrMove pick ui s hex).2).
Proof. intros [H | H]; unfold handleClick; rewrite H; reflexivity. Qed.

Lemma clickRun_cons (pick : UnitPicker) (ui : Selecting) (s : State) (hex : Hex)
    (hexes : list Hex) :
  clickRun pick ui s (hex :: hexes) =
  clickRun pick (handleClick pick None ui s hex).1.2 (handleClick pick None ui s hex).2 hexes.
Proof. reflexivity. Qed.

(** A run of clicks in a faction phase stays in that phase and keeps the
    selection in order. *)
Lemma clickRun_selectionInv (pick : UnitPicker) (hexes : list Hex) :
  forall ui s,
  phase s = FACTION_1 \/ phase s = FACTION_2 ->
  selectionInv ui s ->
  phase (clickRun pick ui s hexes).2 = phase s /\
  selectionInv (clickRun pick ui s hexes).1 (clickRun pick ui s hexes).2.
Proof.
  induction hexes as [| hex hexes IH]; intros ui s Hph Hinv.
  - split; [reflexivity | exact Hinv].
  - rewrite clickRun_cons, (handleClick_faction pick ui s hex Hph). cbn [fst snd].
    destruct (selectOrMove_spec pick ui s hex Hinv) as (Hph' & Hinv' & _).
    cbv zeta in Hph', Hinv'.
    destruct (IH _ _ ltac:(rewrite Hph'; exact Hph) Hinv') as [Hp Hi].
    split; [rewrite Hp; exact Hph' | exact Hi].
Qed.

(** X28: a run of clicks in a faction phase moves units legally.  Take a
    moment of a faction phase at which no unit is selected and no
    Commander target is remembered, as in the state that [createGameState]
    returns, and let clicks follow with no other input between them.  Then
    the phase stays the same, after every click the selected unit, if any,
    is a living unit of the faction at turn and the offered moves are its
    moves (or, for a Commander that has chosen the unit it orders forward,
    the moves of that unit, a living unit of the same faction), and every
    click either changes no unit and removes no activation mark, or runs
    exactly one [moveUnit]: it moves a living unit of the faction at turn
    to the clicked hex, and that hex is one of the moves [getValidMoves]
    gives this unit on the board before the click.  The unit moved is the
    selected unit, or the unit a selected Commander ordered forward, and
    then the Commander is marked as activated. *)
Theorem handleClick_moves_legally (showUnitPickerModal : UnitPicker) (ui : Selecting)
    (s : State) (before : list Hex) (hex : Hex) :
  phase s = FACTION_1 \/ phase s = FACTION_2 ->
  selectedUnit ui = None ->
  commanderTarget ui = None ->
  let st := clickRun showUnitPickerModal ui s before in
  let r := handleClick showUnitPickerModal None st.1 st.2 hex in
  phase st.2 = phase s /\ selectionInv st.1 st.2 /\
  r.1.1 = None /\ phase r.2 = phase s /\ selectionInv r.1.2 r.2 /\
  ((units r.2 = units st.2 /\ activatedUnits st.2 ⊆ activatedUnits r.2) \/
   exists i u,
     units st.2 !! i = Some u /\ isAlive u = true /\ faction u = currentFaction s /\
     In hex (getValidMoves st.2 u) /\
     units r.2 = units (moveUnit showUnitPickerModal st.2 i (hex_row hex) (hex_col hex)) /\
     (selectedUnit st.1 = Some i \/
      exists c cu, selectedUnit st.1 = Some c /\ commanderTarget st.1 = Some i /\
                   units st.2 !! c = Some cu /\
                   type_id (type cu) = type_id UnitTypes.COMMANDER /\
                   unit_id cu ∈ activatedUnits r.2)).
Proof.
  intros Hph Hsel Hct st r.
  assert (Hinv0 : selectionInv ui s) by (unfold selectionInv; rewrite Hsel; exact Hct).
  destruct (clickRun_selectionInv showUnitPickerModal before ui s Hph Hinv0) as [Hp Hinv].
  fold st in Hp, Hinv.
  assert (Hph' : phase st.2 = FACTION_1 \/ phase st.2 = FACTION_2)
    by (rewrite Hp; exact Hph).
  assert (Hcf : currentFaction st.2 = currentFaction s)
    by (unfold currentFaction; rewrite Hp; reflexivity).
  subst r. rewrite (handleClick_faction showUnitPickerModal st.1 st.2 hex Hph').
  cbn [fst snd].
  destruct (selectOrMove_spec showUnitPickerModal st.1 st.2 hex Hinv)
    as (Hp2 & Hinv2 & Hmove).
  cbv zeta in Hp2, Hinv2, Hmove. rewrite Hcf in Hmove.
  split; [exact Hp |]. split; [exact Hinv |]. split; [reflexivity |].
  split; [rewrite Hp2; exact Hp |]. split; [exact Hinv2 | exact Hmove].
Qed.

Lemma handleClick_moves_legally_witness :
  (clickRun noPick initialSelecting chargeTurn [mkHex 3 0]).1 = riderSelected /\
  List.map (fun u => (row u, col u))
    (units (handleClick noPick None riderSelected chargeTurn (mkHex 3 1)).2) =
  [(3, 1); (2, 0)] /\
  (exists i u,
     units commandBoard !! i = Some u /\ faction u = 1 /\
     In (mkHex 3 3) (getValidMoves commandBoard u) /\
     commanderTarget
       (clickRun noPick initialSelecting commandBoard [mkHex 4 2; mkHex 4 3]).1 = Some i /\
     units (clickRun noPick initialSelecting commandBoard
              [mkHex 4 2; mkHex 4 3; mkHex 3 3]).2 =
     units (moveUnit noPick commandBoard i 3 3)) /\
  List.map (fun u => (row u, col u))
    (units (clickRun noPick initialSelecting commandBoard
              [mkHex 4 2; mkHex 4 3; mkHex 3 3]).2) =
  [(4, 2); (3, 3); (1, 2); (1, 3); (4, 0)].
Proof.
  split; [vm_compute; reflexivity |].
  split; [vm_compute; reflexivity |].
  split; [| vm_compute; reflexivity].
  destruct (handleClick_moves_legally noPick initialSelecting commandBoard
              [mkHex 4 2; mkHex 4 3] (mkHex 3 3) (or_introl eq_refl) eq_refl eq_refl)
    as (_ & _ & _ & _ & _ & [[Hsame _] | (i & u & Hu & _ & Hf & Hin & Hunits & Hwho)]).
  - vm_compute in Hsame. discriminate Hsame.
  - exists i, u.
    assert (Hst : (clickRun noPick initialSelecting commandBoard [mkHex 4 2; mkHex 4 3]).2
                  = commandBoard) by (vm_compute; reflexivity).
    rewrite Hst in Hu, Hin, Hunits.
    split; [exact Hu |]. split; [exact Hf |]. split; [exact Hin |].
    split; [| exact Hunits].
    destruct Hwho as [Hsel | (c & cu & _ & Hct & _)]; [| exact Hct].
    exfalso.
    assert (Hi : i = 0%nat) by (vm_compute in Hsel; congruence).
    subst i. vm_compute in Hunits. discriminate Hunits.
Defined.

(** The run must be of clicks only.  [endPhase] clears the selection at
    the end of faction 1's phase but not the Commander's chosen unit, and
    faction 2's Commander then orders that unit forward: here faction 1's
    Archers go from (4,3) to (1,3) in faction 2's phase. *)
Example stale_commander_target :
  let st1 := clickRun noPick initialSelecting commandBoard [mkHex 4 2; mkHex 4 3] in
  let ui2 := endPhaseSelecting st1.1 st1.2 in
  let s2 := endPhase st1.2 in
  let st3 := clickRun noPick ui2 s2 [mkHex 1 2; mkHex 1 3] in
  phase s2 = FACTION_2 /\
  ui2 = mkSelecting None [] (Some 1%nat) /\
  List.map (fun u => (faction u, row u, col u)) (units st1.2) =
    [(1, 4, 2); (1, 4, 3); (2, 1, 2); (2, 1, 3); (1, 4, 0)] /\
  List.map (fun u => (faction u, row u, col u)) (units st3.2) =
    [(1, 4, 2); (1, 1, 3); (2, 1, 2); (2, 1, 3); (1, 4, 0)].
Proof. vm_compute. repeat split. Qed.

(** The Escape key likewise keeps the Commander's chosen unit.  When the
    Commander is selected again, the hexes offered are the Commander's own,
    and a click on one of them moves the chosen unit there: here the
    Archers go from (4,3) to (4,0), three hexes away and none of their
    moves. *)
Example escape_keeps_commander_target :
  let st1 := clickRun noPick initialSelecting commandBoard [mkHex 4 2; mkHex 4 3] in
  let st2 := escapeKey st1.1 st1.2 in
  let st3 := clickRun noPick st2.1 st2.2 [mkHex 4 2; mkHex 4 0] in
  st2.1 = mkSelecting None [] (Some 1%nat) /\
  isValidMove (mkSelecting None (movesOf st2.2 1) None) (mkHex 4 0) = false /\
  List.map (fun u => (faction u, row u, col u)) (units st3.2) =
    [(1, 4, 2); (1, 4, 0); (2, 1, 2); (2, 1, 3); (1, 4, 0)].
Proof. vm_compute. repeat split. Qed.

(** ** Volley and the remembered target *)

Lemma memoryKept_refl (i : nat) (l : list Unit) : memoryKept i l l.
Proof. intros j _. reflexivity. Qed.

Lemma memoryKept_trans (i : nat) (l1 l2 l3 : list Unit) :
  memoryKept i l1 l2 -> memoryKept i l2 l3 -> memoryKept i l1 l3.
Proof. intros H12 H23 j Hj. rewrite (H23 j Hj). apply H12. exact Hj. Qed.

Lemma memory_alter_addDamage (d : Z) (t j : nat) (l : list Unit) :
  lastTarget <$> (alter (addDamage d) t l !! j) = lastTarget <$> (l !! j).
Proof.
  destruct (decide (t = j)) as [<- | Hne].
  - rewrite list_lookup_alter_eq. destruct (l !! t); reflexivity.
  - rewrite list_lookup_alter_ne by exact Hne. reflexivity.
Qed.

Lemma memory_fold_addDamage (d : Z) (es : list nat) (j : nat) (l : list Unit) :
  lastTarget <$> (fold_left (fun acc e => alter (addDamage d) e acc) es l !! j)
  = lastTarget <$> (l !! j).
Proof.
  revert l. induction es as [| e es IH]; intros l; [reflexivity |].
  cbn [fold_left]. rewrite IH. apply memory_alter_addDamage.
Qed.

Lemma memoryKept_volley (s : State) (i : nat) (u : Unit) :
  memoryKept i (units s) (units (volley s i u)).
Proof.
  unfold volley. cbv zeta.
  match goal with
  | |- context [match ?tgt with Some t => _ | None => s end] => destruct tgt as [t |]
  end; [| apply memoryKept_refl].
  destruct (units s !! t) as [tv |]; [| apply memoryKept_refl].
  destruct (isAlive tv); [| apply memoryKept_refl].
  destruct (0 <? calculateArchersVolleyDamage u tv); [| apply memoryKept_refl].
  intros j Hj. cbn [units set_units]. rewrite units_abilityHit.
  rewrite list_lookup_alter_ne by (intros E; apply Hj; symmetry; exact E).
  apply memory_alter_addDamage.
Qed.

Lemma memoryKept_mortar (s : State) (i : nat) (u : Unit) :
  memoryKept i (units s) (units (mortar s u)).
Proof.
  unfold mortar. cbv zeta.
  match goal with
  | |- context [match ?tgt with Some h => _ | None => s end] => destruct tgt as [h |]
  end; [| apply memoryKept_refl].
  destruct ((0 <? hexDistance (row u) (col u) (hex_row h) (hex_col h)) &&
            (hexDistance (row u) (col u) (hex_row h) (hex_col h) <=? 2));
    [| apply memoryKept_refl].
  intros j _. rewrite (units_hits nameOf). apply memory_fold_addDamage.
Qed.

Lemma memoryKept_fire (s : State) (i : nat) (u : Unit) :
  memoryKept i (units s) (units (fire s u)).
Proof.
  unfold fire. cbv zeta.
  destruct (0 <? Z.of_nat (length (getMusketsFireTargets s u))); [| apply memoryKept_refl].
  destruct (0 <? calculateMusketsFireDamage u); [| apply memoryKept_refl].
  intros j _. rewrite (units_hits nameOf). apply memory_fold_addDamage.
Qed.

Lemma memoryKept_rangedStep (s : State) (i : nat) :
  memoryKept i (units s) (units (rangedStep s i)).
Proof.
  unfold rangedStep. cbv zeta.
  destruct (units s !! i) as [u |]; [| apply memoryKept_refl].
  destruct (sitsOut s u); [apply memoryKept_refl |].
  set (s1 := if type_id (type u) =? type_id UnitTypes.ARCHERS then volley s i u else s).
  assert (H1 : memoryKept i (units s) (units s1)).
  { subst s1. destruct (type_id (type u) =? type_id UnitTypes.ARCHERS);
      [apply memoryKept_volley | apply memoryKept_refl]. }
  set (s2 := if type_id (type u) =? type_id UnitTypes.CANNON then mortar s1 u else s1).
  assert (H2 : memoryKept i (units s) (units s2)).
  { subst s2. destruct (type_id (type u) =? type_id UnitTypes.CANNON); [| exact H1].
    eapply memoryKept_trans; [exact H1 | apply memoryKept_mortar]. }
  destruct (type_id (type u) =? type_id UnitTypes.MUSKETS); [| exact H2].
  eapply memoryKept_trans; [exact H2 | apply memoryKept_fire].
Qed.

Lemma rangedPrefix_S (s : State) (k : nat) :
  rangedPrefix s (S k) = rangedStep (rangedPrefix s k) k.
Proof.
  unfold rangedPrefix. rewrite seq_S, fold_left_app. reflexivity.
Qed.

Lemma rangedPrefix_memory (s : State) (k : nat) :
  (forall u, In u (units s) -> lastTarget u = None) ->
  forall j u, (k <= j)%nat -> units (rangedPrefix s k) !! j = Some u -> lastTarget u = None.
Proof.
  intros Hnone. induction k as [| k IH]; intros j u Hj Hu.
  - apply Hnone. apply list_elem_of_In, list_elem_of_lookup. exists j. exact Hu.
  - rewrite rangedPrefix_S in Hu.
    pose proof (memoryKept_rangedStep (rangedPrefix s k) k j ltac:(lia)) as Hkept.
    rewrite Hu in Hkept. cbn [fmap option_fmap option_map] in Hkept.
    destruct (units (rangedPrefix s k) !! j) as [u0 |] eqn:Hu0; [| discriminate].
    injection Hkept as ->. apply (IH j u0); [lia | exact Hu0].
Qed.

Lemma rangedStep_archers (s : State) (i : nat) (u : Unit) :
  units s !! i = Some u -> type_id (type u) = type_id UnitTypes.ARCHERS ->
  sitsOut s u = false -> rangedStep s i = volley s i u.
Proof. intros Hi Hty Hs. unfold rangedStep. rewrite Hi, Hs, Hty. reflexivity. Qed.

(** The Volley of a unit that remembers no target, by the target the code
    settles on. *)
Lemma volley_fresh (st : State) (k : nat) (u : Unit) :
  lastTarget u = None ->
  let target :=
    match selectionFor st u with
    | Some (SelUnit uid) => findUnit st uid
    | Some (SelHex _) => None
    | None => head (getArchersVolleyTargets st u)
    end in
  match target with
  | Some t =>
    match units st !! t with
    | Some tv =>
      if isAlive tv then
        units (volley st k u) =
        alter (set_lastTarget (Some (unit_id tv))) k
          (alter (addDamage (if movedThisTurn u then 1 else 2)) t (units st))
      else volley st k u = st
    | None => volley st k u = st
    end
  | None => volley st k u = st
  end.
Proof.
  intros Hmem. cbv zeta.
  unfold volley. cbv zeta. rewrite Hmem. cbn [truthyString].
  assert (Hauto : (if 0 <? Z.of_nat (length (getArchersVolleyTargets st u))
                   then head (getArchersVolleyTargets st u) else None)
                  = head (getArchersVolleyTargets st u)).
  { destruct (getArchersVolleyTargets st u); reflexivity. }
  rewrite Hauto.
  match goal with
  | |- match ?c with Some _ => _ | None => _ end => destruct c as [t |]
  end; [| reflexivity].
  destruct (units st !! t) as [tv |]; [| reflexivity].
  destruct (isAlive tv); [| reflexivity].
  assert (Hdmg : calculateArchersVolleyDamage u tv = if movedThisTurn u then 1 else 2).
  { unfold calculateArchersVolleyDamage, isNewTarget. rewrite Hmem. cbn [truthyString andb].
    destruct (movedThisTurn u); reflexivity. }
  rewrite Hdmg.
  assert (Hpos : (0 <? (if movedThisTurn u then 1 else 2)) = true)
    by (destruct (movedThisTurn u); reflexivity).
  rewrite Hpos. cbn [units set_units]. rewrite units_abilityHit. reflexivity.
Qed.

(** X29: the Volley of a ranged phase that starts with no remembered
    targets, as every ranged phase does once [executeResolutionSequence]
    has cleared them at the end of the round before.  When the loop
    reaches a unit, that unit still remembers no target.  So an Archers
    unit that is free to act shoots, without a recorded selection, at the
    first unit of the array that is a living enemy at distance 1 to 2, and
    with a recorded unit id at the first unit of the array with that id,
    if it is alive; it deals 2, or 1 if it has moved this turn: the
    reduction for a new target does not occur.  The unit then remembers
    its target.  With no enemy in range, with a recorded unit that is
    destroyed or gone, or with a recorded hex, the state stays as it
    is. *)
Theorem volley_without_memory (s : State) (k : nat) (u : Unit) :
  (forall v, In v (units s) -> lastTarget v = None) ->
  let st := rangedPrefix s k in
  units st !! k = Some u ->
  type_id (type u) = type_id UnitTypes.ARCHERS ->
  sitsOut st u = false ->
  let shot t tv :=
    units (rangedStep st k) =
    alter (set_lastTarget (Some (unit_id tv))) k
      (alter (addDamage (if movedThisTurn u then 1 else 2)) t (units st)) in
  lastTarget u = None /\
  (selectionFor st u = None ->
   (exists t tv, firstWhere (enemyInRange u) (units st) t /\
                 units st !! t = Some tv /\ shot t tv) \/
   ((forall v, In v (units st) -> enemyInRange u v = false) /\ rangedStep st k = st)) /\
  (forall uid, selectionFor st u = Some (SelUnit uid) ->
   (exists t tv, firstWhere (fun v => String.eqb (unit_id v) uid) (units st) t /\
                 units st !! t = Some tv /\ isAlive tv = true /\ shot t tv) \/
   ((forall t tv, firstWhere (fun v => String.eqb (unit_id v) uid) (units st) t ->
                  units st !! t = Some tv -> isAlive tv = false) /\
    rangedStep st k = st)) /\
  (forall h, selectionFor st u = Some (SelHex h) -> rangedStep st k = st).
Proof.
  intros Hnone st Hu Hty Hfree shot.
  assert (Hmem : lastTarget u = None).
  { apply (rangedPrefix_memory s k Hnone k u (Nat.le_refl k)). exact Hu. }
  split; [exact Hmem |].
  pose proof (rangedStep_archers st k u Hu Hty Hfree) as Hstep.
  pose proof (volley_fresh st k u Hmem) as Hv. cbv zeta in Hv.
  subst shot. cbv beta. rewrite <- Hstep in Hv.
  split; [| split].
  - intros Hsel. rewrite Hsel in Hv.
    unfold getArchersVolleyTargets in Hv. rewrite Hty in Hv.
    change (negb (type_id UnitTypes.ARCHERS =? type_id UnitTypes.ARCHERS)) with false in Hv.
    cbv iota zeta in Hv. rewrite enemyInRange_test in Hv.
    pose proof (head_filterUnits (enemyInRange u) st) as Hhead.
    destruct (head (filterUnits (enemyInRange u) st)) as [t |];
      [| right; split; [exact Hhead | exact Hv]].
    destruct Hhead as [(tv & Htv & Hp) Hmin]. rewrite Htv in Hv.
    assert (Hal : isAlive tv = true).
    { unfold enemyInRange in Hp. destruct (isAlive tv); [reflexivity | discriminate]. }
    rewrite Hal in Hv. left. exists t, tv.
    split; [split; [exists tv; split; assumption | exact Hmin] |].
    split; [exact Htv | exact Hv].
  - intros uid Hsel. rewrite Hsel in Hv.
    pose proof (findUnit_first st uid) as Hfind.
    destruct (findUnit st uid) as [t |].
    + destruct Hfind as [(tv & Htv & Hp) Hmin]. rewrite Htv in Hv.
      destruct (isAlive tv) eqn:Hal.
      * left. exists t, tv.
        split; [split; [exists tv; split; assumption | exact Hmin] |].
        split; [exact Htv |]. split; [exact Hal | exact Hv].
      * right. split; [| exact Hv].
        intros t' tv' Hfirst Htv'.
        assert (E : t = t').
        { eapply firstWhere_unique; [| exact Hfirst].
          split; [exists tv; split; assumption | exact Hmin]. }
        subst t'. rewrite Htv in Htv'. injection Htv' as <-. exact Hal.
    + right. split; [| exact Hv].
      intros t' tv' [(v & Hv' & Hp) _] _.
      assert (Hin : In v (units st)).
      { apply list_elem_of_In, list_elem_of_lookup. exists t'. exact Hv'. }
      rewrite (Hfind v Hin) in Hp. discriminate.
  - intros h Hsel. rewrite Hsel in Hv. exact Hv.
Qed.

Lemma volley_without_memory_witness :
  firstWhere (enemyInRange (mkUnit "a-1" UnitTypes.ARCHERS 1 4 2 0 5 true None 1))
    (units volleyBoard) 1 /\
  units (rangedStep volleyBoard 0%nat) =
  alter (set_lastTarget (Some "c-1")) 0%nat
    (alter (addDamage 1) 1%nat (units volleyBoard)).
Proof.
  assert (Hnone : forall v, In v (units volleyBoard) -> lastTarget v = None).
  { intros v [<- | [<- | [<- | []]]]; reflexivity. }
  assert (Hfirst : firstWhere
                     (enemyInRange (mkUnit "a-1" UnitTypes.ARCHERS 1 4 2 0 5 true None 1))
                     (units volleyBoard) 1).
  { split; [eexists; split; reflexivity |].
    intros j v Hj Hv. destruct j as [| j]; [| lia]. injection Hv as <-. reflexivity. }
  split; [exact Hfirst |].
  destruct (volley_without_memory volleyBoard 0 _ Hnone eq_refl eq_refl eq_refl)
    as (_ & Hauto & _).
  destruct (Hauto eq_refl) as [(t & tv & Ht & Htv & Hshot) | [Hno _]].
  - rewrite (firstWhere_unique _ _ _ _ Ht Hfirst) in Htv, Hshot. injection Htv as <-.
    exact Hshot.
  - exfalso.
    specialize (Hno (mkUnit "c-1" UnitTypes.CANNON 2 2 2 0 5 false None 1)
                  (or_intror (or_introl eq_refl))).
    discriminate Hno.
Defined.

(** ** Pierce and Taunt in the melee loop *)

Lemma adjacentEnemy_test (u : Unit) (s : State) :
  filterUnits (fun enemy =>
                 if negb (isAlive enemy) || (faction enemy =? faction u) then false
                 else hexDistance (row u) (col u) (row enemy) (col enemy) =? 1) s
  = filterUnits (adjacentEnemy u) s.
Proof.
  unfold filterUnits. generalize 0%nat. induction (units s) as [| v l IH]; intros k;
    [reflexivity |].
  cbn [indicesFrom]. rewrite !IH.
  assert (E : (if negb (isAlive v) || (faction v =? faction u) then false
               else hexDistance (row u) (col u) (row v) (col v) =? 1) = adjacentEnemy u v).
  { unfold adjacentEnemy. destruct (isAlive v); destruct (faction v =? faction u);
      reflexivity. }
  rewrite E. reflexivity.
Qed.

(** X30: the melee abilities of a unit that is free to act.  Without a
    recorded selection, a Spears unit deals exactly 1 to the first living
    enemy on an adjacent hex in array order, and a Jesters unit moves this
    enemy onto its own hex; with no such enemy the state stays as it is.
    With a recorded selection that names a unit, the target of a Spears
    unit is the first unit of the array with the recorded id: alive, it
    takes exactly 1, wherever it stands at that moment, and otherwise
    nothing happens and no other target is looked for.  No other unit
    changes. *)
Theorem meleeStep_target (s : State) (i : nat) (u : Unit) :
  units s !! i = Some u -> sitsOut s u = false ->
  (selectionFor s u = None ->
   (type_id (type u) = type_id UnitTypes.SPEARS ->
    (exists t, firstWhere (adjacentEnemy u) (units s) t /\
               units (meleeStep s i) = alter (addDamage 1) t (units s)) \/
    ((forall v, In v (units s) -> adjacentEnemy u v = false) /\ meleeStep s i = s)) /\
   (type_id (type u) = type_id UnitTypes.JESTERS ->
    (exists t tv, firstWhere (adjacentEnemy u) (units s) t /\ units s !! t = Some tv /\
                  units (meleeStep s i) = <[t := set_pos (row u) (col u) tv]> (units s)) \/
    ((forall v, In v (units s) -> adjacentEnemy u v = false) /\ meleeStep s i = s))) /\
  (forall uid, selectionFor s u = Some (SelUnit uid) ->
   type_id (type u) = type_id UnitTypes.SPEARS ->
   (exists t tv, firstWhere (fun v => String.eqb (unit_id v) uid) (units s) t /\
                 units s !! t = Some tv /\ isAlive tv = true /\
                 units (meleeStep s i) = alter (addDamage 1) t (units s)) \/
   ((forall t tv, firstWhere (fun v => String.eqb (unit_id v) uid) (units s) t ->
                  units s !! t = Some tv -> isAlive tv = false) /\
    meleeStep s i = s)).
Proof.
  intros Hi Hfree. split.
  - intros Hsel. split.
    + intros Hty. unfold meleeStep. rewrite Hi, Hfree, Hty.
      change (type_id UnitTypes.SPEARS =? type_id UnitTypes.SPEARS) with true.
      change (type_id UnitTypes.SPEARS =? type_id UnitTypes.JESTERS) with false.
      cbv iota zeta. unfold pierce, chosenUnit. rewrite Hsel.
      unfold getSpearsPierceTargets. rewrite Hty.
      change (negb (type_id UnitTypes.SPEARS =? type_id UnitTypes.SPEARS)) with false.
      cbv iota. rewrite adjacentEnemy_test.
      pose proof (head_filterUnits (adjacentEnemy u) s) as Hhead.
      destruct (head (filterUnits (adjacentEnemy u) s)) as [t |];
        [| right; split; [exact Hhead | reflexivity]].
      destruct Hhead as [(tv & Htv & Hp) Hmin]. rewrite Htv.
      assert (Hal : isAlive tv = true).
      { unfold adjacentEnemy in Hp. destruct (isAlive tv); [reflexivity | discriminate]. }
      rewrite Hal. left. exists t.
      split; [split; [exists tv; split; assumption | exact Hmin] |].
      apply units_abilityHit.
    + intros Hty. unfold meleeStep. rewrite Hi, Hfree, Hty.
      change (type_id UnitTypes.JESTERS =? type_id UnitTypes.SPEARS) with false.
      change (type_id UnitTypes.JESTERS =? type_id UnitTypes.JESTERS) with true.
      cbv iota zeta. unfold taunt, chosenUnit. rewrite Hsel.
      unfold getJestersTauntTargets. rewrite Hty.
      change (negb (type_id UnitTypes.JESTERS =? type_id UnitTypes.JESTERS)) with false.
      cbv iota. rewrite adjacentEnemy_test.
      pose proof (head_filterUnits (adjacentEnemy u) s) as Hhead.
      destruct (head (filterUnits (adjacentEnemy u) s)) as [t |];
        [| right; split; [exact Hhead | reflexivity]].
      destruct Hhead as [(tv & Htv & Hp) Hmin]. rewrite Htv.
      assert (Hal : isAlive tv = true).
      { unfold adjacentEnemy in Hp. destruct (isAlive tv); [reflexivity | discriminate]. }
      rewrite Hal. left. exists t, tv.
      split; [split; [exists tv; split; assumption | exact Hmin] |].
      split; [exact Htv |].
      unfold applyJestersTaunt. rewrite Hi, Htv, Hty. reflexivity.
  - intros uid Hsel Hty. unfold meleeStep. rewrite Hi, Hfree, Hty.
    change (type_id UnitTypes.SPEARS =? type_id UnitTypes.SPEARS) with true.
    change (type_id UnitTypes.SPEARS =? type_id UnitTypes.JESTERS) with false.
    cbv iota zeta. unfold pierce, chosenUnit. rewrite Hsel.
    pose proof (findUnit_first s uid) as Hfind.
    destruct (findUnit s uid) as [t |].
    + destruct Hfind as [(tv & Htv & Hp) Hmin]. rewrite Htv.
      destruct (isAlive tv) eqn:Hal.
      * left. exists t, tv.
        split; [split; [exists tv; split; assumption | exact Hmin] |].
        split; [exact Htv |]. split; [exact Hal | apply units_abilityHit].
      * right. split; [| reflexivity].
        intros t' tv' Hfirst Htv'.
        assert (E : t = t').
        { eapply firstWhere_unique; [| exact Hfirst].
          split; [exists tv; split; assumption | exact Hmin]. }
        subst t'. rewrite Htv in Htv'. injection Htv' as <-. exact Hal.
    + right. split; [| reflexivity].
      intros t' tv' [(v & Hv & Hp) _] _.
      assert (Hin : In v (units s)).
      { apply list_elem_of_In, list_elem_of_lookup. exists t'. exact Hv. }
      rewrite (Hfind v Hin) in Hp. discriminate.
Qed.

Lemma meleeStep_target_witness :
  (exists t tv, firstWhere (adjacentEnemy (mkUnit "j-1" UnitTypes.JESTERS 1 3 2 0 5 false None 1))
                  (units jesterBoard) t /\
                units jesterBoard !! t = Some tv /\
                units (meleeStep jesterBoard 0) =
                <[t := set_pos 3 2 tv]> (units jesterBoard)) /\
  List.map (fun v => (row v, col v)) (units (meleeStep jesterBoard 0)) =
  [(3, 2); (1, 2); (3, 2); (3, 3)].
Proof.
  split; [| reflexivity].
  destruct (proj2 (proj1 (meleeStep_target jesterBoard 0 _ eq_refl eq_refl) eq_refl) eq_refl)
    as [H | [Hnone _]].
  - exact H.
  - exfalso.
    specialize (Hnone (mkUnit "c-1" UnitTypes.CANNON 2 2 2 0 5 false None 1)).
    assert (Hin : In (mkUnit "c-1" UnitTypes.CANNON 2 2 2 0 5 false None 1)
                     (units jesterBoard)) by (right; right; left; reflexivity).
    specialize (Hnone Hin). vm_compute in Hnone. discriminate.
Defined.
